(** * NRBF codec (nrbf-cli.ts): a shallow embedding and its properties

    The development follows the layout of [src/nrbf-cli.ts]: the record
    model, [BinaryReader], [BinaryWriter], [NrbfDecoder], [NrbfEncoder]
    and [NrbfUtils].

    Conventions.
    - A JavaScript number that holds an integer is a [Z]; the 32-bit
      operators ([&], [|], [<<], [>>]) first wrap their operands with
      [toInt32], as ECMAScript prescribes.
    - A byte buffer ([ArrayBuffer], [Uint8Array], [DataView]) is a
      [list Z] of values in [0, 255].
    - A JavaScript string is the Rocq [string] of its UTF-8 bytes.
    - Code that throws returns [Err]; code that reads or mutates [this]
      passes the state explicitly. *)

From Stdlib Require Import ZArith Lia Ascii String Sorted.
From stdpp Require Import gmap strings list.

Local Open Scope Z_scope.

(** ** Errors thrown by the source, one constructor per [throw] site
    (or platform exception) *)

Inductive Error :=
  | RangeError                                   (* DataView / typed-array access outside the buffer *)
  | TypeError                                    (* property access on undefined *)
  | VariableLengthIntTooLong                     (* 'Variable length int too long' *)
  | InvalidStringLength                          (* 'Invalid string length' *)
  | InvalidHeader (headerByte : Z)               (* 'Invalid header: expected 0x00, got ...' *)
  | TooManyRecords                               (* 'Too many records - possible infinite loop' *)
  | RootNotFound (rootId : Z)                    (* 'Root object with ID ... not found' *)
  | UnsupportedRecordType (recordTypeByte : Z) (pos : nat)
                                                 (* 'Unsupported record type: ... at offset ...' *)
  | UnhandledRecordType (recordTypeByte : Z)     (* 'Unhandled record type: ...' *)
  | MetadataNotFound (metadataId : Z)            (* 'Metadata not found for ID ...' *)
  | UnsupportedPrimitiveType (primitiveType : Z) (* 'Unsupported primitive type: ...' *)
  | UnknownMember (memberName className : string)(* 'Member ... does not exist in class ...' *)
  | CannotResolveReference (idRef : Z)           (* 'Cannot resolve reference to ID ...' *)
  | BareNumber                                   (* 'Cannot encode bare number - use typed array records' *)
  | BareString                                   (* 'Cannot encode bare string - wrap in BinaryObjectStringRecord' *)
  | OutOfFuel.                                   (* the model's recursion bound was reached *)

Inductive result (A : Type) :=
  | Ok (a : A)
  | Err (e : Error).
Arguments Ok {A} a.
Arguments Err {A} e.

(** A computation over a state [S] that may throw. *)
Definition M (S A : Type) : Type := S -> result (A * S).

Definition ret {S A} (a : A) : M S A := fun s => Ok (a, s).
Definition throw {S A} (e : Error) : M S A := fun _ => Err e.
Definition bind {S A B} (m : M S A) (f : A -> M S B) : M S B :=
  fun s => match m s with
           | Ok (a, s') => f a s'
           | Err e => Err e
           end.
Definition gets {S A} (f : S -> A) : M S A := fun s => Ok (f s, s).
Definition modify {S} (f : S -> S) : M S unit := fun s => Ok (tt, f s).

Notation "x <- m ;; k" := (bind m (fun x => k))
  (at level 100, m at next level, right associativity, only parsing).
Notation "m ;;; k" := (bind m (fun _ => k))
  (at level 100, right associativity, only parsing).

(** [for (const x of l) body(x)] *)
Definition forEach {S A} (body : A -> M S unit) : list A -> M S unit :=
  fix go l :=
    match l with
    | [] => ret tt
    | x :: l' => body x ;;; go l'
    end.

(** [for (let i = 0; i < n; i++) out.push(body())] *)
Fixpoint times {S A} (n : nat) (body : M S A) : M S (list A) :=
  match n with
  | O => ret []
  | S n' => x <- body ;; xs <- times n' body ;; ret (x :: xs)
  end.

(** [for (const x of l) out.push(body(x))] *)
Definition mapM {S A B} (body : A -> M S B) : list A -> M S (list B) :=
  fix go l :=
    match l with
    | [] => ret []
    | x :: l' => y <- body x ;; ys <- go l' ;; ret (y :: ys)
    end.

(** ** JavaScript integer operators *)

Definition toInt32 (z : Z) : Z := (z + 2 ^ 31) mod 2 ^ 32 - 2 ^ 31.
Definition toUint32 (z : Z) : Z := z mod 2 ^ 32.
Definition toInt16 (z : Z) : Z := (z + 2 ^ 15) mod 2 ^ 16 - 2 ^ 15.
Definition toInt8 (z : Z) : Z := (z + 2 ^ 7) mod 2 ^ 8 - 2 ^ 7.
Definition toUint8 (z : Z) : Z := z mod 2 ^ 8.

Definition js_and (a b : Z) : Z := toInt32 (Z.land (toInt32 a) (toInt32 b)).
Definition js_or (a b : Z) : Z := toInt32 (Z.lor (toInt32 a) (toInt32 b)).
Definition js_shl (a s : Z) : Z := toInt32 (Z.shiftl (toInt32 a) (toUint32 s mod 32)).
Definition js_sar (a s : Z) : Z := Z.shiftr (toInt32 a) (toUint32 s mod 32).

(** Little-endian bytes of the low [n] bytes of [z], as [DataView.setIntN]
    / [setUintN] / [setBigIntN] store them. *)
Fixpoint leBytes (n : nat) (z : Z) : list Z :=
  match n with
  | O => []
  | S n' => z mod 256 :: leBytes n' (z / 256)
  end.

(** The unsigned value of little-endian bytes. *)
Fixpoint leValue (bs : list Z) : Z :=
  match bs with
  | [] => 0
  | b :: bs' => b + 256 * leValue bs'
  end.

(** ** BinaryReader *)

Record BinaryReader := mkReader { view : list Z; offset : nat }.

Definition Rd := M BinaryReader.

(** [view.getXxx(offset, true)] over [n] bytes, then [offset += n]. *)
Definition readBytes (n : nat) : Rd (list Z) :=
  fun r =>
    let bs := take n (drop (offset r) (view r)) in
    if (length bs =? n)%nat
    then Ok (bs, mkReader (view r) (offset r + n))
    else Err RangeError.

Definition readByte : Rd Z :=
  fun r =>
    match view r !! offset r with
    | Some b => Ok (b, mkReader (view r) (offset r + 1))
    | None => Err RangeError
    end.

Definition readSByte : Rd Z := b <- readByte ;; ret (toInt8 b).
Definition readInt16 : Rd Z := bs <- readBytes 2 ;; ret (toInt16 (leValue bs)).
Definition readUInt16 : Rd Z := bs <- readBytes 2 ;; ret (leValue bs).
Definition readInt32 : Rd Z := bs <- readBytes 4 ;; ret (toInt32 (leValue bs)).
Definition readUInt32 : Rd Z := bs <- readBytes 4 ;; ret (leValue bs).
Definition readInt64 : Rd Z :=
  bs <- readBytes 8 ;; ret ((leValue bs + 2 ^ 63) mod 2 ^ 64 - 2 ^ 63).
Definition readUInt64 : Rd Z := bs <- readBytes 8 ;; ret (leValue bs).
Definition readBoolean : Rd bool := b <- readByte ;; ret (negb (b =? 0)).
Definition readDateTime : Rd Z := readUInt64.
Definition readTimeSpan : Rd Z := readInt64.

(** [readVariableLengthInt]: [shift] runs over 0, 7, 14, 21, 28, so the
    [while (shift < 35)] loop has at most five rounds; [rounds] counts the
    ones left. *)
Fixpoint readVariableLengthInt_loop (rounds : nat) (value shift : Z) : Rd Z :=
  match rounds with
  | O => throw VariableLengthIntTooLong
  | S rounds' =>
      b <- readByte ;;
      let value := js_or value (js_shl (js_and b 127) shift) in
      if js_and b 128 =? 0
      then ret value
      else readVariableLengthInt_loop rounds' value (shift + 7)
  end.

Definition readVariableLengthInt : Rd Z := readVariableLengthInt_loop 5 0 0.

(** ** BinaryWriter *)

Record BinaryWriter := mkWriter { chunks : list (list Z) }.

Definition push (chunk : list Z) (w : BinaryWriter) : BinaryWriter :=
  mkWriter (chunks w ++ [chunk]).

Definition writeByte (value : Z) : BinaryWriter -> BinaryWriter := push [toUint8 value].
Definition writeSByte (value : Z) : BinaryWriter -> BinaryWriter := push [toUint8 value].
Definition writeInt16 (value : Z) : BinaryWriter -> BinaryWriter := push (leBytes 2 value).
Definition writeUInt16 (value : Z) : BinaryWriter -> BinaryWriter := push (leBytes 2 value).
Definition writeInt32 (value : Z) : BinaryWriter -> BinaryWriter := push (leBytes 4 value).
Definition writeUInt32 (value : Z) : BinaryWriter -> BinaryWriter := push (leBytes 4 value).
Definition writeInt64 (value : Z) : BinaryWriter -> BinaryWriter := push (leBytes 8 value).
Definition writeUInt64 (value : Z) : BinaryWriter -> BinaryWriter := push (leBytes 8 value).
Definition writeBoolean (value : bool) : BinaryWriter -> BinaryWriter :=
  writeByte (if value then 1 else 0).
Definition writeDateTime := writeUInt64.
Definition writeTimeSpan := writeInt64.

(** [writeVariableLengthInt]: [value >>= 7] leaves an Int32, and an Int32
    shifted right five times by 7 is 0 or negative, so the [while (true)]
    loop breaks within five rounds ([writeVariableLengthInt_rounds] below);
    [rounds] counts the ones left. *)
Fixpoint writeVariableLengthInt_loop (rounds : nat) (value : Z) (w : BinaryWriter)
  : BinaryWriter :=
  match rounds with
  | O => w
  | S rounds' =>
      let b := js_and value 127 in
      let value := js_sar value 7 in
      if 0 <? value
      then writeVariableLengthInt_loop rounds' value (writeByte (js_or b 128) w)
      else writeByte b w
  end.

Definition writeVariableLengthInt (value : Z) : BinaryWriter -> BinaryWriter :=
  writeVariableLengthInt_loop 5 value.

Definition toBuffer (w : BinaryWriter) : list Z := concat (chunks w).

(** ** Strings

    [TextEncoder.encode] and [TextDecoder.decode] are the platform's UTF-8
    codec.  With a string held as its UTF-8 bytes, encoding is the
    identity; decoding follows the WHATWG UTF-8 decoder: a well-formed
    sequence is kept, an ill-formed one becomes U+FFFD, and a leading
    byte-order mark is dropped. *)

Definition byteOfAscii (c : ascii) : Z := Z.of_N (N_of_ascii c).
Definition asciiOfByte (b : Z) : ascii := ascii_of_N (Z.to_N b).

Fixpoint bytesOfString (s : string) : list Z :=
  match s with
  | EmptyString => []
  | String c s' => byteOfAscii c :: bytesOfString s'
  end.

Fixpoint stringOfBytes (bs : list Z) : string :=
  match bs with
  | [] => EmptyString
  | b :: bs' => String (asciiOfByte b) (stringOfBytes bs')
  end.

Definition replacementCharacter : list Z := [239; 191; 189].

Record Utf8State := mkUtf8
  { bytesNeeded : nat; bytesSeen : list Z; lowerBoundary : Z; upperBoundary : Z }.

Definition utf8Initial : Utf8State := mkUtf8 0 [] 128 191.

(** A byte met while no sequence is open. *)
Definition utf8Lead (b : Z) : list Z * Utf8State :=
  if b <=? 127 then ([b], utf8Initial)
  else if (194 <=? b) && (b <=? 223) then ([], mkUtf8 1 [b] 128 191)
  else if (224 <=? b) && (b <=? 239)
       then ([], mkUtf8 2 [b] (if b =? 224 then 160 else 128) (if b =? 237 then 159 else 191))
  else if (240 <=? b) && (b <=? 244)
       then ([], mkUtf8 3 [b] (if b =? 240 then 144 else 128) (if b =? 244 then 143 else 191))
  else (replacementCharacter, utf8Initial).

Definition utf8Handle (st : Utf8State) (b : Z) : list Z * Utf8State :=
  match bytesNeeded st with
  | O => utf8Lead b
  | S n =>
      if (lowerBoundary st <=? b) && (b <=? upperBoundary st)
      then match n with
           | O => (bytesSeen st ++ [b], utf8Initial)
           | S _ => ([], mkUtf8 n (bytesSeen st ++ [b]) 128 191)
           end
      else let '(out, st') := utf8Lead b in (replacementCharacter ++ out, st')
  end.

Fixpoint utf8Run (st : Utf8State) (input : list Z) : list Z :=
  match input with
  | [] => match bytesNeeded st with O => [] | S _ => replacementCharacter end
  | b :: rest => let '(out, st') := utf8Handle st b in out ++ utf8Run st' rest
  end.

Definition stripBOM (bs : list Z) : list Z :=
  match bs with
  | 239 :: 187 :: 191 :: rest => rest
  | _ => bs
  end.

Definition TextDecoder_decode (bytes : list Z) : string :=
  stringOfBytes (stripBOM (utf8Run utf8Initial bytes)).

Definition TextEncoder_encode (str : string) : list Z := bytesOfString str.

(** [String.fromCharCode(b)] for a byte [b]. *)
Definition fromCharCode (b : Z) : string :=
  stringOfBytes (if b <? 128 then [b] else [192 + b / 64; 128 + b mod 64]).

(** [str.charCodeAt(0)]: the first UTF-16 code unit, [None] for NaN. *)
Definition charCodeAt0 (str : string) : option Z :=
  match bytesOfString str with
  | [] => None
  | b0 :: rest =>
      if b0 <? 128 then Some b0
      else if b0 <? 224 then Some (b0 mod 32 * 64 + nth 0 rest 0 mod 64)
      else if b0 <? 240
           then Some (b0 mod 16 * 4096 + nth 0 rest 0 mod 64 * 64 + nth 1 rest 0 mod 64)
      else let cp := b0 mod 8 * 262144 + nth 0 rest 0 mod 64 * 4096
                     + nth 1 rest 0 mod 64 * 64 + nth 2 rest 0 mod 64 in
           Some (55296 + (cp - 65536) / 1024)
  end.

(** [str.slice(from, to)] and [str.slice(from)].  Positions count the
    bytes of the string's UTF-8 form; for a string of ASCII characters
    (the hexadecimal and GUID strings that the callers are meant to
    pass) these are the UTF-16 code units that JavaScript counts.  After
    a character outside ASCII the cut falls elsewhere than in
    JavaScript. *)
Definition slice (str : string) (from to : nat) : string :=
  substring from (to - from) str.
Definition sliceFrom (str : string) (from : nat) : string :=
  substring from (String.length str - from) str.

(** [str.replace(/-/g, '')] *)
Fixpoint removeDashes (str : string) : string :=
  match str with
  | EmptyString => EmptyString
  | String c s' => if Ascii.eqb c "-" then removeDashes s' else String c (removeDashes s')
  end.

(** [str.toLowerCase()] on the ASCII letters. *)
Definition lowerAscii (c : ascii) : ascii :=
  let b := byteOfAscii c in
  if (65 <=? b) && (b <=? 90) then asciiOfByte (b + 32) else c.

Fixpoint toLowerCase (str : string) : string :=
  match str with
  | EmptyString => EmptyString
  | String c s' => String (lowerAscii c) (toLowerCase s')
  end.

(** Hexadecimal digits.  [hexValue] is the digit value [parseInt] uses. *)
Definition hexValue (c : ascii) : option Z :=
  let b := byteOfAscii c in
  if (48 <=? b) && (b <=? 57) then Some (b - 48)
  else if (97 <=? b) && (b <=? 102) then Some (b - 87)
  else if (65 <=? b) && (b <=? 70) then Some (b - 55)
  else None.

Definition hexDigit (d : Z) : ascii :=
  asciiOfByte (if d <? 10 then 48 + d else 87 + d).

(** [b.toString(16)] for an element [b] of a [Uint8Array]. *)
Definition toString16 (b : Z) : string :=
  if b <? 16 then String (hexDigit b) EmptyString
  else String (hexDigit (b / 16)) (String (hexDigit (b mod 16)) EmptyString).

(** [s.padStart(2, '0')] *)
Definition padStart2 (s : string) : string :=
  match s with
  | EmptyString => "00"
  | String c EmptyString => String "0" s
  | _ => s
  end.

(** [Array.from(bytes).map(b => b.toString(16).padStart(2, '0')).join('')] *)
Fixpoint hexOfBytes (bytes : list Z) : string :=
  match bytes with
  | [] => EmptyString
  | b :: bs => padStart2 (toString16 b) +:+ hexOfBytes bs
  end.

(** [parseInt(str, 16)], [None] for NaN: white space, a sign and a [0x]
    prefix are skipped, then the longest run of hexadecimal digits is read.
    Of the white space characters the ASCII ones are recognised. *)
Definition isWhiteSpace (c : ascii) : bool :=
  let b := byteOfAscii c in ((9 <=? b) && (b <=? 13)) || (b =? 32).

Fixpoint trimStart (str : string) : string :=
  match str with
  | String c s' => if isWhiteSpace c then trimStart s' else str
  | EmptyString => str
  end.

Fixpoint hexDigits (str : string) (acc : option Z) : option Z :=
  match str with
  | EmptyString => acc
  | String c s' =>
      match hexValue c with
      | Some d => hexDigits s' (Some (16 * default 0 acc + d))
      | None => acc
      end
  end.

Definition parseInt16 (str : string) : option Z :=
  let s := trimStart str in
  let '(sign, s) :=
    match s with
    | String "-" s' => (-1, s')
    | String "+" s' => (1, s')
    | _ => (1, s)
    end in
  let s :=
    match s with
    | String "0" (String "x" s') => s'
    | String "0" (String "X" s') => s'
    | _ => s
    end in
  (fun v => sign * v) <$> hexDigits s None.

(** Storing a number that may be NaN into a [Uint8Array]. *)
Definition toUint8OrNaN (n : option Z) : Z :=
  match n with
  | Some z => toUint8 z
  | None => 0
  end.

(** [Number(bigint)]: the nearest double, ties to even. *)
Definition roundToDouble (z : Z) : Z :=
  let a := Z.abs z in
  if a <? 2 ^ 53 then z
  else
    let e := Z.log2 a - 52 in
    let q := a / 2 ^ e in
    let r := a mod 2 ^ e in
    let half := 2 ^ (e - 1) in
    let q' := if r <? half then q
              else if half <? r then q + 1
              else if Z.even q then q else q + 1 in
    Z.sgn z * (q' * 2 ^ e).

(** ** Record model *)

Module RecordType.
Definition SerializedStreamHeader : Z := 0.
Definition ClassWithId : Z := 1.
Definition SystemClassWithMembers : Z := 2.
Definition ClassWithMembers : Z := 3.
Definition SystemClassWithMembersAndTypes : Z := 4.
Definition ClassWithMembersAndTypes : Z := 5.
Definition BinaryObjectString : Z := 6.
Definition BinaryArray : Z := 7.
Definition MemberPrimitiveTyped : Z := 8.
Definition MemberReference : Z := 9.
Definition ObjectNull : Z := 10.
Definition MessageEnd : Z := 11.
Definition BinaryLibrary : Z := 12.
Definition ObjectNullMultiple256 : Z := 13.
Definition ObjectNullMultiple : Z := 14.
Definition ArraySinglePrimitive : Z := 15.
Definition ArraySingleObject : Z := 16.
Definition ArraySingleString : Z := 17.
End RecordType.

Module BinaryType.
Definition Primitive : Z := 0.
Definition String : Z := 1.
Definition Object : Z := 2.
Definition SystemClass : Z := 3.
Definition Class : Z := 4.
Definition ObjectArray : Z := 5.
Definition StringArray : Z := 6.
Definition PrimitiveArray : Z := 7.
End BinaryType.

Module PrimitiveType.
Definition Boolean : Z := 1.
Definition Byte : Z := 2.
Definition Char : Z := 3.
Definition Decimal : Z := 5.
Definition Double : Z := 6.
Definition Int16 : Z := 7.
Definition Int32 : Z := 8.
Definition Int64 : Z := 9.
Definition SByte : Z := 10.
Definition Single : Z := 11.
Definition TimeSpan : Z := 12.
Definition DateTime : Z := 13.
Definition UInt16 : Z := 14.
Definition UInt32 : Z := 15.
Definition UInt64 : Z := 16.
Definition Null : Z := 17.
Definition String : Z := 18.
End PrimitiveType.

Module BinaryArrayType.
Definition Single : Z := 0.
Definition Jagged : Z := 1.
Definition Rectangular : Z := 2.
Definition SingleOffset : Z := 3.
Definition JaggedOffset : Z := 4.
Definition RectangularOffset : Z := 5.
End BinaryArrayType.

Record ClassInfo := mkClassInfo
  { ci_objectId : Z; ci_name : string; memberCount : Z; memberNames : list string }.

Inductive AdditionalTypeInfo :=
  | AtiPrimitive (primitiveType : Z)
  | AtiSystemClass (className : string)
  | AtiClass (className : string) (libraryId : Z)
  | AtiNone.

Record MemberTypeInfo := mkMemberTypeInfo
  { binaryTypeEnums : list Z; additionalInfos : list AdditionalTypeInfo }.

(** A [Map<string, V>]: entries in insertion order, one per key. *)
Definition Map_get {V} (key : string) : list (string * V) -> option V :=
  fix get m :=
    match m with
    | [] => None
    | (k, v) :: m' => if String.eqb k key then Some v else get m'
    end.

Definition Map_set {V} (key : string) (value : V) : list (string * V) -> list (string * V) :=
  fix set m :=
    match m with
    | [] => [(key, value)]
    | (k, v) :: m' => if String.eqb k key then (k, value) :: m' else (k, v) :: set m'
    end.

(** [Map_get] with the two outcomes passed as continuations. *)
Definition Map_getWith {V B} (key : string) (found : V -> B) (missing : B)
  : list (string * V) -> B :=
  fix get m :=
    match m with
    | [] => missing
    | (k, v) :: m' => if String.eqb k key then found v else get m'
    end.

(** The fields of a [ClassRecord], over the type of member values. *)
Record ClassRecordOf (V : Type) := mkClassRecord
  { classInfo : ClassInfo;
    memberTypeInfo : option MemberTypeInfo;
    libraryId : option Z;
    recordTypeValue : Z;
    memberValues : list (string * V) }.
Arguments mkClassRecord {V}.
Arguments classInfo {V}.
Arguments memberTypeInfo {V}.
Arguments libraryId {V}.
Arguments recordTypeValue {V}.
Arguments memberValues {V}.

(** [ObjectValue = PrimitiveValue | NrbfRecord].  A number read by
    [getFloat32] / [getFloat64] is carried as its IEEE bytes ([VFloat]);
    every other number is an integer ([VNumber]).  [undefined] is the
    [None] of an [option ObjectValue]. *)
Inductive ObjectValue :=
  | VNull
  | VBoolean (b : bool)
  | VNumber (n : Z)
  | VFloat (ieee : list Z)
  | VString (s : string)
  | VRecord (record : NrbfRecord)
with NrbfRecord :=
  | SerializationHeader (rootId headerId majorVersion minorVersion : Z)
  | BinaryLibrary (libraryId : Z) (libraryName : string)
  | OfClassRecord (c : ClassRecordOf ObjectValue)
  | BinaryArrayRecord (arrayObjectId binaryArrayTypeEnum rank : Z) (lengths : list Z)
      (lowerBounds : option (list Z)) (typeEnum : Z)
      (additionalTypeInfo : AdditionalTypeInfo) (elementValues : list ObjectValue)
  | ArraySinglePrimitiveRecord (arrayObjectId length primitiveTypeEnum : Z)
      (elementValues : list ObjectValue)
  | ArraySingleObjectRecord (arrayObjectId length : Z) (elementValues : list ObjectValue)
  | ArraySingleStringRecord (arrayObjectId length : Z) (elementValues : list ObjectValue)
  | BinaryObjectStringRecord (stringObjectId : Z) (value : string)
  | MemberPrimitiveTypedRecord (primitiveTypeEnum : Z) (value : ObjectValue)
  | MemberReferenceRecord (idRef : Z)
  | ObjectNullRecord
  | ObjectNullMultipleRecord (nullCount : Z)
  | ObjectNullMultiple256Record (nullCount : Z)
  | MessageEndRecord.

Abbreviation ClassRecord := (ClassRecordOf ObjectValue).


Definition objectId (r : NrbfRecord) : option Z :=
  match r with
  | BinaryLibrary libraryId _ => Some libraryId
  | OfClassRecord c => Some (ci_objectId (classInfo c))
  | BinaryArrayRecord arrayObjectId _ _ _ _ _ _ _ => Some arrayObjectId
  | ArraySinglePrimitiveRecord arrayObjectId _ _ _ => Some arrayObjectId
  | ArraySingleObjectRecord arrayObjectId _ _ => Some arrayObjectId
  | ArraySingleStringRecord arrayObjectId _ _ => Some arrayObjectId
  | BinaryObjectStringRecord stringObjectId _ => Some stringObjectId
  | _ => None
  end.

(** [getArray()] of the four array classes. *)
Definition getArray (r : NrbfRecord) : option (list ObjectValue) :=
  match r with
  | BinaryArrayRecord _ _ _ _ _ _ _ elementValues
  | ArraySinglePrimitiveRecord _ _ _ elementValues
  | ArraySingleObjectRecord _ _ elementValues
  | ArraySingleStringRecord _ _ elementValues => Some elementValues
  | _ => None
  end.

(** [BinaryArrayRecord.getTotalLength]: [lengths.reduce((a, b) => a * b, 1)] *)
Definition getTotalLength (lengths : list Z) : Z := foldl Z.mul 1 lengths.

(** *** ClassRecord methods *)

(** [names.includes(name)] *)
Fixpoint includes (name : string) (names : list string) : bool :=
  match names with
  | [] => false
  | n :: names' => String.eqb n name || includes name names'
  end.

Definition getValue (memberName : string) (this : ClassRecord) : option ObjectValue :=
  Map_get memberName (memberValues this).

(** [setValue] returns its outcome together with the record as the call
    leaves it. *)
Definition setValue (memberName : string) (value : ObjectValue) (this : ClassRecord)
  : result unit * ClassRecord :=
  if negb (includes memberName (memberNames (classInfo this)))
  then (Err (UnknownMember memberName (ci_name (classInfo this))), this)
  else (Ok tt,
        mkClassRecord (classInfo this) (memberTypeInfo this) (libraryId this)
          (recordTypeValue this) (Map_set memberName value (memberValues this))).

(** A method call inside a computation on the record. *)
Definition call {S A} (method : S -> result A * S) : M S A :=
  fun s => match method s with
           | (Ok a, s') => Ok (a, s')
           | (Err e, _) => Err e
           end.

(** [guidRecord.getValue(name) as number]: the cast names the type the
    caller must supply; any other value is outside the function's domain
    ([None]). *)
Definition getNumber (memberName : string) (guidRecord : ClassRecord) : option Z :=
  match getValue memberName guidRecord with
  | Some (VNumber n) => Some n
  | _ => None
  end.

Definition reconstructGuid (guidRecord : ClassRecord) : option string :=
  a ← getNumber "_a" guidRecord;
  b ← getNumber "_b" guidRecord;
  c ← getNumber "_c" guidRecord;
  d ← getNumber "_d" guidRecord;
  e ← getNumber "_e" guidRecord;
  f ← getNumber "_f" guidRecord;
  g ← getNumber "_g" guidRecord;
  h ← getNumber "_h" guidRecord;
  i ← getNumber "_i" guidRecord;
  j ← getNumber "_j" guidRecord;
  k ← getNumber "_k" guidRecord;
  let bytes := map toUint8
    [ js_and a 255; js_and (js_sar a 8) 255; js_and (js_sar a 16) 255; js_and (js_sar a 24) 255;
      js_and b 255; js_and (js_sar b 8) 255;
      js_and c 255; js_and (js_sar c 8) 255;
      d; e; f; g; h; i; j; k ] in
  let hex := hexOfBytes bytes in
  Some (slice hex 0 8 +:+ "-" +:+ slice hex 8 12 +:+ "-" +:+ slice hex 12 16 +:+ "-"
        +:+ slice hex 16 20 +:+ "-" +:+ sliceFrom hex 20).

Definition guidBytes (guidString : string) : list Z :=
  let hex := removeDashes guidString in
  map (fun i => toUint8OrNaN (parseInt16 (slice hex (i * 2) (i * 2 + 2)))) (seq 0 16).

Definition createGuidRecord (objectId : Z) (guidString : string) : result ClassRecord :=
  let bytes := guidBytes guidString in
  let classInfo := mkClassInfo objectId "System.Guid" 11
    ["_a"; "_b"; "_c"; "_d"; "_e"; "_f"; "_g"; "_h"; "_i"; "_j"; "_k"]%string in
  let memberTypeInfo := mkMemberTypeInfo
    (replicate 11 BinaryType.Primitive)
    [ AtiPrimitive PrimitiveType.Int32;
      AtiPrimitive PrimitiveType.Int16;
      AtiPrimitive PrimitiveType.Int16;
      AtiPrimitive PrimitiveType.Byte;
      AtiPrimitive PrimitiveType.Byte;
      AtiPrimitive PrimitiveType.Byte;
      AtiPrimitive PrimitiveType.Byte;
      AtiPrimitive PrimitiveType.Byte;
      AtiPrimitive PrimitiveType.Byte;
      AtiPrimitive PrimitiveType.Byte;
      AtiPrimitive PrimitiveType.Byte ] in
  let record := mkClassRecord classInfo (Some memberTypeInfo) None
    RecordType.SystemClassWithMembersAndTypes [] in
  let byteAt i := VNumber (nth i bytes 0) in
  let fill : M ClassRecord unit :=
    call (setValue "_a" (VNumber (toInt32 (leValue (take 4 bytes))))) ;;;
    call (setValue "_b" (VNumber (toInt16 (leValue (take 2 (drop 4 bytes)))))) ;;;
    call (setValue "_c" (VNumber (toInt16 (leValue (take 2 (drop 6 bytes)))))) ;;;
    call (setValue "_d" (byteAt 8%nat)) ;;;
    call (setValue "_e" (byteAt 9%nat)) ;;;
    call (setValue "_f" (byteAt 10%nat)) ;;;
    call (setValue "_g" (byteAt 11%nat)) ;;;
    call (setValue "_h" (byteAt 12%nat)) ;;;
    call (setValue "_i" (byteAt 13%nat)) ;;;
    call (setValue "_j" (byteAt 14%nat)) ;;;
    call (setValue "_k" (byteAt 15%nat)) in
  match fill record with
  | Ok (_, record) => Ok record
  | Err e => Err e
  end.

(** ** NrbfDecoder

    The records that [recordMap] holds are JavaScript objects, and a class
    record is entered into the map before its member values are stored
    into it.  [objects] is the store of these objects; [recordMap] maps an
    object id to a position in the store. *)

Record Metadata := mkMetadata
  { md_classInfo : ClassInfo;
    md_memberTypeInfo : option MemberTypeInfo;
    md_libraryId : option Z }.

Record NrbfDecoder := mkDecoder
  { reader : BinaryReader;
    objects : list NrbfRecord;
    recordMap : gmap Z nat;
    libraryMap : gmap Z string;
    metadataMap : gmap Z Metadata }.

Definition newDecoder (buffer : list Z) : NrbfDecoder :=
  mkDecoder (mkReader buffer 0) [] ∅ ∅ ∅.

Definition Dec := M NrbfDecoder.

(** [this.reader.m()] *)
Definition onReader {A} (m : Rd A) : Dec A :=
  fun d => match m (reader d) with
           | Ok (a, r) => Ok (a, mkDecoder r (objects d) (recordMap d) (libraryMap d) (metadataMap d))
           | Err e => Err e
           end.

Definition getPosition : Dec nat := gets (fun d => offset (reader d)).

(** [new C(...)]: the position of the fresh object in the store. *)
Definition new (record : NrbfRecord) : Dec nat :=
  fun d => Ok (Datatypes.length (objects d),
               mkDecoder (reader d) (objects d ++ [record]) (recordMap d) (libraryMap d)
                 (metadataMap d)).

(** The object at a position of the store, as it is now. *)
Definition deref (ref : nat) : Dec NrbfRecord :=
  fun d => match objects d !! ref with
           | Some record => Ok (record, d)
           | None => Err TypeError
           end.

Definition recordMap_set (objectId : Z) (ref : nat) : Dec unit :=
  modify (fun d => mkDecoder (reader d) (objects d) (<[objectId := ref]> (recordMap d))
                     (libraryMap d) (metadataMap d)).

Definition libraryMap_set (libraryId : Z) (libraryName : string) : Dec unit :=
  modify (fun d => mkDecoder (reader d) (objects d) (recordMap d)
                     (<[libraryId := libraryName]> (libraryMap d)) (metadataMap d)).

Definition metadataMap_set (objectId : Z) (metadata : Metadata) : Dec unit :=
  modify (fun d => mkDecoder (reader d) (objects d) (recordMap d) (libraryMap d)
                     (<[objectId := metadata]> (metadataMap d))).

(** [record.memberValues.set(memberName, value)] on the object at [ref]. *)
Definition memberValues_set (ref : nat) (memberName : string) (value : ObjectValue) : Dec unit :=
  modify (fun d =>
    match objects d !! ref with
    | Some (OfClassRecord c) =>
        mkDecoder (reader d)
          (<[ref := OfClassRecord (mkClassRecord (classInfo c) (memberTypeInfo c) (libraryId c)
                      (recordTypeValue c) (Map_set memberName value (memberValues c)))]>
             (objects d))
          (recordMap d) (libraryMap d) (metadataMap d)
    | _ => d
    end).

(** [getRecord(objectId)] *)
Definition getRecord (objectId : Z) (d : NrbfDecoder) : option NrbfRecord :=
  ref ← recordMap d !! objectId; objects d !! ref.

Definition resolveReference (idRef : Z) (d : NrbfDecoder) : result NrbfRecord :=
  match getRecord idRef d with
  | Some record => Ok record
  | None => Err (CannotResolveReference idRef)
  end.

Definition readLengthPrefixedString : Rd string :=
  length <- readVariableLengthInt ;;
  if length =? 0 then ret EmptyString
  else if length <? 0 then throw InvalidStringLength
  else bytes <- readBytes (Z.to_nat length) ;; ret (TextDecoder_decode bytes).

Definition readDecimal : Rd string :=
  bytes <- times 16 readByte ;; ret (hexOfBytes bytes).

Definition readChar : Rd string := b <- readByte ;; ret (fromCharCode b).

Definition readSingle : Rd (list Z) := readBytes 4.
Definition readDouble : Rd (list Z) := readBytes 8.

Definition decodeSerializationHeader : Dec NrbfRecord :=
  rootId <- onReader readInt32 ;;
  headerId <- onReader readInt32 ;;
  majorVersion <- onReader readInt32 ;;
  minorVersion <- onReader readInt32 ;;
  ret (SerializationHeader rootId headerId majorVersion minorVersion).

Definition decodeBinaryLibrary : Dec NrbfRecord :=
  libraryId <- onReader readInt32 ;;
  libraryName <- onReader readLengthPrefixedString ;;
  libraryMap_set libraryId libraryName ;;;
  ret (BinaryLibrary libraryId libraryName).

Definition readClassInfo : Dec ClassInfo :=
  objectId <- onReader readInt32 ;;
  name <- onReader readLengthPrefixedString ;;
  memberCount <- onReader readInt32 ;;
  memberNames <- times (Z.to_nat memberCount) (onReader readLengthPrefixedString) ;;
  ret (mkClassInfo objectId name memberCount memberNames).

Definition readAdditionalTypeInfo (binaryType : Z) : Dec AdditionalTypeInfo :=
  if binaryType =? BinaryType.Primitive then
    primitiveType <- onReader readByte ;; ret (AtiPrimitive primitiveType)
  else if binaryType =? BinaryType.SystemClass then
    className <- onReader readLengthPrefixedString ;; ret (AtiSystemClass className)
  else if binaryType =? BinaryType.Class then
    className <- onReader readLengthPrefixedString ;;
    libraryId <- onReader readInt32 ;;
    ret (AtiClass className libraryId)
  else ret AtiNone.

(** The [switch] of [readMemberTypeInfo] is the one of
    [readAdditionalTypeInfo]; its loop visits the [memberCount] entries of
    [binaryTypeEnums] in order. *)
Definition readMemberTypeInfo (memberCount : Z) : Dec MemberTypeInfo :=
  binaryTypeEnums <- times (Z.to_nat memberCount) (onReader readByte) ;;
  additionalInfos <- mapM readAdditionalTypeInfo binaryTypeEnums ;;
  ret (mkMemberTypeInfo binaryTypeEnums additionalInfos).

Definition readPrimitiveValue (primitiveType : Z) : Dec ObjectValue :=
  if primitiveType =? PrimitiveType.Boolean then
    b <- onReader readBoolean ;; ret (VBoolean b)
  else if primitiveType =? PrimitiveType.Byte then
    n <- onReader readByte ;; ret (VNumber n)
  else if primitiveType =? PrimitiveType.SByte then
    n <- onReader readSByte ;; ret (VNumber n)
  else if primitiveType =? PrimitiveType.Char then
    s <- onReader readChar ;; ret (VString s)
  else if primitiveType =? PrimitiveType.Int16 then
    n <- onReader readInt16 ;; ret (VNumber n)
  else if primitiveType =? PrimitiveType.UInt16 then
    n <- onReader readUInt16 ;; ret (VNumber n)
  else if primitiveType =? PrimitiveType.Int32 then
    n <- onReader readInt32 ;; ret (VNumber n)
  else if primitiveType =? PrimitiveType.UInt32 then
    n <- onReader readUInt32 ;; ret (VNumber n)
  else if primitiveType =? PrimitiveType.Int64 then
    n <- onReader readInt64 ;; ret (VNumber (roundToDouble n))
  else if primitiveType =? PrimitiveType.UInt64 then
    n <- onReader readUInt64 ;; ret (VNumber (roundToDouble n))
  else if primitiveType =? PrimitiveType.Single then
    x <- onReader readSingle ;; ret (VFloat x)
  else if primitiveType =? PrimitiveType.Double then
    x <- onReader readDouble ;; ret (VFloat x)
  else if primitiveType =? PrimitiveType.Decimal then
    s <- onReader readDecimal ;; ret (VString s)
  else if primitiveType =? PrimitiveType.DateTime then
    n <- onReader readDateTime ;; ret (VNumber (roundToDouble n))
  else if primitiveType =? PrimitiveType.TimeSpan then
    n <- onReader readTimeSpan ;; ret (VNumber (roundToDouble n))
  else if primitiveType =? PrimitiveType.String then
    s <- onReader readLengthPrefixedString ;; ret (VString s)
  else if primitiveType =? PrimitiveType.Null then
    ret VNull
  else throw (UnsupportedPrimitiveType primitiveType).

Section DecodeRecords.
(** [this.decodeNext()] as seen from the methods it calls, and the bound
    on the rounds of the [while] loop of [readAllElements]. *)
Variable decodeNext : Dec NrbfRecord.
Variable rounds : nat.

(** [binaryType] and [additionalInfo] come from array subscripts; [None]
    is [undefined]. *)
Definition readObjectValue (binaryType : option Z) (additionalInfo : option AdditionalTypeInfo)
  : Dec ObjectValue :=
  match binaryType, additionalInfo with
  | Some 0, None => throw TypeError
  | Some 0, Some (AtiPrimitive primitiveType) => readPrimitiveValue primitiveType
  | _, _ => record <- decodeNext ;; ret (VRecord record)
  end.

Definition readMemberValues (record : nat) (memberNames : list string)
    (memberTypeInfo : MemberTypeInfo) : Dec unit :=
  forEach (fun '(i, memberName) =>
             value <- readObjectValue (binaryTypeEnums memberTypeInfo !! i)
                                      (additionalInfos memberTypeInfo !! i) ;;
             memberValues_set record memberName value)
          (imap pair memberNames).

(** [for (const memberName of classInfo.memberNames) { ... decodeNext() ... }] *)
Definition readUntypedMemberValues (record : nat) (memberNames : list string) : Dec unit :=
  forEach (fun memberName =>
             value <- decodeNext ;;
             memberValues_set record memberName (VRecord value))
          memberNames.

Definition decodeClassWithMembersAndTypes : Dec NrbfRecord :=
  classInfo <- readClassInfo ;;
  memberTypeInfo <- readMemberTypeInfo (memberCount classInfo) ;;
  libraryId <- onReader readInt32 ;;
  record <- new (OfClassRecord (mkClassRecord classInfo (Some memberTypeInfo) (Some libraryId)
                                  RecordType.ClassWithMembersAndTypes [])) ;;
  metadataMap_set (ci_objectId classInfo)
    (mkMetadata classInfo (Some memberTypeInfo) (Some libraryId)) ;;;
  recordMap_set (ci_objectId classInfo) record ;;;
  readMemberValues record (memberNames classInfo) memberTypeInfo ;;;
  deref record.

Definition decodeSystemClassWithMembersAndTypes : Dec NrbfRecord :=
  classInfo <- readClassInfo ;;
  memberTypeInfo <- readMemberTypeInfo (memberCount classInfo) ;;
  record <- new (OfClassRecord (mkClassRecord classInfo (Some memberTypeInfo) None
                                  RecordType.SystemClassWithMembersAndTypes [])) ;;
  metadataMap_set (ci_objectId classInfo) (mkMetadata classInfo (Some memberTypeInfo) None) ;;;
  recordMap_set (ci_objectId classInfo) record ;;;
  readMemberValues record (memberNames classInfo) memberTypeInfo ;;;
  deref record.

Definition decodeSystemClassWithMembers : Dec NrbfRecord :=
  classInfo <- readClassInfo ;;
  record <- new (OfClassRecord (mkClassRecord classInfo None None
                                  RecordType.SystemClassWithMembers [])) ;;
  metadataMap_set (ci_objectId classInfo) (mkMetadata classInfo None None) ;;;
  recordMap_set (ci_objectId classInfo) record ;;;
  readUntypedMemberValues record (memberNames classInfo) ;;;
  deref record.

Definition decodeClassWithMembers : Dec NrbfRecord :=
  classInfo <- readClassInfo ;;
  libraryId <- onReader readInt32 ;;
  record <- new (OfClassRecord (mkClassRecord classInfo None (Some libraryId)
                                  RecordType.ClassWithMembers [])) ;;
  metadataMap_set (ci_objectId classInfo) (mkMetadata classInfo None (Some libraryId)) ;;;
  recordMap_set (ci_objectId classInfo) record ;;;
  readUntypedMemberValues record (memberNames classInfo) ;;;
  deref record.

Definition decodeClassWithId : Dec NrbfRecord :=
  objectId <- onReader readInt32 ;;
  metadataId <- onReader readInt32 ;;
  found <- gets (fun d => metadataMap d !! metadataId) ;;
  match found with
  | None => throw (MetadataNotFound metadataId)
  | Some metadata =>
      let classInfo := mkClassInfo objectId (ci_name (md_classInfo metadata))
                         (memberCount (md_classInfo metadata))
                         (memberNames (md_classInfo metadata)) in
      record <- new (OfClassRecord (mkClassRecord classInfo (md_memberTypeInfo metadata)
                                      (md_libraryId metadata) RecordType.ClassWithId [])) ;;
      recordMap_set objectId record ;;;
      match md_memberTypeInfo metadata with
      | Some memberTypeInfo => readMemberValues record (memberNames classInfo) memberTypeInfo
      | None => readUntypedMemberValues record (memberNames classInfo)
      end ;;;
      deref record
  end.

Definition decodeBinaryObjectString : Dec NrbfRecord :=
  objectId <- onReader readInt32 ;;
  value <- onReader readLengthPrefixedString ;;
  record <- new (BinaryObjectStringRecord objectId value) ;;
  recordMap_set objectId record ;;;
  deref record.

(** The [while (i < count)] loop of [readAllElements], with its two
    variables [i] and [elements]. *)
Fixpoint readAllElements_loop (rounds : nat) (count binaryType : Z)
    (additionalInfo : AdditionalTypeInfo) (i : Z) (elements : list ObjectValue)
  : Dec (list ObjectValue) :=
  if i <? count then
    match rounds with
    | O => throw OutOfFuel
    | S rounds' =>
        val <- readObjectValue (Some binaryType) (Some additionalInfo) ;;
        match val with
        | VRecord (ObjectNullMultipleRecord nullCount)
        | VRecord (ObjectNullMultiple256Record nullCount) =>
            readAllElements_loop rounds' count binaryType additionalInfo (i + nullCount)
              (elements ++ replicate (Z.to_nat nullCount) VNull)
        | VRecord ObjectNullRecord =>
            readAllElements_loop rounds' count binaryType additionalInfo (i + 1)
              (elements ++ [VNull])
        | _ =>
            readAllElements_loop rounds' count binaryType additionalInfo (i + 1)
              (elements ++ [val])
        end
    end
  else ret elements.

Definition readAllElements (count binaryType : Z) (additionalInfo : AdditionalTypeInfo)
  : Dec (list ObjectValue) :=
  readAllElements_loop rounds count binaryType additionalInfo 0 [].

Definition decodeBinaryArray : Dec NrbfRecord :=
  objectId <- onReader readInt32 ;;
  binaryArrayTypeEnum <- onReader readByte ;;
  rank <- onReader readInt32 ;;
  lengths <- times (Z.to_nat rank) (onReader readInt32) ;;
  lowerBounds <-
    (if (binaryArrayTypeEnum =? BinaryArrayType.SingleOffset)
        || (binaryArrayTypeEnum =? BinaryArrayType.JaggedOffset)
        || (binaryArrayTypeEnum =? BinaryArrayType.RectangularOffset)
     then bounds <- times (Z.to_nat rank) (onReader readInt32) ;; ret (Some bounds)
     else ret None) ;;
  typeEnum <- onReader readByte ;;
  additionalTypeInfo <- readAdditionalTypeInfo typeEnum ;;
  let totalElements := getTotalLength lengths in
  elementValues <- readAllElements totalElements typeEnum additionalTypeInfo ;;
  record <- new (BinaryArrayRecord objectId binaryArrayTypeEnum rank lengths lowerBounds
                   typeEnum additionalTypeInfo elementValues) ;;
  recordMap_set objectId record ;;;
  deref record.

Definition decodeArraySinglePrimitive : Dec NrbfRecord :=
  objectId <- onReader readInt32 ;;
  length <- onReader readInt32 ;;
  primitiveTypeEnum <- onReader readByte ;;
  elements <- times (Z.to_nat length) (readPrimitiveValue primitiveTypeEnum) ;;
  record <- new (ArraySinglePrimitiveRecord objectId length primitiveTypeEnum elements) ;;
  recordMap_set objectId record ;;;
  deref record.

Definition decodeArraySingleObject : Dec NrbfRecord :=
  objectId <- onReader readInt32 ;;
  length <- onReader readInt32 ;;
  elements <- readAllElements length BinaryType.Object AtiNone ;;
  record <- new (ArraySingleObjectRecord objectId length elements) ;;
  recordMap_set objectId record ;;;
  deref record.

Definition decodeArraySingleString : Dec NrbfRecord :=
  objectId <- onReader readInt32 ;;
  length <- onReader readInt32 ;;
  elements <- readAllElements length BinaryType.String AtiNone ;;
  record <- new (ArraySingleStringRecord objectId length elements) ;;
  recordMap_set objectId record ;;;
  deref record.

Definition decodeMemberPrimitiveTyped : Dec NrbfRecord :=
  primitiveTypeEnum <- onReader readByte ;;
  value <- readPrimitiveValue primitiveTypeEnum ;;
  ret (MemberPrimitiveTypedRecord primitiveTypeEnum value).

Definition decodeMemberReference : Dec NrbfRecord :=
  idRef <- onReader readInt32 ;;
  ret (MemberReferenceRecord idRef).

Definition decodeObjectNullMultiple : Dec NrbfRecord :=
  nullCount <- onReader readInt32 ;;
  ret (ObjectNullMultipleRecord nullCount).

Definition decodeObjectNullMultiple256 : Dec NrbfRecord :=
  nullCount <- onReader readByte ;;
  ret (ObjectNullMultiple256Record nullCount).

(** The body of [decodeNext]: the validity test on the lead byte, then
    the [switch]. *)
Definition decodeNext_body : Dec NrbfRecord :=
  pos <- getPosition ;;
  recordTypeByte <- onReader readByte ;;
  if negb (bool_decide (recordTypeByte ∈
             [0; 1; 2; 3; 4; 5; 6; 7; 8; 9; 10; 11; 12; 13; 14; 15; 16; 17]))
  then throw (UnsupportedRecordType recordTypeByte pos)
  else if recordTypeByte =? RecordType.SerializedStreamHeader then decodeSerializationHeader
  else if recordTypeByte =? RecordType.BinaryLibrary then decodeBinaryLibrary
  else if recordTypeByte =? RecordType.ClassWithMembersAndTypes
       then decodeClassWithMembersAndTypes
  else if recordTypeByte =? RecordType.SystemClassWithMembersAndTypes
       then decodeSystemClassWithMembersAndTypes
  else if recordTypeByte =? RecordType.SystemClassWithMembers then decodeSystemClassWithMembers
  else if recordTypeByte =? RecordType.ClassWithMembers then decodeClassWithMembers
  else if recordTypeByte =? RecordType.ClassWithId then decodeClassWithId
  else if recordTypeByte =? RecordType.BinaryObjectString then decodeBinaryObjectString
  else if recordTypeByte =? RecordType.BinaryArray then decodeBinaryArray
  else if recordTypeByte =? RecordType.ArraySinglePrimitive then decodeArraySinglePrimitive
  else if recordTypeByte =? RecordType.ArraySingleObject then decodeArraySingleObject
  else if recordTypeByte =? RecordType.ArraySingleString then decodeArraySingleString
  else if recordTypeByte =? RecordType.MemberPrimitiveTyped then decodeMemberPrimitiveTyped
  else if recordTypeByte =? RecordType.MemberReference then decodeMemberReference
  else if recordTypeByte =? RecordType.ObjectNull then ret ObjectNullRecord
  else if recordTypeByte =? RecordType.ObjectNullMultiple then decodeObjectNullMultiple
  else if recordTypeByte =? RecordType.ObjectNullMultiple256 then decodeObjectNullMultiple256
  else if recordTypeByte =? RecordType.MessageEnd then ret MessageEndRecord
  else throw (UnhandledRecordType recordTypeByte).
End DecodeRecords.

(** [decodeNext], with [fuel] bounding the depth of nested records and the
    rounds of each element loop. *)
Fixpoint decodeNext (fuel : nat) : Dec NrbfRecord :=
  match fuel with
  | O => throw OutOfFuel
  | S fuel' => decodeNext_body (decodeNext fuel') fuel'
  end.

Definition isMessageEnd (record : NrbfRecord) : bool :=
  match record with
  | MessageEndRecord => true
  | _ => false
  end.

(** The [do ... while] loop of [decode]; at most 100001 records are read
    before [count > 100000] throws, and [budget] counts the ones left. *)
Fixpoint decode_loop (fuel budget : nat) (count : Z) : Dec unit :=
  match budget with
  | O => throw TooManyRecords
  | S budget' =>
      record <- decodeNext fuel ;;
      let count := count + 1 in
      if 100000 <? count then throw TooManyRecords
      else if isMessageEnd record then ret tt
      else decode_loop fuel budget' count
  end.

Definition decode_run (fuel : nat) : Dec NrbfRecord :=
  headerByte <- onReader readByte ;;
  if negb (headerByte =? RecordType.SerializedStreamHeader) then throw (InvalidHeader headerByte)
  else
    rootId <- onReader readInt32 ;;
    headerId <- onReader readInt32 ;;
    majorVersion <- onReader readInt32 ;;
    minorVersion <- onReader readInt32 ;;
    let header := SerializationHeader rootId headerId majorVersion minorVersion in
    decode_loop fuel (Z.to_nat 100001) 0 ;;;
    root <- gets (getRecord rootId) ;;
    match root with
    | None => throw (RootNotFound rootId)
    | Some root => ret root
    end.

(** [new NrbfDecoder(buffer).decode()] *)
Definition decode (fuel : nat) (buffer : list Z) : result NrbfRecord :=
  match decode_run fuel (newDecoder buffer) with
  | Ok (root, _) => Ok root
  | Err e => Err e
  end.

(** ** NrbfEncoder *)

Definition writeChar (value : string) : BinaryWriter -> BinaryWriter :=
  push [toUint8OrNaN (charCodeAt0 value)].

(** [for (let i = 0; i < 32; i += 2) writeByte(parseInt(hexString.slice(i, i + 2), 16))] *)
Definition writeDecimal (hexString : string) (w : BinaryWriter) : BinaryWriter :=
  foldl (fun w k => push [toUint8OrNaN (parseInt16 (slice hexString (2 * k) (2 * k + 2)))] w)
        w (seq 0 16).

Definition writeLengthPrefixedString (str : string) (w : BinaryWriter) : BinaryWriter :=
  let bytes := TextEncoder_encode str in
  push bytes (writeVariableLengthInt (Z.of_nat (Datatypes.length bytes)) w).

Record NrbfEncoder := mkEncoder { writer : BinaryWriter; writtenRecords : gset Z }.

Definition newEncoder : NrbfEncoder := mkEncoder (mkWriter []) ∅.

Definition Enc := M NrbfEncoder.

(** [this.writer.m(...)] *)
Definition onWriter (m : BinaryWriter -> BinaryWriter) : Enc unit :=
  modify (fun e => mkEncoder (m (writer e)) (writtenRecords e)).

(** [record.objectId && this.writtenRecords.has(record.objectId)]: [null]
    and [0] are falsy. *)
Definition alreadyWritten (record : NrbfRecord) (e : NrbfEncoder) : bool :=
  match objectId record with
  | Some id => negb (id =? 0) && bool_decide (id ∈ writtenRecords e)
  | None => false
  end.

(** [if (record.objectId) this.writtenRecords.add(record.objectId)] *)
Definition markWritten (record : NrbfRecord) : Enc unit :=
  match objectId record with
  | Some id =>
      if id =? 0 then ret tt
      else modify (fun e => mkEncoder (writer e) ({[id]} ∪ writtenRecords e))
  | None => ret tt
  end.

Definition writeAdditionalTypeInfo (info : AdditionalTypeInfo) : Enc unit :=
  match info with
  | AtiPrimitive primitiveType => onWriter (writeByte primitiveType)
  | AtiSystemClass className => onWriter (writeLengthPrefixedString className)
  | AtiClass className libraryId =>
      onWriter (writeLengthPrefixedString className) ;;; onWriter (writeInt32 libraryId)
  | AtiNone => ret tt
  end.

Definition writeClassInfo (classInfo : ClassInfo) : Enc unit :=
  onWriter (writeInt32 (ci_objectId classInfo)) ;;;
  onWriter (writeLengthPrefixedString (ci_name classInfo)) ;;;
  onWriter (writeInt32 (memberCount classInfo)) ;;;
  forEach (fun memberName => onWriter (writeLengthPrefixedString memberName))
          (memberNames classInfo).

Definition writeMemberTypeInfo (memberTypeInfo : MemberTypeInfo) : Enc unit :=
  forEach (fun bt => onWriter (writeByte bt)) (binaryTypeEnums memberTypeInfo) ;;;
  forEach writeAdditionalTypeInfo (additionalInfos memberTypeInfo).

Definition encodeBinaryObjectString (stringObjectId : Z) (value : string) : Enc unit :=
  onWriter (writeByte RecordType.BinaryObjectString) ;;;
  onWriter (writeInt32 stringObjectId) ;;;
  onWriter (writeLengthPrefixedString value).

Definition encodeBinaryLibrary (libraryId : Z) (libraryName : string) : Enc unit :=
  onWriter (writeByte RecordType.BinaryLibrary) ;;;
  onWriter (writeInt32 libraryId) ;;;
  onWriter (writeLengthPrefixedString libraryName).

Definition encodeMemberReference (idRef : Z) : Enc unit :=
  onWriter (writeByte RecordType.MemberReference) ;;;
  onWriter (writeInt32 idRef).

Definition encodeObjectNullMultiple (nullCount : Z) : Enc unit :=
  onWriter (writeByte RecordType.ObjectNullMultiple) ;;;
  onWriter (writeInt32 nullCount).

Definition encodeObjectNullMultiple256 (nullCount : Z) : Enc unit :=
  onWriter (writeByte RecordType.ObjectNullMultiple256) ;;;
  onWriter (writeByte nullCount).

Section Encode.
(** The bytes written (or the exception thrown) when a primitive slot
    holds a value whose runtime type is not the one the [as] cast of
    [writePrimitiveValue] names, e.g. a string in an Int32 slot.  These
    implicit conversions are the platform's; the results below hold
    whatever they do. *)
Variable coerceWrite : Z -> ObjectValue -> result (list Z).

Definition coerced (type : Z) (value : ObjectValue) : Enc unit :=
  match coerceWrite type value with
  | Ok bytes => onWriter (push bytes)
  | Err e => throw e
  end.

Definition writePrimitiveValue (value : ObjectValue) (type : Z) : Enc unit :=
  match value with
  | VNull => ret tt
  | _ =>
      if type =? PrimitiveType.Boolean then
        match value with VBoolean b => onWriter (writeBoolean b) | _ => coerced type value end
      else if type =? PrimitiveType.Byte then
        match value with VNumber n => onWriter (writeByte n) | _ => coerced type value end
      else if type =? PrimitiveType.SByte then
        match value with VNumber n => onWriter (writeSByte n) | _ => coerced type value end
      else if type =? PrimitiveType.Char then
        match value with VString s => onWriter (writeChar s) | _ => coerced type value end
      else if type =? PrimitiveType.Int16 then
        match value with VNumber n => onWriter (writeInt16 n) | _ => coerced type value end
      else if type =? PrimitiveType.UInt16 then
        match value with VNumber n => onWriter (writeUInt16 n) | _ => coerced type value end
      else if type =? PrimitiveType.Int32 then
        match value with VNumber n => onWriter (writeInt32 n) | _ => coerced type value end
      else if type =? PrimitiveType.UInt32 then
        match value with VNumber n => onWriter (writeUInt32 n) | _ => coerced type value end
      else if type =? PrimitiveType.Int64 then
        match value with VNumber n => onWriter (writeInt64 n) | _ => coerced type value end
      else if type =? PrimitiveType.UInt64 then
        match value with VNumber n => onWriter (writeUInt64 n) | _ => coerced type value end
      else if type =? PrimitiveType.Single then
        match value with
        | VFloat [b0; b1; b2; b3] => onWriter (push [b0; b1; b2; b3])
        | _ => coerced type value
        end
      else if type =? PrimitiveType.Double then
        match value with
        | VFloat [b0; b1; b2; b3; b4; b5; b6; b7] =>
            onWriter (push [b0; b1; b2; b3; b4; b5; b6; b7])
        | _ => coerced type value
        end
      else if type =? PrimitiveType.Decimal then
        match value with VString s => onWriter (writeDecimal s) | _ => coerced type value end
      else if type =? PrimitiveType.DateTime then
        match value with VNumber n => onWriter (writeDateTime n) | _ => coerced type value end
      else if type =? PrimitiveType.TimeSpan then
        match value with VNumber n => onWriter (writeTimeSpan n) | _ => coerced type value end
      else if type =? PrimitiveType.String then
        match value with
        | VString s => onWriter (writeLengthPrefixedString s)
        | _ => coerced type value
        end
      else ret tt
  end.

Definition encodeArraySinglePrimitive (arrayObjectId length primitiveTypeEnum : Z)
    (elementValues : list ObjectValue) : Enc unit :=
  onWriter (writeByte RecordType.ArraySinglePrimitive) ;;;
  onWriter (writeInt32 arrayObjectId) ;;;
  onWriter (writeInt32 length) ;;;
  onWriter (writeByte primitiveTypeEnum) ;;;
  forEach (fun element => writePrimitiveValue element primitiveTypeEnum) elementValues.

Definition encodeMemberPrimitiveTyped (primitiveTypeEnum : Z) (value : ObjectValue) : Enc unit :=
  onWriter (writeByte RecordType.MemberPrimitiveTyped) ;;;
  onWriter (writeByte primitiveTypeEnum) ;;;
  writePrimitiveValue value primitiveTypeEnum.

Section EncodeNested.
(** [this.encodeRecord] as seen from the methods it calls. *)
Variable encodeRecord : NrbfRecord -> Enc unit.

(** [writeObjectValue(undefined)] *)
Definition writeUndefined : Enc unit := onWriter (writeByte RecordType.ObjectNull).

Definition writeObjectValue (value : ObjectValue) : Enc unit :=
  match value with
  | VNull => onWriter (writeByte RecordType.ObjectNull)
  | VRecord record => encodeRecord record
  | VBoolean b => onWriter (writeBoolean b)
  | VNumber _ | VFloat _ => throw BareNumber
  | VString _ => throw BareString
  end.

Definition encodeClassRecord (record : ClassRecord) : Enc unit :=
  let rt := recordTypeValue record in
  onWriter (writeByte rt) ;;;
  writeClassInfo (classInfo record) ;;;
  (if (rt =? RecordType.ClassWithMembersAndTypes)
      || (rt =? RecordType.SystemClassWithMembersAndTypes)
   then match memberTypeInfo record with
        | Some memberTypeInfo => writeMemberTypeInfo memberTypeInfo
        | None => throw TypeError
        end
   else ret tt) ;;;
  (if (rt =? RecordType.ClassWithMembersAndTypes) || (rt =? RecordType.ClassWithMembers)
   then onWriter (writeInt32 (default 0 (libraryId record)))
   else ret tt) ;;;
  forEach (fun memberName =>
             Map_getWith memberName writeObjectValue writeUndefined (memberValues record))
          (memberNames (classInfo record)).

Definition encodeBinaryArrayRecord (arrayObjectId binaryArrayTypeEnum rank : Z)
    (lengths : list Z) (lowerBounds : option (list Z)) (typeEnum : Z)
    (additionalTypeInfo : AdditionalTypeInfo) (elementValues : list ObjectValue) : Enc unit :=
  onWriter (writeByte RecordType.BinaryArray) ;;;
  onWriter (writeInt32 arrayObjectId) ;;;
  onWriter (writeByte binaryArrayTypeEnum) ;;;
  onWriter (writeInt32 rank) ;;;
  forEach (fun length => onWriter (writeInt32 length)) lengths ;;;
  match lowerBounds with
  | Some bounds => forEach (fun bound => onWriter (writeInt32 bound)) bounds
  | None => ret tt
  end ;;;
  onWriter (writeByte typeEnum) ;;;
  writeAdditionalTypeInfo additionalTypeInfo ;;;
  forEach writeObjectValue elementValues.

Definition encodeArraySingleObject (arrayObjectId length : Z)
    (elementValues : list ObjectValue) : Enc unit :=
  onWriter (writeByte RecordType.ArraySingleObject) ;;;
  onWriter (writeInt32 arrayObjectId) ;;;
  onWriter (writeInt32 length) ;;;
  forEach writeObjectValue elementValues.

Definition encodeArraySingleString (arrayObjectId length : Z)
    (elementValues : list ObjectValue) : Enc unit :=
  onWriter (writeByte RecordType.ArraySingleString) ;;;
  onWriter (writeInt32 arrayObjectId) ;;;
  onWriter (writeInt32 length) ;;;
  forEach writeObjectValue elementValues.

(** The [instanceof] chain of [encodeRecord]; a header or a message
    end matches no branch. *)
Definition encodeRecord_dispatch (record : NrbfRecord) : Enc unit :=
  match record with
  | OfClassRecord c => encodeClassRecord c
  | BinaryArrayRecord arrayObjectId binaryArrayTypeEnum rank lengths lowerBounds typeEnum
      additionalTypeInfo elementValues =>
      encodeBinaryArrayRecord arrayObjectId binaryArrayTypeEnum rank lengths lowerBounds
        typeEnum additionalTypeInfo elementValues
  | ArraySinglePrimitiveRecord arrayObjectId length primitiveTypeEnum elementValues =>
      encodeArraySinglePrimitive arrayObjectId length primitiveTypeEnum elementValues
  | ArraySingleObjectRecord arrayObjectId length elementValues =>
      encodeArraySingleObject arrayObjectId length elementValues
  | ArraySingleStringRecord arrayObjectId length elementValues =>
      encodeArraySingleString arrayObjectId length elementValues
  | BinaryObjectStringRecord stringObjectId value =>
      encodeBinaryObjectString stringObjectId value
  | BinaryLibrary libraryId libraryName => encodeBinaryLibrary libraryId libraryName
  | MemberPrimitiveTypedRecord primitiveTypeEnum value =>
      encodeMemberPrimitiveTyped primitiveTypeEnum value
  | MemberReferenceRecord idRef => encodeMemberReference idRef
  | ObjectNullRecord => onWriter (writeByte RecordType.ObjectNull)
  | ObjectNullMultipleRecord nullCount => encodeObjectNullMultiple nullCount
  | ObjectNullMultiple256Record nullCount => encodeObjectNullMultiple256 nullCount
  | SerializationHeader _ _ _ _ | MessageEndRecord => ret tt
  end.

Definition encodeRecord_body (record : NrbfRecord) : Enc unit :=
  written <- gets (alreadyWritten record) ;;
  if written then ret tt
  else encodeRecord_dispatch record ;;; markWritten record.
End EncodeNested.

Fixpoint encodeRecord (record : NrbfRecord) {struct record} : Enc unit :=
  encodeRecord_body encodeRecord record.

(** [new NrbfEncoder().encode(root, rootId)]; an omitted [rootId] is
    [None]. *)
Definition encode (root : NrbfRecord) (rootId : option Z) : result (list Z) :=
  let actualRootId := default (default 1 (objectId root)) rootId in
  let run : Enc unit :=
    onWriter (writeByte RecordType.SerializedStreamHeader) ;;;
    onWriter (writeInt32 actualRootId) ;;;
    onWriter (writeInt32 (-1)) ;;;
    onWriter (writeInt32 1) ;;;
    onWriter (writeInt32 0) ;;;
    encodeRecord root ;;;
    onWriter (writeByte RecordType.MessageEnd) in
  match run newEncoder with
  | Ok (_, e) => Ok (toBuffer (writer e))
  | Err e => Err e
  end.
End Encode.

(** ** NrbfUtils *)

Definition startsWithPayloadHeader (buffer : list Z) : bool :=
  if (Datatypes.length buffer <? 17)%nat then false
  else if negb (nth 0 buffer 0 =? RecordType.SerializedStreamHeader) then false
  else
    let expectedSuffix := [1; 0; 0; 0; 0; 0; 0; 0] in
    forallb (fun i => nth (9 + i) buffer 0 =? nth i expectedSuffix 0) (seq 0 8).

Definition parseGuid (guidRecord : ClassRecord) : option string := reconstructGuid guidRecord.

(** [path.split('.')] *)
Fixpoint split_dot (path : string) : list string :=
  match path with
  | EmptyString => [EmptyString]
  | String c rest =>
      if Ascii.eqb c "." then EmptyString :: split_dot rest
      else match split_dot rest with
           | part :: parts => String c part :: parts
           | [] => [String c EmptyString]
           end
  end.

(** [Number(part)], by what it does as an array subscript: NaN, an array
    index, or a number that is no index (negative, fractional, infinite). *)
Inductive PartNumber :=
  | PartNaN
  | PartIndex (index : nat)
  | PartNoIndex.

Section GetNestedValue.
(** The platform's string-to-number conversion. *)
Variable Number_ : string -> PartNumber.

(** One round of the [for (const part of parts)] loop; [None] is the
    [return undefined] of the round. *)
Definition getNestedValue_step (decoder : option NrbfDecoder) (current : ObjectValue)
    (part : string) : option ObjectValue :=
  current ←
    match current with
    | VRecord (MemberReferenceRecord idRef) =>
        match decoder with
        | Some decoder => VRecord <$> getRecord idRef decoder
        | None => None
        end
    | _ => Some current
    end;
  current ←
    match current with
    | VRecord (OfClassRecord c) => getValue part c
    | VRecord record =>
        match getArray record, Number_ part with
        | Some elements, PartIndex index => elements !! index
        | _, _ => None
        end
    | _ => None
    end;
  match current with
  | VNull => None
  | _ => Some current
  end.

Fixpoint getNestedValue_loop (decoder : option NrbfDecoder) (current : ObjectValue)
    (parts : list string) : option ObjectValue :=
  match parts with
  | [] => Some current
  | part :: parts' =>
      current ← getNestedValue_step decoder current part;
      getNestedValue_loop decoder current parts'
  end.

(** The outcome of a lookup: no statement of [getNestedValue] throws
    (a missing record is an [undefined] from [getRecord], not an
    exception from [resolveReference]), so it is always [Ok]; the value
    [None] is [undefined]. *)
Definition getNestedValue (record : NrbfRecord) (path : string) (decoder : option NrbfDecoder)
  : result (option ObjectValue) :=
  Ok (current ← getNestedValue_loop decoder (VRecord record) (split_dot path);
      match current, decoder with
      | VRecord (MemberReferenceRecord idRef), Some decoder =>
          VRecord <$> getRecord idRef decoder
      | _, _ => Some current
      end).
End GetNestedValue.

(** [Number(part)] for a part made of decimal digits only; any other
    part is taken for NaN.  It serves to run [getNestedValue] on examples;
    the statements on [getNestedValue] hold for every conversion. *)
Fixpoint decimalDigits (part : string) (acc : nat) : option nat :=
  match part with
  | EmptyString => Some acc
  | String c rest =>
      let b := byteOfAscii c in
      if (48 <=? b) && (b <=? 57) then decimalDigits rest (10 * acc + Z.to_nat (b - 48))
      else None
  end.

Definition Number_decimal (part : string) : PartNumber :=
  match decimalDigits part 0 with
  | Some index => PartIndex index
  | None => PartNaN
  end.

(** ** Vocabulary of the statements *)

(** The bytes one call of [writeVariableLengthInt_loop] appends. *)
Definition varintBytes (rounds : nat) (n : Z) : list Z :=
  toBuffer (writeVariableLengthInt_loop rounds n (mkWriter [])).

(** A well-formed GUID string: hexadecimal digits of either case in the
    shape [xxxxxxxx-xxxx-xxxx-xxxx-xxxxxxxxxxxx]. *)
Definition isHexDigit (c : ascii) : bool :=
  match hexValue c with
  | Some _ => true
  | None => false
  end.

Fixpoint matchesShape (shape : list bool) (s : string) : bool :=
  match shape, s with
  | [], EmptyString => true
  | digit :: shape', String c s' =>
      (if digit then isHexDigit c else Ascii.eqb c "-") && matchesShape shape' s'
  | _, _ => false
  end.

Definition guidShape : list bool :=
  replicate 8 true ++ [false] ++ replicate 4 true ++ [false] ++ replicate 4 true ++ [false]
  ++ replicate 4 true ++ [false] ++ replicate 12 true.

Definition wellFormedGuid (s : string) : bool := matchesShape guidShape s.

(** The byte [createGuidRecord] stores for two characters of the string. *)
Definition hexPairByte (c1 c2 : ascii) : Z :=
  toUint8OrNaN (parseInt16 (String c1 (String c2 EmptyString))).

(** A decoder that has read [done] and has [rest] before it. *)
Definition decoderAt (done rest : list Z) (objects : list NrbfRecord) (recordMap : gmap Z nat)
    (libraryMap : gmap Z string) (metadataMap : gmap Z Metadata) : NrbfDecoder :=
  mkDecoder (mkReader (done ++ rest) (Datatypes.length done)) objects recordMap libraryMap
    metadataMap.

(** The wire form of a length-prefixed string. *)
Definition stringBytes (s : string) : list Z :=
  varintBytes 5 (Z.of_nat (Datatypes.length (bytesOfString s))) ++ bytesOfString s.

(** A string of ASCII characters. *)
Definition isAsciiString (s : string) : bool := forallb (fun b => b <? 128) (bytesOfString s).

(** The bytes of the stream header [encode] writes for [rootId]. *)
Definition headerBytes (rootId : Z) : list Z :=
  [0] ++ leBytes 4 rootId ++ leBytes 4 (-1) ++ leBytes 4 1 ++ leBytes 4 0.

(** The bytes of a string of hexadecimal digits, pair by pair. *)
Fixpoint pairBytes (hex : string) : list Z :=
  match hex with
  | String c1 (String c2 rest) => hexPairByte c1 c2 :: pairBytes rest
  | _ => []
  end.

(** An implicit-conversion behaviour to run the encoder with: every
    conversion throws. *)
Definition noCoercion (type : Z) (value : ObjectValue) : result (list Z) := Err TypeError.

Section NullRuns.
Variable decodeNext : Dec NrbfRecord.

(** The null-run records that the loop of [readAllElements] meets, each
    with its count and with the number of slots still unfilled
    ([count - i]) when it was read.  The source does not compute this
    list; it names the runs in the statement on array lengths. *)
Fixpoint nullRuns_loop (rounds : nat) (count binaryType : Z)
    (additionalInfo : AdditionalTypeInfo) (i : Z) : Dec (list (Z * Z)) :=
  if i <? count then
    match rounds with
    | O => throw OutOfFuel
    | S rounds' =>
        val <- readObjectValue decodeNext (Some binaryType) (Some additionalInfo) ;;
        match val with
        | VRecord (ObjectNullMultipleRecord nullCount)
        | VRecord (ObjectNullMultiple256Record nullCount) =>
            runs <- nullRuns_loop rounds' count binaryType additionalInfo (i + nullCount) ;;
            ret ((nullCount, count - i) :: runs)
        | _ => nullRuns_loop rounds' count binaryType additionalInfo (i + 1)
        end
    end
  else ret [].

Definition nullRuns (rounds : nat) (count binaryType : Z)
    (additionalInfo : AdditionalTypeInfo) : Dec (list (Z * Z)) :=
  nullRuns_loop rounds count binaryType additionalInfo 0.
End NullRuns.

(** A null run fits when its count is between 0 and the number of slots
    still unfilled. *)
Definition runFits (run : Z * Z) : Prop := 0 <= fst run <= snd run.

(** The values a record holds. *)
Definition children (r : NrbfRecord) : list ObjectValue :=
  match r with
  | OfClassRecord c => map snd (memberValues c)
  | BinaryArrayRecord _ _ _ _ _ _ _ elementValues
  | ArraySinglePrimitiveRecord _ _ _ elementValues
  | ArraySingleObjectRecord _ _ elementValues
  | ArraySingleStringRecord _ _ elementValues => elementValues
  | MemberPrimitiveTypedRecord _ value => [value]
  | _ => []
  end.

Definition appending (f : BinaryWriter -> BinaryWriter) : Prop :=
  forall w, exists out, toBuffer (f w) = toBuffer w ++ out.

(** How an encoder state may evolve: the output grows at its end, ids are
    only added, and [0] is never added. *)
Definition extends (e e' : NrbfEncoder) : Prop :=
  (exists out, toBuffer (writer e') = toBuffer (writer e) ++ out)
  /\ writtenRecords e ⊆ writtenRecords e'
  /\ (0 ∈ writtenRecords e' -> 0 ∈ writtenRecords e).

Definition steady {A} (m : Enc A) : Prop :=
  forall e a e', m e = Ok (a, e') -> extends e e'.

Definition sampleClass : ClassRecord :=
  mkClassRecord (mkClassInfo 1 "C" 1 ["x"%string])
    (Some (mkMemberTypeInfo [BinaryType.Primitive] [AtiPrimitive PrimitiveType.Int32]))
    (Some 2) RecordType.ClassWithMembersAndTypes [("x"%string, VNumber 5)].


(** A class whose member [a] is a reference to the absent record 99. *)
Definition danglingClass : NrbfRecord :=
  OfClassRecord (mkClassRecord (mkClassInfo 1 "C" 1 ["a"%string]) None None
                   RecordType.SystemClassWithMembers
                   [("a"%string, VRecord (MemberReferenceRecord 99))]).

(** The stream of the scenario with its root id in little-endian order. *)
Definition helloStream : list Z :=
  [0; 1; 0; 0; 0; 255; 255; 255; 255; 1; 0; 0; 0; 0; 0; 0; 0;
   6; 1; 0; 0; 0; 5; 104; 101; 108; 108; 111; 11].

(** What the decoder guarantees about the element count of an array
    record: at least the declared count for the kinds read with null-run
    expansion, exactly the declared length (or none, when it is negative)
    for the primitive kind. *)
Definition arrayLengthOk (r : NrbfRecord) : Prop :=
  match r with
  | BinaryArrayRecord _ _ _ lengths _ _ _ elementValues =>
      getTotalLength lengths <= Z.of_nat (Datatypes.length elementValues)
  | ArraySingleObjectRecord _ length elementValues
  | ArraySingleStringRecord _ length elementValues =>
      length <= Z.of_nat (Datatypes.length elementValues)
  | ArraySinglePrimitiveRecord _ length _ elementValues =>
      Z.of_nat (Datatypes.length elementValues) = Z.max 0 length
  | _ => True
  end.

(** The records of the graph under [root]: [root] itself and, step by
    step, the records held as member values or elements. *)
Inductive inGraph (root : NrbfRecord) : NrbfRecord -> Prop :=
  | inGraph_root : inGraph root root
  | inGraph_child r r' : inGraph root r -> VRecord r' ∈ children r -> inGraph root r'.

(** [arrayLengthOk] throughout the graph under a record. *)
Inductive arraysOk : NrbfRecord -> Prop :=
  | arraysOk_intro r :
      arrayLengthOk r -> (forall r', VRecord r' ∈ children r -> arraysOk r') -> arraysOk r.

Definition valueOk (v : ObjectValue) : Prop := forall r, v = VRecord r -> arraysOk r.

Definition storeOk (d : NrbfDecoder) : Prop := Forall arraysOk (objects d).

(** A decoder computation that keeps the store well-formed and whose
    result satisfies [post]. *)
Definition keeps {A} (m : Dec A) (post : A -> Prop) : Prop :=
  forall d a d', storeOk d -> m d = Ok (a, d') -> storeOk d' /\ post a.

Definition notRecord (v : ObjectValue) : Prop := forall r, v <> VRecord r.


(** [BinaryReader.hasMore] *)
Definition hasMore (r : BinaryReader) : bool :=
  (offset r <? Datatypes.length (view r))%nat.

(** ** Vocabulary of the statements on the reader and the writer *)

(** The reader placed where a writer that held [w] continues, over what
    the writer holds after [write] followed by [post]. *)
Definition readerAfter (write : BinaryWriter -> BinaryWriter) (w : BinaryWriter)
    (post : list Z) (consumed : nat) : BinaryReader :=
  mkReader (toBuffer (write w) ++ post) (Datatypes.length (toBuffer w) + consumed).

(** The 64-bit two's-complement reading of [getBigInt64]. *)
Definition toInt64 (z : Z) : Z := (z + 2 ^ 63) mod 2 ^ 64 - 2 ^ 63.

(** A buffer holds bytes. *)
Definition isByte (b : Z) : Prop := 0 <= b < 256.

(** Well-formed UTF-8 (Unicode, table 3-7): the byte strings that are the
    encoding of a JavaScript string without lone surrogates. *)
Definition between (lo b hi : Z) : bool := (lo <=? b) && (b <=? hi).

Fixpoint wellFormedUtf8 (bs : list Z) : bool :=
  match bs with
  | [] => true
  | b0 :: rest =>
      if between 0 b0 127 then wellFormedUtf8 rest
      else if between 194 b0 223 then
        match rest with
        | b1 :: rest' => between 128 b1 191 && wellFormedUtf8 rest'
        | _ => false
        end
      else if between 224 b0 239 then
        match rest with
        | b1 :: b2 :: rest' =>
            between (if b0 =? 224 then 160 else 128) b1 (if b0 =? 237 then 159 else 191)
            && between 128 b2 191 && wellFormedUtf8 rest'
        | _ => false
        end
      else if between 240 b0 244 then
        match rest with
        | b1 :: b2 :: b3 :: rest' =>
            between (if b0 =? 240 then 144 else 128) b1 (if b0 =? 244 then 143 else 191)
            && between 128 b2 191 && between 128 b3 191 && wellFormedUtf8 rest'
        | _ => false
        end
      else false
  end.

(** The UTF-8 form of U+FEFF, the byte-order mark. *)
Definition byteOrderMark : list Z := [239; 187; 191].

Definition startsWithBOM (bs : list Z) : bool :=
  match bs with
  | 239 :: 187 :: 191 :: _ => true
  | _ => false
  end.

(** A string with a character outside ASCII, as its UTF-8 bytes. *)
Definition sampleText : string := stringOfBytes [104; 195; 169; 108; 108; 111].

(** ** NrbfUtils: GUID bytes in a raw buffer *)

(** The inner loop of [findGuidInBinary]: [data[i + j] !== pattern[j]] for
    no [j] below [pattern.length]; a subscript outside an array is
    [undefined] ([None]). *)
Definition matchesAt (data pattern : list Z) (i : nat) : bool :=
  forallb (fun j => bool_decide (data !! (i + j)%nat = pattern !! j))
          (seq 0 (Datatypes.length pattern)).

(** [findGuidInBinary]: [i] runs from 0 to [data.length - pattern.length]
    inclusive (over nothing when the buffer is shorter than the pattern),
    and the offsets that match are pushed in that order. *)
Definition findGuidInBinary (buffer : list Z) (guidString : string) : list nat :=
  let pattern := guidBytes guidString in
  let data := buffer in
  foldl (fun matches i => if matchesAt data pattern i then matches ++ [i] else matches)
        [] (seq 0 (Datatypes.length data + 1 - Datatypes.length pattern)).

(** [data[index] = value] on a [Uint8Array]: a store outside the array
    does nothing. *)
Definition Uint8Array_set (index : Z) (value : option Z) (data : list Z) : list Z :=
  if (0 <=? index) && (index <? Z.of_nat (Datatypes.length data))
  then <[Z.to_nat index := toUint8OrNaN value]> data
  else data.

(** A sequence of stores at [offset + i], for the subscripts [i] given. *)
Definition stores (offset : Z) (value : nat -> option Z) (data : list Z)
    (subscripts : list nat) : list Z :=
  foldl (fun data i => Uint8Array_set (offset + Z.of_nat i) (value i) data) data subscripts.

(** [replaceGuidAtOffset]: the result is a copy of the buffer with the
    sixteen stores applied. *)
Definition replaceGuidAtOffset (buffer : list Z) (offset : Z) (newGuidString : string)
  : list Z :=
  let hex := removeDashes newGuidString in
  foldl (fun data i =>
           Uint8Array_set (offset + Z.of_nat i) (parseInt16 (slice hex (i * 2) (i * 2 + 2))) data)
        buffer (seq 0 16).

(** ** Vocabulary of the statements on the encoder *)

(** A computation that throws in every state. *)
Definition fails {S A} (m : M S A) : Prop := forall s, exists e, m s = Err e.

(** A value that [writeObjectValue] throws on: a number or a string that
    is not wrapped in a record. *)
Definition isBare (v : ObjectValue) : bool :=
  match v with
  | VNumber _ | VFloat _ | VString _ => true
  | _ => false
  end.

(** A GUID record as a decoder builds it, with negative [_a] and [_b]. *)
Definition sampleGuid : ClassRecord :=
  mkClassRecord
    (mkClassInfo 9 "System.Guid" 11
       ["_a"; "_b"; "_c"; "_d"; "_e"; "_f"; "_g"; "_h"; "_i"; "_j"; "_k"]%string)
    None None RecordType.SystemClassWithMembers
    [ ("_a"%string, VNumber (-2)); ("_b"%string, VNumber (-1)); ("_c"%string, VNumber 258);
      ("_d"%string, VNumber 0); ("_e"%string, VNumber 17); ("_f"%string, VNumber 34);
      ("_g"%string, VNumber 51); ("_h"%string, VNumber 68); ("_i"%string, VNumber 85);
      ("_j"%string, VNumber 171); ("_k"%string, VNumber 255) ].

(** ** Streams of the statements on the decoder *)

(** A stream of [n + 2] records: the empty string as root, [n] ObjectNull
    records and the MessageEnd. *)
Definition paddedStream (n : nat) : list Z :=
  headerBytes 1 ++ [RecordType.BinaryObjectString] ++ leBytes 4 1 ++ stringBytes ""
  ++ replicate n RecordType.ObjectNull ++ [RecordType.MessageEnd].

(** ** Values a primitive slot holds exactly *)

(** The one-character strings [readChar] returns. *)
Definition isCharString (s : string) : bool :=
  match charCodeAt0 s with
  | Some b => between 0 b 255 && String.eqb s (fromCharCode b)
  | None => false
  end.

(** The strings [readDecimal] returns: 32 hexadecimal digits in lower
    case. *)
Definition isDecimalString (s : string) : bool :=
  matchesShape (replicate 32 true) s && String.eqb (toLowerCase s) s.

(** A JavaScript string that the reader returns as it was written. *)
Definition isPlainString (s : string) : bool :=
  wellFormedUtf8 (bytesOfString s) && negb (startsWithBOM (bytesOfString s))
  && (Z.of_nat (Datatypes.length (bytesOfString s)) <? 2 ^ 31).

(** [representable type v]: [v] is a value of the primitive type [type]
    that the type's wire form holds exactly.  The 64-bit types are cut to
    the integers a JavaScript number holds exactly; [Single] and [Double]
    are left out. *)
Definition representable (type : Z) (v : ObjectValue) : bool :=
  match v with
  | VNull => type =? PrimitiveType.Null
  | VBoolean _ => type =? PrimitiveType.Boolean
  | VNumber n =>
      ((type =? PrimitiveType.Byte) && between 0 n (2 ^ 8 - 1))
      || ((type =? PrimitiveType.SByte) && between (- 2 ^ 7) n (2 ^ 7 - 1))
      || ((type =? PrimitiveType.Int16) && between (- 2 ^ 15) n (2 ^ 15 - 1))
      || ((type =? PrimitiveType.UInt16) && between 0 n (2 ^ 16 - 1))
      || ((type =? PrimitiveType.Int32) && between (- 2 ^ 31) n (2 ^ 31 - 1))
      || ((type =? PrimitiveType.UInt32) && between 0 n (2 ^ 32 - 1))
      || (((type =? PrimitiveType.Int64) || (type =? PrimitiveType.TimeSpan))
          && between (- (2 ^ 53 - 1)) n (2 ^ 53 - 1))
      || (((type =? PrimitiveType.UInt64) || (type =? PrimitiveType.DateTime))
          && between 0 n (2 ^ 53 - 1))
  | VString s =>
      ((type =? PrimitiveType.Char) && isCharString s)
      || ((type =? PrimitiveType.Decimal) && isDecimalString s)
      || ((type =? PrimitiveType.String) && isPlainString s)
  | VFloat _ | VRecord _ => false
  end.

(** ** Vocabulary of the round trips *)

(** An encoder step that appends [bytes] and leaves the written ids. *)
Definition writesBytes (m : Enc unit) (bytes : list Z) : Prop :=
  forall e, exists e',
    m e = Ok (tt, e')
    /\ toBuffer (writer e') = toBuffer (writer e) ++ bytes
    /\ writtenRecords e' = writtenRecords e.

(** A decoder step that consumes [bytes], whatever follows them, returns
    [a] and leaves the tables. *)
Definition readsBytes {A} (m : Dec A) (bytes : list Z) (a : A) : Prop :=
  forall done rest o rm lm mm,
    m (decoderAt done (bytes ++ rest) o rm lm mm)
    = Ok (a, decoderAt (done ++ bytes) rest o rm lm mm).

(** ** Vocabulary of the statements on paths *)

(** A record that is not a [MemberReferenceRecord]. *)
Definition notReference (r : NrbfRecord) : bool :=
  match r with
  | MemberReferenceRecord _ => false
  | _ => true
  end.

(** A class whose member [a] holds a class record. *)
Definition nestedClass : NrbfRecord :=
  OfClassRecord (mkClassRecord (mkClassInfo 3 "Outer" 1 ["a"%string]) None None
                   RecordType.SystemClassWithMembers
                   [("a"%string, VRecord (OfClassRecord
                       (mkClassRecord (mkClassInfo 1 "C" 1 ["x"%string])
                          (Some (mkMemberTypeInfo [BinaryType.Primitive]
                                   [AtiPrimitive PrimitiveType.Int32]))
                          (Some 2) RecordType.ClassWithMembersAndTypes
                          [("x"%string, VNumber 5)])))]).

(** ** Vocabulary of the statements on the decoder's state *)

(** The reader moved forward over the same buffer, and not past its end
    if it was inside. *)
Definition advances (r r' : BinaryReader) : Prop :=
  view r' = view r
  /\ (offset r <= offset r')%nat
  /\ ((offset r <= Datatypes.length (view r))%nat ->
      (offset r' <= Datatypes.length (view r))%nat).

(** Every entry of the record table leads to a record that carries the
    entry's key as its object id. *)
Definition registered (d : NrbfDecoder) : Prop :=
  forall id ref, recordMap d !! id = Some ref ->
    exists r, objects d !! ref = Some r /\ objectId r = Some id.

(** How a decoder state may evolve. *)
Definition evolves (d d' : NrbfDecoder) : Prop :=
  advances (reader d) (reader d')
  /\ (forall ref r, objects d !! ref = Some r ->
        exists r', objects d' !! ref = Some r' /\ objectId r' = objectId r)
  /\ (registered d -> registered d').

Definition stepsR {A} (m : Rd A) : Prop :=
  forall r a r', m r = Ok (a, r') -> advances r r'.

Definition tracks {A} (m : Dec A) : Prop :=
  forall d a d', m d = Ok (a, d') -> evolves d d'.

(** A class record of the kind ClassWithId, as [decodeClassWithId] builds
    it from the metadata of an earlier class. *)
Definition sampleClassWithId : ClassRecord :=
  mkClassRecord (mkClassInfo 2 "C" 0 []) None (Some 3) RecordType.ClassWithId [].

(** ** Vocabulary of the statements on classes of strings *)

(** The member a class holds for an entry [(name, (id, text))]: a string
    record. *)
Definition stringMember (m : string * (Z * string)) : string * ObjectValue :=
  (m.1, VRecord (BinaryObjectStringRecord m.2.1 m.2.2)).

(** A class record with members and types whose members are all of the
    binary type String, in the order of [members]. *)
Definition stringClass (id : Z) (name : string) (library : Z)
    (members : list (string * (Z * string))) : NrbfRecord :=
  OfClassRecord
    (mkClassRecord
       (mkClassInfo id name (Z.of_nat (Datatypes.length members)) (members.*1))
       (Some (mkMemberTypeInfo (replicate (Datatypes.length members) BinaryType.String)
                (replicate (Datatypes.length members) AtiNone)))
       (Some library) RecordType.ClassWithMembersAndTypes
       (map stringMember members)).

(** What a member needs to be read back as written: a name and a text
    that the reader returns unchanged, and an Int32 object id. *)
Definition plainMember (m : string * (Z * string)) : bool :=
  isPlainString m.1 && (- 2 ^ 31 <=? m.2.1) && (m.2.1 <? 2 ^ 31) && isPlainString m.2.2.

(** The wire form of a string record. *)
Definition memberBytes (m : string * (Z * string)) : list Z :=
  [RecordType.BinaryObjectString] ++ leBytes 4 m.2.1 ++ stringBytes m.2.2.

(** The wire form of a class of strings. *)
Definition stringClassBytes (id : Z) (name : string) (library : Z)
    (members : list (string * (Z * string))) : list Z :=
  [RecordType.ClassWithMembersAndTypes]
  ++ (leBytes 4 id ++ stringBytes name ++ leBytes 4 (Z.of_nat (Datatypes.length members))
      ++ concat (map stringBytes (members.*1)))
  ++ replicate (Datatypes.length members) BinaryType.String
  ++ leBytes 4 library
  ++ concat (map memberBytes members).

Definition sampleMembers : list (string * (Z * string)) :=
  [("first"%string, (2, "Ada"%string)); ("last"%string, (0, sampleText))].

(** [value === null] *)
Definition isNull (value : ObjectValue) : bool :=
  match value with
  | VNull => true
  | _ => false
  end.

(** ** Vocabulary of the statements on null runs *)

(** What stands in the element stream of an array in the statements on
    null runs: a string record, an ObjectNull record, or a null run of
    either kind with its count. *)
Inductive Token :=
  | TString (id : Z) (text : string)
  | TNull
  | TRun256 (count : Z)
  | TRun (count : Z).

(** The wire form of a token. *)
Definition tokenBytes (t : Token) : list Z :=
  match t with
  | TString id text => [RecordType.BinaryObjectString] ++ leBytes 4 id ++ stringBytes text
  | TNull => [RecordType.ObjectNull]
  | TRun256 count => [RecordType.ObjectNullMultiple256; count]
  | TRun count => [RecordType.ObjectNullMultiple] ++ leBytes 4 count
  end.

(** The elements that the loop of [readAllElements] pushes for a token. *)
Definition tokenElements (t : Token) : list ObjectValue :=
  match t with
  | TString id text => [VRecord (BinaryObjectStringRecord id text)]
  | TNull => [VNull]
  | TRun256 count | TRun count => replicate (Z.to_nat count) VNull
  end.

(** What the loop of [readAllElements] adds to [i] for a token. *)
Definition tokenSlots (t : Token) : Z :=
  match t with
  | TString _ _ | TNull => 1
  | TRun256 count | TRun count => count
  end.

(** The bytes of the elements of a token when they are written again:
    one ObjectNull record for each null. *)
Definition tokenReencoded (t : Token) : list Z :=
  match t with
  | TString id text => [RecordType.BinaryObjectString] ++ leBytes 4 id ++ stringBytes text
  | TNull => [RecordType.ObjectNull]
  | TRun256 count | TRun count => replicate (Z.to_nat count) RecordType.ObjectNull
  end.

(** A string token with an Int32 id and a text that is read back as
    written; a count that fits its field (a byte, an Int32). *)
Definition tokenOk (t : Token) : bool :=
  match t with
  | TString id text => (- 2 ^ 31 <=? id) && (id <? 2 ^ 31) && isPlainString text
  | TNull => true
  | TRun256 count => (0 <=? count) && (count <=? 255)
  | TRun count => (- 2 ^ 31 <=? count) && (count <? 2 ^ 31)
  end.

(** The object ids of the string tokens. *)
Definition tokenIds (tokens : list Token) : list Z :=
  omap (fun t => match t with TString id _ => Some id | _ => None end) tokens.

(** [fills count i tokens]: the loop [while (i < count)] of
    [readAllElements] reads exactly [tokens]: it is not done before any
    of them, and it is done after the last. *)
Fixpoint fills (count i : Z) (tokens : list Token) : bool :=
  match tokens with
  | [] => count <=? i
  | t :: tokens' => (i <? count) && fills count (i + tokenSlots t) tokens'
  end.

(** The arrays that are read with null-run expansion: an
    ArraySingleObject, an ArraySingleString, and a BinaryArray, here the
    one-dimensional array of objects. *)
Inductive NullRunArray := ObjectArray | StringArray | BinaryArrayOfObjects.

Definition arrayRecord (kind : NullRunArray) (id length : Z) (elementValues : list ObjectValue)
  : NrbfRecord :=
  match kind with
  | ObjectArray => ArraySingleObjectRecord id length elementValues
  | StringArray => ArraySingleStringRecord id length elementValues
  | BinaryArrayOfObjects =>
      BinaryArrayRecord id BinaryArrayType.Single 1 [length] None BinaryType.Object AtiNone
        elementValues
  end.

(** The wire form of an array record up to its elements. *)
Definition arrayHeaderBytes (kind : NullRunArray) (id length : Z) : list Z :=
  match kind with
  | ObjectArray => [RecordType.ArraySingleObject] ++ leBytes 4 id ++ leBytes 4 length
  | StringArray => [RecordType.ArraySingleString] ++ leBytes 4 id ++ leBytes 4 length
  | BinaryArrayOfObjects =>
      [RecordType.BinaryArray] ++ leBytes 4 id ++ [BinaryArrayType.Single] ++ leBytes 4 1
      ++ leBytes 4 length ++ [BinaryType.Object]
  end.

(** The stream of a root array whose element stream is [tokens]. *)
Definition tokenStream (kind : NullRunArray) (id length : Z) (tokens : list Token) : list Z :=
  headerBytes id ++ arrayHeaderBytes kind id length ++ concat (map tokenBytes tokens)
  ++ [RecordType.MessageEnd].

(** The stream that [encode] returns for the array decoded from
    [tokenStream]. *)
Definition tokenStreamReencoded (kind : NullRunArray) (id length : Z) (tokens : list Token)
  : list Z :=
  headerBytes id ++ arrayHeaderBytes kind id length ++ concat (map tokenReencoded tokens)
  ++ [RecordType.MessageEnd].

(** [readObjectValue] takes the element from [decodeNext]: the array is
    not one of primitives. *)
Definition readsRecords (binaryType : Z) (additionalInfo : AdditionalTypeInfo) : bool :=
  negb ((binaryType =? BinaryType.Primitive)
        && match additionalInfo with AtiPrimitive _ => true | _ => false end).

Definition sampleTokens : list Token :=
  [TString 7 sampleText; TRun256 2; TNull; TRun 3; TString 0 "z"].

(** ** Vocabulary of the statement on array lengths *)

Section ArrayNullRuns.
Variable decodeNext : Dec NrbfRecord.
Variable rounds : nat.

(** The null runs that [decodeArraySingleObject],
    [decodeArraySingleString] and [decodeBinaryArray] meet while they
    read the elements of their array: the header reads of each method
    as the method has them, then [nullRuns] with the count and the
    type that the method passes to [readAllElements]. *)
Definition nullRunsOfArraySingleObject : Dec (list (Z * Z)) :=
  objectId <- onReader readInt32 ;;
  length <- onReader readInt32 ;;
  nullRuns decodeNext rounds length BinaryType.Object AtiNone.

Definition nullRunsOfArraySingleString : Dec (list (Z * Z)) :=
  objectId <- onReader readInt32 ;;
  length <- onReader readInt32 ;;
  nullRuns decodeNext rounds length BinaryType.String AtiNone.

Definition nullRunsOfBinaryArray : Dec (list (Z * Z)) :=
  objectId <- onReader readInt32 ;;
  binaryArrayTypeEnum <- onReader readByte ;;
  rank <- onReader readInt32 ;;
  lengths <- times (Z.to_nat rank) (onReader readInt32) ;;
  lowerBounds <-
    (if (binaryArrayTypeEnum =? BinaryArrayType.SingleOffset)
        || (binaryArrayTypeEnum =? BinaryArrayType.JaggedOffset)
        || (binaryArrayTypeEnum =? BinaryArrayType.RectangularOffset)
     then bounds <- times (Z.to_nat rank) (onReader readInt32) ;; ret (Some bounds)
     else ret None) ;;
  typeEnum <- onReader readByte ;;
  additionalTypeInfo <- readAdditionalTypeInfo typeEnum ;;
  nullRuns decodeNext rounds (getTotalLength lengths) typeEnum additionalTypeInfo.
End ArrayNullRuns.

(** ** Vocabulary of the statement on duplicate object ids *)

(** The decoder with another record table in place of its own. *)
Definition withRecordMap (table : gmap Z nat) (d : NrbfDecoder) : NrbfDecoder :=
  mkDecoder (reader d) (objects d) table (libraryMap d) (metadataMap d).

(** A decoder step that never looks into the record table: whatever the
    table holds, the step returns the same value or throws the same
    error, and what it enters into the table ([entered]) goes over the
    entries that were there. *)
Definition oblivious {A} (m : Dec A) : Prop :=
  forall d,
    match m d with
    | Ok (a, d') =>
        exists entered : gmap Z nat,
          forall table,
            m (withRecordMap table d) = Ok (a, withRecordMap (entered ∪ table) d')
    | Err e => forall table, m (withRecordMap table d) = Err e
    end.

(** The id under which the decoder enters a record into the record
    table: a string, a class record and an array go in under their
    object id; a BinaryLibrary goes to the library table, and the other
    records have no id. *)
Definition tableId (record : NrbfRecord) : option Z :=
  match record with
  | BinaryLibrary _ _ => None
  | _ => objectId record
  end.

(** ** Vocabulary of the statement on the emitted set *)



(** * Properties *)

(** ** Integer operators *)

Lemma toInt32_id z : - 2 ^ 31 <= z < 2 ^ 31 -> toInt32 z = z.
Proof. intros H. unfold toInt32. rewrite Z.mod_small; lia. Qed.

Lemma toInt32_range z : - 2 ^ 31 <= toInt32 z < 2 ^ 31.
Proof. unfold toInt32. pose proof (Z.mod_pos_bound (z + 2 ^ 31) (2 ^ 32)). lia. Qed.

Lemma land_127 v : 0 <= v -> Z.land v 127 = v mod 128.
Proof. intros. change 127 with (Z.ones 7). rewrite Z.land_ones by lia. reflexivity. Qed.

Lemma js_and_127 v : 0 <= v < 2 ^ 31 -> js_and v 127 = v mod 128.
Proof.
  intros H. unfold js_and. rewrite (toInt32_id v), (toInt32_id 127) by lia.
  rewrite land_127 by lia. apply toInt32_id.
  pose proof (Z.mod_pos_bound v 128). lia.
Qed.

Lemma js_sar_7 v : - 2 ^ 31 <= v < 2 ^ 31 -> js_sar v 7 = v / 128.
Proof.
  intros H. unfold js_sar. rewrite toInt32_id by lia.
  change (toUint32 7 mod 32) with 7. rewrite Z.shiftr_div_pow2 by lia. reflexivity.
Qed.

(** [a | (d << k)] adds when [a] fits below bit [k]. *)
Lemma lor_shiftl_add a d k :
  0 <= k -> 0 <= a < 2 ^ k -> 0 <= d -> Z.lor a (Z.shiftl d k) = a + d * 2 ^ k.
Proof.
  intros Hk Ha Hd.
  assert (Hdisj : Z.land a (Z.shiftl d k) = 0).
  { apply Z.bits_inj'. intros i Hi. rewrite Z.land_spec, Z.bits_0.
    destruct (Z.lt_ge_cases i k).
    - rewrite Z.shiftl_spec_low by lia. apply andb_false_r.
    - replace a with (a mod 2 ^ k) by (apply Z.mod_small; lia).
      rewrite Z.mod_pow2_bits_high by lia. reflexivity. }
  rewrite <- Z.lxor_lor by exact Hdisj.
  rewrite <- Z.add_nocarry_lxor by exact Hdisj.
  rewrite Z.shiftl_mul_pow2 by lia. reflexivity.
Qed.

Lemma js_or_128 b : 0 <= b < 128 -> js_or b 128 = b + 128.
Proof.
  intros H. unfold js_or. rewrite (toInt32_id b), (toInt32_id 128) by lia.
  change 128 with (Z.shiftl 1 7) at 1. rewrite lor_shiftl_add by lia.
  apply toInt32_id. lia.
Qed.

(** A property of the integers below [n], checked by running it. *)
Lemma Z_below_forallb (P : Z -> bool) (n : nat) :
  forallb P (map Z.of_nat (seq 0 n)) = true -> forall z, 0 <= z < Z.of_nat n -> P z = true.
Proof.
  intros H z Hz. rewrite forallb_forall in H. apply H.
  apply in_map_iff. exists (Z.to_nat z). split; [ lia | ]. apply in_seq. lia.
Qed.

Lemma js_and_byte b :
  0 <= b < 256 -> js_and b 127 = b mod 128 /\ (js_and b 128 =? 0) = (b <? 128).
Proof.
  intros H.
  pose proof (Z_below_forallb
    (fun b => (js_and b 127 =? b mod 128) && Bool.eqb (js_and b 128 =? 0) (b <? 128)) 256
    ltac:(vm_compute; reflexivity) b H) as Hb.
  apply andb_true_iff in Hb as [H1 H2].
  apply Z.eqb_eq in H1. apply Bool.eqb_prop in H2. auto.
Qed.

Lemma js_shl_small d shift :
  0 <= d -> 0 <= shift < 32 -> d * 2 ^ shift < 2 ^ 31 -> js_shl d shift = d * 2 ^ shift.
Proof.
  intros Hd Hs Hlt. unfold js_shl, toUint32.
  assert (0 < 2 ^ shift) by (apply Z.pow_pos_nonneg; lia).
  rewrite (toInt32_id d) by nia.
  rewrite (Z.mod_small shift (2 ^ 32)) by lia. rewrite (Z.mod_small shift 32) by lia.
  rewrite Z.shiftl_mul_pow2 by lia. apply toInt32_id. nia.
Qed.

Lemma js_or_disjoint value d shift :
  0 <= shift -> 0 <= value < 2 ^ shift -> 0 <= d -> value + d * 2 ^ shift < 2 ^ 31 ->
  js_or value (d * 2 ^ shift) = value + d * 2 ^ shift.
Proof.
  intros Hs Hv Hd Hlt. unfold js_or.
  assert (0 <= d * 2 ^ shift) by nia.
  rewrite (toInt32_id value), (toInt32_id (d * 2 ^ shift)) by lia.
  pose proof (lor_shiftl_add value d shift Hs Hv Hd) as E.
  rewrite Z.shiftl_mul_pow2 in E by lia. rewrite E.
  apply toInt32_id. lia.
Qed.

(** ** BinaryReader and BinaryWriter *)

Lemma toBuffer_push chunk w : toBuffer (push chunk w) = toBuffer w ++ chunk.
Proof. unfold toBuffer, push. simpl. rewrite concat_app. simpl. by rewrite app_nil_r. Qed.

Lemma toBuffer_writeByte b w : toBuffer (writeByte b w) = toBuffer w ++ [toUint8 b].
Proof. apply toBuffer_push. Qed.

Lemma readByte_at pre b post :
  readByte (mkReader (pre ++ b :: post) (Datatypes.length pre))
  = Ok (b, mkReader (pre ++ b :: post) (Datatypes.length pre + 1)).
Proof.
  unfold readByte. simpl. rewrite lookup_app_r by lia.
  replace (Datatypes.length pre - Datatypes.length pre)%nat with 0%nat by lia. reflexivity.
Qed.

(** ** Variable-length integers *)

(** One round of the writer's loop on a non-negative Int32. *)
Lemma writeVariableLengthInt_loop_step rounds v w :
  0 <= v < 2 ^ 31 ->
  writeVariableLengthInt_loop (S rounds) v w
  = if 0 <? v / 128
    then writeVariableLengthInt_loop rounds (v / 128) (writeByte (v mod 128 + 128) w)
    else writeByte (v mod 128) w.
Proof.
  intros H. simpl. rewrite js_and_127, js_sar_7 by lia.
  rewrite js_or_128 by (pose proof (Z.mod_pos_bound v 128); lia). reflexivity.
Qed.

(** The [while (true)] loop of the writer breaks within five rounds: more
    rounds change nothing. *)
Lemma writeVariableLengthInt_rounds extra value w :
  writeVariableLengthInt_loop (5 + extra) value w = writeVariableLengthInt_loop 5 value w.
Proof.
  assert (Hsar : forall x, - 2 ^ 31 <= js_sar x 7 < 2 ^ 24).
  { intros x. unfold js_sar. change (toUint32 7 mod 32) with 7.
    rewrite Z.shiftr_div_pow2 by lia. pose proof (toInt32_range x).
    change (2 ^ 7) with 128. split.
    - apply Z.div_le_lower_bound; lia.
    - apply Z.div_lt_upper_bound; lia. }
  assert (Hdiv : forall x bound, 0 < js_sar x 7 -> js_sar x 7 < 128 * bound ->
                                 js_sar (js_sar x 7) 7 < bound).
  { intros x bound Hpos Hlt. rewrite js_sar_7 by (pose proof (Hsar x); lia).
    apply Z.div_lt_upper_bound; lia. }
  change (5 + extra)%nat with (S (S (S (S (S extra))))).
  cbn [writeVariableLengthInt_loop].
  pose proof (Hsar value) as H1.
  destruct (0 <? js_sar value 7) eqn:E1; [ | reflexivity ]. apply Z.ltb_lt in E1.
  pose proof (Hdiv value (2 ^ 17) E1 ltac:(lia)) as H2.
  destruct (0 <? js_sar (js_sar value 7) 7) eqn:E2; [ | reflexivity ]. apply Z.ltb_lt in E2.
  pose proof (Hdiv _ (2 ^ 10) E2 ltac:(lia)) as H3.
  destruct (0 <? js_sar (js_sar (js_sar value 7) 7) 7) eqn:E3; [ | reflexivity ].
  apply Z.ltb_lt in E3.
  pose proof (Hdiv _ (2 ^ 3) E3 ltac:(lia)) as H4.
  destruct (0 <? js_sar (js_sar (js_sar (js_sar value 7) 7) 7) 7) eqn:E4; [ | reflexivity ].
  apply Z.ltb_lt in E4.
  pose proof (Hdiv _ 1 E4 ltac:(lia)) as H5.
  destruct (0 <? js_sar (js_sar (js_sar (js_sar (js_sar value 7) 7) 7) 7) 7) eqn:E5;
    [ apply Z.ltb_lt in E5; lia | reflexivity ].
Qed.

Lemma writeVariableLengthInt_loop_appends rounds : forall n w,
  0 <= n < 2 ^ 31 ->
  toBuffer (writeVariableLengthInt_loop rounds n w) = toBuffer w ++ varintBytes rounds n.
Proof.
  induction rounds as [ | rounds IH ]; intros n w Hn.
  - unfold varintBytes. simpl. by rewrite app_nil_r.
  - unfold varintBytes. rewrite !writeVariableLengthInt_loop_step by lia.
    assert (0 <= n / 128 < 2 ^ 31).
    { split; [ apply Z.div_pos; lia | apply Z.div_lt_upper_bound; lia ]. }
    destruct (0 <? n / 128).
    + rewrite (IH _ (writeByte _ w)), (IH _ (writeByte _ (mkWriter []))) by lia.
      rewrite !toBuffer_writeByte. by rewrite app_assoc.
    + by rewrite !toBuffer_writeByte.
Qed.

Lemma varintBytes_step rounds n :
  0 <= n < 2 ^ 31 ->
  varintBytes (S rounds) n
  = if 0 <? n / 128 then (n mod 128 + 128) :: varintBytes rounds (n / 128) else [n mod 128].
Proof.
  intros Hn. unfold varintBytes at 1. rewrite writeVariableLengthInt_loop_step by lia.
  pose proof (Z.mod_pos_bound n 128 ltac:(lia)).
  assert (0 <= n / 128 < 2 ^ 31).
  { split; [ apply Z.div_pos; lia | apply Z.div_lt_upper_bound; lia ]. }
  destruct (0 <? n / 128).
  - rewrite writeVariableLengthInt_loop_appends by lia.
    rewrite toBuffer_writeByte. unfold toUint8. simpl.
    rewrite Z.mod_small by lia. reflexivity.
  - rewrite toBuffer_writeByte. unfold toUint8. simpl.
    rewrite Z.mod_small by lia. reflexivity.
Qed.

Lemma varintBytes_length rounds : forall n,
  0 <= n < 2 ^ 31 ->
  (1 <= Datatypes.length (varintBytes (S rounds) n) <= S rounds)%nat.
Proof.
  induction rounds as [ | rounds IH ]; intros n Hn.
  - rewrite varintBytes_step by lia. destruct (0 <? n / 128); simpl; lia.
  - rewrite varintBytes_step by lia.
    assert (0 <= n / 128 < 2 ^ 31).
    { split; [ apply Z.div_pos; lia | apply Z.div_lt_upper_bound; lia ]. }
    destruct (0 <? n / 128); [ | simpl; lia ].
    specialize (IH (n / 128) ltac:(lia)). simpl in *. lia.
Qed.

Lemma readVariableLengthInt_loop_step rounds value shift pre b post :
  readVariableLengthInt_loop (S rounds) value shift
    (mkReader (pre ++ b :: post) (Datatypes.length pre))
  = let value' := js_or value (js_shl (js_and b 127) shift) in
    if js_and b 128 =? 0
    then Ok (value', mkReader (pre ++ b :: post) (Datatypes.length pre + 1))
    else readVariableLengthInt_loop rounds value' (shift + 7)
           (mkReader (pre ++ b :: post) (Datatypes.length pre + 1)).
Proof.
  cbn [readVariableLengthInt_loop]. unfold bind. rewrite readByte_at.
  cbv zeta. destruct (js_and b 128 =? 0); reflexivity.
Qed.

(** Reading back what the writer's loop wrote, from any point of a buffer
    and with any part of the value already accumulated. *)
Lemma readVariableLengthInt_loop_varintBytes rounds : forall n value shift pre post,
  0 <= n -> 0 <= shift < 32 -> 0 <= value < 2 ^ shift ->
  value + n * 2 ^ shift < 2 ^ 31 ->
  n < 128 ^ Z.of_nat (S rounds) ->
  readVariableLengthInt_loop (S rounds) value shift
    (mkReader (pre ++ varintBytes (S rounds) n ++ post) (Datatypes.length pre))
  = Ok (value + n * 2 ^ shift,
        mkReader (pre ++ varintBytes (S rounds) n ++ post)
          (Datatypes.length pre + Datatypes.length (varintBytes (S rounds) n))).
Proof.
  induction rounds as [ | rounds IH ]; intros n value shift pre post Hn Hshift Hvalue Hsum Hlt.
  all: assert (Hpow : 0 < 2 ^ shift) by (apply Z.pow_pos_nonneg; lia).
  all: assert (Hn31 : n < 2 ^ 31) by nia.
  all: pose proof (Z.mod_pos_bound n 128 ltac:(lia)) as Hmod.
  all: pose proof (Z.div_mod n 128 ltac:(lia)) as Hdm.
  all: assert (Hdiv : 0 <= n / 128) by (apply Z.div_pos; lia).
  all: rewrite varintBytes_step by lia.
  all: destruct (0 <? n / 128) eqn:E; [ apply Z.ltb_lt in E | apply Z.ltb_ge in E ].
  all: simpl app; rewrite readVariableLengthInt_loop_step; cbv zeta.
  - exfalso. change (128 ^ Z.of_nat 1) with 128 in Hlt. lia.
  - destruct (js_and_byte (n mod 128) ltac:(lia)) as [Ha Hb].
    rewrite Ha, Hb.
    replace (n mod 128 <? 128) with true by (symmetry; apply Z.ltb_lt; lia).
    rewrite (Z.mod_small (n mod 128) 128) by lia.
    assert (n mod 128 = n) by lia.
    rewrite js_shl_small by nia. rewrite js_or_disjoint by nia.
    rewrite H. simpl Datatypes.length. reflexivity.
  - destruct (js_and_byte (n mod 128 + 128) ltac:(lia)) as [Ha Hb].
    rewrite Ha, Hb.
    replace (n mod 128 + 128 <? 128) with false by (symmetry; apply Z.ltb_ge; lia).
    replace ((n mod 128 + 128) mod 128) with (n mod 128)
      by (rewrite <- Z.add_mod_idemp_r, Z.add_0_r, Z.mod_mod by lia; reflexivity).
    assert (Hshift7 : shift + 7 < 31).
    { apply (Z.pow_lt_mono_r_iff 2); [ lia | lia | ].
      rewrite Z.pow_add_r by lia. change (2 ^ 7) with 128. nia. }
    rewrite js_shl_small by nia. rewrite js_or_disjoint by nia.
    replace (pre ++ (n mod 128 + 128) :: varintBytes (S rounds) (n / 128) ++ post)
      with ((pre ++ [n mod 128 + 128]) ++ varintBytes (S rounds) (n / 128) ++ post)
      by (rewrite <- app_assoc; reflexivity).
    replace (Datatypes.length pre + 1)%nat with (Datatypes.length (pre ++ [n mod 128 + 128]))
      by (rewrite length_app; simpl; lia).
    assert (Hpow7 : 2 ^ (shift + 7) = 128 * 2 ^ shift)
      by (rewrite Z.pow_add_r by lia; change (2 ^ 7) with 128; lia).
    rewrite IH.
    + replace (value + n mod 128 * 2 ^ shift + n / 128 * 2 ^ (shift + 7))
        with (value + n * 2 ^ shift) by (rewrite Hpow7; nia).
      rewrite length_app. simpl Datatypes.length. do 3 f_equal. lia.
    + lia.
    + lia.
    + rewrite Hpow7. nia.
    + rewrite Hpow7. nia.
    + rewrite Nat2Z.inj_succ, Z.pow_succ_r in Hlt by lia.
      apply Z.div_lt_upper_bound; lia.
  - destruct (js_and_byte (n mod 128) ltac:(lia)) as [Ha Hb].
    rewrite Ha, Hb.
    replace (n mod 128 <? 128) with true by (symmetry; apply Z.ltb_lt; lia).
    rewrite (Z.mod_small (n mod 128) 128) by lia.
    assert (n mod 128 = n) by lia.
    rewrite js_shl_small by nia. rewrite js_or_disjoint by nia.
    rewrite H. simpl Datatypes.length. reflexivity.
Qed.

(** [readVariableLengthInt] after [writeVariableLengthInt], inside a
    larger buffer. *)
Lemma readVariableLengthInt_varintBytes n pre post :
  0 <= n < 2 ^ 31 ->
  readVariableLengthInt (mkReader (pre ++ varintBytes 5 n ++ post) (Datatypes.length pre))
  = Ok (n, mkReader (pre ++ varintBytes 5 n ++ post)
             (Datatypes.length pre + Datatypes.length (varintBytes 5 n))).
Proof.
  intros Hn. unfold readVariableLengthInt.
  rewrite readVariableLengthInt_loop_varintBytes; try lia.
  - do 2 f_equal. lia.
Qed.

(** C5. For every integer [n] with [0 <= n <= 2^31 - 1], reading back the
    bytes that [writeVariableLengthInt(n)] produced with
    [readVariableLengthInt] yields exactly [n] (and consumes all of them),
    and between 1 and 5 bytes were written. *)
Theorem varint_roundtrip (n : Z) :
  0 <= n <= 2 ^ 31 - 1 ->
  let bytes := toBuffer (writeVariableLengthInt n (mkWriter [])) in
  readVariableLengthInt (mkReader bytes 0) = Ok (n, mkReader bytes (Datatypes.length bytes))
  /\ (1 <= Datatypes.length bytes <= 5)%nat.
Proof.
  intros Hn bytes. subst bytes. unfold writeVariableLengthInt. fold (varintBytes 5 n).
  split.
  - pose proof (readVariableLengthInt_varintBytes n [] [] ltac:(lia)) as H.
    simpl in H. rewrite app_nil_r in H. exact H.
  - apply varintBytes_length. lia.
Qed.

Lemma varint_roundtrip_witness :
  0 <= 300 <= 2 ^ 31 - 1 /\
  (let bytes := toBuffer (writeVariableLengthInt 300 (mkWriter [])) in
   readVariableLengthInt (mkReader bytes 0) = Ok (300, mkReader bytes (Datatypes.length bytes))
   /\ (1 <= Datatypes.length bytes <= 5)%nat).
Proof. split; [ lia | apply (varint_roundtrip 300); lia ]. Defined.

(** ** ClassRecord *)

Lemma Map_get_set {V} key (value : V) m : Map_get key (Map_set key value m) = Some value.
Proof.
  induction m as [ | [k v] m IH ]; simpl.
  - by rewrite String.eqb_refl.
  - destruct (String.eqb k key) eqn:E; simpl; rewrite E; [ reflexivity | exact IH ].
Qed.

Lemma Map_getWith_get {V B} key (found : V -> B) missing m :
  Map_getWith key found missing m
  = match Map_get key m with Some v => found v | None => missing end.
Proof.
  induction m as [ | [k v] m IH ]; simpl; [ reflexivity | ].
  destruct (String.eqb k key); [ reflexivity | exact IH ].
Qed.

Lemma includes_elem_of name names : includes name names = true <-> name ∈ names.
Proof.
  induction names as [ | n names IH ]; simpl.
  - split; [ discriminate | intros H; destruct (not_elem_of_nil _ H) ].
  - rewrite orb_true_iff, IH, String.eqb_eq, elem_of_cons. split; intros [H | H]; auto.
Qed.

(** C8. [setValue] on a name outside [memberNames] fails with the
    unknown-member error and leaves the record (so its [memberValues])
    as it was; on a name of [memberNames] it succeeds for every value,
    whatever [memberTypeInfo] says, and [getValue] then returns that
    value. *)
Theorem setValue_spec (r : ClassRecord) (name : string) (v : ObjectValue) :
  ((name ∉ memberNames (classInfo r)) ->
     setValue name v r = (Err (UnknownMember name (ci_name (classInfo r))), r))
  /\ ((name ∈ memberNames (classInfo r)) ->
        exists r', setValue name v r = (Ok tt, r')
                   /\ getValue name r' = Some v
                   /\ memberTypeInfo r' = memberTypeInfo r).
Proof.
  split; intros H; unfold setValue.
  - destruct (includes name (memberNames (classInfo r))) eqn:E; [ | reflexivity ].
    apply includes_elem_of in E. contradiction.
  - apply includes_elem_of in H. rewrite H. simpl.
    eexists. split; [ reflexivity | ]. split; [ | reflexivity ].
    unfold getValue. simpl. apply Map_get_set.
Qed.

Lemma setValue_spec_witness :
  (("y"%string ∉ memberNames (classInfo sampleClass))
   /\ setValue "y" (VString "s") sampleClass
      = (Err (UnknownMember "y" (ci_name (classInfo sampleClass))), sampleClass))
  /\ (("x"%string ∈ memberNames (classInfo sampleClass))
      /\ exists r', setValue "x" (VString "s") sampleClass = (Ok tt, r')
                    /\ getValue "x" r' = Some (VString "s")
                    /\ memberTypeInfo r' = memberTypeInfo sampleClass).
Proof.
  split.
  - assert (H : "y"%string ∉ memberNames (classInfo sampleClass))
      by (apply (bool_decide_unpack _); vm_compute; exact I).
    split; [ exact H | ].
    exact (proj1 (setValue_spec sampleClass "y" (VString "s")) H).
  - assert (H : "x"%string ∈ memberNames (classInfo sampleClass))
      by (apply (bool_decide_unpack _); vm_compute; exact I).
    split; [ exact H | ].
    exact (proj2 (setValue_spec sampleClass "x" (VString "s")) H).
Defined.

(** ** Induction over nested records *)

Lemma NrbfRecord_children_ind (P : NrbfRecord -> Prop) :
  (forall r, (forall r', VRecord r' ∈ children r -> P r') -> P r) -> forall r, P r.
Proof.
  intros H. fix IH 1. intros r. apply H.
  destruct r as [ | | [ci mti lib rt mv] | ? ? ? ? ? ? ? l | ? ? ? l | ? ? l | ? ? l | | ? v | | | | | ];
    simpl; try (intros r' Hin; destruct (not_elem_of_nil _ Hin)).
  - induction mv as [ | [k v] mv IHmv ]; simpl; intros r' Hin.
    + destruct (not_elem_of_nil _ Hin).
    + apply elem_of_cons in Hin as [E | Hin]; [ | exact (IHmv _ Hin) ].
      destruct v; try discriminate. injection E as ->. apply IH.
  - induction l as [ | v l IHl ]; intros r' Hin; [ destruct (not_elem_of_nil _ Hin) | ].
    apply elem_of_cons in Hin as [E | Hin]; [ | exact (IHl _ Hin) ].
    destruct v; try discriminate. injection E as ->. apply IH.
  - induction l as [ | v l IHl ]; intros r' Hin; [ destruct (not_elem_of_nil _ Hin) | ].
    apply elem_of_cons in Hin as [E | Hin]; [ | exact (IHl _ Hin) ].
    destruct v; try discriminate. injection E as ->. apply IH.
  - induction l as [ | v l IHl ]; intros r' Hin; [ destruct (not_elem_of_nil _ Hin) | ].
    apply elem_of_cons in Hin as [E | Hin]; [ | exact (IHl _ Hin) ].
    destruct v; try discriminate. injection E as ->. apply IH.
  - induction l as [ | v l IHl ]; intros r' Hin; [ destruct (not_elem_of_nil _ Hin) | ].
    apply elem_of_cons in Hin as [E | Hin]; [ | exact (IHl _ Hin) ].
    destruct v; try discriminate. injection E as ->. apply IH.
  - intros r' Hin. apply list_elem_of_singleton in Hin.
    destruct v; try discriminate. injection Hin as ->. apply IH.
Qed.

(** ** The encoder only appends and only adds non-zero ids *)

Lemma appending_push chunk : appending (push chunk).
Proof. intros w. exists chunk. apply toBuffer_push. Qed.

Lemma appending_compose f g : appending f -> appending g -> appending (fun w => g (f w)).
Proof.
  intros Hf Hg w. destruct (Hf w) as [o1 H1]. destruct (Hg (f w)) as [o2 H2].
  exists (o1 ++ o2). rewrite H2, H1. by rewrite app_assoc.
Qed.

Lemma appending_writeVariableLengthInt_loop rounds :
  forall value, appending (writeVariableLengthInt_loop rounds value).
Proof.
  induction rounds as [ | rounds IH ]; intros value w; cbn [writeVariableLengthInt_loop].
  - exists []. by rewrite app_nil_r.
  - destruct (0 <? js_sar value 7).
    + apply (appending_compose (writeByte _) _ (appending_push _) (IH _)).
    + apply appending_push.
Qed.

Lemma appending_writeLengthPrefixedString str : appending (writeLengthPrefixedString str).
Proof.
  unfold writeLengthPrefixedString.
  apply (appending_compose (writeVariableLengthInt _) (push _));
    [ apply appending_writeVariableLengthInt_loop | apply appending_push ].
Qed.

Lemma appending_writeDecimal hexString : appending (writeDecimal hexString).
Proof.
  unfold writeDecimal. generalize (seq 0 16). intros l.
  induction l as [ | k l IH ] using rev_ind; intros w.
  - exists []. by rewrite app_nil_r.
  - rewrite foldl_app. simpl.
    apply (appending_compose (fun w => foldl _ w l) (push _) IH (appending_push _)).
Qed.

Lemma extends_refl e : extends e e.
Proof. split; [ exists []; by rewrite app_nil_r | split; [ set_solver | auto ] ]. Qed.

Lemma extends_trans e1 e2 e3 : extends e1 e2 -> extends e2 e3 -> extends e1 e3.
Proof.
  intros ([o1 H1] & S1 & Z1) ([o2 H2] & S2 & Z2). split; [ | split ].
  - exists (o1 ++ o2). rewrite H2, H1. by rewrite app_assoc.
  - set_solver.
  - auto.
Qed.

Lemma steady_ret {A} (a : A) : steady (ret a).
Proof. intros e a' e' H. injection H as _ <-. apply extends_refl. Qed.

Lemma steady_throw {A} err : steady (@throw _ A err).
Proof. intros e a e' H. discriminate. Qed.

Lemma steady_bind {A B} (m : Enc A) (f : A -> Enc B) :
  steady m -> (forall a, steady (f a)) -> steady (bind m f).
Proof.
  intros Hm Hf e b e' H. unfold bind in H.
  destruct (m e) as [[a e1] | ] eqn:E; [ | discriminate ].
  eapply extends_trans; [ eapply Hm; exact E | eapply Hf; exact H ].
Qed.

Lemma steady_gets {A} (f : NrbfEncoder -> A) : steady (gets f).
Proof. intros e a e' H. injection H as _ <-. apply extends_refl. Qed.

Lemma steady_onWriter f : appending f -> steady (onWriter f).
Proof.
  intros Hf e a e' H. injection H as H. subst e'. simpl.
  split; [ apply Hf | simpl; split; [ set_solver | auto ] ].
Qed.

Lemma steady_forEach {A} (body : A -> Enc unit) l :
  (forall x, x ∈ l -> steady (body x)) -> steady (forEach body l).
Proof.
  induction l as [ | x l IH ]; intros H; simpl.
  - apply steady_ret.
  - apply steady_bind; [ apply H; left | intros _; apply IH; intros y Hy; apply H; by right ].
Qed.

Lemma steady_markWritten record : steady (markWritten record).
Proof.
  unfold markWritten. destruct (objectId record) as [id | ]; [ | apply steady_ret ].
  destruct (id =? 0) eqn:E; [ apply steady_ret | ]. apply Z.eqb_neq in E.
  intros e a e' H. injection H as H. subst e'. split; [ | split ]; simpl.
  - exists []. by rewrite app_nil_r.
  - set_solver.
  - intros H0. apply elem_of_union in H0 as [H0 | H0]; [ | exact H0 ].
    apply elem_of_singleton in H0. congruence.
Qed.

Create HintDb steady.
#[local] Hint Resolve steady_ret steady_throw steady_gets steady_markWritten : steady.

Ltac appending_tac :=
  unfold writeBoolean, writeDateTime, writeTimeSpan, writeByte, writeSByte, writeInt16,
    writeUInt16, writeInt32, writeUInt32, writeInt64, writeUInt64, writeChar;
  first [ apply appending_push
        | apply appending_writeLengthPrefixedString
        | apply appending_writeDecimal ].

Ltac steady_writer := apply steady_onWriter; appending_tac.

Lemma steady_writeAdditionalTypeInfo info : steady (writeAdditionalTypeInfo info).
Proof.
  destruct info; simpl; auto with steady.
  - steady_writer.
  - steady_writer.
  - apply steady_bind; intros; steady_writer.
Qed.

Lemma steady_writeClassInfo classInfo : steady (writeClassInfo classInfo).
Proof.
  unfold writeClassInfo.
  repeat (apply steady_bind; [ steady_writer | intros _ ]).
  apply steady_forEach. intros; steady_writer.
Qed.

Lemma steady_writeMemberTypeInfo memberTypeInfo : steady (writeMemberTypeInfo memberTypeInfo).
Proof.
  unfold writeMemberTypeInfo. apply steady_bind; [ | intros _ ].
  - apply steady_forEach. intros; steady_writer.
  - apply steady_forEach. intros; apply steady_writeAdditionalTypeInfo.
Qed.

Section EncodeSteady.
Variable coerceWrite : Z -> ObjectValue -> result (list Z).

Lemma steady_coerced type value : steady (coerced coerceWrite type value).
Proof.
  unfold coerced. destruct (coerceWrite type value); auto with steady.
  steady_writer.
Qed.

Lemma steady_writePrimitiveValue value type :
  steady (writePrimitiveValue coerceWrite value type).
Proof.
  unfold writePrimitiveValue.
  destruct value as [ | b | n | ieee | s | r ]; auto with steady.
  all: repeat match goal with
         | |- steady (if ?c then _ else _) => destruct c
         end.
  all: try apply steady_coerced; try steady_writer; auto with steady.
  all: repeat match goal with
         | |- steady (match ?l with [] => _ | _ :: _ => _ end) => destruct l
         end.
  all: try apply steady_coerced; try steady_writer; auto with steady.
Qed.

Lemma encodeRecord_unfold record :
  encodeRecord coerceWrite record
  = encodeRecord_body coerceWrite (encodeRecord coerceWrite) record.
Proof. destruct record; reflexivity. Qed.

Lemma steady_writeObjectValue encodeRecord value :
  (forall r, value = VRecord r -> steady (encodeRecord r)) ->
  steady (writeObjectValue encodeRecord value).
Proof.
  intros H. destruct value; simpl; auto with steady.
  - steady_writer.
  - steady_writer.
Qed.

Lemma steady_encodeRecord_dispatch encodeRecord record :
  (forall r, VRecord r ∈ children record -> steady (encodeRecord r)) ->
  steady (encodeRecord_dispatch coerceWrite encodeRecord record).
Proof.
  intros H.
  assert (Helements : forall l, (forall r, VRecord r ∈ l -> steady (encodeRecord r)) ->
            steady (forEach (writeObjectValue encodeRecord) l)).
  { intros l Hl. apply steady_forEach. intros v Hv. apply steady_writeObjectValue.
    intros r ->. by apply Hl. }
  destruct record as [ | | c | | | | | | | | | | | ]; simpl in *; auto with steady.
  - unfold encodeBinaryLibrary.
    repeat (apply steady_bind; [ steady_writer | intros _ ]).
    steady_writer.
  - unfold encodeClassRecord.
    apply steady_bind; [ steady_writer | intros _ ].
    apply steady_bind; [ apply steady_writeClassInfo | intros _ ].
    apply steady_bind; [ | intros _ ].
    { destruct (_ || _); auto with steady.
      destruct (memberTypeInfo c); auto with steady. apply steady_writeMemberTypeInfo. }
    apply steady_bind; [ | intros _ ].
    { destruct (_ || _); auto with steady. steady_writer. }
    apply steady_forEach. intros memberName _. rewrite Map_getWith_get.
    destruct (Map_get memberName (memberValues c)) as [v | ] eqn:E.
    + apply steady_writeObjectValue. intros r ->. apply H.
      clear -E. induction (memberValues c) as [ | [k v] m IH ]; simpl in *; [ discriminate | ].
      destruct (String.eqb k memberName); [ injection E as ->; left | right; auto ].
    + steady_writer.
  - unfold encodeBinaryArrayRecord.
    repeat (apply steady_bind; [ steady_writer | intros _ ]).
    apply steady_bind; [ | intros _ ].
    { apply steady_forEach. intros; steady_writer. }
    apply steady_bind; [ | intros _ ].
    { destruct lowerBounds; auto with steady.
      apply steady_forEach. intros; steady_writer. }
    apply steady_bind; [ steady_writer | intros _ ].
    apply steady_bind; [ apply steady_writeAdditionalTypeInfo | intros _ ].
    by apply Helements.
  - unfold encodeArraySinglePrimitive.
    repeat (apply steady_bind; [ steady_writer | intros _ ]).
    apply steady_forEach. intros; apply steady_writePrimitiveValue.
  - unfold encodeArraySingleObject.
    repeat (apply steady_bind; [ steady_writer | intros _ ]).
    by apply Helements.
  - unfold encodeArraySingleString.
    repeat (apply steady_bind; [ steady_writer | intros _ ]).
    by apply Helements.
  - unfold encodeBinaryObjectString.
    repeat (apply steady_bind; [ steady_writer | intros _ ]).
    steady_writer.
  - unfold encodeMemberPrimitiveTyped.
    repeat (apply steady_bind; [ steady_writer | intros _ ]).
    apply steady_writePrimitiveValue.
  - unfold encodeMemberReference.
    repeat (apply steady_bind; [ steady_writer | intros _ ]).
    steady_writer.
  - steady_writer.
  - unfold encodeObjectNullMultiple.
    repeat (apply steady_bind; [ steady_writer | intros _ ]).
    steady_writer.
  - unfold encodeObjectNullMultiple256.
    repeat (apply steady_bind; [ steady_writer | intros _ ]).
    steady_writer.
Qed.

Lemma steady_encodeRecord record : steady (encodeRecord coerceWrite record).
Proof.
  induction record as [record IH] using NrbfRecord_children_ind.
  rewrite encodeRecord_unfold. unfold encodeRecord_body.
  apply steady_bind; [ apply steady_gets | intros written ].
  destruct written; [ apply steady_ret | ].
  apply steady_bind; [ | intros _; apply steady_markWritten ].
  apply steady_encodeRecord_dispatch. exact IH.
Qed.
End EncodeSteady.

(** ** Header sniff *)

Lemma startsWithPayloadHeader_iff (b : list Z) :
  startsWithPayloadHeader b = true
  <-> (17 <= Datatypes.length b)%nat /\ b !! 0%nat = Some 0
      /\ take 8 (drop 9 b) = [1; 0; 0; 0; 0; 0; 0; 0].
Proof.
  unfold startsWithPayloadHeader.
  destruct (Nat.ltb_spec (Datatypes.length b) 17) as [Hlen | Hlen].
  - split; [ discriminate | intros (H & _); lia ].
  - do 17 (destruct b as [ | ? b ]; [ simpl in Hlen; lia | ]).
    cbn [nth seq forallb take drop lookup list_lookup Nat.add].
    unfold RecordType.SerializedStreamHeader.
    split.
    + intros H. destruct (z =? 0) eqn:E0; [ | discriminate ]. simpl in H.
      repeat (apply andb_true_iff in H as [?%Z.eqb_eq H]). subst.
      apply Z.eqb_eq in E0. subst. split; [ simpl; lia | split; reflexivity ].
    + intros (_ & H0 & H). injection H0 as ->. injection H as -> -> -> -> -> -> -> ->.
      reflexivity.
Qed.

(** C7. Whatever [encode] returns starts with a payload header, and
    [startsWithPayloadHeader(b)] holds exactly when [b] has at least 17
    bytes, its byte 0 is 0, and its bytes 9..16 are [1,0,0,0,0,0,0,0]. *)
Theorem startsWithPayloadHeader_spec :
  (forall coerceWrite x rootId b,
     encode coerceWrite x rootId = Ok b -> startsWithPayloadHeader b = true)
  /\ (forall b,
        startsWithPayloadHeader b = true
        <-> (17 <= Datatypes.length b)%nat /\ b !! 0%nat = Some 0
            /\ take 8 (drop 9 b) = [1; 0; 0; 0; 0; 0; 0; 0]).
Proof.
  split; [ | exact startsWithPayloadHeader_iff ].
  intros coerceWrite x rootId b H. unfold encode in H.
  set (actualRootId := default (default 1 (objectId x)) rootId) in H.
  cbv [bind onWriter modify] in H.
  match type of H with
  | context [encodeRecord coerceWrite x ?e0] =>
      destruct (encodeRecord coerceWrite x e0) as [[[] e1] | ] eqn:E; [ | discriminate ];
      apply steady_encodeRecord in E; destruct E as ([out Hout] & _)
  end.
  injection H as <-. cbn [writer] in *.
  rewrite toBuffer_writeByte, Hout.
  unfold toBuffer, newEncoder, writeByte, writeInt32, push. cbn [chunks writer app concat leBytes].
  reflexivity.
Qed.

Lemma startsWithPayloadHeader_spec_witness :
  encode noCoercion (BinaryObjectStringRecord 1 "hello") None
  = Ok [0; 1; 0; 0; 0; 255; 255; 255; 255; 1; 0; 0; 0; 0; 0; 0; 0;
        6; 1; 0; 0; 0; 5; 104; 101; 108; 108; 111; 11]
  /\ startsWithPayloadHeader
       [0; 1; 0; 0; 0; 255; 255; 255; 255; 1; 0; 0; 0; 0; 0; 0; 0;
        6; 1; 0; 0; 0; 5; 104; 101; 108; 108; 111; 11] = true.
Proof.
  assert (H : encode noCoercion (BinaryObjectStringRecord 1 "hello") None
              = Ok [0; 1; 0; 0; 0; 255; 255; 255; 255; 1; 0; 0; 0; 0; 0; 0; 0;
                    6; 1; 0; 0; 0; 5; 104; 101; 108; 108; 111; 11])
    by (vm_compute; reflexivity).
  split; [ exact H | ].
  exact (proj1 startsWithPayloadHeader_spec noCoercion _ None _ H).
Defined.

Lemma bind_inv {S A B} (m : M S A) (f : A -> M S B) s b s'' :
  bind m f s = Ok (b, s'') -> exists a s', m s = Ok (a, s') /\ f a s' = Ok (b, s'').
Proof.
  unfold bind. destruct (m s) as [[a s'] | ]; [ | discriminate ]. intros H. by exists a, s'.
Qed.

(** ** The emitted set *)




Section EncodeLeads.
Variable coerceWrite : Z -> ObjectValue -> result (list Z).


End EncodeLeads.

(** ** Path lookup *)

Section PathLookup.
Variable Number_ : string -> PartNumber.

Lemma getNestedValue_loop_app decoder current before after :
  getNestedValue_loop Number_ decoder current (before ++ after)
  = (reached ← getNestedValue_loop Number_ decoder current before;
     getNestedValue_loop Number_ decoder reached after).
Proof.
  revert current. induction before as [ | part before IH ]; intros current; simpl.
  - reflexivity.
  - destruct (getNestedValue_step Number_ decoder current part) as [next | ]; simpl;
      [ apply IH | reflexivity ].
Qed.

(** A round that starts on a reference missing from the record table
    returns [undefined]. *)
Lemma getNestedValue_step_dangling decoder idRef part :
  getRecord idRef decoder = None ->
  getNestedValue_step Number_ (Some decoder) (VRecord (MemberReferenceRecord idRef)) part
  = None.
Proof. intros H. unfold getNestedValue_step. rewrite H. reflexivity. Qed.

(** C9, as the code has it. When the lookup (with a decoder supplied)
    reaches, before some segment or after the last one, a
    [MemberReferenceRecord] whose [idRef] is missing from the record
    table, it returns [undefined]; no error is raised. *)
Theorem getNestedValue_dangling_reference
    (record : NrbfRecord) (path : string) (decoder : NrbfDecoder) (idRef : Z)
    (before after : list string) :
  split_dot path = before ++ after ->
  getNestedValue_loop Number_ (Some decoder) (VRecord record) before
    = Some (VRecord (MemberReferenceRecord idRef)) ->
  getRecord idRef decoder = None ->
  getNestedValue Number_ record path (Some decoder) = Ok None.
Proof.
  intros Hpath Hreach Hmiss. unfold getNestedValue.
  rewrite Hpath, getNestedValue_loop_app, Hreach. simpl.
  destruct after as [ | part after ]; simpl.
  - rewrite Hmiss. reflexivity.
  - rewrite getNestedValue_step_dangling by exact Hmiss. reflexivity.
Qed.
End PathLookup.

Lemma getNestedValue_dangling_reference_witness :
  getNestedValue Number_decimal danglingClass "a.b" (Some (newDecoder [])) = Ok None
  /\ getNestedValue Number_decimal danglingClass "a" (Some (newDecoder [])) = Ok None.
Proof.
  split.
  - apply (getNestedValue_dangling_reference Number_decimal danglingClass "a.b"
             (newDecoder []) 99 ["a"%string] ["b"%string]); reflexivity.
  - apply (getNestedValue_dangling_reference Number_decimal danglingClass "a"
             (newDecoder []) 99 ["a"%string] []); reflexivity.
Defined.

(** C9 as stated fails: on a reference to the absent record 99 the lookup
    returns [undefined], at a middle segment and after the last one, where
    the claim has it fail with an unresolved-reference error. *)
Lemma getNestedValue_dangling_counterexample :
  getRecord 99 (newDecoder []) = None
  /\ getNestedValue Number_decimal danglingClass "a.b" (Some (newDecoder [])) = Ok None
  /\ getNestedValue Number_decimal danglingClass "a" (Some (newDecoder [])) = Ok None
  /\ getNestedValue Number_decimal danglingClass "a" (Some (newDecoder []))
     <> Err (CannotResolveReference 99).
Proof. repeat split; try reflexivity. discriminate. Qed.

(** ** GUID records *)

(** A property of all characters, checked by running it on each. *)
Lemma ascii_forallb (P : ascii -> bool) :
  forallb P (map ascii_of_nat (seq 0 256)) = true -> forall c, P c = true.
Proof.
  intros H c. rewrite forallb_forall in H. apply H.
  apply in_map_iff. exists (nat_of_ascii c). split; [ apply ascii_nat_embedding | ].
  apply in_seq. pose proof (nat_ascii_bounded c). lia.
Qed.

Lemma hexDigit_not_dash c : isHexDigit c = true -> Ascii.eqb c "-" = false.
Proof.
  intros H.
  pose proof (ascii_forallb (fun c => implb (isHexDigit c) (negb (Ascii.eqb c "-")))
                ltac:(vm_compute; reflexivity) c) as Hc.
  cbv beta in Hc. rewrite H in Hc. simpl in Hc. by apply negb_true_iff in Hc.
Qed.

(** Two hexadecimal digits parse to a byte whose two-digit rendering is
    the pair in lower case. *)
Lemma hexPairByte_spec c1 c2 :
  isHexDigit c1 = true -> isHexDigit c2 = true ->
  0 <= hexPairByte c1 c2 < 256
  /\ padStart2 (toString16 (hexPairByte c1 c2))
     = String (lowerAscii c1) (String (lowerAscii c2) EmptyString).
Proof.
  intros H1 H2.
  pose proof (ascii_forallb
    (fun c1 => forallb
       (fun c2 => implb (isHexDigit c1 && isHexDigit c2)
                    ((0 <=? hexPairByte c1 c2) && (hexPairByte c1 c2 <? 256)
                     && String.eqb (padStart2 (toString16 (hexPairByte c1 c2)))
                          (String (lowerAscii c1) (String (lowerAscii c2) EmptyString))))
       (map ascii_of_nat (seq 0 256)))
    ltac:(vm_compute; reflexivity) c1) as Hc.
  cbv beta in Hc. pose proof (ascii_forallb _ Hc c2) as Hcc. cbv beta in Hcc.
  rewrite H1, H2 in Hcc. cbn [andb implb] in Hcc.
  apply andb_true_iff in Hcc as [Hcc Hs]. apply andb_true_iff in Hcc as [Hlo Hhi].
  apply String.eqb_eq in Hs. split; [ lia | exact Hs ].
Qed.

Lemma js_and_255 x : - 2 ^ 31 <= x < 2 ^ 31 -> toUint8 (js_and x 255) = x mod 256.
Proof.
  intros H. unfold js_and. rewrite (toInt32_id x), (toInt32_id 255) by lia.
  change 255 with (Z.ones 8). rewrite Z.land_ones by lia. change (2 ^ 8) with 256.
  pose proof (Z.mod_pos_bound x 256 ltac:(lia)).
  rewrite toInt32_id by lia. unfold toUint8. change (2 ^ 8) with 256.
  apply Z.mod_small. lia.
Qed.

Lemma js_sar_div x k :
  - 2 ^ 31 <= x < 2 ^ 31 -> 0 <= k < 32 ->
  js_sar x k = x / 2 ^ k /\ - 2 ^ 31 <= x / 2 ^ k < 2 ^ 31.
Proof.
  intros Hx Hk. unfold js_sar, toUint32. rewrite toInt32_id by lia.
  rewrite (Z.mod_small k (2 ^ 32)), (Z.mod_small k 32) by lia.
  rewrite Z.shiftr_div_pow2 by lia. split; [ reflexivity | ].
  assert (0 < 2 ^ k) by (apply Z.pow_pos_nonneg; lia).
  split; [ apply Z.div_le_lower_bound; nia | apply Z.div_lt_upper_bound; nia ].
Qed.

(** The four bytes of [_a] come back from the Int32 they were packed into,
    sign or no sign. *)
Lemma int32_reassemble b0 b1 b2 b3 :
  0 <= b0 < 256 -> 0 <= b1 < 256 -> 0 <= b2 < 256 -> 0 <= b3 < 256 ->
  let a := toInt32 (leValue [b0; b1; b2; b3]) in
  toUint8 (js_and a 255) = b0
  /\ toUint8 (js_and (js_sar a 8) 255) = b1
  /\ toUint8 (js_and (js_sar a 16) 255) = b2
  /\ toUint8 (js_and (js_sar a 24) 255) = b3.
Proof.
  intros H0 H1 H2 H3 a. pose proof (toInt32_range (leValue [b0; b1; b2; b3])) as Ha.
  fold a in Ha.
  destruct (js_sar_div a 8 Ha ltac:(lia)) as [E8 R8].
  destruct (js_sar_div a 16 Ha ltac:(lia)) as [E16 R16].
  destruct (js_sar_div a 24 Ha ltac:(lia)) as [E24 R24].
  rewrite E8, E16, E24, !js_and_255 by assumption.
  subst a. unfold toInt32, leValue in *.
  change (2 ^ 8) with 256. change (2 ^ 16) with 65536. change (2 ^ 24) with 16777216.
  change (2 ^ 31) with 2147483648. change (2 ^ 32) with 4294967296.
  clear - H0 H1 H2 H3. repeat split; Z.div_mod_to_equations; lia.
Qed.

Lemma int16_reassemble b0 b1 :
  0 <= b0 < 256 -> 0 <= b1 < 256 ->
  let b := toInt16 (leValue [b0; b1]) in
  toUint8 (js_and b 255) = b0 /\ toUint8 (js_and (js_sar b 8) 255) = b1.
Proof.
  intros H0 H1 b.
  assert (Hb : - 2 ^ 31 <= b < 2 ^ 31).
  { subst b. unfold toInt16. pose proof (Z.mod_pos_bound (leValue [b0; b1] + 2 ^ 15) (2 ^ 16)).
    lia. }
  destruct (js_sar_div b 8 Hb ltac:(lia)) as [E8 R8].
  rewrite E8, !js_and_255 by assumption.
  subst b. unfold toInt16, leValue in *.
  change (2 ^ 8) with 256. change (2 ^ 15) with 32768. change (2 ^ 16) with 65536.
  clear - H0 H1. repeat split; Z.div_mod_to_equations; lia.
Qed.

Lemma toUint8_id b : 0 <= b < 256 -> toUint8 b = b.
Proof. intros H. unfold toUint8. apply Z.mod_small. change (2 ^ 8) with 256. lia. Qed.

Lemma removeDashes_hex c s :
  isHexDigit c = true -> removeDashes (String c s) = String c (removeDashes s).
Proof. intros H. cbn [removeDashes]. by rewrite hexDigit_not_dash. Qed.

Lemma removeDashes_dash s : removeDashes (String "-" s) = removeDashes s.
Proof. reflexivity. Qed.

Lemma call_setValue name v ci mti lib rt mv :
  includes name (memberNames ci) = true ->
  call (setValue name v) (mkClassRecord ci mti lib rt mv)
  = Ok (tt, mkClassRecord ci mti lib rt (Map_set name v mv)).
Proof. intros H. unfold call, setValue. simpl. rewrite H. reflexivity. Qed.

Lemma bind_call_setValue {B} name v (k : unit -> M ClassRecord B) ci mti lib rt mv :
  includes name (memberNames ci) = true ->
  bind (call (setValue name v)) k (mkClassRecord ci mti lib rt mv)
  = k tt (mkClassRecord ci mti lib rt (Map_set name v mv)).
Proof. intros H. unfold bind. rewrite call_setValue by exact H. reflexivity. Qed.

(** What [createGuidRecord] stores, for any string. *)
Lemma createGuidRecord_members objectId guidString :
  let bytes := guidBytes guidString in
  exists record,
    createGuidRecord objectId guidString = Ok record
    /\ getNumber "_a" record = Some (toInt32 (leValue (take 4 bytes)))
    /\ getNumber "_b" record = Some (toInt16 (leValue (take 2 (drop 4 bytes))))
    /\ getNumber "_c" record = Some (toInt16 (leValue (take 2 (drop 6 bytes))))
    /\ getNumber "_d" record = Some (nth 8 bytes 0)
    /\ getNumber "_e" record = Some (nth 9 bytes 0)
    /\ getNumber "_f" record = Some (nth 10 bytes 0)
    /\ getNumber "_g" record = Some (nth 11 bytes 0)
    /\ getNumber "_h" record = Some (nth 12 bytes 0)
    /\ getNumber "_i" record = Some (nth 13 bytes 0)
    /\ getNumber "_j" record = Some (nth 14 bytes 0)
    /\ getNumber "_k" record = Some (nth 15 bytes 0).
Proof.
  intros bytes. subst bytes. unfold createGuidRecord.
  generalize (guidBytes guidString). intros bytes. cbv zeta.
  rewrite !bind_call_setValue by reflexivity. rewrite call_setValue by reflexivity.
  cbn [Map_set String.eqb Ascii.eqb Bool.eqb andb].
  eexists. split; [ reflexivity | ]. repeat split; reflexivity.
Qed.

(** C6. For every well-formed GUID string [s] (either case) and every
    object id, [parseGuid(createGuidRecord(id, s))] is [s.toLowerCase()],
    negative [_a], [_b], [_c] included. *)
Theorem guid_roundtrip (s : string) (id : Z) :
  wellFormedGuid s = true ->
  exists record, createGuidRecord id s = Ok record
                 /\ parseGuid record = Some (toLowerCase s).
Proof.
  intros H. unfold wellFormedGuid in H. cbv [guidShape replicate app] in H.
  do 36 (destruct s as [ | ? s ]; [ discriminate H | ];
         cbn [matchesShape] in H; apply andb_true_iff in H as [? H]).
  destruct s; [ clear H | discriminate H ].
  repeat match goal with
         | E : Ascii.eqb _ _ = true |- _ => apply Ascii.eqb_eq in E; subst
         end.
  match goal with
  | |- context [createGuidRecord id ?str] =>
      destruct (createGuidRecord_members id str)
        as (record & Hrecord & Ha & Hb & Hc & Hd & He & Hf & Hg & Hh & Hi & Hj & Hk);
      assert (Hbytes : guidBytes str = pairBytes (removeDashes str))
        by (unfold guidBytes;
            repeat first [ rewrite removeDashes_hex by assumption
                         | rewrite removeDashes_dash ];
            reflexivity)
  end.
  exists record. split; [ exact Hrecord | ].
  unfold parseGuid, reconstructGuid.
  rewrite Ha, Hb, Hc, Hd, He, Hf, Hg, Hh, Hi, Hj, Hk, Hbytes.
  repeat first [ rewrite removeDashes_hex by assumption | rewrite removeDashes_dash ].
  cbv beta match delta [mbind option_bind].
  cbn [removeDashes pairBytes take drop nth map].
  repeat match goal with
         | Hx : isHexDigit ?x = true, Hy : isHexDigit ?y = true
           |- context [hexPairByte ?x ?y] =>
             lazymatch goal with
             | _ : 0 <= hexPairByte x y < 256 |- _ => fail
             | _ => destruct (hexPairByte_spec x y Hx Hy)
             end
         end.
  match goal with
  | |- context [toInt32 (leValue [?b0; ?b1; ?b2; ?b3])] =>
      destruct (int32_reassemble b0 b1 b2 b3) as (E0 & E1 & E2 & E3); try assumption;
      cbv zeta in E0, E1, E2, E3; rewrite E0, E1, E2, E3
  end.
  repeat match goal with
         | |- context [toInt16 (leValue [?b0; ?b1])] =>
             let E0 := fresh in let E1 := fresh in
             destruct (int16_reassemble b0 b1) as (E0 & E1); try assumption;
             cbv zeta in E0, E1; rewrite E0, E1
         end.
  rewrite !toUint8_id by assumption.
  cbn [hexOfBytes].
  repeat match goal with
         | E : padStart2 (toString16 _) = _ |- _ => rewrite E; clear E
         end.
  reflexivity.
Qed.

Lemma guid_roundtrip_witness :
  wellFormedGuid "F37B1f7c-871E-fc44-8c0f-451bb24805AC" = true
  /\ exists record,
       createGuidRecord 7 "F37B1f7c-871E-fc44-8c0f-451bb24805AC" = Ok record
       /\ parseGuid record = Some (toLowerCase "F37B1f7c-871E-fc44-8c0f-451bb24805AC").
Proof. split; [ reflexivity | apply (guid_roundtrip _ 7); reflexivity ]. Defined.

(** ** Running the decoder on a stream *)

Lemma bind_Ok {S A B} (m : M S A) (f : A -> M S B) s a s' :
  m s = Ok (a, s') -> bind m f s = f a s'.
Proof. intros H. unfold bind. rewrite H. reflexivity. Qed.

Lemma onReader_bind {A B} (m : Rd A) (f : A -> Rd B) d :
  onReader (bind m f) d = bind (onReader m) (fun a => onReader (f a)) d.
Proof.
  unfold onReader, bind. destruct (m (reader d)) as [[a r] | ]; reflexivity.
Qed.

Lemma decoderAt_shift done xs rest o rm lm mm :
  mkDecoder (mkReader (done ++ xs ++ rest) (Datatypes.length done + Datatypes.length xs))
    o rm lm mm
  = decoderAt (done ++ xs) rest o rm lm mm.
Proof. unfold decoderAt. rewrite length_app, <- app_assoc. reflexivity. Qed.

Lemma readByte_decoderAt done b rest o rm lm mm :
  onReader readByte (decoderAt done (b :: rest) o rm lm mm)
  = Ok (b, decoderAt (done ++ [b]) rest o rm lm mm).
Proof.
  rewrite <- (decoderAt_shift done [b] rest).
  unfold onReader, decoderAt. cbn [reader objects recordMap libraryMap metadataMap].
  rewrite readByte_at. reflexivity.
Qed.

Lemma readBytes_decoderAt done xs rest o rm lm mm :
  onReader (readBytes (Datatypes.length xs)) (decoderAt done (xs ++ rest) o rm lm mm)
  = Ok (xs, decoderAt (done ++ xs) rest o rm lm mm).
Proof.
  rewrite <- (decoderAt_shift done xs rest).
  unfold onReader, decoderAt, readBytes.
  cbn [reader objects recordMap libraryMap metadataMap view offset].
  rewrite drop_app_length, take_app_length, Nat.eqb_refl. reflexivity.
Qed.

Lemma leBytes_length n z : Datatypes.length (leBytes n z) = n.
Proof. revert z. induction n as [ | n IH ]; intros z; simpl; [ | rewrite IH ]; reflexivity. Qed.

Lemma leValue_leBytes_4 v : - 2 ^ 31 <= v < 2 ^ 31 -> toInt32 (leValue (leBytes 4 v)) = v.
Proof.
  intros H. unfold toInt32, leBytes, leValue.
  change (2 ^ 31) with 2147483648 in *. change (2 ^ 32) with 4294967296.
  Z.div_mod_to_equations. lia.
Qed.

Lemma readInt32_decoderAt done v rest o rm lm mm :
  - 2 ^ 31 <= v < 2 ^ 31 ->
  onReader readInt32 (decoderAt done (leBytes 4 v ++ rest) o rm lm mm)
  = Ok (v, decoderAt (done ++ leBytes 4 v) rest o rm lm mm).
Proof.
  intros H. unfold readInt32. rewrite onReader_bind.
  pose proof (readBytes_decoderAt done (leBytes 4 v) rest o rm lm mm) as E.
  rewrite leBytes_length in E. rewrite (bind_Ok _ _ _ _ _ E).
  unfold onReader, ret. simpl reader. rewrite leValue_leBytes_4 by exact H. reflexivity.
Qed.

Lemma readVariableLengthInt_decoderAt done n rest o rm lm mm :
  0 <= n < 2 ^ 31 ->
  onReader readVariableLengthInt (decoderAt done (varintBytes 5 n ++ rest) o rm lm mm)
  = Ok (n, decoderAt (done ++ varintBytes 5 n) rest o rm lm mm).
Proof.
  intros H. rewrite <- (decoderAt_shift done (varintBytes 5 n) rest).
  unfold onReader, decoderAt.
  cbn [reader objects recordMap libraryMap metadataMap].
  rewrite readVariableLengthInt_varintBytes by exact H. reflexivity.
Qed.

(** *** Strings of ASCII characters survive the UTF-8 decoder *)

Lemma stringOfBytes_bytesOfString s : stringOfBytes (bytesOfString s) = s.
Proof.
  induction s as [ | c s IH ]; simpl; [ reflexivity | ].
  rewrite IH. unfold asciiOfByte, byteOfAscii. rewrite N2Z.id, ascii_N_embedding. reflexivity.
Qed.

Lemma utf8Run_ascii bs :
  forallb (fun b => b <? 128) bs = true -> utf8Run utf8Initial bs = bs.
Proof.
  induction bs as [ | b bs IH ]; intros H; [ reflexivity | ].
  cbn [forallb] in H. apply andb_true_iff in H as [Hb H]. apply Z.ltb_lt in Hb.
  cbn [utf8Run]. unfold utf8Handle at 1. cbn [bytesNeeded utf8Initial]. unfold utf8Lead.
  replace (b <=? 127) with true by (symmetry; apply Z.leb_le; lia).
  cbn [app]. rewrite IH by exact H. reflexivity.
Qed.

Lemma TextDecoder_decode_ascii s :
  isAsciiString s = true -> TextDecoder_decode (bytesOfString s) = s.
Proof.
  intros H. unfold TextDecoder_decode. rewrite utf8Run_ascii by exact H.
  replace (stripBOM (bytesOfString s)) with (bytesOfString s);
    [ apply stringOfBytes_bytesOfString | ].
  unfold isAsciiString in H. destruct (bytesOfString s) as [ | b bs ]; [ reflexivity | ].
  simpl in H. apply andb_true_iff in H as [Hb _]. apply Z.ltb_lt in Hb.
  unfold stripBOM. destruct b as [ | p | p ]; try reflexivity.
  do 8 (destruct p as [ p | p | ]; try reflexivity); lia.
Qed.

Lemma readLengthPrefixedString_decoderAt done s rest o rm lm mm :
  isAsciiString s = true ->
  Z.of_nat (Datatypes.length (bytesOfString s)) < 2 ^ 31 ->
  onReader readLengthPrefixedString (decoderAt done (stringBytes s ++ rest) o rm lm mm)
  = Ok (s, decoderAt (done ++ stringBytes s) rest o rm lm mm).
Proof.
  intros Hascii Hlen. unfold readLengthPrefixedString, stringBytes.
  rewrite onReader_bind, <- app_assoc.
  assert (Hn : 0 <= Z.of_nat (Datatypes.length (bytesOfString s)) < 2 ^ 31) by lia.
  rewrite (bind_Ok _ _ _ _ _ (readVariableLengthInt_decoderAt done _ _ o rm lm mm Hn)).
  destruct (Z.of_nat (Datatypes.length (bytesOfString s)) =? 0) eqn:E.
  - apply Z.eqb_eq in E. destruct s; [ | simpl in E; lia ].
    cbn [bytesOfString]. rewrite app_nil_r. reflexivity.
  - replace (Z.of_nat (Datatypes.length (bytesOfString s)) <? 0) with false
      by (symmetry; apply Z.ltb_ge; lia).
    rewrite onReader_bind, Nat2Z.id.
    rewrite (bind_Ok _ _ _ _ _ (readBytes_decoderAt _ (bytesOfString s) rest o rm lm mm)).
    unfold onReader, ret, decoderAt.
    cbn [reader objects recordMap libraryMap metadataMap].
    rewrite TextDecoder_decode_ascii by exact Hascii. rewrite <- !app_assoc. reflexivity.
Qed.

(** *** Records *)

Lemma newDecoder_decoderAt buffer : newDecoder buffer = decoderAt [] buffer [] ∅ ∅ ∅.
Proof. reflexivity. Qed.

Lemma decodeNext_lead fuel done tag rest o rm lm mm :
  decodeNext (S fuel) (decoderAt done (tag :: rest) o rm lm mm)
  = (let dn := decodeNext fuel in
     if negb (bool_decide (tag ∈ [0; 1; 2; 3; 4; 5; 6; 7; 8; 9; 10; 11; 12; 13; 14; 15; 16; 17]))
     then throw (UnsupportedRecordType tag (Datatypes.length done))
     else if tag =? RecordType.SerializedStreamHeader then decodeSerializationHeader
     else if tag =? RecordType.BinaryLibrary then decodeBinaryLibrary
     else if tag =? RecordType.ClassWithMembersAndTypes
          then decodeClassWithMembersAndTypes dn
     else if tag =? RecordType.SystemClassWithMembersAndTypes
          then decodeSystemClassWithMembersAndTypes dn
     else if tag =? RecordType.SystemClassWithMembers then decodeSystemClassWithMembers dn
     else if tag =? RecordType.ClassWithMembers then decodeClassWithMembers dn
     else if tag =? RecordType.ClassWithId then decodeClassWithId dn
     else if tag =? RecordType.BinaryObjectString then decodeBinaryObjectString
     else if tag =? RecordType.BinaryArray then decodeBinaryArray dn fuel
     else if tag =? RecordType.ArraySinglePrimitive then decodeArraySinglePrimitive
     else if tag =? RecordType.ArraySingleObject then decodeArraySingleObject dn fuel
     else if tag =? RecordType.ArraySingleString then decodeArraySingleString dn fuel
     else if tag =? RecordType.MemberPrimitiveTyped then decodeMemberPrimitiveTyped
     else if tag =? RecordType.MemberReference then decodeMemberReference
     else if tag =? RecordType.ObjectNull then ret ObjectNullRecord
     else if tag =? RecordType.ObjectNullMultiple then decodeObjectNullMultiple
     else if tag =? RecordType.ObjectNullMultiple256 then decodeObjectNullMultiple256
     else if tag =? RecordType.MessageEnd then ret MessageEndRecord
     else throw (UnhandledRecordType tag))
    (decoderAt (done ++ [tag]) rest o rm lm mm).
Proof.
  cbn [decodeNext]. unfold decodeNext_body.
  assert (Hpos : getPosition (decoderAt done (tag :: rest) o rm lm mm)
                 = Ok (Datatypes.length done, decoderAt done (tag :: rest) o rm lm mm))
    by reflexivity.
  rewrite (bind_Ok _ _ _ _ _ Hpos).
  rewrite (bind_Ok _ _ _ _ _ (readByte_decoderAt done tag rest o rm lm mm)).
  reflexivity.
Qed.

Lemma decodeNext_BinaryObjectString fuel done rest o rm lm mm :
  decodeNext (S fuel) (decoderAt done (6 :: rest) o rm lm mm)
  = decodeBinaryObjectString (decoderAt (done ++ [6]) rest o rm lm mm).
Proof. rewrite decodeNext_lead. reflexivity. Qed.

Lemma decodeNext_MessageEnd fuel done rest o rm lm mm :
  decodeNext (S fuel) (decoderAt done (11 :: rest) o rm lm mm)
  = Ok (MessageEndRecord, decoderAt (done ++ [11]) rest o rm lm mm).
Proof. rewrite decodeNext_lead. reflexivity. Qed.

Lemma decodeNext_ObjectNullMultiple256 fuel done rest o rm lm mm :
  decodeNext (S fuel) (decoderAt done (13 :: rest) o rm lm mm)
  = decodeObjectNullMultiple256 (decoderAt (done ++ [13]) rest o rm lm mm).
Proof. rewrite decodeNext_lead. reflexivity. Qed.

Lemma decodeNext_ArraySingleObject fuel done rest o rm lm mm :
  decodeNext (S fuel) (decoderAt done (16 :: rest) o rm lm mm)
  = decodeArraySingleObject (decodeNext fuel) fuel (decoderAt (done ++ [16]) rest o rm lm mm).
Proof. rewrite decodeNext_lead. reflexivity. Qed.

Lemma decodeBinaryObjectString_decoderAt done id s rest o rm lm mm :
  - 2 ^ 31 <= id < 2 ^ 31 ->
  isAsciiString s = true ->
  Z.of_nat (Datatypes.length (bytesOfString s)) < 2 ^ 31 ->
  decodeBinaryObjectString (decoderAt done (leBytes 4 id ++ stringBytes s ++ rest) o rm lm mm)
  = Ok (BinaryObjectStringRecord id s,
        decoderAt (done ++ leBytes 4 id ++ stringBytes s) rest
          (o ++ [BinaryObjectStringRecord id s]) (<[id := Datatypes.length o]> rm) lm mm).
Proof.
  intros Hid Hascii Hlen. unfold decodeBinaryObjectString.
  rewrite (bind_Ok _ _ _ _ _ (readInt32_decoderAt done id _ o rm lm mm Hid)).
  rewrite (bind_Ok _ _ _ _ _ (readLengthPrefixedString_decoderAt _ s rest o rm lm mm Hascii Hlen)).
  unfold bind, new, recordMap_set, modify, deref, decoderAt.
  cbn [reader objects recordMap libraryMap metadataMap].
  rewrite lookup_app_r, Nat.sub_diag by lia. rewrite <- !app_assoc. reflexivity.
Qed.

Lemma decode_loop_step fuel budget count d record d' :
  decodeNext fuel d = Ok (record, d') ->
  decode_loop fuel (S budget) count d
  = if 100000 <? count + 1 then Err TooManyRecords
    else if isMessageEnd record then Ok (tt, d')
    else decode_loop fuel budget (count + 1) d'.
Proof.
  intros H. cbn [decode_loop]. rewrite (bind_Ok _ _ _ _ _ H).
  destruct (100000 <? count + 1); [ reflexivity | ].
  destruct (isMessageEnd record); reflexivity.
Qed.

Lemma budget_unfold : Z.to_nat 100001 = S (S (S (Z.to_nat 99998))).
Proof. lia. Qed.

(** [decode] up to the end of the stream header. *)
Lemma decode_run_header fuel rootId rest :
  - 2 ^ 31 <= rootId < 2 ^ 31 ->
  decode_run fuel (newDecoder (headerBytes rootId ++ rest))
  = bind (decode_loop fuel (Z.to_nat 100001) 0)
      (fun _ => bind (gets (getRecord rootId))
         (fun root => match root with
                      | None => throw (RootNotFound rootId)
                      | Some root => ret root
                      end))
      (decoderAt (headerBytes rootId) rest [] ∅ ∅ ∅).
Proof.
  intros H. rewrite newDecoder_decoderAt. unfold decode_run, headerBytes.
  rewrite <- !app_assoc. cbn [app].
  rewrite (bind_Ok _ _ _ _ _ (readByte_decoderAt [] 0 _ [] ∅ ∅ ∅)).
  cbn [negb Z.eqb RecordType.SerializedStreamHeader].
  rewrite (bind_Ok _ _ _ _ _ (readInt32_decoderAt _ rootId _ [] ∅ ∅ ∅ H)).
  rewrite (bind_Ok _ _ _ _ _ (readInt32_decoderAt _ (-1) _ [] ∅ ∅ ∅ ltac:(lia))).
  rewrite (bind_Ok _ _ _ _ _ (readInt32_decoderAt _ 1 _ [] ∅ ∅ ∅ ltac:(lia))).
  rewrite (bind_Ok _ _ _ _ _ (readInt32_decoderAt _ 0 _ [] ∅ ∅ ∅ ltac:(lia))).
  cbn [app]. rewrite <- !app_assoc. reflexivity.
Qed.

(** ** Duplicate object ids *)

(** In a stream whose two string records claim the same [objectId], the
    later record replaces the earlier one in the record table and
    [decode] returns it as the root. *)
Lemma decode_two_strings (fuel : nat) (id : Z) (s1 s2 : string) :
  - 2 ^ 31 <= id < 2 ^ 31 ->
  isAsciiString s1 = true -> Z.of_nat (Datatypes.length (bytesOfString s1)) < 2 ^ 31 ->
  isAsciiString s2 = true -> Z.of_nat (Datatypes.length (bytesOfString s2)) < 2 ^ 31 ->
  decode (S fuel)
    (headerBytes id
     ++ [RecordType.BinaryObjectString] ++ leBytes 4 id ++ stringBytes s1
     ++ [RecordType.BinaryObjectString] ++ leBytes 4 id ++ stringBytes s2
     ++ [RecordType.MessageEnd])
  = Ok (BinaryObjectStringRecord id s2).
Proof.
  intros Hid Ha1 Hl1 Ha2 Hl2. unfold decode.
  rewrite decode_run_header by exact Hid. rewrite budget_unfold.
  unfold RecordType.BinaryObjectString, RecordType.MessageEnd. cbn [app].
  erewrite bind_Ok; [ | ].
  2: { erewrite decode_loop_step;
         [ | rewrite decodeNext_BinaryObjectString;
             apply decodeBinaryObjectString_decoderAt; assumption ].
       cbn [Z.add Z.ltb Z.compare Pos.compare Pos.compare_cont Pos.add Pos.succ isMessageEnd].
       erewrite decode_loop_step;
         [ | rewrite decodeNext_BinaryObjectString;
             apply decodeBinaryObjectString_decoderAt; assumption ].
       cbn [Z.add Z.ltb Z.compare Pos.compare Pos.compare_cont Pos.add Pos.succ isMessageEnd].
       erewrite decode_loop_step; [ | apply decodeNext_MessageEnd ].
       reflexivity. }
  unfold bind, gets, getRecord, decoderAt. cbn [recordMap objects].
  rewrite lookup_insert_eq. cbn [mbind option_bind Datatypes.length app].
  reflexivity.
Qed.

(** C3 as stated fails: both string records of this stream claim object
    id 1, and [decode] returns the second one instead of failing. *)
Lemma decode_duplicate_objectId_counterexample :
  decode 10
    [0; 1; 0; 0; 0; 255; 255; 255; 255; 1; 0; 0; 0; 0; 0; 0; 0;
     6; 1; 0; 0; 0; 1; 97;
     6; 1; 0; 0; 0; 1; 98;
     11]
  = Ok (BinaryObjectStringRecord 1 "b").
Proof. vm_compute. reflexivity. Qed.

(** ** The string-only stream *)

(** C2, as the code has it. With the root id written in little-endian
    order ([1,0,0,0]) the 29-byte stream decodes to the string record
    with object id 1 and value "hello", and re-encoding that root gives
    the stream back. *)
Theorem decode_encode_hello :
  (forall fuel, decode (S fuel) helloStream = Ok (BinaryObjectStringRecord 1 "hello"))
  /\ (forall coerceWrite,
        encode coerceWrite (BinaryObjectStringRecord 1 "hello") None = Ok helloStream)
  /\ Datatypes.length helloStream = 29%nat.
Proof.
  split; [ | split ].
  - intros fuel. vm_compute. reflexivity.
  - intros coerceWrite. vm_compute. reflexivity.
  - reflexivity.
Qed.

(** C2 as stated fails: the listed bytes put the root id in big-endian
    order, so the header names root 16777216, which no record has, and
    [decode] throws the root-not-found error; the list has 29 bytes. *)
Lemma decode_hello_counterexample :
  decode 10
    [0; 0; 0; 0; 1; 255; 255; 255; 255; 1; 0; 0; 0; 0; 0; 0; 0;
     6; 1; 0; 0; 0; 5; 104; 101; 108; 108; 111; 11]
  = Err (RootNotFound 16777216).
Proof. vm_compute. reflexivity. Qed.

(** ** Null runs in arrays *)

Lemma decodeObjectNullMultiple256_decoderAt done k rest o rm lm mm :
  decodeObjectNullMultiple256 (decoderAt done (k :: rest) o rm lm mm)
  = Ok (ObjectNullMultiple256Record k, decoderAt (done ++ [k]) rest o rm lm mm).
Proof.
  unfold decodeObjectNullMultiple256.
  rewrite (bind_Ok _ _ _ _ _ (readByte_decoderAt done k rest o rm lm mm)). reflexivity.
Qed.

Lemma concat_replicate_singleton {A} n (x : A) : concat (replicate n [x]) = replicate n x.
Proof. induction n as [ | n IH ]; simpl; [ | rewrite IH ]; reflexivity. Qed.

(** Each [null] of an element list is written as one [ObjectNull] byte. *)
Lemma forEach_writeObjectValue_nulls encodeRecord n e :
  forEach (writeObjectValue encodeRecord) (replicate n VNull) e
  = Ok (tt, mkEncoder (mkWriter (chunks (writer e) ++ replicate n [RecordType.ObjectNull]))
              (writtenRecords e)).
Proof.
  revert e. induction n as [ | n IH ]; intros [[c] w]; cbn [replicate forEach].
  - unfold ret. cbn [writer chunks writtenRecords]. rewrite app_nil_r. reflexivity.
  - unfold bind. cbn [writeObjectValue]. unfold onWriter at 1, modify.
    rewrite IH. cbn [writer chunks writtenRecords writeByte push].
    rewrite <- app_assoc. reflexivity.
Qed.

(** C1 as stated fails: the array of this stream is filled by one
    [ObjectNullMultiple256(2)] record (bytes [13, 2]); it decodes to two
    nulls, and re-encoding writes two [ObjectNull] records (bytes
    [10, 10]) where the run record was. *)
Lemma null_run_counterexample :
  decode 10 [0; 1; 0; 0; 0; 255; 255; 255; 255; 1; 0; 0; 0; 0; 0; 0; 0;
             16; 1; 0; 0; 0; 2; 0; 0; 0; 13; 2; 11]
  = Ok (ArraySingleObjectRecord 1 2 [VNull; VNull])
  /\ encode noCoercion (ArraySingleObjectRecord 1 2 [VNull; VNull]) None
     = Ok [0; 1; 0; 0; 0; 255; 255; 255; 255; 1; 0; 0; 0; 0; 0; 0; 0;
           16; 1; 0; 0; 0; 2; 0; 0; 0; 10; 10; 11].
Proof. split; vm_compute; reflexivity. Qed.

(** ** Array lengths *)

Lemma arraysOk_inGraph root r : arraysOk root -> inGraph root r -> arrayLengthOk r.
Proof.
  intros Hroot Hr. assert (H : arraysOk r).
  { induction Hr as [ | r r' _ IH Hin ]; [ exact Hroot | ].
    destruct IH as [r _ Hchildren]. by apply Hchildren. }
  by destruct H.
Qed.

Lemma keeps_ret {A} (a : A) (post : A -> Prop) : post a -> keeps (ret a) post.
Proof. intros H d a' d' Hd E. injection E as <- <-. auto. Qed.

Lemma keeps_throw {A} e (post : A -> Prop) : keeps (throw e) post.
Proof. intros d a d' _ E. discriminate. Qed.

Lemma keeps_bind {A B} (m : Dec A) (f : A -> Dec B) (P : A -> Prop) (Q : B -> Prop) :
  keeps m P -> (forall a, P a -> keeps (f a) Q) -> keeps (bind m f) Q.
Proof.
  intros Hm Hf d b d' Hd E. unfold bind in E.
  destruct (m d) as [[a d1] | ] eqn:Em; [ | discriminate ].
  destruct (Hm _ _ _ Hd Em) as [Hd1 Ha]. exact (Hf a Ha _ _ _ Hd1 E).
Qed.

Lemma keeps_weaken {A} (m : Dec A) (P Q : A -> Prop) :
  keeps m P -> (forall a, P a -> Q a) -> keeps m Q.
Proof. intros Hm HPQ d a d' Hd E. destruct (Hm _ _ _ Hd E). auto. Qed.

Lemma keeps_onReader {A} (m : Rd A) : keeps (onReader m) (fun _ => True).
Proof.
  intros d a d' Hd E. unfold onReader in E.
  destruct (m (reader d)) as [[a' r] | ]; [ | discriminate ].
  injection E as <- <-. auto.
Qed.

Lemma keeps_gets {A} (f : NrbfDecoder -> A) : keeps (gets f) (fun _ => True).
Proof. intros d a d' Hd E. injection E as <- <-. auto. Qed.

Lemma keeps_getRecord id :
  keeps (gets (getRecord id)) (fun found => forall r, found = Some r -> arraysOk r).
Proof.
  intros d a d' Hd E. injection E as <- <-. split; [ exact Hd | ].
  intros r Hr. unfold getRecord in Hr.
  destruct (recordMap d !! id) as [ref | ]; [ | discriminate ]. simpl in Hr.
  unfold storeOk in Hd. rewrite Forall_lookup in Hd. exact (Hd _ _ Hr).
Qed.

Lemma keeps_modify_tables (f : NrbfDecoder -> NrbfDecoder) :
  (forall d, objects (f d) = objects d) -> keeps (modify f) (fun _ => True).
Proof.
  intros Hf d a d' Hd E. injection E as <- <-. split; [ | exact I ].
  unfold storeOk. rewrite Hf. exact Hd.
Qed.

Lemma keeps_new r : arraysOk r -> keeps (new r) (fun _ => True).
Proof.
  intros Hr d a d' Hd E. injection E as <- <-. split; [ | exact I ].
  unfold storeOk. cbn [objects]. apply Forall_app. split; [ exact Hd | by constructor ].
Qed.

Lemma keeps_deref ref : keeps (deref ref) arraysOk.
Proof.
  intros d a d' Hd E. unfold deref in E.
  destruct (objects d !! ref) as [r | ] eqn:Er; [ | discriminate ].
  injection E as <- <-. split; [ exact Hd | ].
  unfold storeOk in Hd. rewrite Forall_lookup in Hd. exact (Hd _ _ Er).
Qed.

Lemma Map_set_values {V} key (value : V) m x :
  x ∈ map snd (Map_set key value m) -> x = value \/ x ∈ map snd m.
Proof.
  induction m as [ | [k v] m IH ]; simpl.
  - intros H. apply list_elem_of_singleton in H. auto.
  - destruct (String.eqb k key); simpl; intros H; apply elem_of_cons in H as [H | H].
    + auto.
    + right. by right.
    + right. subst. by left.
    + destruct (IH H); [ auto | right; by right ].
Qed.

Lemma keeps_memberValues_set ref memberName value :
  valueOk value -> keeps (memberValues_set ref memberName value) (fun _ => True).
Proof.
  intros Hv d a d' Hd E. injection E as <- <-. split; [ | exact I ].
  destruct (objects d !! ref) as [[ | | c | | | | | | | | | | | ] | ] eqn:Er; try exact Hd.
  unfold storeOk in *. cbn [objects]. apply Forall_insert; [ exact Hd | ].
  rewrite Forall_lookup in Hd. specialize (Hd _ _ Er).
  inversion Hd as [r0 _ Hchildren]; subst r0.
  constructor; [ exact I | ]. cbn [children memberValues] in *.
  intros r' Hin. apply Map_set_values in Hin as [<- | Hin]; [ by apply Hv | by apply Hchildren ].
Qed.

Lemma keeps_forEach {A} (body : A -> Dec unit) l :
  (forall x, keeps (body x) (fun _ => True)) -> keeps (forEach body l) (fun _ => True).
Proof.
  intros H. induction l as [ | x l IH ]; simpl.
  - by apply keeps_ret.
  - eapply keeps_bind; [ apply H | intros _ _; exact IH ].
Qed.

Lemma keeps_times {A} n (m : Dec A) (P : A -> Prop) :
  keeps m P -> keeps (times n m) (fun l => Datatypes.length l = n /\ Forall P l).
Proof.
  intros H. induction n as [ | n IH ]; simpl.
  - apply keeps_ret. auto.
  - eapply keeps_bind; [ exact H | intros x Hx ].
    eapply keeps_bind; [ exact IH | intros xs [Hlen Hxs] ].
    apply keeps_ret. simpl. auto.
Qed.

Lemma keeps_mapM {A B} (body : A -> Dec B) l :
  (forall x, keeps (body x) (fun _ => True)) -> keeps (mapM body l) (fun _ => True).
Proof.
  intros H. induction l as [ | x l IH ]; simpl.
  - by apply keeps_ret.
  - eapply keeps_bind; [ apply H | intros y _ ].
    eapply keeps_bind; [ exact IH | intros ys _ ]. by apply keeps_ret.
Qed.

Lemma arraysOk_leaf r : arrayLengthOk r -> children r = [] -> arraysOk r.
Proof.
  intros Hlen Hchildren. constructor; [ exact Hlen | ].
  intros r' Hin. rewrite Hchildren in Hin. destruct (not_elem_of_nil _ Hin).
Qed.

Lemma arraysOk_elements r :
  arrayLengthOk r -> Forall valueOk (children r) -> arraysOk r.
Proof.
  intros Hlen Hchildren. constructor; [ exact Hlen | ].
  intros r' Hin. rewrite Forall_forall in Hchildren. exact (Hchildren _ Hin r' eq_refl).
Qed.

Lemma notRecord_valueOk v : notRecord v -> valueOk v.
Proof. intros H r E. destruct (H r E). Qed.

(** Reading bytes, whatever the reads are, leaves the store alone. *)
Ltac keeps_reads :=
  repeat first
    [ apply keeps_onReader
    | apply keeps_ret; try exact I
    | apply keeps_throw
    | eapply keeps_bind with (P := fun _ => True); [ | intros ? _ ]
    | eapply keeps_weaken; [ apply keeps_times | intros ? _; exact I ]
    | match goal with |- keeps (if ?c then _ else _) _ => destruct c end ].

Lemma keeps_readAdditionalTypeInfo binaryType :
  keeps (readAdditionalTypeInfo binaryType) (fun _ => True).
Proof. unfold readAdditionalTypeInfo. keeps_reads. Qed.

Lemma keeps_readClassInfo : keeps readClassInfo (fun _ => True).
Proof. unfold readClassInfo. keeps_reads. Qed.

Lemma keeps_readMemberTypeInfo memberCount : keeps (readMemberTypeInfo memberCount) (fun _ => True).
Proof.
  unfold readMemberTypeInfo. keeps_reads.
  apply keeps_mapM. intros. apply keeps_readAdditionalTypeInfo.
Qed.

Lemma keeps_readPrimitiveValue primitiveType :
  keeps (readPrimitiveValue primitiveType) notRecord.
Proof.
  unfold readPrimitiveValue.
  repeat match goal with |- keeps (if ?c then _ else _) _ => destruct c end.
  all: try apply keeps_throw.
  all: try (apply keeps_ret; intros r; discriminate).
  all: eapply keeps_bind with (P := fun _ => True);
    [ apply keeps_onReader | intros ? _; apply keeps_ret; intros r; discriminate ].
Qed.

Section KeepsDecode.
Variable decodeNext : Dec NrbfRecord.
Variable rounds : nat.
Hypothesis decodeNext_keeps : keeps decodeNext arraysOk.

Lemma keeps_readObjectValue binaryType additionalInfo :
  keeps (readObjectValue decodeNext binaryType additionalInfo) valueOk.
Proof.
  assert (Hrecord : keeps (bind decodeNext (fun record => ret (VRecord record))) valueOk).
  { eapply keeps_bind; [ exact decodeNext_keeps | intros r Hr ].
    apply keeps_ret. intros r' E. by injection E as <-. }
  unfold readObjectValue.
  destruct binaryType as [[ | | ] | ]; try exact Hrecord.
  destruct additionalInfo as [[ | | | ] | ]; try exact Hrecord.
  - eapply keeps_weaken; [ apply keeps_readPrimitiveValue | apply notRecord_valueOk ].
  - apply keeps_throw.
Qed.

Lemma keeps_readMemberValues record memberNames memberTypeInfo :
  keeps (readMemberValues decodeNext record memberNames memberTypeInfo) (fun _ => True).
Proof.
  unfold readMemberValues. apply keeps_forEach. intros [i memberName].
  eapply keeps_bind; [ apply keeps_readObjectValue | intros v Hv ].
  by apply keeps_memberValues_set.
Qed.

Lemma keeps_readUntypedMemberValues record memberNames :
  keeps (readUntypedMemberValues decodeNext record memberNames) (fun _ => True).
Proof.
  unfold readUntypedMemberValues. apply keeps_forEach. intros memberName.
  eapply keeps_bind; [ exact decodeNext_keeps | intros r Hr ].
  apply keeps_memberValues_set. intros r' E. by injection E as <-.
Qed.

(** A class record entered into the store before its members are read,
    filled, and read back from the store. *)
Lemma keeps_class_tail c id (metadata : option Metadata) (fill : nat -> Dec unit) :
  memberValues c = [] ->
  (forall record, keeps (fill record) (fun _ => True)) ->
  keeps (record <- new (OfClassRecord c) ;;
         match metadata with
         | Some metadata => metadataMap_set id metadata
         | None => ret tt
         end ;;;
         recordMap_set id record ;;;
         fill record ;;;
         deref record) arraysOk.
Proof.
  intros Hempty Hfill.
  eapply keeps_bind with (P := fun _ => True); [ | intros record _ ].
  { apply keeps_new, arraysOk_leaf; [ exact I | ]. cbn [children]. by rewrite Hempty. }
  eapply keeps_bind with (P := fun _ => True); [ | intros ? _ ].
  { destruct metadata; [ by apply keeps_modify_tables | by apply keeps_ret ]. }
  eapply keeps_bind with (P := fun _ => True); [ by apply keeps_modify_tables | intros ? _ ].
  eapply keeps_bind with (P := fun _ => True); [ apply Hfill | intros ? _ ].
  apply keeps_deref.
Qed.

Lemma keeps_decodeClassWithMembersAndTypes :
  keeps (decodeClassWithMembersAndTypes decodeNext) arraysOk.
Proof.
  unfold decodeClassWithMembersAndTypes.
  eapply keeps_bind; [ apply keeps_readClassInfo | intros classInfo _ ].
  eapply keeps_bind; [ apply keeps_readMemberTypeInfo | intros memberTypeInfo _ ].
  eapply keeps_bind; [ apply keeps_onReader | intros libraryId _ ].
  apply (keeps_class_tail _ _ (Some _) (fun record => readMemberValues _ record _ _));
    [ reflexivity | intros; apply keeps_readMemberValues ].
Qed.

Lemma keeps_decodeSystemClassWithMembersAndTypes :
  keeps (decodeSystemClassWithMembersAndTypes decodeNext) arraysOk.
Proof.
  unfold decodeSystemClassWithMembersAndTypes.
  eapply keeps_bind; [ apply keeps_readClassInfo | intros classInfo _ ].
  eapply keeps_bind; [ apply keeps_readMemberTypeInfo | intros memberTypeInfo _ ].
  apply (keeps_class_tail _ _ (Some _) (fun record => readMemberValues _ record _ _));
    [ reflexivity | intros; apply keeps_readMemberValues ].
Qed.

Lemma keeps_decodeSystemClassWithMembers :
  keeps (decodeSystemClassWithMembers decodeNext) arraysOk.
Proof.
  unfold decodeSystemClassWithMembers.
  eapply keeps_bind; [ apply keeps_readClassInfo | intros classInfo _ ].
  apply (keeps_class_tail _ _ (Some _) (fun record => readUntypedMemberValues _ record _));
    [ reflexivity | intros; apply keeps_readUntypedMemberValues ].
Qed.

Lemma keeps_decodeClassWithMembers : keeps (decodeClassWithMembers decodeNext) arraysOk.
Proof.
  unfold decodeClassWithMembers.
  eapply keeps_bind; [ apply keeps_readClassInfo | intros classInfo _ ].
  eapply keeps_bind; [ apply keeps_onReader | intros libraryId _ ].
  apply (keeps_class_tail _ _ (Some _) (fun record => readUntypedMemberValues _ record _));
    [ reflexivity | intros; apply keeps_readUntypedMemberValues ].
Qed.

Lemma keeps_decodeClassWithId : keeps (decodeClassWithId decodeNext) arraysOk.
Proof.
  unfold decodeClassWithId.
  eapply keeps_bind; [ apply keeps_onReader | intros objectId _ ].
  eapply keeps_bind; [ apply keeps_onReader | intros metadataId _ ].
  eapply keeps_bind; [ apply keeps_gets | intros [metadata | ] _ ]; [ | apply keeps_throw ].
  apply (keeps_class_tail _ _ None
           (fun record =>
              match md_memberTypeInfo metadata with
              | Some memberTypeInfo => readMemberValues _ record _ memberTypeInfo
              | None => readUntypedMemberValues _ record _
              end)); [ reflexivity | ].
  intros record. destruct (md_memberTypeInfo metadata);
    [ apply keeps_readMemberValues | apply keeps_readUntypedMemberValues ].
Qed.
End KeepsDecode.

Section KeepsArrays.
Variable decodeNext : Dec NrbfRecord.
Hypothesis decodeNext_keeps : keeps decodeNext arraysOk.

Lemma valueOk_nulls n : Forall valueOk (replicate n VNull).
Proof. apply Forall_replicate. intros r. discriminate. Qed.

(** The loop of [readAllElements] adds at least as many elements as it
    advances [i], and it stops only when [i] has reached [count]. *)
Lemma keeps_readAllElements_loop rounds count binaryType additionalInfo :
  forall i elements,
    Forall valueOk elements ->
    keeps (readAllElements_loop decodeNext rounds count binaryType additionalInfo i elements)
      (fun result =>
         Forall valueOk result
         /\ count - i <= Z.of_nat (Datatypes.length result)
                         - Z.of_nat (Datatypes.length elements)).
Proof.
  induction rounds as [ | rounds IH ]; intros i elements Helements;
    cbn [readAllElements_loop]; destruct (i <? count) eqn:Ei.
  - apply keeps_throw.
  - apply keeps_ret. apply Z.ltb_ge in Ei. split; [ exact Helements | lia ].
  - eapply keeps_bind; [ by apply keeps_readObjectValue | intros val Hval ].
    assert (Hrun : forall nullCount,
              keeps (readAllElements_loop decodeNext rounds count binaryType additionalInfo
                       (i + nullCount) (elements ++ replicate (Z.to_nat nullCount) VNull))
                (fun result =>
                   Forall valueOk result
                   /\ count - i <= Z.of_nat (Datatypes.length result)
                                   - Z.of_nat (Datatypes.length elements))).
    { intros nullCount. eapply keeps_weaken.
      - apply IH. apply Forall_app. split; [ exact Helements | apply valueOk_nulls ].
      - intros result [Hok Hlen]. split; [ exact Hok | ].
        rewrite length_app, length_replicate in Hlen. lia. }
    assert (Hone : forall v, valueOk v ->
              keeps (readAllElements_loop decodeNext rounds count binaryType additionalInfo
                       (i + 1) (elements ++ [v]))
                (fun result =>
                   Forall valueOk result
                   /\ count - i <= Z.of_nat (Datatypes.length result)
                                   - Z.of_nat (Datatypes.length elements))).
    { intros v Hv. eapply keeps_weaken.
      - apply IH. apply Forall_app. split; [ exact Helements | by constructor ].
      - intros result [Hok Hlen]. split; [ exact Hok | ].
        rewrite length_app in Hlen. simpl in Hlen. lia. }
    destruct val as [ | | | | | [ | | | | | | | | | | | | | ] ];
      first [ apply Hrun | apply Hone; first [ exact Hval | intros r; discriminate ] ].
  - apply keeps_ret. apply Z.ltb_ge in Ei. split; [ exact Helements | lia ].
Qed.

Lemma keeps_readAllElements rounds count binaryType additionalInfo :
  keeps (readAllElements decodeNext rounds count binaryType additionalInfo)
    (fun elements =>
       Forall valueOk elements /\ count <= Z.of_nat (Datatypes.length elements)).
Proof.
  unfold readAllElements. eapply keeps_weaken.
  - apply keeps_readAllElements_loop. constructor.
  - intros result [Hok Hlen]. split; [ exact Hok | simpl in Hlen; lia ].
Qed.

(** A record that is complete when it enters the store. *)
Lemma keeps_register r id :
  arraysOk r ->
  keeps (record <- new r ;; recordMap_set id record ;;; deref record) arraysOk.
Proof.
  intros Hr.
  eapply keeps_bind with (P := fun _ => True); [ by apply keeps_new | intros record _ ].
  eapply keeps_bind with (P := fun _ => True); [ by apply keeps_modify_tables | intros ? _ ].
  apply keeps_deref.
Qed.

Lemma keeps_decodeBinaryArray rounds : keeps (decodeBinaryArray decodeNext rounds) arraysOk.
Proof.
  unfold decodeBinaryArray.
  eapply keeps_bind; [ apply keeps_onReader | intros objectId _ ].
  eapply keeps_bind; [ apply keeps_onReader | intros binaryArrayTypeEnum _ ].
  eapply keeps_bind; [ apply keeps_onReader | intros rank _ ].
  eapply keeps_bind with (P := fun _ => True); [ keeps_reads | intros lengths _ ].
  eapply keeps_bind with (P := fun _ => True); [ keeps_reads | intros lowerBounds _ ].
  eapply keeps_bind; [ apply keeps_onReader | intros typeEnum _ ].
  eapply keeps_bind; [ apply keeps_readAdditionalTypeInfo | intros additionalTypeInfo _ ].
  cbv zeta.
  eapply keeps_bind; [ apply keeps_readAllElements | intros elements [Hok Hlen] ].
  apply keeps_register, arraysOk_elements; [ exact Hlen | exact Hok ].
Qed.

Lemma keeps_decodeArraySingleObject rounds :
  keeps (decodeArraySingleObject decodeNext rounds) arraysOk.
Proof.
  unfold decodeArraySingleObject.
  eapply keeps_bind; [ apply keeps_onReader | intros objectId _ ].
  eapply keeps_bind; [ apply keeps_onReader | intros length _ ].
  eapply keeps_bind; [ apply keeps_readAllElements | intros elements [Hok Hlen] ].
  apply keeps_register, arraysOk_elements; [ exact Hlen | exact Hok ].
Qed.

Lemma keeps_decodeArraySingleString rounds :
  keeps (decodeArraySingleString decodeNext rounds) arraysOk.
Proof.
  unfold decodeArraySingleString.
  eapply keeps_bind; [ apply keeps_onReader | intros objectId _ ].
  eapply keeps_bind; [ apply keeps_onReader | intros length _ ].
  eapply keeps_bind; [ apply keeps_readAllElements | intros elements [Hok Hlen] ].
  apply keeps_register, arraysOk_elements; [ exact Hlen | exact Hok ].
Qed.

Lemma keeps_decodeArraySinglePrimitive : keeps decodeArraySinglePrimitive arraysOk.
Proof.
  unfold decodeArraySinglePrimitive.
  eapply keeps_bind; [ apply keeps_onReader | intros objectId _ ].
  eapply keeps_bind; [ apply keeps_onReader | intros length _ ].
  eapply keeps_bind; [ apply keeps_onReader | intros primitiveTypeEnum _ ].
  eapply keeps_bind; [ apply keeps_times, keeps_readPrimitiveValue | ].
  intros elements [Hlen Hok].
  apply keeps_register, arraysOk_elements.
  - cbn [arrayLengthOk]. rewrite Hlen. lia.
  - cbn [children]. eapply Forall_impl; [ exact Hok | apply notRecord_valueOk ].
Qed.

(** The body of [decodeNext] keeps the store and returns a record whose
    arrays are long enough, if the nested calls do. *)
Lemma keeps_decodeNext_body rounds : keeps (decodeNext_body decodeNext rounds) arraysOk.
Proof.
  unfold decodeNext_body.
  eapply keeps_bind; [ apply keeps_gets | intros pos _ ].
  eapply keeps_bind; [ apply keeps_onReader | intros recordTypeByte _ ].
  repeat match goal with |- keeps (if ?c then _ else _) _ => destruct c end.
  - apply keeps_throw.
  - unfold decodeSerializationHeader.
    repeat (eapply keeps_bind; [ apply keeps_onReader | intros ? _ ]).
    apply keeps_ret. by apply arraysOk_leaf.
  - unfold decodeBinaryLibrary.
    repeat (eapply keeps_bind; [ apply keeps_onReader | intros ? _ ]).
    eapply keeps_bind with (P := fun _ => True); [ by apply keeps_modify_tables | intros ? _ ].
    apply keeps_ret. by apply arraysOk_leaf.
  - by apply keeps_decodeClassWithMembersAndTypes.
  - by apply keeps_decodeSystemClassWithMembersAndTypes.
  - by apply keeps_decodeSystemClassWithMembers.
  - by apply keeps_decodeClassWithMembers.
  - by apply keeps_decodeClassWithId.
  - unfold decodeBinaryObjectString.
    repeat (eapply keeps_bind; [ apply keeps_onReader | intros ? _ ]).
    apply keeps_register. by apply arraysOk_leaf.
  - apply keeps_decodeBinaryArray.
  - apply keeps_decodeArraySinglePrimitive.
  - apply keeps_decodeArraySingleObject.
  - apply keeps_decodeArraySingleString.
  - unfold decodeMemberPrimitiveTyped.
    eapply keeps_bind; [ apply keeps_onReader | intros primitiveTypeEnum _ ].
    eapply keeps_bind; [ apply keeps_readPrimitiveValue | intros value Hvalue ].
    apply keeps_ret, arraysOk_elements; [ exact I | ].
    cbn [children]. constructor; [ by apply notRecord_valueOk | constructor ].
  - unfold decodeMemberReference.
    eapply keeps_bind; [ apply keeps_onReader | intros ? _ ].
    apply keeps_ret. by apply arraysOk_leaf.
  - apply keeps_ret. by apply arraysOk_leaf.
  - unfold decodeObjectNullMultiple.
    eapply keeps_bind; [ apply keeps_onReader | intros ? _ ].
    apply keeps_ret. by apply arraysOk_leaf.
  - unfold decodeObjectNullMultiple256.
    eapply keeps_bind; [ apply keeps_onReader | intros ? _ ].
    apply keeps_ret. by apply arraysOk_leaf.
  - apply keeps_ret. by apply arraysOk_leaf.
  - apply keeps_throw.
Qed.
End KeepsArrays.

Lemma keeps_decodeNext fuel : keeps (decodeNext fuel) arraysOk.
Proof.
  induction fuel as [ | fuel IH ]; cbn [decodeNext].
  - apply keeps_throw.
  - by apply keeps_decodeNext_body.
Qed.

Lemma keeps_decode_loop fuel budget : forall count,
  keeps (decode_loop fuel budget count) (fun _ => True).
Proof.
  induction budget as [ | budget IH ]; intros count; cbn [decode_loop].
  - apply keeps_throw.
  - eapply keeps_bind; [ apply keeps_decodeNext | intros record _ ].
    cbv zeta. destruct (100000 <? count + 1); [ apply keeps_throw | ].
    destruct (isMessageEnd record); [ by apply keeps_ret | apply IH ].
Qed.

Lemma decode_arraysOk fuel buffer root : decode fuel buffer = Ok root -> arraysOk root.
Proof.
  unfold decode. intros H.
  destruct (decode_run fuel (newDecoder buffer)) as [[root' d'] | ] eqn:E; [ | discriminate ].
  injection H as ->.
  assert (Hrun : keeps (decode_run fuel) arraysOk).
  { unfold decode_run.
    eapply keeps_bind; [ apply keeps_onReader | intros headerByte _ ].
    destruct (negb _); [ apply keeps_throw | ].
    repeat (eapply keeps_bind; [ apply keeps_onReader | intros ? _ ]).
    cbv zeta.
    eapply keeps_bind; [ apply keeps_decode_loop | intros ? _ ].
    eapply keeps_bind; [ apply keeps_getRecord | intros found Hfound ].
    destruct found as [r | ]; [ apply keeps_ret; by apply Hfound | apply keeps_throw ]. }
  assert (Hempty : storeOk (newDecoder buffer)) by constructor.
  exact (proj2 (Hrun _ _ _ Hempty E)).
Qed.

(** When every null run fits, the loop of [readAllElements] fills exactly
    the slots that were left. *)
Lemma readAllElements_loop_exact decodeNext rounds count binaryType additionalInfo :
  forall i elements d result d' runs d'',
    readAllElements_loop decodeNext rounds count binaryType additionalInfo i elements d
      = Ok (result, d') ->
    nullRuns_loop decodeNext rounds count binaryType additionalInfo i d = Ok (runs, d'') ->
    Forall runFits runs -> i <= count ->
    Z.of_nat (Datatypes.length result) = Z.of_nat (Datatypes.length elements) + (count - i).
Proof.
  induction rounds as [ | rounds IH ]; intros i elements d result d' runs d'' Hread Hruns Hfit Hi;
    cbn [readAllElements_loop nullRuns_loop] in Hread, Hruns;
    destruct (i <? count) eqn:Ei;
    try (apply Z.ltb_ge in Ei; injection Hread as <- <-; lia);
    try discriminate.
  apply Z.ltb_lt in Ei. unfold bind in Hread, Hruns.
  destruct (readObjectValue decodeNext (Some binaryType) (Some additionalInfo) d)
    as [[val d1] | ]; [ | discriminate ].
  assert (Hone : forall v,
            readAllElements_loop decodeNext rounds count binaryType additionalInfo (i + 1)
              (elements ++ [v]) d1 = Ok (result, d') ->
            nullRuns_loop decodeNext rounds count binaryType additionalInfo (i + 1) d1
              = Ok (runs, d'') ->
            Z.of_nat (Datatypes.length result)
            = Z.of_nat (Datatypes.length elements) + (count - i)).
  { intros v H1 H2. rewrite (IH _ _ _ _ _ _ _ H1 H2 Hfit) by lia.
    rewrite length_app. simpl. lia. }
  assert (Hrun : forall nullCount,
            readAllElements_loop decodeNext rounds count binaryType additionalInfo
              (i + nullCount) (elements ++ replicate (Z.to_nat nullCount) VNull) d1
              = Ok (result, d') ->
            match nullRuns_loop decodeNext rounds count binaryType additionalInfo
                    (i + nullCount) d1 with
            | Ok (a, s') => ret ((nullCount, count - i) :: a) s'
            | Err e => Err e
            end = Ok (runs, d'') ->
            Z.of_nat (Datatypes.length result)
            = Z.of_nat (Datatypes.length elements) + (count - i)).
  { intros nullCount H1 H2.
    destruct (nullRuns_loop decodeNext rounds count binaryType additionalInfo
                (i + nullCount) d1) as [[runs' d2] | ] eqn:E2; [ | discriminate ].
    injection H2 as <- <-. inversion Hfit as [ | run rest Hrun Hrest ]; subst.
    unfold runFits in Hrun. simpl in Hrun.
    rewrite (IH _ _ _ _ _ _ _ H1 E2 Hrest) by lia.
    rewrite length_app, length_replicate. lia. }
  destruct val as [ | | | | | [ | | | | | | | | | | | | | ] ]; eauto.
Qed.

(** C4 as stated fails: this object array declares 2 slots and meets an
    [ObjectNullMultiple256(5)] record; [decode] accepts the stream and the
    array holds 5 elements. *)
Lemma decoded_array_lengths_counterexample :
  decode 10 [0; 1; 0; 0; 0; 255; 255; 255; 255; 1; 0; 0; 0; 0; 0; 0; 0;
             16; 1; 0; 0; 0; 2; 0; 0; 0; 13; 5; 11]
  = Ok (ArraySingleObjectRecord 1 2 [VNull; VNull; VNull; VNull; VNull])
  /\ Z.of_nat (Datatypes.length [VNull; VNull; VNull; VNull; VNull]) <> 2.
Proof. split; [ vm_compute; reflexivity | simpl; lia ]. Qed.

(** ** Fixed-width values through the writer and the reader *)

Lemma leValue_leBytes n : forall v, leValue (leBytes n v) = v mod 256 ^ Z.of_nat n.
Proof.
  induction n as [ | n IH ]; intros v.
  - simpl. rewrite Z.mod_1_r. reflexivity.
  - cbn [leBytes leValue]. rewrite IH, Nat2Z.inj_succ, Z.pow_succ_r by lia.
    rewrite Z.rem_mul_r by lia. reflexivity.
Qed.

Lemma readBytes_at pre xs post :
  readBytes (Datatypes.length xs) (mkReader (pre ++ xs ++ post) (Datatypes.length pre))
  = Ok (xs, mkReader (pre ++ xs ++ post) (Datatypes.length pre + Datatypes.length xs)).
Proof.
  unfold readBytes. cbn [view offset].
  rewrite drop_app_length, take_app_length, Nat.eqb_refl. reflexivity.
Qed.

(** A read of [n] bytes where a writer has just pushed [n] bytes. *)
Lemma readBytes_after_push n chunk w post :
  Datatypes.length chunk = n ->
  readBytes n (readerAfter (push chunk) w post 0) = Ok (chunk, readerAfter (push chunk) w post n).
Proof.
  intros <-. unfold readerAfter. rewrite toBuffer_push, <- app_assoc, Nat.add_0_r.
  apply readBytes_at.
Qed.

Lemma readByte_after_push b w post :
  readByte (readerAfter (push [b]) w post 0) = Ok (b, readerAfter (push [b]) w post 1).
Proof.
  unfold readerAfter. rewrite toBuffer_push, <- app_assoc, Nat.add_0_r. apply readByte_at.
Qed.

Ltac read_after_push :=
  unfold readSByte, readInt16, readUInt16, readInt32, readUInt32, readInt64, readUInt64,
    readBoolean, writeByte, writeSByte, writeInt16, writeUInt16, writeInt32, writeUInt32,
    writeInt64, writeUInt64;
  first [ rewrite (bind_Ok _ _ _ _ _ (readByte_after_push _ _ _))
        | rewrite (bind_Ok _ _ _ _ _ (readBytes_after_push _ _ _ _ (leBytes_length _ _))) ];
  unfold ret.

Lemma toInt8_toUint8 v : toInt8 (toUint8 v) = toInt8 v.
Proof.
  unfold toInt8, toUint8. change (2 ^ 8) with 256. change (2 ^ 7) with 128.
  Z.div_mod_to_equations. lia.
Qed.

Lemma toInt16_mod v : toInt16 (v mod 256 ^ Z.of_nat 2) = toInt16 v.
Proof.
  unfold toInt16. change (256 ^ Z.of_nat 2) with 65536.
  change (2 ^ 16) with 65536. change (2 ^ 15) with 32768.
  Z.div_mod_to_equations. lia.
Qed.

Lemma toInt32_mod v : toInt32 (v mod 256 ^ Z.of_nat 4) = toInt32 v.
Proof.
  unfold toInt32. change (256 ^ Z.of_nat 4) with 4294967296.
  change (2 ^ 32) with 4294967296. change (2 ^ 31) with 2147483648.
  Z.div_mod_to_equations. lia.
Qed.

Lemma toInt64_mod v : toInt64 (v mod 256 ^ Z.of_nat 8) = toInt64 v.
Proof.
  unfold toInt64. change (256 ^ Z.of_nat 8) with 18446744073709551616.
  change (2 ^ 64) with 18446744073709551616. change (2 ^ 63) with 9223372036854775808.
  Z.div_mod_to_equations. lia.
Qed.

(** X1. What [writeSByte], [writeInt16], [writeInt32] and [writeInt64]
    append is read back by the reader of the same width, placed where the
    writer stood, as the value wrapped to that width; the reader advances
    by 1, 2, 4 and 8 bytes, whatever follows in the buffer.  A value inside
    the range of the width comes back unchanged. *)
Theorem signed_write_read (v : Z) (w : BinaryWriter) (post : list Z) :
  readSByte (readerAfter (writeSByte v) w post 0)
    = Ok (toInt8 v, readerAfter (writeSByte v) w post 1)
  /\ readInt16 (readerAfter (writeInt16 v) w post 0)
    = Ok (toInt16 v, readerAfter (writeInt16 v) w post 2)
  /\ readInt32 (readerAfter (writeInt32 v) w post 0)
    = Ok (toInt32 v, readerAfter (writeInt32 v) w post 4)
  /\ readInt64 (readerAfter (writeInt64 v) w post 0)
    = Ok (toInt64 v, readerAfter (writeInt64 v) w post 8)
  /\ (- 2 ^ 7 <= v < 2 ^ 7 -> toInt8 v = v)
  /\ (- 2 ^ 15 <= v < 2 ^ 15 -> toInt16 v = v)
  /\ (- 2 ^ 31 <= v < 2 ^ 31 -> toInt32 v = v)
  /\ (- 2 ^ 63 <= v < 2 ^ 63 -> toInt64 v = v).
Proof.
  repeat split.
  - read_after_push. by rewrite toInt8_toUint8.
  - read_after_push. by rewrite leValue_leBytes, toInt16_mod.
  - read_after_push. by rewrite leValue_leBytes, toInt32_mod.
  - read_after_push. fold (toInt64 (leValue (leBytes 8 v))).
    by rewrite leValue_leBytes, toInt64_mod.
  - intros H. unfold toInt8. rewrite Z.mod_small; lia.
  - intros H. unfold toInt16. rewrite Z.mod_small; lia.
  - apply toInt32_id.
  - intros H. unfold toInt64. rewrite Z.mod_small; lia.
Qed.

Lemma signed_write_read_witness :
  - 2 ^ 31 <= -5 < 2 ^ 31
  /\ readInt32 (readerAfter (writeInt32 (-5)) (writeByte 6 (mkWriter [])) [11] 0)
     = Ok (-5, readerAfter (writeInt32 (-5)) (writeByte 6 (mkWriter [])) [11] 4).
Proof.
  split; [ lia | ].
  destruct (signed_write_read (-5) (writeByte 6 (mkWriter [])) [11])
    as (_ & _ & H32 & _ & _ & _ & Hid & _).
  rewrite Hid in H32 by lia. exact H32.
Defined.

(** X2. What [writeByte], [writeUInt16], [writeUInt32] and [writeUInt64]
    append is read back by the reader of the same width as the value
    modulo 2^8, 2^16, 2^32 and 2^64, and [writeBoolean] as the boolean
    written; a byte that is not 0 reads as [true]. *)
Theorem unsigned_write_read (v : Z) (b : bool) (w : BinaryWriter) (post : list Z) :
  readByte (readerAfter (writeByte v) w post 0)
    = Ok (v mod 2 ^ 8, readerAfter (writeByte v) w post 1)
  /\ readUInt16 (readerAfter (writeUInt16 v) w post 0)
    = Ok (v mod 2 ^ 16, readerAfter (writeUInt16 v) w post 2)
  /\ readUInt32 (readerAfter (writeUInt32 v) w post 0)
    = Ok (v mod 2 ^ 32, readerAfter (writeUInt32 v) w post 4)
  /\ readUInt64 (readerAfter (writeUInt64 v) w post 0)
    = Ok (v mod 2 ^ 64, readerAfter (writeUInt64 v) w post 8)
  /\ readBoolean (readerAfter (writeBoolean b) w post 0)
    = Ok (b, readerAfter (writeBoolean b) w post 1)
  /\ (v mod 2 ^ 8 <> 0 ->
      readBoolean (readerAfter (writeByte v) w post 0)
      = Ok (true, readerAfter (writeByte v) w post 1)).
Proof.
  repeat split.
  - unfold writeByte. rewrite readByte_after_push. reflexivity.
  - read_after_push. by rewrite leValue_leBytes.
  - read_after_push. by rewrite leValue_leBytes.
  - read_after_push. by rewrite leValue_leBytes.
  - unfold writeBoolean. read_after_push. by destruct b.
  - intros H. read_after_push. unfold toUint8.
    destruct (v mod 2 ^ 8 =? 0) eqn:E; [ apply Z.eqb_eq in E; contradiction | reflexivity ].
Qed.

Lemma unsigned_write_read_witness :
  2 mod 2 ^ 8 <> 0
  /\ readBoolean (readerAfter (writeByte 2) (mkWriter []) [] 0)
     = Ok (true, readerAfter (writeByte 2) (mkWriter []) [] 1).
Proof.
  split; [ vm_compute; discriminate | ].
  apply (unsigned_write_read 2 true (mkWriter []) []). vm_compute. discriminate.
Defined.

(** ** Variable-length integers outside the round trip *)

Lemma js_and_127_int32 n : - 2 ^ 31 <= n < 2 ^ 31 -> js_and n 127 = n mod 128.
Proof.
  intros H. unfold js_and. rewrite (toInt32_id n), (toInt32_id 127) by lia.
  change 127 with (Z.ones 7). rewrite Z.land_ones by lia. apply toInt32_id.
  change (2 ^ 7) with 128. pose proof (Z.mod_pos_bound n 128). lia.
Qed.

(** The reader's arithmetic on a first byte without continuation bit. *)
Lemma readVariableLengthInt_single b :
  0 <= b < 128 ->
  js_or 0 (js_shl (js_and b 127) 0) = b /\ (js_and b 128 =? 0) = true.
Proof.
  intros H.
  pose proof (Z_below_forallb
    (fun b => (js_or 0 (js_shl (js_and b 127) 0) =? b) && (js_and b 128 =? 0)) 128
    ltac:(vm_compute; reflexivity) b H) as Hb.
  cbv beta in Hb. apply andb_true_iff in Hb as [H1 H2]. apply Z.eqb_eq in H1. auto.
Qed.

Lemma writeVariableLengthInt_loop_negative rounds n w :
  - 2 ^ 31 <= n < 0 -> writeVariableLengthInt_loop (S rounds) n w = push [n mod 128] w.
Proof.
  intros Hn. pose proof (Z.mod_pos_bound n 128 ltac:(lia)) as Hb.
  cbn [writeVariableLengthInt_loop].
  rewrite js_and_127_int32, js_sar_7 by lia.
  replace (0 <? n / 128) with false
    by (symmetry; apply Z.ltb_ge;
        assert (n / 128 < 0) by (apply Z.div_lt_upper_bound; lia); lia).
  unfold writeByte, toUint8. rewrite (Z.mod_small (n mod 128)) by (change (2 ^ 8) with 256; lia).
  reflexivity.
Qed.

(** X3. A negative length is not written as a variable-length integer:
    [writeVariableLengthInt(n)] for a negative Int32 [n] appends the single
    byte [n & 0x7F], and [readVariableLengthInt] reads that byte back as a
    number between 0 and 127, never as [n]. *)
Theorem writeVariableLengthInt_negative (n : Z) (w : BinaryWriter) (post : list Z) :
  - 2 ^ 31 <= n < 0 ->
  toBuffer (writeVariableLengthInt n w) = toBuffer w ++ [n mod 128]
  /\ readVariableLengthInt (readerAfter (writeVariableLengthInt n) w post 0)
     = Ok (n mod 128, readerAfter (writeVariableLengthInt n) w post 1)
  /\ 0 <= n mod 128 < 128.
Proof.
  intros Hn.
  pose proof (Z.mod_pos_bound n 128 ltac:(lia)) as Hb.
  assert (Hw : writeVariableLengthInt n w = push [n mod 128] w)
    by (apply (writeVariableLengthInt_loop_negative 4); exact Hn).
  split; [ | split ]; [ rewrite Hw; apply toBuffer_push | | exact Hb ].
  unfold readerAfter. rewrite Hw. fold (readerAfter (push [n mod 128]) w post 0).
  fold (readerAfter (push [n mod 128]) w post 1).
  unfold readVariableLengthInt. cbn [readVariableLengthInt_loop].
  rewrite (bind_Ok _ _ _ _ _ (readByte_after_push _ _ _)).
  destruct (readVariableLengthInt_single (n mod 128) Hb) as [-> ->]. reflexivity.
Qed.

Lemma writeVariableLengthInt_negative_witness :
  - 2 ^ 31 <= -1 < 0
  /\ toBuffer (writeVariableLengthInt (-1) (mkWriter [])) = [127].
Proof.
  split; [ lia | ].
  destruct (writeVariableLengthInt_negative (-1) (mkWriter []) [] ltac:(lia)) as [H _].
  exact H.
Defined.

Lemma js_or_range a b : - 2 ^ 31 <= js_or a b < 2 ^ 31.
Proof. apply toInt32_range. Qed.

Lemma readVariableLengthInt_loop_bounds rounds : forall value shift r v r',
  readVariableLengthInt_loop rounds value shift r = Ok (v, r') ->
  view r' = view r
  /\ (offset r + 1 <= offset r' <= offset r + rounds)%nat
  /\ (offset r' <= Datatypes.length (view r))%nat
  /\ - 2 ^ 31 <= v < 2 ^ 31.
Proof.
  induction rounds as [ | rounds IH ]; intros value shift r v r' H; [ discriminate | ].
  cbn [readVariableLengthInt_loop] in H. unfold bind in H at 1.
  unfold readByte in H. destruct (view r !! offset r) as [ b | ] eqn:Eb; [ | discriminate ].
  apply lookup_lt_Some in Eb.
  destruct (js_and b 128 =? 0).
  - injection H as <- <-. cbn [view offset]. pose proof (js_or_range value (js_shl (js_and b 127) shift)).
    repeat split; lia.
  - apply IH in H. cbn [view offset] in H. destruct H as (Hv & Ho & Hl & Hr).
    repeat split; try assumption; lia.
Qed.

Lemma readVariableLengthInt_loop_too_long rounds : forall value shift r,
  (forall i, (i < rounds)%nat ->
     exists b, view r !! (offset r + i)%nat = Some b /\ 128 <= b < 256) ->
  readVariableLengthInt_loop rounds value shift r = Err VariableLengthIntTooLong.
Proof.
  induction rounds as [ | rounds IH ]; intros value shift r H; [ reflexivity | ].
  cbn [readVariableLengthInt_loop]. unfold bind at 1, readByte.
  destruct (H 0%nat ltac:(lia)) as (b & Eb & Hb). rewrite Nat.add_0_r in Eb. rewrite Eb.
  destruct (js_and_byte b ltac:(lia)) as [_ ->].
  replace (b <? 128) with false by (symmetry; apply Z.ltb_ge; lia).
  apply IH. cbn [view offset]. intros i Hi.
  destruct (H (S i) ltac:(lia)) as (b' & Eb' & Hb'). exists b'. split; [ | exact Hb' ].
  rewrite <- Eb'. f_equal. lia.
Qed.

(** X4. [readVariableLengthInt] consumes between one and five bytes of the
    buffer it was given, stays inside it and returns an Int32; when the
    next five bytes all carry the continuation bit it throws 'Variable
    length int too long'; and at the end of the buffer it throws the
    platform's RangeError. *)
Theorem readVariableLengthInt_bounds (r : BinaryReader) :
  (forall v r', readVariableLengthInt r = Ok (v, r') ->
     view r' = view r
     /\ (offset r + 1 <= offset r' <= offset r + 5)%nat
     /\ (offset r' <= Datatypes.length (view r))%nat
     /\ - 2 ^ 31 <= v < 2 ^ 31)
  /\ ((forall i, (i < 5)%nat ->
         exists b, view r !! (offset r + i)%nat = Some b /\ 128 <= b < 256) ->
      readVariableLengthInt r = Err VariableLengthIntTooLong)
  /\ ((Datatypes.length (view r) <= offset r)%nat ->
      readVariableLengthInt r = Err RangeError).
Proof.
  split; [ | split ].
  - intros v r'. apply readVariableLengthInt_loop_bounds.
  - apply readVariableLengthInt_loop_too_long.
  - intros H. unfold readVariableLengthInt. cbn [readVariableLengthInt_loop].
    unfold bind, readByte. rewrite lookup_ge_None_2 by exact H. reflexivity.
Qed.

Lemma readVariableLengthInt_bounds_witness :
  (forall i, (i < 5)%nat ->
     exists b, view (mkReader [128; 128; 128; 128; 128; 0] 0) !! (0 + i)%nat = Some b
               /\ 128 <= b < 256)
  /\ readVariableLengthInt (mkReader [128; 128; 128; 128; 128; 0] 0)
     = Err VariableLengthIntTooLong.
Proof.
  assert (H : forall i, (i < 5)%nat ->
     exists b, view (mkReader [128; 128; 128; 128; 128; 0] 0) !! (0 + i)%nat = Some b
               /\ 128 <= b < 256).
  { intros i Hi. exists 128. split; [ | lia ].
    do 5 (destruct i as [ | i ]; [ reflexivity | ]). lia. }
  split; [ exact H | ].
  destruct (readVariableLengthInt_bounds (mkReader [128; 128; 128; 128; 128; 0] 0))
    as (_ & Hlong & _).
  exact (Hlong H).
Defined.

(** ** Length-prefixed strings *)

Ltac bools :=
  repeat match goal with
         | H : _ && _ = true |- _ => apply andb_true_iff in H as [? ?]
         | H : between _ _ _ = true |- _ => unfold between in H
         | H : (_ <=? _) = true |- _ => apply Z.leb_le in H
         | H : (_ <=? _) = false |- _ => apply Z.leb_gt in H
         | H : (_ =? _) = true |- _ => apply Z.eqb_eq in H
         | H : (_ =? _) = false |- _ => apply Z.eqb_neq in H
         end.

Ltac decide_tests :=
  repeat match goal with
         | |- context [?a <=? ?b] =>
             first [ replace (a <=? b) with true by (symmetry; apply Z.leb_le; lia)
                   | replace (a <=? b) with false by (symmetry; apply Z.leb_gt; lia) ]
         end.

Lemma utf8Run_one b0 rest :
  b0 <= 127 -> utf8Run utf8Initial (b0 :: rest) = b0 :: utf8Run utf8Initial rest.
Proof.
  intros H. cbn [utf8Run]. unfold utf8Handle. cbn [bytesNeeded utf8Initial]. unfold utf8Lead.
  decide_tests. reflexivity.
Qed.

Lemma utf8Run_two b0 b1 rest :
  between 194 b0 223 = true -> between 128 b1 191 = true ->
  utf8Run utf8Initial (b0 :: b1 :: rest) = b0 :: b1 :: utf8Run utf8Initial rest.
Proof.
  intros H0 H1. bools.
  cbn [utf8Run]. unfold utf8Handle at 1. cbn [bytesNeeded utf8Initial]. unfold utf8Lead.
  decide_tests. cbn [andb app]. unfold utf8Handle at 1.
  cbn [bytesNeeded lowerBoundary upperBoundary bytesSeen].
  decide_tests. cbn [andb app]. reflexivity.
Qed.

Lemma utf8Run_three b0 b1 b2 rest :
  between 224 b0 239 = true ->
  between (if b0 =? 224 then 160 else 128) b1 (if b0 =? 237 then 159 else 191) = true ->
  between 128 b2 191 = true ->
  utf8Run utf8Initial (b0 :: b1 :: b2 :: rest) = b0 :: b1 :: b2 :: utf8Run utf8Initial rest.
Proof.
  intros H0 H1 H2. bools.
  cbn [utf8Run]. unfold utf8Handle at 1. cbn [bytesNeeded utf8Initial]. unfold utf8Lead.
  decide_tests. cbn [andb app]. unfold utf8Handle at 1.
  cbn [bytesNeeded lowerBoundary upperBoundary bytesSeen].
  destruct (b0 =? 224), (b0 =? 237); decide_tests; cbn [andb app];
    unfold utf8Handle at 1; cbn [bytesNeeded lowerBoundary upperBoundary bytesSeen];
    decide_tests; cbn [andb app]; reflexivity.
Qed.

Lemma utf8Run_four b0 b1 b2 b3 rest :
  between 240 b0 244 = true ->
  between (if b0 =? 240 then 144 else 128) b1 (if b0 =? 244 then 143 else 191) = true ->
  between 128 b2 191 = true -> between 128 b3 191 = true ->
  utf8Run utf8Initial (b0 :: b1 :: b2 :: b3 :: rest)
  = b0 :: b1 :: b2 :: b3 :: utf8Run utf8Initial rest.
Proof.
  intros H0 H1 H2 H3. bools.
  cbn [utf8Run]. unfold utf8Handle at 1. cbn [bytesNeeded utf8Initial]. unfold utf8Lead.
  decide_tests. cbn [andb app]. unfold utf8Handle at 1.
  cbn [bytesNeeded lowerBoundary upperBoundary bytesSeen].
  destruct (b0 =? 240), (b0 =? 244); decide_tests; cbn [andb app];
    unfold utf8Handle at 1; cbn [bytesNeeded lowerBoundary upperBoundary bytesSeen];
    decide_tests; cbn [andb app];
    unfold utf8Handle at 1; cbn [bytesNeeded lowerBoundary upperBoundary bytesSeen];
    decide_tests; cbn [andb app]; reflexivity.
Qed.

(** The decoder keeps well-formed UTF-8 as it is. *)
Lemma utf8Run_wellFormed bs : wellFormedUtf8 bs = true -> utf8Run utf8Initial bs = bs.
Proof.
  remember (Datatypes.length bs) as n eqn:En.
  assert (Hn : (Datatypes.length bs <= n)%nat) by lia. clear En.
  revert bs Hn. induction n as [ | n IH ]; intros bs Hn H.
  - destruct bs; [ reflexivity | simpl in Hn; lia ].
  - destruct bs as [ | b0 rest ]; [ reflexivity | ].
    cbn [wellFormedUtf8] in H. cbn [Datatypes.length] in Hn.
    destruct (between 0 b0 127) eqn:E0.
    { bools. rewrite utf8Run_one by lia. f_equal. apply IH; [ lia | exact H ]. }
    destruct (between 194 b0 223) eqn:E1.
    { destruct rest as [ | b1 rest ]; [ discriminate | ].
      apply andb_true_iff in H as [H1 H]. cbn [Datatypes.length] in Hn.
      rewrite utf8Run_two by assumption. do 2 f_equal. apply IH; [ lia | exact H ]. }
    destruct (between 224 b0 239) eqn:E2.
    { destruct rest as [ | b1 [ | b2 rest ] ]; try discriminate.
      apply andb_true_iff in H as [H12 H]. apply andb_true_iff in H12 as [H1 H2].
      cbn [Datatypes.length] in Hn.
      rewrite utf8Run_three by assumption. do 3 f_equal. apply IH; [ lia | exact H ]. }
    destruct (between 240 b0 244) eqn:E3; [ | discriminate ].
    destruct rest as [ | b1 [ | b2 [ | b3 rest ] ] ]; try discriminate.
    apply andb_true_iff in H as [H123 H]. apply andb_true_iff in H123 as [H12 H3].
    apply andb_true_iff in H12 as [H1 H2]. cbn [Datatypes.length] in Hn.
    rewrite utf8Run_four by assumption. do 4 f_equal. apply IH; [ lia | exact H ].
Qed.

Lemma stripBOM_none bs : startsWithBOM bs = false -> stripBOM bs = bs.
Proof.
  intros H. destruct bs as [ | a bs ]; [ reflexivity | ].
  destruct a as [ | p | p ]; try reflexivity.
  do 8 (destruct p as [ p | p | ]; try reflexivity).
  destruct bs as [ | b bs ]; [ reflexivity | ].
  destruct b as [ | p | p ]; try reflexivity.
  do 8 (destruct p as [ p | p | ]; try reflexivity).
  destruct bs as [ | c bs ]; [ reflexivity | ].
  destruct c as [ | p | p ]; try reflexivity.
  do 8 (destruct p as [ p | p | ]; try reflexivity).
  discriminate.
Qed.

Lemma bytesOfString_app s t : bytesOfString (s +:+ t) = bytesOfString s ++ bytesOfString t.
Proof. induction s as [ | c s IH ]; simpl; [ | rewrite IH ]; reflexivity. Qed.

Lemma bytesOfString_stringOfBytes bs :
  Forall isByte bs -> bytesOfString (stringOfBytes bs) = bs.
Proof.
  induction 1 as [ | b bs Hb _ IH ]; simpl; [ reflexivity | ].
  rewrite IH. unfold byteOfAscii, asciiOfByte. f_equal. unfold isByte in Hb.
  rewrite N_ascii_embedding; lia.
Qed.

Lemma toBuffer_writeLengthPrefixedString s w :
  Z.of_nat (Datatypes.length (bytesOfString s)) < 2 ^ 31 ->
  toBuffer (writeLengthPrefixedString s w) = toBuffer w ++ stringBytes s.
Proof.
  intros H. unfold writeLengthPrefixedString, TextEncoder_encode, stringBytes.
  rewrite toBuffer_push. unfold writeVariableLengthInt.
  rewrite writeVariableLengthInt_loop_appends by lia. by rewrite app_assoc.
Qed.

(** Reading a string where its wire form starts. *)
Lemma readLengthPrefixedString_at pre s post :
  wellFormedUtf8 (bytesOfString s) = true ->
  Z.of_nat (Datatypes.length (bytesOfString s)) < 2 ^ 31 ->
  readLengthPrefixedString (mkReader (pre ++ stringBytes s ++ post) (Datatypes.length pre))
  = Ok (stringOfBytes (stripBOM (bytesOfString s)),
        mkReader (pre ++ stringBytes s ++ post)
          (Datatypes.length pre + Datatypes.length (stringBytes s))).
Proof.
  intros Hwf Hlen. unfold readLengthPrefixedString, stringBytes.
  set (bytes := bytesOfString s) in *. set (n := Z.of_nat (Datatypes.length bytes)) in *.
  rewrite <- app_assoc.
  rewrite (bind_Ok _ _ _ _ _ (readVariableLengthInt_varintBytes n pre (bytes ++ post) ltac:(lia))).
  destruct (n =? 0) eqn:E.
  - apply Z.eqb_eq in E. assert (bytes = []) as ->
      by (destruct bytes; [ done | subst n; cbn [Datatypes.length] in E; lia ]).
    unfold ret. rewrite app_nil_r. reflexivity.
  - replace (n <? 0) with false by (symmetry; apply Z.ltb_ge; lia).
    subst n. rewrite Nat2Z.id.
    pose proof (readBytes_at (pre ++ varintBytes 5 (Z.of_nat (Datatypes.length bytes))) bytes post)
      as Hread.
    rewrite <- app_assoc, length_app in Hread. rewrite (bind_Ok _ _ _ _ _ Hread).
    unfold ret, TextDecoder_decode. rewrite utf8Run_wellFormed by exact Hwf.
    rewrite length_app. do 3 f_equal. lia.
Qed.

(** X5. A length-prefixed string survives the writer and the reader.  For
    a JavaScript string [s] (well-formed UTF-8 of fewer than 2^31 bytes),
    [readLengthPrefixedString], placed where [writeLengthPrefixedString(s)]
    wrote, consumes exactly what was written and returns [s]; unless [s]
    begins with the byte-order mark U+FEFF, which the reader drops (once). *)
Theorem string_write_read (s : string) (w : BinaryWriter) (post : list Z) :
  wellFormedUtf8 (bytesOfString s) = true ->
  Z.of_nat (Datatypes.length (bytesOfString s)) < 2 ^ 31 ->
  let consumed :=
    (Datatypes.length (toBuffer (writeLengthPrefixedString s w))
     - Datatypes.length (toBuffer w))%nat in
  (startsWithBOM (bytesOfString s) = false ->
   readLengthPrefixedString (readerAfter (writeLengthPrefixedString s) w post 0)
   = Ok (s, readerAfter (writeLengthPrefixedString s) w post consumed))
  /\ (forall s', bytesOfString s = byteOrderMark ++ bytesOfString s' ->
      readLengthPrefixedString (readerAfter (writeLengthPrefixedString s) w post 0)
      = Ok (s', readerAfter (writeLengthPrefixedString s) w post consumed)).
Proof.
  intros Hwf Hlen consumed.
  assert (Hread :
    readLengthPrefixedString (readerAfter (writeLengthPrefixedString s) w post 0)
    = Ok (stringOfBytes (stripBOM (bytesOfString s)),
          readerAfter (writeLengthPrefixedString s) w post consumed)).
  { subst consumed. unfold readerAfter.
    rewrite toBuffer_writeLengthPrefixedString by exact Hlen.
    rewrite <- app_assoc, Nat.add_0_r, length_app.
    rewrite readLengthPrefixedString_at by assumption. do 3 f_equal. lia. }
  split.
  - intros Hbom. rewrite Hread, stripBOM_none by exact Hbom.
    by rewrite stringOfBytes_bytesOfString.
  - intros s' Hs'. rewrite Hread, Hs'. cbn [byteOrderMark app stripBOM].
    by rewrite stringOfBytes_bytesOfString.
Qed.

Lemma string_write_read_witness :
  wellFormedUtf8 (bytesOfString sampleText) = true
  /\ Z.of_nat (Datatypes.length (bytesOfString sampleText)) < 2 ^ 31
  /\ startsWithBOM (bytesOfString sampleText) = false
  /\ readLengthPrefixedString
       (readerAfter (writeLengthPrefixedString sampleText) (mkWriter []) [11] 0)
     = Ok (sampleText, readerAfter (writeLengthPrefixedString sampleText) (mkWriter []) [11] 7).
Proof.
  split; [ reflexivity | ]. split; [ vm_compute; reflexivity | ]. split; [ reflexivity | ].
  destruct (string_write_read sampleText (mkWriter []) [11]) as [H _];
    [ reflexivity | vm_compute; reflexivity | ].
  apply H. reflexivity.
Defined.

(** ** GUID bytes in a raw buffer *)

Lemma guidBytes_length g : Datatypes.length (guidBytes g) = 16%nat.
Proof. unfold guidBytes. rewrite length_map, length_seq. reflexivity. Qed.

Lemma guidBytes_lookup g j :
  (j < 16)%nat ->
  guidBytes g !! j
  = Some (toUint8OrNaN (parseInt16 (slice (removeDashes g) (j * 2) (j * 2 + 2)))).
Proof.
  intros H. unfold guidBytes. rewrite list_lookup_fmap, lookup_seq_lt by exact H. reflexivity.
Qed.

Lemma matchesAt_spec data pattern i :
  matchesAt data pattern i = true <-> take (Datatypes.length pattern) (drop i data) = pattern.
Proof.
  unfold matchesAt. rewrite forallb_forall. split.
  - intros H. apply list_eq. intros j.
    destruct (decide (j < Datatypes.length pattern)%nat) as [ Hj | Hj ].
    + rewrite lookup_take_lt, lookup_drop by exact Hj.
      apply (proj1 (bool_decide_eq_true _)). apply H. apply in_seq. lia.
    + rewrite lookup_take_ge by lia. symmetry. apply lookup_ge_None. lia.
  - intros H j Hj. apply in_seq in Hj. apply (proj2 (bool_decide_eq_true _)).
    transitivity (take (Datatypes.length pattern) (drop i data) !! j);
      [ | by rewrite H ].
    rewrite lookup_take_lt, lookup_drop by lia. reflexivity.
Qed.

Lemma foldl_push_filter (P : nat -> bool) l : forall acc,
  foldl (fun matches i => if P i then matches ++ [i] else matches) acc l
  = acc ++ List.filter P l.
Proof.
  induction l as [ | i l IH ]; intros acc; simpl; [ by rewrite app_nil_r | ].
  rewrite IH. destruct (P i); [ by rewrite <- app_assoc | reflexivity ].
Qed.

Lemma findGuidInBinary_filter buffer g :
  findGuidInBinary buffer g
  = List.filter (matchesAt buffer (guidBytes g))
      (seq 0 (Datatypes.length buffer + 1 - 16)).
Proof.
  unfold findGuidInBinary. rewrite foldl_push_filter, guidBytes_length. reflexivity.
Qed.

Lemma findGuidInBinary_elem buffer g i :
  i ∈ findGuidInBinary buffer g <-> take 16 (drop i buffer) = guidBytes g.
Proof.
  rewrite findGuidInBinary_filter, list_elem_of_In, filter_In, in_seq, matchesAt_spec.
  rewrite guidBytes_length. split; [ tauto | ]. intros H. split; [ | exact H ].
  assert (Hlen : Datatypes.length (take 16 (drop i buffer)) = 16%nat)
    by (rewrite H; apply guidBytes_length).
  rewrite length_take, length_drop in Hlen. lia.
Qed.

Lemma filter_seq_sorted (P : nat -> bool) n : forall start,
  StronglySorted lt (List.filter P (seq start n)).
Proof.
  induction n as [ | n IH ]; intros start; simpl; [ constructor | ].
  destruct (P start); [ | apply IH ].
  constructor; [ apply IH | ].
  apply Forall_forall. intros x Hx. apply list_elem_of_In, filter_In in Hx as [Hx _].
  apply in_seq in Hx. lia.
Qed.

(** X6. [findGuidInBinary] returns exactly the offsets at which the sixteen
    bytes of the GUID string, taken pair by pair in the order of the text,
    stand in the buffer; the offsets are in ascending order, each once; a
    buffer of fewer than sixteen bytes has none. *)
Theorem findGuidInBinary_spec (buffer : list Z) (g : string) :
  (forall i, i ∈ findGuidInBinary buffer g <-> take 16 (drop i buffer) = guidBytes g)
  /\ StronglySorted lt (findGuidInBinary buffer g)
  /\ ((Datatypes.length buffer < 16)%nat -> findGuidInBinary buffer g = []).
Proof.
  split; [ | split ].
  - apply findGuidInBinary_elem.
  - rewrite findGuidInBinary_filter. apply filter_seq_sorted.
  - intros H. rewrite findGuidInBinary_filter.
    replace (Datatypes.length buffer + 1 - 16)%nat with 0%nat by lia. reflexivity.
Qed.

Lemma findGuidInBinary_spec_witness :
  (Datatypes.length [0; 1; 2] < 16)%nat
  /\ findGuidInBinary [0; 1; 2] "00010203-0405-0607-0809-0a0b0c0d0e0f" = [].
Proof.
  split; [ simpl; lia | ].
  destruct (findGuidInBinary_spec [0; 1; 2] "00010203-0405-0607-0809-0a0b0c0d0e0f")
    as (_ & _ & H).
  apply H. simpl. lia.
Defined.

(** *** Replacing sixteen bytes *)

Lemma Uint8Array_set_length index value data :
  Datatypes.length (Uint8Array_set index value data) = Datatypes.length data.
Proof.
  unfold Uint8Array_set. destruct (_ && _); [ apply length_insert | reflexivity ].
Qed.

Lemma Uint8Array_set_other index value data k :
  index <> Z.of_nat k -> Uint8Array_set index value data !! k = data !! k.
Proof.
  intros H. unfold Uint8Array_set.
  destruct ((0 <=? index) && (index <? Z.of_nat (Datatypes.length data))) eqn:E;
    [ | reflexivity ].
  apply andb_true_iff in E as [E1 E2]. apply Z.leb_le in E1.
  apply list_lookup_insert_ne. lia.
Qed.

Lemma Uint8Array_set_same index value data :
  0 <= index < Z.of_nat (Datatypes.length data) ->
  Uint8Array_set index value data !! Z.to_nat index = Some (toUint8OrNaN value).
Proof.
  intros H. unfold Uint8Array_set.
  replace ((0 <=? index) && (index <? Z.of_nat (Datatypes.length data))) with true
    by (symmetry; apply andb_true_iff; split; [ apply Z.leb_le | apply Z.ltb_lt ]; lia).
  apply list_lookup_insert_eq. lia.
Qed.

Section Stores.
(** The stores of [replaceGuidAtOffset], for any list of subscripts. *)
Variable offset : Z.
Variable value : nat -> option Z.

Lemma stores_length subscripts : forall data,
  Datatypes.length (stores offset value data subscripts) = Datatypes.length data.
Proof.
  induction subscripts as [ | i l IH ]; intros data; [ reflexivity | ].
  cbn [stores foldl]. fold (stores offset value (Uint8Array_set (offset + Z.of_nat i) (value i) data) l).
  rewrite IH. apply Uint8Array_set_length.
Qed.

Lemma stores_other subscripts k : forall data,
  (forall i, i ∈ subscripts -> offset + Z.of_nat i <> Z.of_nat k) ->
  stores offset value data subscripts !! k = data !! k.
Proof.
  induction subscripts as [ | i l IH ]; intros data H; [ reflexivity | ].
  cbn [stores foldl]. fold (stores offset value (Uint8Array_set (offset + Z.of_nat i) (value i) data) l).
  rewrite IH by (intros j Hj; apply H; by right).
  apply Uint8Array_set_other. apply H. by left.
Qed.

Lemma stores_same subscripts i : forall data,
  NoDup subscripts -> i ∈ subscripts ->
  0 <= offset + Z.of_nat i < Z.of_nat (Datatypes.length data) ->
  stores offset value data subscripts !! Z.to_nat (offset + Z.of_nat i) = Some (toUint8OrNaN (value i)).
Proof.
  induction subscripts as [ | a l IH ]; intros data Hnd Hin Hrange.
  - by apply elem_of_nil in Hin.
  - apply NoDup_cons in Hnd as [Ha Hnd].
    cbn [stores foldl]. fold (stores offset value (Uint8Array_set (offset + Z.of_nat a) (value a) data) l).
    destruct (decide (i ∈ l)) as [ Hl | Hl ].
    + apply IH; [ exact Hnd | exact Hl | by rewrite Uint8Array_set_length ].
    + apply elem_of_cons in Hin as [ -> | Hin ]; [ | contradiction ].
      rewrite stores_other; [ by apply Uint8Array_set_same | ].
      intros j Hj Heq. assert (j = a) by lia. subst j. contradiction.
Qed.
End Stores.

Lemma replaceGuidAtOffset_stores buffer offset g :
  replaceGuidAtOffset buffer offset g
  = stores offset (fun i => parseInt16 (slice (removeDashes g) (i * 2) (i * 2 + 2)))
      buffer (seq 0 16).
Proof. reflexivity. Qed.

Lemma replaceGuidAtOffset_length buffer offset g :
  Datatypes.length (replaceGuidAtOffset buffer offset g) = Datatypes.length buffer.
Proof. rewrite replaceGuidAtOffset_stores. apply stores_length. Qed.

Lemma replaceGuidAtOffset_other buffer offset g k :
  ~ (offset <= Z.of_nat k < offset + 16) ->
  replaceGuidAtOffset buffer offset g !! k = buffer !! k.
Proof.
  intros H. rewrite replaceGuidAtOffset_stores. apply stores_other.
  intros i Hi. apply elem_of_seq in Hi. lia.
Qed.

Lemma replaceGuidAtOffset_same buffer offset g j :
  (j < 16)%nat -> 0 <= offset + Z.of_nat j < Z.of_nat (Datatypes.length buffer) ->
  replaceGuidAtOffset buffer offset g !! Z.to_nat (offset + Z.of_nat j) = guidBytes g !! j.
Proof.
  intros Hj H. rewrite replaceGuidAtOffset_stores, guidBytes_lookup by exact Hj.
  apply stores_same; [ apply NoDup_seq | apply elem_of_seq; lia | exact H ].
Qed.

(** X7. [replaceGuidAtOffset] returns a buffer of the same length that
    differs from the input only inside the sixteen positions from
    [offset]: a position there that lies inside the buffer holds the byte
    of the new GUID, the stores that fall outside the buffer (a negative
    offset, an offset near the end) are dropped without an error. *)
Theorem replaceGuidAtOffset_spec (buffer : list Z) (offset : Z) (g : string) :
  Datatypes.length (replaceGuidAtOffset buffer offset g) = Datatypes.length buffer
  /\ (forall k, ~ (offset <= Z.of_nat k < offset + 16) ->
        replaceGuidAtOffset buffer offset g !! k = buffer !! k)
  /\ (forall j, (j < 16)%nat ->
        0 <= offset + Z.of_nat j < Z.of_nat (Datatypes.length buffer) ->
        replaceGuidAtOffset buffer offset g !! Z.to_nat (offset + Z.of_nat j)
        = guidBytes g !! j).
Proof.
  split; [ apply replaceGuidAtOffset_length | ].
  split; [ apply replaceGuidAtOffset_other | apply replaceGuidAtOffset_same ].
Qed.

Lemma replaceGuidAtOffset_spec_witness :
  ~ (-1 <= Z.of_nat 15 < -1 + 16)
  /\ replaceGuidAtOffset (replicate 16 7) (-1) "00010203-0405-0607-0809-0a0b0c0d0e0f" !! 15%nat
     = replicate 16 7 !! 15%nat.
Proof.
  split; [ lia | ].
  destruct (replaceGuidAtOffset_spec (replicate 16 7) (-1)
              "00010203-0405-0607-0809-0a0b0c0d0e0f") as (_ & H & _).
  apply H. lia.
Defined.

Lemma take_drop_lookup_eq {A} (l1 l2 : list A) i n :
  (forall j, (j < n)%nat -> l1 !! (i + j)%nat = l2 !! (i + j)%nat) ->
  take n (drop i l1) = take n (drop i l2).
Proof.
  intros H. apply list_eq. intros j.
  destruct (decide (j < n)%nat).
  - rewrite !lookup_take_lt, !lookup_drop by assumption. by apply H.
  - by rewrite !lookup_take_ge by lia.
Qed.

(** X8. The binary patch composes: after [replaceGuidAtOffset] at an offset
    where sixteen bytes fit, [findGuidInBinary] finds the new GUID at that
    offset, and at an offset whose sixteen bytes lie outside the replaced
    ones it finds a GUID exactly when it found it before. *)
Theorem findGuidInBinary_after_replace (buffer : list Z) (offset : nat) (g : string) :
  (offset + 16 <= Datatypes.length buffer)%nat ->
  offset ∈ findGuidInBinary (replaceGuidAtOffset buffer (Z.of_nat offset) g) g
  /\ (forall i g', (i + 16 <= offset)%nat \/ (offset + 16 <= i)%nat ->
        i ∈ findGuidInBinary (replaceGuidAtOffset buffer (Z.of_nat offset) g) g'
        <-> i ∈ findGuidInBinary buffer g').
Proof.
  intros Hfit. split.
  - apply findGuidInBinary_elem. apply list_eq. intros j.
    destruct (decide (j < 16)%nat) as [ Hj | Hj ].
    + rewrite lookup_take_lt, lookup_drop by exact Hj.
      rewrite <- replaceGuidAtOffset_same with (buffer := buffer) (offset := Z.of_nat offset)
        by (try exact Hj; lia).
      f_equal. lia.
    + rewrite lookup_take_ge by lia. symmetry. apply lookup_ge_None.
      rewrite guidBytes_length. lia.
  - intros i g' Hi. rewrite !findGuidInBinary_elem.
    rewrite (take_drop_lookup_eq (replaceGuidAtOffset buffer (Z.of_nat offset) g) buffer);
      [ reflexivity | ].
    intros j Hj. apply replaceGuidAtOffset_other. lia.
Qed.

Lemma findGuidInBinary_after_replace_witness :
  (2 + 16 <= Datatypes.length (replicate 20 7))%nat
  /\ 2%nat ∈ findGuidInBinary
       (replaceGuidAtOffset (replicate 20 7) (Z.of_nat 2) "00010203-0405-0607-0809-0a0b0c0d0e0f")
       "00010203-0405-0607-0809-0a0b0c0d0e0f".
Proof.
  split; [ simpl; lia | ].
  destruct (findGuidInBinary_after_replace (replicate 20 7) 2
              "00010203-0405-0607-0809-0a0b0c0d0e0f") as [H _]; [ simpl; lia | ].
  exact H.
Defined.

(** ** What the encoder refuses *)

Lemma bind_fails_right {S A B} (m : M S A) (f : A -> M S B) :
  (forall a, fails (f a)) -> fails (bind m f).
Proof.
  intros H s. unfold bind. destruct (m s) as [[a s'] | e]; [ apply H | by exists e ].
Qed.

Lemma forEach_fails {S A} (body : A -> M S unit) l x :
  x ∈ l -> fails (body x) -> fails (forEach body l).
Proof.
  intros Hin Hx. induction l as [ | a l IH ]; [ by apply elem_of_nil in Hin | ].
  intros s. cbn [forEach]. unfold bind. destruct (body a s) as [[[] s'] | e] eqn:E.
  - apply elem_of_cons in Hin as [ -> | Hin ].
    + destruct (Hx s) as [e He]. congruence.
    + apply (IH Hin).
  - by exists e.
Qed.

Section EncodeFails.
Variable coerceWrite : Z -> ObjectValue -> result (list Z).

Lemma writeObjectValue_bare encodeRecord v :
  isBare v = true -> fails (writeObjectValue encodeRecord v).
Proof. intros H s. destruct v; try discriminate; simpl; eauto. Qed.

Lemma encodeClassRecord_bare encodeRecord (c : ClassRecord) name v :
  name ∈ memberNames (classInfo c) -> getValue name c = Some v -> isBare v = true ->
  fails (encodeClassRecord encodeRecord c).
Proof.
  intros Hin Hget Hbare. unfold encodeClassRecord.
  do 4 (apply bind_fails_right; intros _).
  apply (forEach_fails _ _ name Hin). rewrite Map_getWith_get.
  unfold getValue in Hget. rewrite Hget. by apply writeObjectValue_bare.
Qed.

Lemma encode_fails root rootId :
  (forall e, writtenRecords e = ∅ -> exists err, encodeRecord coerceWrite root e = Err err) ->
  exists err, encode coerceWrite root rootId = Err err.
Proof.
  intros H. unfold encode. cbv [bind onWriter modify].
  match goal with
  | |- context [encodeRecord coerceWrite root ?e0] =>
      destruct (H e0 eq_refl) as [err ->]
  end.
  by exists err.
Qed.

Lemma encodeRecord_first_visit record e :
  writtenRecords e = ∅ ->
  encodeRecord coerceWrite record e
  = (encodeRecord_dispatch coerceWrite (encodeRecord coerceWrite) record ;;;
     markWritten record) e.
Proof.
  intros He. rewrite encodeRecord_unfold. unfold encodeRecord_body, bind at 1, gets.
  replace (alreadyWritten record e) with false; [ reflexivity | ].
  unfold alreadyWritten. destruct (objectId record) as [ id | ]; [ | reflexivity ].
  rewrite He, bool_decide_eq_false_2 by set_solver. by rewrite andb_false_r.
Qed.
End EncodeFails.

(** X9. [encode] never returns for a class record one of whose members
    holds a bare number or a bare string: the member loop of
    [encodeClassRecord] passes every value to [writeObjectValue], which
    throws on them, whatever the member's declared type. *)
Theorem encode_class_bare_member coerceWrite (c : ClassRecord) (rootId : option Z)
    (name : string) (v : ObjectValue) :
  name ∈ memberNames (classInfo c) -> getValue name c = Some v -> isBare v = true ->
  exists err, encode coerceWrite (OfClassRecord c) rootId = Err err.
Proof.
  intros Hin Hget Hbare. apply encode_fails. intros e He.
  rewrite encodeRecord_first_visit by exact He.
  unfold bind. cbn [encodeRecord_dispatch].
  destruct (encodeClassRecord_bare (encodeRecord coerceWrite) c name v Hin Hget Hbare e)
    as [err ->].
  by exists err.
Qed.

Lemma encode_class_bare_member_witness :
  ("x"%string ∈ memberNames (classInfo sampleClass))
  /\ getValue "x" sampleClass = Some (VNumber 5)
  /\ (exists err, encode noCoercion (OfClassRecord sampleClass) None = Err err).
Proof.
  assert (H : "x"%string ∈ memberNames (classInfo sampleClass))
    by (apply (bool_decide_unpack _); vm_compute; exact I).
  split; [ exact H | ]. split; [ reflexivity | ].
  apply (encode_class_bare_member noCoercion sampleClass None "x" (VNumber 5));
    [ exact H | reflexivity | reflexivity ].
Defined.

(** ** GUID records, for any string and any members *)

(** The record [createGuidRecord] builds, for any string. *)
Lemma createGuidRecord_shape objectId guidString :
  let bytes := guidBytes guidString in
  createGuidRecord objectId guidString
  = Ok (mkClassRecord
          (mkClassInfo objectId "System.Guid" 11
             ["_a"; "_b"; "_c"; "_d"; "_e"; "_f"; "_g"; "_h"; "_i"; "_j"; "_k"]%string)
          (Some (mkMemberTypeInfo (replicate 11 BinaryType.Primitive)
                   [ AtiPrimitive PrimitiveType.Int32;
                     AtiPrimitive PrimitiveType.Int16;
                     AtiPrimitive PrimitiveType.Int16;
                     AtiPrimitive PrimitiveType.Byte;
                     AtiPrimitive PrimitiveType.Byte;
                     AtiPrimitive PrimitiveType.Byte;
                     AtiPrimitive PrimitiveType.Byte;
                     AtiPrimitive PrimitiveType.Byte;
                     AtiPrimitive PrimitiveType.Byte;
                     AtiPrimitive PrimitiveType.Byte;
                     AtiPrimitive PrimitiveType.Byte ]))
          None RecordType.SystemClassWithMembersAndTypes
          [ ("_a"%string, VNumber (toInt32 (leValue (take 4 bytes))));
            ("_b"%string, VNumber (toInt16 (leValue (take 2 (drop 4 bytes)))));
            ("_c"%string, VNumber (toInt16 (leValue (take 2 (drop 6 bytes)))));
            ("_d"%string, VNumber (nth 8 bytes 0));
            ("_e"%string, VNumber (nth 9 bytes 0));
            ("_f"%string, VNumber (nth 10 bytes 0));
            ("_g"%string, VNumber (nth 11 bytes 0));
            ("_h"%string, VNumber (nth 12 bytes 0));
            ("_i"%string, VNumber (nth 13 bytes 0));
            ("_j"%string, VNumber (nth 14 bytes 0));
            ("_k"%string, VNumber (nth 15 bytes 0)) ]).
Proof.
  intros bytes. subst bytes. unfold createGuidRecord.
  generalize (guidBytes guidString). intros bytes. cbv zeta.
  rewrite !bind_call_setValue by reflexivity. rewrite call_setValue by reflexivity.
  cbn [Map_set String.eqb Ascii.eqb Bool.eqb andb]. reflexivity.
Qed.

(** X10. A GUID record cannot be written: for every object id and every
    string, [createGuidRecord] returns a record, and [encode] of that
    record throws 'Cannot encode bare number', its first member [_a]
    being a number. *)
Theorem encode_guid_record_fails coerceWrite (objectId : Z) (guidString : string)
    (rootId : option Z) :
  exists record,
    createGuidRecord objectId guidString = Ok record
    /\ encode coerceWrite (OfClassRecord record) rootId = Err BareNumber.
Proof.
  eexists. split; [ apply createGuidRecord_shape | ].
  unfold encode. cbv [bind onWriter modify].
  match goal with
  | |- context [encodeRecord coerceWrite ?r ?e0] =>
      rewrite (encodeRecord_first_visit coerceWrite r e0 eq_refl)
  end.
  reflexivity.
Qed.

(** The two characters [readDecimal] and [reconstructGuid] render a byte
    with are hexadecimal digits in lower case. *)
Lemma twoHex b :
  0 <= b < 256 ->
  exists c1 c2,
    padStart2 (toString16 b) = String c1 (String c2 EmptyString)
    /\ isHexDigit c1 = true /\ isHexDigit c2 = true
    /\ lowerAscii c1 = c1 /\ lowerAscii c2 = c2
    /\ hexPairByte c1 c2 = b.
Proof.
  intros H.
  pose proof (Z_below_forallb
    (fun b => match padStart2 (toString16 b) with
              | String c1 (String c2 EmptyString) =>
                  isHexDigit c1 && isHexDigit c2 && Ascii.eqb (lowerAscii c1) c1
                  && Ascii.eqb (lowerAscii c2) c2 && (hexPairByte c1 c2 =? b)
              | _ => false
              end) 256 ltac:(vm_compute; reflexivity) b H) as Hb.
  cbv beta in Hb.
  destruct (padStart2 (toString16 b)) as [ | c1 [ | c2 [ | ] ] ]; try discriminate.
  repeat (apply andb_true_iff in Hb as [Hb ?]).
  exists c1, c2. repeat split; try assumption; try (by apply Ascii.eqb_eq); by apply Z.eqb_eq.
Qed.

Lemma toUint8_range x : 0 <= toUint8 x < 256.
Proof. unfold toUint8. change (2 ^ 8) with 256. apply Z.mod_pos_bound. lia. Qed.

(** X11. Whatever numbers the eleven members of a GUID record hold,
    [parseGuid] returns a well-formed GUID string in lower case: each
    member is cut to its bytes before it is rendered. *)
Theorem parseGuid_wellFormed (guidRecord : ClassRecord) (out : string) :
  parseGuid guidRecord = Some out ->
  wellFormedGuid out = true /\ toLowerCase out = out.
Proof.
  unfold parseGuid, reconstructGuid. intros H.
  destruct (getNumber "_a" guidRecord) as [ a | ]; [ | discriminate H ].
  destruct (getNumber "_b" guidRecord) as [ b | ]; [ | discriminate H ].
  destruct (getNumber "_c" guidRecord) as [ c | ]; [ | discriminate H ].
  destruct (getNumber "_d" guidRecord) as [ d | ]; [ | discriminate H ].
  destruct (getNumber "_e" guidRecord) as [ e | ]; [ | discriminate H ].
  destruct (getNumber "_f" guidRecord) as [ f | ]; [ | discriminate H ].
  destruct (getNumber "_g" guidRecord) as [ g | ]; [ | discriminate H ].
  destruct (getNumber "_h" guidRecord) as [ h | ]; [ | discriminate H ].
  destruct (getNumber "_i" guidRecord) as [ i | ]; [ | discriminate H ].
  destruct (getNumber "_j" guidRecord) as [ j | ]; [ | discriminate H ].
  destruct (getNumber "_k" guidRecord) as [ k | ]; [ | discriminate H ].
  cbv beta match delta [mbind option_bind] in H. 
  apply (inj Some) in H. subst out.
  cbn [map hexOfBytes].
  repeat match goal with
         | |- context [padStart2 (toString16 (toUint8 ?x))] =>
             let c1 := fresh "c" in let c2 := fresh "c" in
             destruct (twoHex (toUint8 x) (toUint8_range x))
               as (c1 & c2 & -> & ? & ? & ? & ? & _)
         end.
  unfold wellFormedGuid, slice, sliceFrom.
  cbv -[isHexDigit lowerAscii].
  repeat match goal with
         | E : isHexDigit _ = true |- _ => rewrite E; clear E
         | E : lowerAscii _ = _ |- _ => rewrite E; clear E
         end.
  split; reflexivity.
Qed.

Lemma parseGuid_wellFormed_witness :
  parseGuid sampleGuid = Some "feffffff-ffff-0201-0011-22334455abff"%string
  /\ wellFormedGuid "feffffff-ffff-0201-0011-22334455abff" = true.
Proof.
  assert (H : parseGuid sampleGuid = Some "feffffff-ffff-0201-0011-22334455abff"%string)
    by (vm_compute; reflexivity).
  split; [ exact H | ]. exact (proj1 (parseGuid_wellFormed _ _ H)).
Defined.

(** ** What the decoder rejects *)

(** X12. [decode] rejects a buffer that does not begin with a stream
    header: an empty buffer and a buffer that ends inside the 17 bytes of
    the header end in the platform's RangeError, and a first byte other
    than 0 in 'Invalid header'. *)
Theorem decode_rejects_header (fuel : nat) :
  decode fuel [] = Err RangeError
  /\ (forall b rest, b <> 0 -> decode fuel (b :: rest) = Err (InvalidHeader b))
  /\ (forall rest, (Datatypes.length rest < 16)%nat -> decode fuel (0 :: rest) = Err RangeError).
Proof.
  split; [ reflexivity | split ].
  - intros b rest Hb. unfold decode, decode_run.
    rewrite newDecoder_decoderAt, (bind_Ok _ _ _ _ _ (readByte_decoderAt [] b rest [] ∅ ∅ ∅)).
    unfold RecordType.SerializedStreamHeader. apply Z.eqb_neq in Hb. rewrite Hb. reflexivity.
  - intros rest Hlen. unfold decode, decode_run.
    rewrite newDecoder_decoderAt, (bind_Ok _ _ _ _ _ (readByte_decoderAt [] 0 rest [] ∅ ∅ ∅)).
    cbn [negb Z.eqb RecordType.SerializedStreamHeader].
    do 16 (destruct rest as [ | ? rest ]; [ reflexivity | ]).
    simpl in Hlen. lia.
Qed.

Lemma decode_rejects_header_witness :
  6 <> 0 /\ decode 5 [6; 1; 0; 0; 0; 0; 11] = Err (InvalidHeader 6).
Proof.
  split; [ lia | ].
  destruct (decode_rejects_header 5) as (_ & H & _). apply H. lia.
Defined.

Lemma decodeNext_ClassWithId fuel done rest o rm lm mm :
  decodeNext (S fuel) (decoderAt done (1 :: rest) o rm lm mm)
  = decodeClassWithId (decodeNext fuel) (decoderAt (done ++ [1]) rest o rm lm mm).
Proof. rewrite decodeNext_lead. reflexivity. Qed.

(** X13. [decodeNext] rejects a lead byte that is no record type (any
    byte above 17) with 'Unsupported record type', naming the byte and its
    offset; and a ClassWithId record whose metadata id is not the object
    id of a class record with member names decoded before it with
    'Metadata not found'. *)
Theorem decodeNext_rejects (fuel : nat) (done rest : list Z) (records : list NrbfRecord)
    (ids : gmap Z nat) (libraries : gmap Z string) (metadata : gmap Z Metadata) :
  (forall tag, 17 < tag ->
     decodeNext (S fuel) (decoderAt done (tag :: rest) records ids libraries metadata)
     = Err (UnsupportedRecordType tag (Datatypes.length done)))
  /\ (forall objectId metadataId,
        - 2 ^ 31 <= objectId < 2 ^ 31 -> - 2 ^ 31 <= metadataId < 2 ^ 31 ->
        metadata !! metadataId = None ->
        decodeNext (S fuel)
          (decoderAt done
             ([RecordType.ClassWithId] ++ leBytes 4 objectId ++ leBytes 4 metadataId ++ rest)
             records ids libraries metadata)
        = Err (MetadataNotFound metadataId)).
Proof.
  split.
  - intros tag Htag. rewrite decodeNext_lead.
    rewrite bool_decide_eq_false_2; [ reflexivity | ].
    intros Hin. repeat (apply elem_of_cons in Hin as [ -> | Hin ]; [ lia | ]).
    by apply elem_of_nil in Hin.
  - intros objectId metadataId Hid Hmid Hnone.
    unfold RecordType.ClassWithId. cbn [app]. rewrite decodeNext_ClassWithId.
    unfold decodeClassWithId.
    rewrite (bind_Ok _ _ _ _ _ (readInt32_decoderAt _ objectId _ _ _ _ _ Hid)).
    rewrite (bind_Ok _ _ _ _ _ (readInt32_decoderAt _ metadataId _ _ _ _ _ Hmid)).
    unfold bind, gets, decoderAt. cbn [metadataMap]. rewrite Hnone. reflexivity.
Qed.

Lemma decodeNext_rejects_witness :
  17 < 18
  /\ decodeNext 1 (decoderAt [0] [18; 0] [] ∅ ∅ ∅) = Err (UnsupportedRecordType 18 1).
Proof.
  split; [ lia | ].
  destruct (decodeNext_rejects 0 [0] [0] [] ∅ ∅ ∅) as [H _]. apply H. lia.
Defined.

(** ** The record limit *)

Lemma decodeNext_ObjectNull fuel done rest o rm lm mm :
  decodeNext (S fuel) (decoderAt done (10 :: rest) o rm lm mm)
  = Ok (ObjectNullRecord, decoderAt (done ++ [10]) rest o rm lm mm).
Proof. rewrite decodeNext_lead. reflexivity. Qed.

(** The loop of [decode] over [n] ObjectNull records and a MessageEnd. *)
Lemma decode_loop_nulls fuel n : forall budget count done o rm lm mm,
  100001 <= count + Z.of_nat budget ->
  decode_loop (S fuel) budget count (decoderAt done (replicate n 10 ++ [11]) o rm lm mm)
  = if 100000 <? count + Z.of_nat n + 1 then Err TooManyRecords
    else Ok (tt, decoderAt (done ++ replicate n 10 ++ [11]) [] o rm lm mm).
Proof.
  induction n as [ | n IH ]; intros budget count done o rm lm mm Hbudget.
  - destruct budget as [ | budget ].
    + replace (100000 <? count + Z.of_nat 0 + 1) with true
        by (symmetry; apply Z.ltb_lt; lia).
      reflexivity.
    + cbn [replicate app].
      rewrite (decode_loop_step _ _ _ _ _ _ (decodeNext_MessageEnd fuel done [] o rm lm mm)).
      replace (count + Z.of_nat 0 + 1) with (count + 1) by lia. reflexivity.
  - destruct budget as [ | budget ].
    + replace (100000 <? count + Z.of_nat (S n) + 1) with true
        by (symmetry; apply Z.ltb_lt; lia).
      reflexivity.
    + cbn [replicate app].
      rewrite (decode_loop_step _ _ _ _ _ _ (decodeNext_ObjectNull fuel done _ o rm lm mm)).
      cbn [isMessageEnd].
      destruct (100000 <? count + 1) eqn:E.
      * apply Z.ltb_lt in E.
        replace (100000 <? count + Z.of_nat (S n) + 1) with true
          by (symmetry; apply Z.ltb_lt; lia).
        reflexivity.
      * rewrite IH by lia.
        replace (count + 1 + Z.of_nat n + 1) with (count + Z.of_nat (S n) + 1) by lia.
        rewrite <- !app_assoc. reflexivity.
Qed.

(** X14. [decode] reads at most 100000 records, the MessageEnd included:
    a stream made of a root string, [n] ObjectNull records and the
    MessageEnd decodes to its root when [n + 2 <= 100000] and throws 'Too
    many records' otherwise, however well formed it is. *)
Theorem decode_record_limit (fuel n : nat) :
  decode (S fuel) (paddedStream n)
  = if Z.of_nat n + 2 <=? 100000 then Ok (BinaryObjectStringRecord 1 "")
    else Err TooManyRecords.
Proof.
  unfold decode, paddedStream. rewrite decode_run_header by lia.
  unfold RecordType.BinaryObjectString, RecordType.ObjectNull, RecordType.MessageEnd.
  replace (Z.to_nat 100001) with (S (Z.to_nat 100000)) by lia. cbn [app].
  pose proof (decodeBinaryObjectString_decoderAt (headerBytes 1 ++ [6]) 1 ""
                (replicate n 10 ++ [11]) [] ∅ ∅ ∅ ltac:(lia) eq_refl ltac:(simpl; lia))
    as Hstring.
  rewrite <- decodeNext_BinaryObjectString with (fuel := fuel) in Hstring.
  rewrite <- app_assoc in Hstring. cbn [app] in Hstring.
  unfold bind at 1.
  rewrite (decode_loop_step _ _ _ _ _ _ Hstring).
  change (100000 <? 0 + 1) with false. cbv iota. cbn [isMessageEnd].
  rewrite decode_loop_nulls by lia.
  replace (100000 <? 0 + 1 + Z.of_nat n + 1) with (negb (Z.of_nat n + 2 <=? 100000))
    by (rewrite <- Z.ltb_antisym; f_equal; lia).
  destruct (Z.of_nat n + 2 <=? 100000); [ | reflexivity ].
  cbn [negb]. unfold bind, gets, getRecord, decoderAt. cbn [recordMap objects].
  rewrite lookup_insert_eq. reflexivity.
Qed.

(** ** The string record, there and back *)

Lemma readLengthPrefixedString_decoderAt_utf8 done s rest o rm lm mm :
  wellFormedUtf8 (bytesOfString s) = true ->
  startsWithBOM (bytesOfString s) = false ->
  Z.of_nat (Datatypes.length (bytesOfString s)) < 2 ^ 31 ->
  onReader readLengthPrefixedString (decoderAt done (stringBytes s ++ rest) o rm lm mm)
  = Ok (s, decoderAt (done ++ stringBytes s) rest o rm lm mm).
Proof.
  intros Hwf Hbom Hlen. rewrite <- (decoderAt_shift done (stringBytes s) rest).
  unfold onReader, decoderAt. cbn [reader objects recordMap libraryMap metadataMap].
  rewrite readLengthPrefixedString_at by assumption.
  rewrite stripBOM_none by exact Hbom. rewrite stringOfBytes_bytesOfString. reflexivity.
Qed.

Lemma decodeBinaryObjectString_utf8 done id s rest o rm lm mm :
  - 2 ^ 31 <= id < 2 ^ 31 ->
  wellFormedUtf8 (bytesOfString s) = true ->
  startsWithBOM (bytesOfString s) = false ->
  Z.of_nat (Datatypes.length (bytesOfString s)) < 2 ^ 31 ->
  decodeBinaryObjectString (decoderAt done (leBytes 4 id ++ stringBytes s ++ rest) o rm lm mm)
  = Ok (BinaryObjectStringRecord id s,
        decoderAt (done ++ leBytes 4 id ++ stringBytes s) rest
          (o ++ [BinaryObjectStringRecord id s]) (<[id := Datatypes.length o]> rm) lm mm).
Proof.
  intros Hid Hwf Hbom Hlen. unfold decodeBinaryObjectString.
  rewrite (bind_Ok _ _ _ _ _ (readInt32_decoderAt done id _ o rm lm mm Hid)).
  rewrite (bind_Ok _ _ _ _ _
             (readLengthPrefixedString_decoderAt_utf8 _ s rest o rm lm mm Hwf Hbom Hlen)).
  unfold bind, new, recordMap_set, modify, deref, decoderAt.
  cbn [reader objects recordMap libraryMap metadataMap].
  rewrite lookup_app_r, Nat.sub_diag by lia. rewrite <- !app_assoc. reflexivity.
Qed.

Lemma toBuffer_writeInt32 v w : toBuffer (writeInt32 v w) = toBuffer w ++ leBytes 4 v.
Proof. apply toBuffer_push. Qed.

(** What [encode] writes for a string record. *)
Lemma encode_string coerceWrite id s :
  Z.of_nat (Datatypes.length (bytesOfString s)) < 2 ^ 31 ->
  encode coerceWrite (BinaryObjectStringRecord id s) None
  = Ok (headerBytes id ++ [RecordType.BinaryObjectString] ++ leBytes 4 id ++ stringBytes s
        ++ [RecordType.MessageEnd]).
Proof.
  intros Hlen. unfold encode. cbv [bind onWriter modify].
  match goal with
  | |- context [encodeRecord coerceWrite ?r ?e0] =>
      rewrite (encodeRecord_first_visit coerceWrite r e0 eq_refl)
  end.
  cbv [bind encodeRecord_dispatch encodeBinaryObjectString onWriter modify markWritten
       objectId default writer writtenRecords newEncoder].
  destruct (id =? 0); cbv [ret modify writer];
    rewrite toBuffer_writeByte, toBuffer_writeLengthPrefixedString by exact Hlen;
    rewrite toBuffer_writeInt32, toBuffer_writeByte, !toBuffer_writeInt32, toBuffer_writeByte;
    unfold headerBytes, toUint8; cbn [toBuffer chunks concat app];
    rewrite <- !app_assoc; reflexivity.
Qed.

(** X15. A string record survives [encode] and [decode]: for every Int32
    object id (0 included) and every JavaScript string of fewer than 2^31
    UTF-8 bytes that does not begin with the byte-order mark, [encode]
    returns a stream and [decode] of that stream returns the record. *)
Theorem string_record_roundtrip (fuel : nat) coerceWrite (id : Z) (s : string) :
  - 2 ^ 31 <= id < 2 ^ 31 ->
  wellFormedUtf8 (bytesOfString s) = true ->
  startsWithBOM (bytesOfString s) = false ->
  Z.of_nat (Datatypes.length (bytesOfString s)) < 2 ^ 31 ->
  exists stream,
    encode coerceWrite (BinaryObjectStringRecord id s) None = Ok stream
    /\ decode (S fuel) stream = Ok (BinaryObjectStringRecord id s).
Proof.
  intros Hid Hwf Hbom Hlen. eexists. split; [ by apply encode_string | ].
  unfold decode. rewrite decode_run_header by exact Hid. rewrite budget_unfold.
  unfold RecordType.BinaryObjectString, RecordType.MessageEnd. cbn [app].
  erewrite bind_Ok; [ | ].
  2: { erewrite decode_loop_step;
         [ | rewrite decodeNext_BinaryObjectString;
             apply decodeBinaryObjectString_utf8; assumption ].
       change (100000 <? 0 + 1) with false. cbv iota. cbn [isMessageEnd].
       erewrite decode_loop_step; [ | apply decodeNext_MessageEnd ].
       reflexivity. }
  unfold bind, gets, getRecord, decoderAt. cbn [recordMap objects].
  rewrite lookup_insert_eq. reflexivity.
Qed.

Lemma string_record_roundtrip_witness :
  - 2 ^ 31 <= 0 < 2 ^ 31
  /\ wellFormedUtf8 (bytesOfString sampleText) = true
  /\ exists stream,
       encode noCoercion (BinaryObjectStringRecord 0 sampleText) None = Ok stream
       /\ decode 1 stream = Ok (BinaryObjectStringRecord 0 sampleText).
Proof.
  split; [ lia | ]. split; [ reflexivity | ].
  apply (string_record_roundtrip 0 noCoercion 0 sampleText);
    [ lia | reflexivity | reflexivity | vm_compute; reflexivity ].
Defined.

(** ** Primitive values, written and read back *)

Lemma writesBytes_onWriter f bytes :
  (forall w, toBuffer (f w) = toBuffer w ++ bytes) -> writesBytes (onWriter f) bytes.
Proof. intros H e. eexists. split; [ reflexivity | ]. split; [ apply H | reflexivity ]. Qed.

Lemma writesBytes_push chunk : writesBytes (onWriter (push chunk)) chunk.
Proof. apply writesBytes_onWriter. intros w. apply toBuffer_push. Qed.

Lemma writesBytes_ret : writesBytes (ret tt) [].
Proof. intros e. exists e. split; [ reflexivity | ]. by rewrite app_nil_r. Qed.

Lemma writesBytes_bind m k bytes1 bytes2 :
  writesBytes m bytes1 -> writesBytes k bytes2 -> writesBytes (m ;;; k) (bytes1 ++ bytes2).
Proof.
  intros Hm Hk e. destruct (Hm e) as (e1 & E1 & B1 & W1). destruct (Hk e1) as (e2 & E2 & B2 & W2).
  exists e2. unfold bind. rewrite E1. split; [ exact E2 | ].
  split; [ by rewrite B2, B1, app_assoc | congruence ].
Qed.

Lemma readsBytes_ret {A} (a : A) : readsBytes (ret a) [] a.
Proof. intros done rest o rm lm mm. cbn [app]. by rewrite app_nil_r. Qed.

Lemma readsBytes_bind {A B} (m : Dec A) (k : A -> Dec B) bytes1 bytes2 a b :
  readsBytes m bytes1 a -> readsBytes (k a) bytes2 b -> readsBytes (x <- m ;; k x) (bytes1 ++ bytes2) b.
Proof.
  intros Hm Hk done rest o rm lm mm. rewrite <- app_assoc.
  rewrite (bind_Ok _ _ _ _ _ (Hm done (bytes2 ++ rest) o rm lm mm)).
  rewrite Hk, <- app_assoc. reflexivity.
Qed.

Lemma readsBytes_map {A B} (m : Dec A) (f : A -> B) bytes a :
  readsBytes m bytes a -> readsBytes (x <- m ;; ret (f x)) bytes (f a).
Proof.
  intros Hm. rewrite <- (app_nil_r bytes) at 1.
  apply (readsBytes_bind m (fun x => ret (f x)) bytes [] a (f a) Hm).
  apply readsBytes_ret.
Qed.

Lemma readsBytes_readByte b : readsBytes (onReader readByte) [b] b.
Proof. intros done rest o rm lm mm. apply readByte_decoderAt. Qed.

Lemma readsBytes_readBytes xs :
  readsBytes (onReader (readBytes (Datatypes.length xs))) xs xs.
Proof. intros done rest o rm lm mm. apply readBytes_decoderAt. Qed.

Lemma readsBytes_byte {A} (f : Z -> A) b :
  readsBytes (onReader (x <- readByte ;; ret (f x))) [b] (f b).
Proof.
  intros done rest o rm lm mm. rewrite onReader_bind. cbn [app].
  rewrite (bind_Ok _ _ _ _ _ (readByte_decoderAt done b rest o rm lm mm)). reflexivity.
Qed.

(** A fixed-width little-endian read of what [leBytes] holds. *)
Lemma readsBytes_le n (f : Z -> Z) v :
  readsBytes (onReader (bs <- readBytes n ;; ret (f (leValue bs)))) (leBytes n v)
    (f (v mod 256 ^ Z.of_nat n)).
Proof.
  intros done rest o rm lm mm. rewrite onReader_bind.
  pose proof (readBytes_decoderAt done (leBytes n v) rest o rm lm mm) as E.
  rewrite leBytes_length in E. rewrite (bind_Ok _ _ _ _ _ E).
  unfold onReader, ret. cbn [reader]. rewrite leValue_leBytes. reflexivity.
Qed.

Lemma readsBytes_eq {A} (m : Dec A) bytes a a' :
  readsBytes m bytes a -> a = a' -> readsBytes m bytes a'.
Proof. by intros H <-. Qed.

Lemma roundToDouble_safe n : - (2 ^ 53 - 1) <= n <= 2 ^ 53 - 1 -> roundToDouble n = n.
Proof.
  intros H. unfold roundToDouble.
  replace (Z.abs n <? 2 ^ 53) with true by (symmetry; apply Z.ltb_lt; lia). reflexivity.
Qed.

Lemma charCode_fromCharCode_check :
  forallb (fun b => match charCodeAt0 (fromCharCode b) with
                    | Some b' => b' =? b
                    | None => false
                    end) (map Z.of_nat (seq 0 256)) = true.
Proof. vm_compute. reflexivity. Qed.

Ltac bools_in H :=
  repeat match type of H with
         | _ && _ = true => let H' := fresh H in apply andb_true_iff in H as [H' H]
         end.

Section PrimitiveWriteRead.
Variable coerceWrite : Z -> ObjectValue -> result (list Z).

Local Abbreviation wr v type bytes :=
  (writesBytes (writePrimitiveValue coerceWrite v type) bytes
   /\ readsBytes (readPrimitiveValue type) bytes v).

Lemma wr_Null : wr VNull PrimitiveType.Null [].
Proof. split; [ apply writesBytes_ret | apply (readsBytes_ret VNull) ]. Qed.

Lemma wr_Boolean b : wr (VBoolean b) PrimitiveType.Boolean [if b then 1 else 0].
Proof.
  split.
  - destruct b; apply writesBytes_push.
  - eapply readsBytes_eq.
    + apply (readsBytes_map (onReader readBoolean) VBoolean).
      apply (readsBytes_byte (fun x => negb (x =? 0))).
    + by destruct b.
Qed.

Lemma wr_Byte n : 0 <= n <= 2 ^ 8 - 1 -> wr (VNumber n) PrimitiveType.Byte [n].
Proof.
  intros H. split.
  - replace [n] with [toUint8 n] by (rewrite toUint8_id; [ done | lia ]).
    apply writesBytes_push.
  - apply (readsBytes_map (onReader readByte) VNumber). apply readsBytes_readByte.
Qed.

Lemma wr_SByte n :
  - 2 ^ 7 <= n <= 2 ^ 7 - 1 -> wr (VNumber n) PrimitiveType.SByte [toUint8 n].
Proof.
  intros H. split; [ apply writesBytes_push | ].
  eapply readsBytes_eq.
  - apply (readsBytes_map (onReader readSByte) VNumber).
    apply (readsBytes_byte toInt8).
  - f_equal. rewrite toInt8_toUint8. unfold toInt8. rewrite Z.mod_small; lia.
Qed.

Lemma wr_Int16 n :
  - 2 ^ 15 <= n <= 2 ^ 15 - 1 -> wr (VNumber n) PrimitiveType.Int16 (leBytes 2 n).
Proof.
  intros H. split; [ apply writesBytes_push | ].
  eapply readsBytes_eq.
  - apply (readsBytes_map (onReader readInt16) VNumber). apply (readsBytes_le 2 toInt16).
  - f_equal. rewrite toInt16_mod. unfold toInt16. rewrite Z.mod_small; lia.
Qed.

Lemma wr_UInt16 n : 0 <= n <= 2 ^ 16 - 1 -> wr (VNumber n) PrimitiveType.UInt16 (leBytes 2 n).
Proof.
  intros H. split; [ apply writesBytes_push | ].
  eapply readsBytes_eq.
  - apply (readsBytes_map (onReader readUInt16) VNumber). apply (readsBytes_le 2 (fun x => x)).
  - f_equal. apply Z.mod_small. change (256 ^ Z.of_nat 2) with (2 ^ 16). lia.
Qed.

Lemma wr_Int32 n :
  - 2 ^ 31 <= n <= 2 ^ 31 - 1 -> wr (VNumber n) PrimitiveType.Int32 (leBytes 4 n).
Proof.
  intros H. split; [ apply writesBytes_push | ].
  eapply readsBytes_eq.
  - apply (readsBytes_map (onReader readInt32) VNumber). apply (readsBytes_le 4 toInt32).
  - f_equal. rewrite toInt32_mod. apply toInt32_id. lia.
Qed.

Lemma wr_UInt32 n : 0 <= n <= 2 ^ 32 - 1 -> wr (VNumber n) PrimitiveType.UInt32 (leBytes 4 n).
Proof.
  intros H. split; [ apply writesBytes_push | ].
  eapply readsBytes_eq.
  - apply (readsBytes_map (onReader readUInt32) VNumber). apply (readsBytes_le 4 (fun x => x)).
  - f_equal. apply Z.mod_small. change (256 ^ Z.of_nat 4) with (2 ^ 32). lia.
Qed.

Lemma readsBytes_Int64 n :
  - (2 ^ 53 - 1) <= n <= 2 ^ 53 - 1 ->
  readsBytes (x <- onReader readInt64 ;; ret (VNumber (roundToDouble x))) (leBytes 8 n)
    (VNumber n).
Proof.
  intros H. eapply readsBytes_eq.
  - apply (readsBytes_map (onReader readInt64) (fun x => VNumber (roundToDouble x))).
    apply (readsBytes_le 8 toInt64).
  - f_equal. rewrite toInt64_mod. unfold toInt64.
    rewrite Z.mod_small by lia. rewrite roundToDouble_safe; lia.
Qed.

Lemma readsBytes_UInt64 n :
  0 <= n <= 2 ^ 53 - 1 ->
  readsBytes (x <- onReader readUInt64 ;; ret (VNumber (roundToDouble x))) (leBytes 8 n)
    (VNumber n).
Proof.
  intros H. eapply readsBytes_eq.
  - apply (readsBytes_map (onReader readUInt64) (fun x => VNumber (roundToDouble x))).
    apply (readsBytes_le 8 (fun x => x)).
  - f_equal. change (256 ^ Z.of_nat 8) with (2 ^ 64).
    rewrite Z.mod_small by lia. rewrite roundToDouble_safe; lia.
Qed.

Lemma wr_Int64 n :
  - (2 ^ 53 - 1) <= n <= 2 ^ 53 - 1 -> wr (VNumber n) PrimitiveType.Int64 (leBytes 8 n).
Proof. intros H. split; [ apply writesBytes_push | by apply readsBytes_Int64 ]. Qed.

Lemma wr_TimeSpan n :
  - (2 ^ 53 - 1) <= n <= 2 ^ 53 - 1 -> wr (VNumber n) PrimitiveType.TimeSpan (leBytes 8 n).
Proof. intros H. split; [ apply writesBytes_push | by apply readsBytes_Int64 ]. Qed.

Lemma wr_UInt64 n :
  0 <= n <= 2 ^ 53 - 1 -> wr (VNumber n) PrimitiveType.UInt64 (leBytes 8 n).
Proof. intros H. split; [ apply writesBytes_push | by apply readsBytes_UInt64 ]. Qed.

Lemma wr_DateTime n :
  0 <= n <= 2 ^ 53 - 1 -> wr (VNumber n) PrimitiveType.DateTime (leBytes 8 n).
Proof. intros H. split; [ apply writesBytes_push | by apply readsBytes_UInt64 ]. Qed.

Lemma wr_Char s :
  isCharString s = true ->
  exists b, wr (VString s) PrimitiveType.Char [b].
Proof.
  unfold isCharString. intros H.
  destruct (charCodeAt0 s) as [ b | ] eqn:Eb; [ | discriminate ].
  apply andb_true_iff in H as [Hb Hs]. apply String.eqb_eq in Hs.
  unfold between in Hb. apply andb_true_iff in Hb as [H0 H1].
  apply Z.leb_le in H0, H1.
  exists b. split.
  - replace [b] with [toUint8OrNaN (charCodeAt0 s)]
      by (rewrite Eb; cbn [toUint8OrNaN]; rewrite toUint8_id; [ done | lia ]).
    apply writesBytes_push.
  - eapply readsBytes_eq.
    + apply (readsBytes_map (onReader readChar) VString).
      apply (readsBytes_byte fromCharCode).
    + by rewrite <- Hs.
Qed.

Lemma wr_String s :
  isPlainString s = true -> wr (VString s) PrimitiveType.String (stringBytes s).
Proof.
  unfold isPlainString. intros H.
  apply andb_true_iff in H as [H Hlen]. apply andb_true_iff in H as [Hwf Hbom].
  apply negb_true_iff in Hbom. apply Z.ltb_lt in Hlen.
  split.
  - apply writesBytes_onWriter. intros w. by apply toBuffer_writeLengthPrefixedString.
  - apply (readsBytes_map (onReader readLengthPrefixedString) VString).
    intros done rest o rm lm mm. by apply readLengthPrefixedString_decoderAt_utf8.
Qed.
End PrimitiveWriteRead.

(** *** Decimals *)

Lemma times_readByte_at bytes : forall pre post,
  times (Datatypes.length bytes) readByte
    (mkReader (pre ++ bytes ++ post) (Datatypes.length pre))
  = Ok (bytes, mkReader (pre ++ bytes ++ post)
                 (Datatypes.length pre + Datatypes.length bytes)).
Proof.
  induction bytes as [ | b bytes IH ]; intros pre post.
  - cbn [Datatypes.length times]. unfold ret. by rewrite Nat.add_0_r.
  - cbn [Datatypes.length times app].
    rewrite (bind_Ok _ _ _ _ _ (readByte_at pre b (bytes ++ post))).
    pose proof (IH (pre ++ [b]) post) as E.
    rewrite length_app, <- app_assoc in E. cbn [Datatypes.length app] in E.
    rewrite (bind_Ok _ _ _ _ _ E). unfold ret. do 3 f_equal. lia.
Qed.

Lemma readsBytes_times_readByte bytes :
  readsBytes (onReader (times (Datatypes.length bytes) readByte)) bytes bytes.
Proof.
  intros done rest o rm lm mm. rewrite <- (decoderAt_shift done bytes rest).
  unfold onReader, decoderAt. cbn [reader objects recordMap libraryMap metadataMap].
  rewrite times_readByte_at. reflexivity.
Qed.

Lemma toBuffer_foldl_push (g : nat -> Z) l : forall w,
  toBuffer (foldl (fun w k => push [g k] w) w l) = toBuffer w ++ map g l.
Proof.
  induction l as [ | k l IH ]; intros w; cbn [foldl map]; [ by rewrite app_nil_r | ].
  rewrite IH, toBuffer_push, <- app_assoc. reflexivity.
Qed.

Lemma decimal_pairs s :
  isDecimalString s = true ->
  Datatypes.length (pairBytes s) = 16%nat
  /\ map (fun k => toUint8OrNaN (parseInt16 (slice s (2 * k) (2 * k + 2)))) (seq 0 16)
     = pairBytes s
  /\ hexOfBytes (pairBytes s) = s.
Proof.
  unfold isDecimalString. intros H. apply andb_true_iff in H as [H Hlower].
  apply String.eqb_eq in Hlower. cbv [replicate] in H.
  do 32 (destruct s as [ | ? s ]; [ discriminate H | ];
         cbn [matchesShape] in H; apply andb_true_iff in H as [? H]).
  destruct s; [ clear H | discriminate H ].
  cbn [toLowerCase] in Hlower.
  injection Hlower; clear Hlower; intros.
  split; [ reflexivity | ]. split; [ reflexivity | ].
  cbn [pairBytes hexOfBytes].
  repeat match goal with
         | Hx : isHexDigit ?x = true, Hy : isHexDigit ?y = true
           |- context [padStart2 (toString16 (hexPairByte ?x ?y))] =>
             rewrite (proj2 (hexPairByte_spec x y Hx Hy))
         end.
  repeat match goal with
         | E : lowerAscii _ = _ |- _ => rewrite E; clear E
         end.
  reflexivity.
Qed.

Lemma wr_Decimal coerceWrite s :
  isDecimalString s = true ->
  writesBytes (writePrimitiveValue coerceWrite (VString s) PrimitiveType.Decimal) (pairBytes s)
  /\ readsBytes (readPrimitiveValue PrimitiveType.Decimal) (pairBytes s) (VString s).
Proof.
  intros H. destruct (decimal_pairs s H) as (Hlen & Hwrite & Hread). split.
  - apply writesBytes_onWriter. intros w. unfold writeDecimal.
    rewrite (toBuffer_foldl_push
               (fun k => toUint8OrNaN (parseInt16 (slice s (2 * k) (2 * k + 2))))).
    by rewrite Hwrite.
  - eapply readsBytes_eq.
    + apply (readsBytes_map (onReader readDecimal) VString).
      unfold readDecimal. rewrite <- Hlen.
      intros done rest o rm lm mm. rewrite onReader_bind.
      rewrite (bind_Ok _ _ _ _ _ (readsBytes_times_readByte _ done rest o rm lm mm)).
      reflexivity.
    + by rewrite Hread.
Qed.

Ltac the_type H :=
  let Ht := fresh in
  apply andb_true_iff in H as [Ht H];
  first [ apply Z.eqb_eq in Ht; subst
        | apply orb_true_iff in Ht as [Ht | Ht]; apply Z.eqb_eq in Ht; subst ];
  try (unfold between in H; apply andb_true_iff in H as [?%Z.leb_le ?%Z.leb_le]).

(** Every representable value has a wire form that the writer appends
    and the reader turns back into the value. *)
Lemma primitive_write_read coerceWrite type v :
  representable type v = true ->
  exists bytes,
    writesBytes (writePrimitiveValue coerceWrite v type) bytes
    /\ readsBytes (readPrimitiveValue type) bytes v.
Proof.
  intros H. destruct v as [ | b | n | ieee | s | r ]; cbn [representable] in H;
    try discriminate.
  - apply Z.eqb_eq in H. subst. eexists. apply wr_Null.
  - apply Z.eqb_eq in H. subst. eexists. apply wr_Boolean.
  - repeat (apply orb_true_iff in H as [H | H]); the_type H; eexists.
    + by apply wr_Byte.
    + by apply wr_SByte.
    + by apply wr_Int16.
    + by apply wr_UInt16.
    + by apply wr_Int32.
    + by apply wr_UInt32.
    + by apply wr_Int64.
    + by apply wr_TimeSpan.
    + by apply wr_UInt64.
    + by apply wr_DateTime.
  - repeat (apply orb_true_iff in H as [H | H]); the_type H.
    + destruct (wr_Char coerceWrite s H) as [b Hb]. by exists [b].
    + eexists. by apply wr_Decimal.
    + eexists. by apply wr_String.
Qed.

Lemma primitives_write_read coerceWrite type values :
  Forall (fun v => representable type v = true) values ->
  exists bytes,
    writesBytes (forEach (fun element => writePrimitiveValue coerceWrite element type) values)
      bytes
    /\ readsBytes (times (Datatypes.length values) (readPrimitiveValue type)) bytes values.
Proof.
  induction 1 as [ | v values Hv _ (bytes & Hw & Hr) ].
  - exists []. split; [ apply writesBytes_ret | apply (readsBytes_ret []) ].
  - destruct (primitive_write_read coerceWrite type v Hv) as (bytes1 & Hw1 & Hr1).
    exists (bytes1 ++ bytes). split; [ by apply writesBytes_bind | ].
    cbn [Datatypes.length times].
    apply (readsBytes_bind _ _ bytes1 bytes v (v :: values) Hr1).
    by apply (readsBytes_map _ (cons v)).
Qed.

(** ** Whole streams, there and back *)

(** The stream [encode] returns for a root whose own encoding appends
    [body]. *)
Lemma encode_of_writes coerceWrite root body :
  writesBytes (encodeRecord_dispatch coerceWrite (encodeRecord coerceWrite) root) body ->
  encode coerceWrite root None
  = Ok (headerBytes (default 1 (objectId root)) ++ body ++ [RecordType.MessageEnd]).
Proof.
  intros H. unfold encode. cbv [bind onWriter modify].
  match goal with
  | |- context [encodeRecord coerceWrite root ?e1] =>
      rewrite (encodeRecord_first_visit coerceWrite root e1 eq_refl);
      destruct (H e1) as (e2 & E2 & B2 & _)
  end.
  unfold bind. rewrite E2.
  assert (Hmark : exists e3, markWritten root e2 = Ok (tt, e3) /\ writer e3 = writer e2).
  { unfold markWritten. destruct (objectId root) as [ id | ]; [ destruct (id =? 0) | ];
      eexists; split; reflexivity. }
  destruct Hmark as (e3 & -> & ->). cbn [writer].
  rewrite toBuffer_writeByte, B2. cbn [writer default].
  rewrite !toBuffer_writeInt32, toBuffer_writeByte. unfold headerBytes.
  cbn [newEncoder writer toBuffer chunks concat app]. rewrite <- !app_assoc. reflexivity.
Qed.

(** The stream [decode] accepts for a root record that one [decodeNext]
    reads from [body] and enters into the record table. *)
Lemma decode_of_reads fuel id body root :
  - 2 ^ 31 <= id < 2 ^ 31 ->
  (forall done rest,
     decodeNext (S fuel) (decoderAt done (body ++ rest) [] ∅ ∅ ∅)
     = Ok (root, decoderAt (done ++ body) rest [root] {[ id := 0%nat ]} ∅ ∅)) ->
  isMessageEnd root = false ->
  decode (S fuel) (headerBytes id ++ body ++ [RecordType.MessageEnd]) = Ok root.
Proof.
  intros Hid Hread Hend. unfold decode. rewrite decode_run_header by exact Hid.
  rewrite budget_unfold. unfold RecordType.MessageEnd.
  erewrite bind_Ok; [ | ].
  2: { erewrite decode_loop_step; [ | apply Hread ].
       change (100000 <? 0 + 1) with false. cbv iota. rewrite Hend.
       erewrite decode_loop_step; [ | apply decodeNext_MessageEnd ].
       reflexivity. }
  unfold bind, gets, getRecord, decoderAt. cbn [recordMap objects].
  rewrite lookup_singleton_eq. reflexivity.
Qed.

Lemma decodeNext_ArraySinglePrimitive fuel done rest o rm lm mm :
  decodeNext (S fuel) (decoderAt done (15 :: rest) o rm lm mm)
  = decodeArraySinglePrimitive (decoderAt (done ++ [15]) rest o rm lm mm).
Proof. rewrite decodeNext_lead. reflexivity. Qed.

(** X16. An array of primitives survives [encode] and [decode]: when the
    record's [length] is the number of its elements and every element is
    a value that its primitive type holds exactly, [encode] returns a
    stream and [decode] of that stream returns the record. *)
Theorem primitive_array_roundtrip (fuel : nat) coerceWrite (id type : Z)
    (values : list ObjectValue) :
  - 2 ^ 31 <= id < 2 ^ 31 ->
  0 <= type < 256 ->
  Z.of_nat (Datatypes.length values) < 2 ^ 31 ->
  Forall (fun v => representable type v = true) values ->
  let record :=
    ArraySinglePrimitiveRecord id (Z.of_nat (Datatypes.length values)) type values in
  exists stream,
    encode coerceWrite record None = Ok stream /\ decode (S fuel) stream = Ok record.
Proof.
  intros Hid Htype Hlen Hvalues record.
  destruct (primitives_write_read coerceWrite type values Hvalues) as (bytes & Hw & Hr).
  set (len := Z.of_nat (Datatypes.length values)) in *.
  set (body := [RecordType.ArraySinglePrimitive] ++ leBytes 4 id ++ leBytes 4 len
               ++ [type] ++ bytes).
  exists (headerBytes id ++ body ++ [RecordType.MessageEnd]). split.
  - apply (encode_of_writes coerceWrite record body).
    subst record body. cbn [encodeRecord_dispatch]. unfold encodeArraySinglePrimitive.
    apply writesBytes_bind; [ apply writesBytes_push | ].
    apply writesBytes_bind; [ apply writesBytes_push | ].
    apply writesBytes_bind; [ apply writesBytes_push | ].
    apply (writesBytes_bind _ _ [type]); [ | exact Hw ].
    replace [type] with [toUint8 type] by (rewrite toUint8_id; [ done | lia ]).
    apply writesBytes_push.
  - apply decode_of_reads; [ exact Hid | | reflexivity ].
    intros done rest. subst body. unfold RecordType.ArraySinglePrimitive.
    rewrite <- !app_assoc. cbn [app]. rewrite decodeNext_ArraySinglePrimitive.
    unfold decodeArraySinglePrimitive.
    rewrite (bind_Ok _ _ _ _ _ (readInt32_decoderAt _ id _ _ _ _ _ Hid)).
    rewrite (bind_Ok _ _ _ _ _ (readInt32_decoderAt _ len _ _ _ _ _ ltac:(lia))).
    rewrite (bind_Ok _ _ _ _ _ (readByte_decoderAt _ type _ _ _ _ _)).
    subst len. rewrite Nat2Z.id.
    rewrite (bind_Ok _ _ _ _ _ (Hr _ _ _ _ _ _)).
    unfold bind, new, recordMap_set, modify, deref, decoderAt.
    cbn [reader objects recordMap libraryMap metadataMap Datatypes.length app lookup].
    rewrite insert_empty, <- !app_assoc. reflexivity.
Qed.

Lemma primitive_array_roundtrip_witness :
  - 2 ^ 31 <= 4 < 2 ^ 31
  /\ Forall (fun v => representable PrimitiveType.Int16 v = true) [VNumber (-2); VNumber 300]
  /\ exists stream,
       encode noCoercion
         (ArraySinglePrimitiveRecord 4 2 PrimitiveType.Int16 [VNumber (-2); VNumber 300]) None
       = Ok stream
       /\ decode 1 stream
          = Ok (ArraySinglePrimitiveRecord 4 2 PrimitiveType.Int16 [VNumber (-2); VNumber 300]).
Proof.
  assert (H : Forall (fun v => representable PrimitiveType.Int16 v = true)
                [VNumber (-2); VNumber 300])
    by (repeat constructor).
  split; [ lia | ]. split; [ exact H | ].
  apply (primitive_array_roundtrip 0 noCoercion 4 PrimitiveType.Int16
           [VNumber (-2); VNumber 300]);
    [ lia | unfold PrimitiveType.Int16; lia | simpl; lia | exact H ].
Defined.

(** ** 64-bit values pass through a JavaScript number *)

Lemma leBytes_head n v : leBytes (S n) v !! 0%nat = Some (v mod 256).
Proof. reflexivity. Qed.

Lemma roundToDouble_even n : 2 ^ 53 < n -> Z.even (roundToDouble n) = true.
Proof.
  intros H. unfold roundToDouble.
  replace (Z.abs n <? 2 ^ 53) with false by (symmetry; apply Z.ltb_ge; lia).
  cbv zeta. rewrite Z.abs_eq by lia.
  assert (Hlog : 53 <= Z.log2 n).
  { change 53 with (Z.log2 (2 ^ 53)). apply Z.log2_le_mono. lia. }
  set (e := Z.log2 n - 52). assert (He : 1 <= e) by (subst e; lia).
  set (q' := if n mod 2 ^ e <? 2 ^ (e - 1) then n / 2 ^ e
             else if 2 ^ (e - 1) <? n mod 2 ^ e then n / 2 ^ e + 1
             else if Z.even (n / 2 ^ e) then n / 2 ^ e else n / 2 ^ e + 1).
  assert (Hpow : 2 ^ e = 2 * 2 ^ (e - 1))
    by (rewrite <- Z.pow_succ_r by lia; f_equal; lia).
  apply Z.even_spec. exists (Z.sgn n * (q' * 2 ^ (e - 1))).
  fold q'. rewrite Hpow. ring.
Qed.

(** X17. A 64-bit value is read into a JavaScript number and written from
    it: what [readPrimitiveValue] makes of the eight bytes of an unsigned
    [n] is the nearest double, and [writePrimitiveValue] writes the eight
    bytes of that double.  They are the bytes read when [n <= 2^53], and
    they differ from them for every odd [n] above 2^53. *)
Theorem uint64_through_number coerceWrite (n : Z) :
  0 <= n < 2 ^ 64 ->
  readsBytes (readPrimitiveValue PrimitiveType.UInt64) (leBytes 8 n) (VNumber (roundToDouble n))
  /\ writesBytes (writePrimitiveValue coerceWrite (VNumber (roundToDouble n))
                    PrimitiveType.UInt64)
       (leBytes 8 (roundToDouble n))
  /\ (n <= 2 ^ 53 -> leBytes 8 (roundToDouble n) = leBytes 8 n)
  /\ (2 ^ 53 < n -> Z.odd n = true -> leBytes 8 (roundToDouble n) <> leBytes 8 n).
Proof.
  intros Hn. split; [ | split; [ | split ] ].
  - eapply readsBytes_eq.
    + apply (readsBytes_map (onReader readUInt64) (fun x => VNumber (roundToDouble x))).
      apply (readsBytes_le 8 (fun x => x)).
    + cbv beta. change (256 ^ Z.of_nat 8) with (2 ^ 64). by rewrite Z.mod_small by lia.
  - apply writesBytes_push.
  - intros Hsafe. f_equal. destruct (Z.eq_dec n (2 ^ 53)) as [ -> | Hne ]; [ reflexivity | ].
    apply roundToDouble_safe. lia.
  - intros Hbig Hodd Heq.
    apply (f_equal (fun l => l !! 0%nat)) in Heq. rewrite !leBytes_head in Heq.
    injection Heq as Heq.
    pose proof (roundToDouble_even n Hbig) as Heven.
    rewrite <- Z.negb_odd in Heven. apply negb_true_iff in Heven.
    rewrite Z.odd_spec in Hodd. destruct Hodd as [k Hk].
    assert (Hodd' : Z.odd (roundToDouble n) = true).
    { rewrite Z.odd_spec. exists ((roundToDouble n - roundToDouble n mod 256) / 2 + k - (n - n mod 256) / 2).
      Z.div_mod_to_equations. lia. }
    congruence.
Qed.

Lemma uint64_through_number_witness :
  0 <= 2 ^ 53 + 1 < 2 ^ 64
  /\ leBytes 8 (roundToDouble (2 ^ 53 + 1)) <> leBytes 8 (2 ^ 53 + 1).
Proof.
  split; [ lia | ].
  destruct (uint64_through_number noCoercion (2 ^ 53 + 1) ltac:(lia)) as (_ & _ & _ & H).
  apply H; [ lia | reflexivity ].
Defined.

(** ** Member updates *)

Lemma Map_get_set_ne {V} key other (value : V) m :
  other <> key -> Map_get other (Map_set key value m) = Map_get other m.
Proof.
  intros Hne. induction m as [ | [k v] m IH ]; simpl.
  - destruct (String.eqb_spec key other); [ congruence | reflexivity ].
  - destruct (String.eqb_spec k key) as [ -> | Hk ]; simpl.
    + destruct (String.eqb_spec key other); [ congruence | reflexivity ].
    + destruct (String.eqb k other); [ reflexivity | exact IH ].
Qed.

Lemma Map_set_keys {V} key (value : V) m :
  map fst (Map_set key value m)
  = if bool_decide (key ∈ map fst m) then map fst m else map fst m ++ [key].
Proof.
  induction m as [ | [k v] m IH ]; simpl; [ reflexivity | ].
  destruct (String.eqb_spec k key) as [ -> | Hk ]; simpl.
  - rewrite bool_decide_eq_true_2 by left. reflexivity.
  - rewrite IH. destruct (bool_decide (key ∈ map fst m)) eqn:E.
    + apply bool_decide_eq_true in E. rewrite bool_decide_eq_true_2 by (by right). reflexivity.
    + apply bool_decide_eq_false in E. rewrite bool_decide_eq_false_2; [ reflexivity | ].
      intros Hin. apply elem_of_cons in Hin as [ -> | Hin ]; contradiction.
Qed.

(** X18. A successful [setValue] changes one entry of [memberValues] and
    nothing else: every other member reads as before, the class info, the
    type info, the library id and the record type are kept, an entry that
    existed keeps its place among the keys, and a new entry goes to the
    end. *)
Theorem setValue_frame (r r' : ClassRecord) (name : string) (v : ObjectValue) :
  setValue name v r = (Ok tt, r') ->
  (forall other, other <> name -> getValue other r' = getValue other r)
  /\ classInfo r' = classInfo r
  /\ memberTypeInfo r' = memberTypeInfo r
  /\ libraryId r' = libraryId r
  /\ recordTypeValue r' = recordTypeValue r
  /\ map fst (memberValues r')
     = if bool_decide (name ∈ map fst (memberValues r)) then map fst (memberValues r)
       else map fst (memberValues r) ++ [name].
Proof.
  unfold setValue. destruct (negb _); [ discriminate | ]. intros H. injection H as <-.
  cbn [classInfo memberTypeInfo libraryId recordTypeValue memberValues getValue].
  split; [ | repeat split; apply Map_set_keys ].
  intros other Hne. unfold getValue. cbn [memberValues]. by apply Map_get_set_ne.
Qed.

Lemma setValue_frame_witness :
  setValue "x" (VBoolean true) sampleClass
    = (Ok tt, mkClassRecord (classInfo sampleClass) (memberTypeInfo sampleClass)
                (libraryId sampleClass) (recordTypeValue sampleClass)
                [("x"%string, VBoolean true)])
  /\ map fst [("x"%string, VBoolean true)] = ["x"%string].
Proof.
  assert (H : setValue "x" (VBoolean true) sampleClass
              = (Ok tt, mkClassRecord (classInfo sampleClass) (memberTypeInfo sampleClass)
                          (libraryId sampleClass) (recordTypeValue sampleClass)
                          [("x"%string, VBoolean true)])) by reflexivity.
  split; [ exact H | ].
  destruct (setValue_frame _ _ _ _ H) as (_ & _ & _ & _ & _ & Hkeys). exact Hkeys.
Defined.

(** ** Paths compose *)

Lemma split_dot_nonempty path : split_dot path <> [].
Proof.
  destruct path as [ | c rest ]; simpl; [ discriminate | ].
  destruct (Ascii.eqb c "."); [ discriminate | ].
  destruct (split_dot rest); discriminate.
Qed.

Lemma split_dot_app path1 path2 :
  split_dot (path1 +:+ "." +:+ path2) = split_dot path1 ++ split_dot path2.
Proof.
  induction path1 as [ | c rest IH ]; [ reflexivity | ].
  change (String c rest +:+ "." +:+ path2) with (String c (rest +:+ "." +:+ path2)).
  cbn [split_dot]. rewrite IH.
  destruct (Ascii.eqb c "."); [ reflexivity | ].
  pose proof (split_dot_nonempty rest).
  destruct (split_dot rest) as [ | part parts ]; [ contradiction | reflexivity ].
Qed.

Section PathCompose.
Variable Number_ : string -> PartNumber.

(** The first round on a reference is the round on its target. *)
Lemma getNestedValue_step_resolved decoder idRef target part :
  getRecord idRef decoder = Some target -> notReference target = true ->
  getNestedValue_step Number_ (Some decoder) (VRecord (MemberReferenceRecord idRef)) part
  = getNestedValue_step Number_ (Some decoder) (VRecord target) part.
Proof.
  intros Hget Hnot. unfold getNestedValue_step. rewrite Hget. cbn [fmap option_fmap option_map].
  destruct target; try discriminate; reflexivity.
Qed.

Lemma getNestedValue_step_undefined decoder current part :
  (forall r, current <> VRecord r) ->
  getNestedValue_step Number_ decoder current part = None.
Proof.
  intros H. unfold getNestedValue_step.
  destruct current as [ | | | | | r ]; try reflexivity. by destruct (H r).
Qed.

(** X19. Lookups compose along a path.  When [path1] leads to a record
    (that is no reference), [path1.path2] leads where [path2] leads from
    that record; when [path1] leads to [undefined] or to a value that
    is no record, [path1.path2] leads to [undefined]. *)
Theorem getNestedValue_compose (record : NrbfRecord) (path1 path2 : string)
    (decoder : option NrbfDecoder) :
  (forall mid,
     getNestedValue Number_ record path1 decoder = Ok (Some (VRecord mid)) ->
     notReference mid = true ->
     getNestedValue Number_ record (path1 +:+ "." +:+ path2) decoder
     = getNestedValue Number_ mid path2 decoder)
  /\ (getNestedValue Number_ record path1 decoder = Ok None ->
      getNestedValue Number_ record (path1 +:+ "." +:+ path2) decoder = Ok None)
  /\ (forall v,
        getNestedValue Number_ record path1 decoder = Ok (Some v) ->
        (forall r, v <> VRecord r) ->
        getNestedValue Number_ record (path1 +:+ "." +:+ path2) decoder = Ok None).
Proof.
  unfold getNestedValue. rewrite split_dot_app, getNestedValue_loop_app.
  pose proof (split_dot_nonempty path2) as Hparts.
  destruct (split_dot path2) as [ | part parts ]; [ contradiction | clear Hparts ].
  destruct (getNestedValue_loop Number_ decoder (VRecord record) (split_dot path1))
    as [ reached | ]; cbn [mbind option_bind].
  2: { split; [ discriminate | ]. split; [ reflexivity | discriminate ]. }
  destruct reached as [ | b | n | ieee | s | r ].
  1-5: (split; [ intros mid H; destruct decoder; discriminate | ];
        split; [ intros H; destruct decoder; discriminate | ];
        intros v _ _; cbn [getNestedValue_loop];
        rewrite getNestedValue_step_undefined by discriminate; reflexivity).
  destruct (notReference r) eqn:Hr.
  - assert (Hfinal : match VRecord r, decoder with
                     | VRecord (MemberReferenceRecord idRef), Some decoder =>
                         VRecord <$> getRecord idRef decoder
                     | _, _ => Some (VRecord r)
                     end = Some (VRecord r)) by (destruct r; try discriminate; reflexivity).
    rewrite Hfinal. split; [ | split ].
    + intros mid H _. injection H as <-. reflexivity.
    + discriminate.
    + intros v H Hv. injection H as <-. by destruct (Hv r).
  - destruct r as [ | | | | | | | | | idRef | | | | ]; try discriminate.
    destruct decoder as [ decoder | ].
    + destruct (getRecord idRef decoder) as [ target | ] eqn:Hget;
        cbn [fmap option_fmap option_map].
      * split; [ | split ].
        -- intros mid H Hmid. injection H as <-. cbn [getNestedValue_loop].
           rewrite (getNestedValue_step_resolved decoder idRef target part) by assumption. reflexivity.
        -- discriminate.
        -- intros v H Hv. injection H as <-. by destruct (Hv target).
      * split; [ discriminate | ]. split; [ | discriminate ].
        intros _. cbn [getNestedValue_loop].
        rewrite getNestedValue_step_dangling by exact Hget. reflexivity.
    + split; [ | split ].
      * intros mid H Hmid. injection H as <-. discriminate.
      * discriminate.
      * intros v H Hv. injection H as <-. by destruct (Hv (MemberReferenceRecord idRef)).
Qed.
End PathCompose.

Lemma getNestedValue_compose_witness :
  getNestedValue Number_decimal nestedClass "a" None = Ok (Some (VRecord (OfClassRecord sampleClass)))
  /\ getNestedValue Number_decimal nestedClass "a.x" None
     = getNestedValue Number_decimal (OfClassRecord sampleClass) "x" None.
Proof.
  assert (H : getNestedValue Number_decimal nestedClass "a" None
              = Ok (Some (VRecord (OfClassRecord sampleClass)))) by reflexivity.
  split; [ exact H | ].
  destruct (getNestedValue_compose Number_decimal nestedClass "a" "x" None) as [Hc _].
  exact (Hc _ H eq_refl).
Defined.

(** ** The decoder moves forward and keeps its record table sound *)

Lemma advances_refl r : advances r r.
Proof. repeat split; auto. Qed.

Lemma advances_trans r1 r2 r3 : advances r1 r2 -> advances r2 r3 -> advances r1 r3.
Proof.
  intros (V1 & O1 & B1) (V2 & O2 & B2). rewrite V1 in *.
  repeat split; [ congruence | lia | auto ].
Qed.

Create HintDb tracks.

Lemma stepsR_ret {A} (a : A) : stepsR (ret a).
Proof. intros r a' r' H. injection H as _ <-. apply advances_refl. Qed.

Lemma stepsR_throw {A} e : stepsR (@throw _ A e).
Proof. intros r a r' H. discriminate. Qed.

Lemma stepsR_bind {A B} (m : Rd A) (f : A -> Rd B) :
  stepsR m -> (forall a, stepsR (f a)) -> stepsR (bind m f).
Proof.
  intros Hm Hf r b r'' H. apply bind_inv in H as (a & r' & H1 & H2).
  eapply advances_trans; [ apply (Hm _ _ _ H1) | apply (Hf _ _ _ _ H2) ].
Qed.

Lemma stepsR_readByte : stepsR readByte.
Proof.
  intros r b r' H. unfold readByte in H.
  destruct (view r !! offset r) eqn:E; [ | discriminate ]. injection H as _ <-.
  apply lookup_lt_Some in E. repeat split; simpl; lia.
Qed.

Lemma stepsR_readBytes n : stepsR (readBytes n).
Proof.
  intros r bs r' H. unfold readBytes in H.
  destruct (Nat.eqb_spec (Datatypes.length (take n (drop (offset r) (view r)))) n) as [ E | ];
    [ | discriminate ].
  injection H as _ <-. rewrite length_take, length_drop in E.
  repeat split; simpl; lia.
Qed.

Lemma stepsR_times {A} n (m : Rd A) : stepsR m -> stepsR (times n m).
Proof.
  intros Hm. induction n as [ | n IH ]; cbn [times]; [ apply stepsR_ret | ].
  apply stepsR_bind; [ exact Hm | intros x ].
  apply stepsR_bind; [ exact IH | intros xs; apply stepsR_ret ].
Qed.

Lemma stepsR_readVariableLengthInt_loop rounds : forall value shift,
  stepsR (readVariableLengthInt_loop rounds value shift).
Proof.
  induction rounds as [ | rounds IH ]; intros value shift; cbn [readVariableLengthInt_loop];
    [ apply stepsR_throw | ].
  apply stepsR_bind; [ apply stepsR_readByte | intros b ].
  destruct (_ =? 0); [ apply stepsR_ret | apply IH ].
Qed.

#[local] Hint Resolve stepsR_ret stepsR_throw stepsR_readByte stepsR_readBytes
  stepsR_readVariableLengthInt_loop : tracks.

Lemma stepsR_readVariableLengthInt : stepsR readVariableLengthInt.
Proof. apply stepsR_readVariableLengthInt_loop. Qed.

#[local] Hint Resolve stepsR_readVariableLengthInt : tracks.

Ltac stepsR_tac :=
  repeat first
    [ solve [ auto with tracks ]
    | match goal with |- stepsR (if ?c then _ else _) => destruct c end
    | match goal with |- stepsR (times _ _) => apply stepsR_times end
    | match goal with |- stepsR (bind _ _) => apply stepsR_bind; [ | intros ? ] end ].

Lemma stepsR_readInt32 : stepsR readInt32.
Proof. unfold readInt32. stepsR_tac. Qed.

Lemma stepsR_readLengthPrefixedString : stepsR readLengthPrefixedString.
Proof. unfold readLengthPrefixedString. stepsR_tac. Qed.

Lemma stepsR_readSByte : stepsR readSByte.
Proof. unfold readSByte. stepsR_tac. Qed.
Lemma stepsR_readInt16 : stepsR readInt16.
Proof. unfold readInt16. stepsR_tac. Qed.
Lemma stepsR_readUInt16 : stepsR readUInt16.
Proof. unfold readUInt16. stepsR_tac. Qed.
Lemma stepsR_readUInt32 : stepsR readUInt32.
Proof. unfold readUInt32. stepsR_tac. Qed.
Lemma stepsR_readInt64 : stepsR readInt64.
Proof. unfold readInt64. stepsR_tac. Qed.
Lemma stepsR_readUInt64 : stepsR readUInt64.
Proof. unfold readUInt64. stepsR_tac. Qed.
Lemma stepsR_readBoolean : stepsR readBoolean.
Proof. unfold readBoolean. stepsR_tac. Qed.
Lemma stepsR_readChar : stepsR readChar.
Proof. unfold readChar. stepsR_tac. Qed.
Lemma stepsR_readDecimal : stepsR readDecimal.
Proof. unfold readDecimal. stepsR_tac. Qed.
Lemma stepsR_readSingle : stepsR readSingle.
Proof. unfold readSingle. stepsR_tac. Qed.
Lemma stepsR_readDouble : stepsR readDouble.
Proof. unfold readDouble. stepsR_tac. Qed.
Lemma stepsR_readDateTime : stepsR readDateTime.
Proof. apply stepsR_readUInt64. Qed.
Lemma stepsR_readTimeSpan : stepsR readTimeSpan.
Proof. apply stepsR_readInt64. Qed.

#[local] Hint Resolve stepsR_readInt32 stepsR_readLengthPrefixedString stepsR_readSByte
  stepsR_readInt16 stepsR_readUInt16 stepsR_readUInt32 stepsR_readInt64 stepsR_readUInt64
  stepsR_readBoolean stepsR_readChar stepsR_readDecimal stepsR_readSingle stepsR_readDouble
  stepsR_readDateTime stepsR_readTimeSpan : tracks.

(** *** Decoder steps *)

Lemma evolves_refl d : evolves d d.
Proof. split; [ apply advances_refl | ]. split; [ eauto | auto ]. Qed.

Lemma evolves_trans d1 d2 d3 : evolves d1 d2 -> evolves d2 d3 -> evolves d1 d3.
Proof.
  intros (A1 & I1 & R1) (A2 & I2 & R2).
  split; [ eapply advances_trans; eassumption | ]. split; [ | auto ].
  intros ref r Hr. destruct (I1 _ _ Hr) as (r' & Hr' & E1).
  destruct (I2 _ _ Hr') as (r'' & Hr'' & E2). exists r''. split; [ exact Hr'' | congruence ].
Qed.

Lemma tracks_ret {A} (a : A) : tracks (ret a).
Proof. intros d a' d' H. injection H as _ <-. apply evolves_refl. Qed.

Lemma tracks_throw {A} e : tracks (@throw _ A e).
Proof. intros d a d' H. discriminate. Qed.

Lemma tracks_gets {A} (f : NrbfDecoder -> A) : tracks (gets f).
Proof. intros d a d' H. injection H as _ <-. apply evolves_refl. Qed.

Lemma tracks_bind {A B} (m : Dec A) (f : A -> Dec B) :
  tracks m -> (forall a, tracks (f a)) -> tracks (bind m f).
Proof.
  intros Hm Hf d b d'' H. apply bind_inv in H as (a & d' & H1 & H2).
  eapply evolves_trans; [ apply (Hm _ _ _ H1) | apply (Hf _ _ _ _ H2) ].
Qed.

Lemma tracks_onReader {A} (m : Rd A) : stepsR m -> tracks (onReader m).
Proof.
  intros Hm d a d' H. unfold onReader in H.
  destruct (m (reader d)) as [[a' r'] | ] eqn:E; [ | discriminate ]. injection H as _ <-.
  split; [ apply (Hm _ _ _ E) | ]. split; [ eauto | auto ].
Qed.

Lemma tracks_forEach {A} (body : A -> Dec unit) l :
  (forall x, tracks (body x)) -> tracks (forEach body l).
Proof.
  intros H. induction l as [ | x l IH ]; cbn [forEach]; [ apply tracks_ret | ].
  apply tracks_bind; [ apply H | intros _; exact IH ].
Qed.

Lemma tracks_times {A} n (m : Dec A) : tracks m -> tracks (times n m).
Proof.
  intros Hm. induction n as [ | n IH ]; cbn [times]; [ apply tracks_ret | ].
  apply tracks_bind; [ exact Hm | intros x ].
  apply tracks_bind; [ exact IH | intros xs; apply tracks_ret ].
Qed.

Lemma tracks_mapM {A B} (body : A -> Dec B) l :
  (forall x, tracks (body x)) -> tracks (mapM body l).
Proof.
  intros H. induction l as [ | x l IH ]; cbn [mapM]; [ apply tracks_ret | ].
  apply tracks_bind; [ apply H | intros y ].
  apply tracks_bind; [ exact IH | intros ys; apply tracks_ret ].
Qed.

Lemma tracks_libraryMap_set id name : tracks (libraryMap_set id name).
Proof.
  intros d a d' H. injection H as _ <-.
  split; [ apply advances_refl | ]. split; [ eauto | auto ].
Qed.

Lemma tracks_metadataMap_set id md : tracks (metadataMap_set id md).
Proof.
  intros d a d' H. injection H as _ <-.
  split; [ apply advances_refl | ]. split; [ eauto | auto ].
Qed.

Lemma tracks_deref ref : tracks (deref ref).
Proof.
  intros d a d' H. unfold deref in H. destruct (objects d !! ref); [ | discriminate ].
  injection H as _ <-. apply evolves_refl.
Qed.

Lemma tracks_memberValues_set ref name value : tracks (memberValues_set ref name value).
Proof.
  intros d a d' H. injection H as _ <-.
  destruct (objects d !! ref) as [ [ | | c | | | | | | | | | | | ] | ] eqn:E;
    try apply evolves_refl.
  assert (Hids : forall i r, objects d !! i = Some r ->
            exists r', <[ref := OfClassRecord
                          (mkClassRecord (classInfo c) (memberTypeInfo c) (libraryId c)
                             (recordTypeValue c) (Map_set name value (memberValues c)))]>
                         (objects d) !! i = Some r'
                       /\ objectId r' = objectId r).
  { intros i r Hr. destruct (decide (i = ref)) as [ -> | Hne ].
    - rewrite list_lookup_insert_eq by (by eapply lookup_lt_Some).
      eexists. split; [ reflexivity | ]. rewrite E in Hr. by injection Hr as <-.
    - rewrite list_lookup_insert_ne by congruence. eauto. }
  split; [ apply advances_refl | ]. split; [ exact Hids | ].
  intros Hreg id i Hi. cbn [recordMap] in Hi. destruct (Hreg id i Hi) as (r & Hr & Hid).
  destruct (Hids i r Hr) as (r' & Hr' & Hid'). exists r'. split; [ exact Hr' | congruence ].
Qed.

(** A fresh object entered into the record table under its own id. *)
Lemma tracks_register {A} record id (k : nat -> Dec A) :
  objectId record = Some id -> (forall ref, tracks (k ref)) ->
  tracks (ref <- new record ;; recordMap_set id ref ;;; k ref).
Proof.
  intros Hid Hk d a d'' H. apply bind_inv in H as (ref & d1 & H1 & H).
  apply bind_inv in H as ([] & d2 & H2 & H). injection H1 as <- <-. injection H2 as <-.
  eapply evolves_trans; [ | apply (Hk _ _ _ _ H) ].
  assert (Hids : forall i r, objects d !! i = Some r ->
            exists r', (objects d ++ [record]) !! i = Some r' /\ objectId r' = objectId r).
  { intros i r Hr. exists r. split; [ | reflexivity ].
    rewrite lookup_app_l; [ exact Hr | by eapply lookup_lt_Some ]. }
  split; [ apply advances_refl | ]. split; [ exact Hids | ].
  intros Hreg id' i Hi. cbn [recordMap objects] in *.
  destruct (decide (id' = id)) as [ -> | Hne ].
  - rewrite lookup_insert_eq in Hi. injection Hi as <-. exists record.
    split; [ | exact Hid ]. rewrite lookup_app_r, Nat.sub_diag by lia. reflexivity.
  - rewrite lookup_insert_ne in Hi by congruence. destruct (Hreg id' i Hi) as (r & Hr & Hrid).
    destruct (Hids i r Hr) as (r' & Hr' & E). exists r'. split; [ exact Hr' | congruence ].
Qed.

(** The same with the metadata stored in between. *)
Lemma tracks_register_class {A} record id md (k : nat -> Dec A) :
  objectId record = Some id -> (forall ref, tracks (k ref)) ->
  tracks (ref <- new record ;; metadataMap_set id md ;;; recordMap_set id ref ;;; k ref).
Proof.
  intros Hid Hk d a d'' H.
  apply (tracks_register record id k Hid Hk
           (mkDecoder (reader d) (objects d) (recordMap d) (libraryMap d)
              (<[id := md]> (metadataMap d))) a d'') in H.
  destruct H as (Ha & Hi & Hr). split; [ exact Ha | ]. split; [ exact Hi | exact Hr ].
Qed.

#[local] Hint Resolve tracks_ret tracks_throw tracks_gets tracks_libraryMap_set
  tracks_metadataMap_set tracks_deref tracks_memberValues_set : tracks.

Ltac tracks_tac :=
  repeat first
    [ solve [ auto with tracks ]
    | match goal with
      | |- tracks (onReader _) => apply tracks_onReader; solve [ auto with tracks ]
      | |- tracks (if ?c then _ else _) => destruct c
      | |- tracks (match ?x with _ => _ end) => destruct x
      | |- tracks (times _ _) => apply tracks_times
      | |- tracks (mapM _ _) => apply tracks_mapM; intros ?
      | |- tracks (forEach _ _) => apply tracks_forEach; intros ?
      | |- tracks (bind (new _) (fun _ => bind (metadataMap_set _ _) _)) =>
          apply tracks_register_class; [ reflexivity | intros ? ]
      | |- tracks (bind (new _) _) => apply tracks_register; [ reflexivity | intros ? ]
      | |- tracks (bind _ _) => apply tracks_bind; [ | intros ? ]
      end ].

Lemma tracks_readAdditionalTypeInfo binaryType : tracks (readAdditionalTypeInfo binaryType).
Proof. unfold readAdditionalTypeInfo. tracks_tac. Qed.

Lemma tracks_readClassInfo : tracks readClassInfo.
Proof. unfold readClassInfo. tracks_tac. Qed.

Lemma tracks_readMemberTypeInfo memberCount : tracks (readMemberTypeInfo memberCount).
Proof. unfold readMemberTypeInfo. tracks_tac. apply tracks_readAdditionalTypeInfo. Qed.

Lemma tracks_readPrimitiveValue primitiveType : tracks (readPrimitiveValue primitiveType).
Proof. unfold readPrimitiveValue. tracks_tac. Qed.

#[local] Hint Resolve tracks_readAdditionalTypeInfo tracks_readClassInfo
  tracks_readMemberTypeInfo tracks_readPrimitiveValue : tracks.

Section TracksDecode.
Variable decodeNext : Dec NrbfRecord.
Variable rounds : nat.
Hypothesis tracks_decodeNext : tracks decodeNext.

Lemma tracks_readObjectValue binaryType additionalInfo :
  tracks (readObjectValue decodeNext binaryType additionalInfo).
Proof.
  unfold readObjectValue.
  destruct binaryType as [ [ | | ] | ]; try destruct additionalInfo as [ [ | | | ] | ];
    tracks_tac.
Qed.

Lemma tracks_readMemberValues record memberNames memberTypeInfo :
  tracks (readMemberValues decodeNext record memberNames memberTypeInfo).
Proof.
  unfold readMemberValues. apply tracks_forEach. intros [i memberName].
  apply tracks_bind; [ apply tracks_readObjectValue | intros value; tracks_tac ].
Qed.

Lemma tracks_readUntypedMemberValues record memberNames :
  tracks (readUntypedMemberValues decodeNext record memberNames).
Proof. unfold readUntypedMemberValues. tracks_tac. Qed.

Lemma tracks_readAllElements_loop n : forall count binaryType additionalInfo i elements,
  tracks (readAllElements_loop decodeNext n count binaryType additionalInfo i elements).
Proof.
  induction n as [ | n IH ]; intros count binaryType additionalInfo i elements;
    cbn [readAllElements_loop].
  - destruct (i <? count); tracks_tac.
  - destruct (i <? count); [ | tracks_tac ].
    apply tracks_bind; [ apply tracks_readObjectValue | intros val ].
    destruct val as [ | | | | | [ | | | | | | | | | | | | | ] ]; apply IH.
Qed.

Lemma tracks_readAllElements count binaryType additionalInfo :
  tracks (readAllElements decodeNext rounds count binaryType additionalInfo).
Proof. apply tracks_readAllElements_loop. Qed.

#[local] Hint Resolve tracks_readMemberValues tracks_readUntypedMemberValues
  tracks_readAllElements : tracks.

Lemma tracks_decodeNext_body : tracks (decodeNext_body decodeNext rounds).
Proof.
  unfold decodeNext_body, getPosition, decodeSerializationHeader, decodeBinaryLibrary,
    decodeClassWithMembersAndTypes, decodeSystemClassWithMembersAndTypes,
    decodeSystemClassWithMembers, decodeClassWithMembers, decodeClassWithId,
    decodeBinaryObjectString, decodeBinaryArray, decodeArraySinglePrimitive,
    decodeArraySingleObject, decodeArraySingleString, decodeMemberPrimitiveTyped,
    decodeMemberReference, decodeObjectNullMultiple, decodeObjectNullMultiple256.
  tracks_tac.
Qed.
End TracksDecode.

Lemma tracks_decodeNext fuel : tracks (decodeNext fuel).
Proof.
  induction fuel as [ | fuel IH ]; cbn [decodeNext]; [ apply tracks_throw | ].
  by apply tracks_decodeNext_body.
Qed.

Ltac unfold_decoders :=
  unfold decodeSerializationHeader, decodeBinaryLibrary,
    decodeClassWithMembersAndTypes, decodeSystemClassWithMembersAndTypes,
    decodeSystemClassWithMembers, decodeClassWithMembers, decodeClassWithId,
    decodeBinaryObjectString, decodeBinaryArray, decodeArraySinglePrimitive,
    decodeArraySingleObject, decodeArraySingleString, decodeMemberPrimitiveTyped,
    decodeMemberReference, decodeObjectNullMultiple, decodeObjectNullMultiple256.

(** X20. Every record costs input: a [decodeNext] that returns has moved
    the reader forward by at least one byte, over the same buffer and not
    past its end. *)
Theorem decodeNext_progress (fuel : nat) (d d' : NrbfDecoder) (record : NrbfRecord) :
  decodeNext fuel d = Ok (record, d') ->
  view (reader d') = view (reader d)
  /\ (offset (reader d) < offset (reader d') <= Datatypes.length (view (reader d)))%nat.
Proof.
  destruct fuel as [ | fuel ]; [ discriminate | ].
  cbn [decodeNext]. unfold decodeNext_body. intros H.
  apply bind_inv in H as (pos & d0 & H0 & H). injection H0 as _ <-.
  apply bind_inv in H as (b & d1 & H1 & H).
  assert (Hbyte : view (reader d1) = view (reader d)
                  /\ offset (reader d1) = S (offset (reader d))
                  /\ (offset (reader d1) <= Datatypes.length (view (reader d)))%nat).
  { unfold onReader, readByte in H1.
    destruct (view (reader d) !! offset (reader d)) eqn:E; [ | discriminate ].
    injection H1 as _ <-. apply lookup_lt_Some in E. cbn [reader view offset].
    repeat split; lia. }
  destruct Hbyte as (Hv & Ho & Hl).
  match type of H with
  | ?m d1 = _ =>
      assert (Ht : tracks m)
        by (pose proof (tracks_decodeNext fuel); unfold_decoders;
            pose proof (tracks_readMemberValues (decodeNext fuel));
            pose proof (tracks_readUntypedMemberValues (decodeNext fuel));
            pose proof (tracks_readAllElements (decodeNext fuel) fuel);
            tracks_tac)
  end.
  destruct (Ht _ _ _ H) as ((Hv' & Ho' & Hl') & _).
  rewrite Hv in *. split; [ congruence | ]. split; [ lia | auto ].
Qed.

Lemma decodeNext_progress_witness :
  decodeNext 1 (decoderAt [0] [11; 7] [] ∅ ∅ ∅)
    = Ok (MessageEndRecord, decoderAt [0; 11] [7] [] ∅ ∅ ∅)
  /\ Nat.lt (offset (reader (decoderAt [0] [11; 7] [] ∅ ∅ ∅)))
            (offset (reader (decoderAt [0; 11] [7] [] ∅ ∅ ∅))).
Proof.
  assert (H : decodeNext 1 (decoderAt [0] [11; 7] [] ∅ ∅ ∅)
              = Ok (MessageEndRecord, decoderAt [0; 11] [7] [] ∅ ∅ ∅)) by reflexivity.
  split; [ exact H | ]. exact (proj1 (proj2 (decodeNext_progress _ _ _ _ H))).
Defined.

Lemma tracks_decode_loop fuel budget : forall count, tracks (decode_loop fuel budget count).
Proof.
  induction budget as [ | budget IH ]; intros count; cbn [decode_loop];
    [ apply tracks_throw | ].
  apply tracks_bind; [ apply tracks_decodeNext | intros record ].
  destruct (100000 <? count + 1); [ apply tracks_throw | ].
  destruct (isMessageEnd record); [ apply tracks_ret | apply IH ].
Qed.

Lemma registered_newDecoder buffer : registered (newDecoder buffer).
Proof. intros id ref H. cbn [newDecoder recordMap] in H. by rewrite lookup_empty in H. Qed.

Lemma registered_getRecord d id r :
  registered d -> getRecord id d = Some r -> objectId r = Some id.
Proof.
  intros Hreg H. unfold getRecord in H.
  destruct (recordMap d !! id) as [ ref | ] eqn:E; [ | discriminate ]. cbn in H.
  destruct (Hreg id ref E) as (r' & Hr' & Hid). congruence.
Qed.

(** X21. The root that [decode] returns is the record that registered
    last under the root id of the stream header: its object id is the
    Int32 at bytes 1 to 4 of the buffer.  In the decoder that [decode]
    leaves behind, every record that [getRecord] returns for an id carries
    that id, so it is never a reference, a null or a MessageEnd. *)
Theorem decode_root_id (fuel : nat) (buffer : list Z) (root : NrbfRecord) (d' : NrbfDecoder) :
  decode_run fuel (newDecoder buffer) = Ok (root, d') ->
  objectId root = Some (toInt32 (leValue (take 4 (drop 1 buffer))))
  /\ decode fuel buffer = Ok root
  /\ (forall id r, getRecord id d' = Some r -> objectId r = Some id /\ notReference r = true).
Proof.
  intros H. assert (Hdecode : decode fuel buffer = Ok root) by (unfold decode; by rewrite H).
  unfold decode_run in H.
  apply bind_inv in H as (headerByte & d1 & H1 & H).
  destruct (negb (headerByte =? RecordType.SerializedStreamHeader)); [ discriminate | ].
  apply bind_inv in H as (rootId & d2 & H2 & H).
  assert (HrootId : rootId = toInt32 (leValue (take 4 (drop 1 buffer)))).
  { unfold onReader, readByte in H1. cbn [newDecoder reader view offset] in H1.
    destruct (buffer !! 0%nat); [ | discriminate ]. injection H1 as _ <-.
    unfold onReader, readInt32, bind, readBytes in H2. cbn [reader view offset Nat.add] in H2.
    destruct (_ =? 4)%nat; [ | discriminate ]. by injection H2 as <- _. }
  apply bind_inv in H as (headerId & d3 & H3 & H).
  apply bind_inv in H as (majorVersion & d4 & H4 & H).
  apply bind_inv in H as (minorVersion & d5 & H5 & H).
  apply bind_inv in H as ([] & d6 & H6 & H).
  apply bind_inv in H as (found & d7 & H7 & H). injection H7 as <- <-.
  destruct (getRecord rootId d6) as [ root' | ] eqn:Hroot; [ | discriminate ].
  injection H as <- <-.
  assert (Hreg : registered d6).
  { apply (tracks_decode_loop _ _ _ _ _ _ H6).
    apply (tracks_onReader _ stepsR_readInt32 _ _ _ H5).
    apply (tracks_onReader _ stepsR_readInt32 _ _ _ H4).
    apply (tracks_onReader _ stepsR_readInt32 _ _ _ H3).
    apply (tracks_onReader _ stepsR_readInt32 _ _ _ H2).
    apply (tracks_onReader _ stepsR_readByte _ _ _ H1).
    apply registered_newDecoder. }
  split; [ rewrite <- HrootId; by apply (registered_getRecord d6) | ].
  split; [ exact Hdecode | ].
  intros id r Hr. pose proof (registered_getRecord d6 id r Hreg Hr) as Hid.
  split; [ exact Hid | ]. destruct r; try reflexivity; discriminate.
Qed.

Lemma decode_root_id_witness :
  decode_run 1 (newDecoder helloStream)
    = Ok (BinaryObjectStringRecord 1 "hello",
          decoderAt helloStream [] [BinaryObjectStringRecord 1 "hello"] {[ 1 := 0%nat ]} ∅ ∅)
  /\ objectId (BinaryObjectStringRecord 1 "hello")
     = Some (toInt32 (leValue (take 4 (drop 1 helloStream)))).
Proof.
  assert (H : decode_run 1 (newDecoder helloStream)
              = Ok (BinaryObjectStringRecord 1 "hello",
                    decoderAt helloStream [] [BinaryObjectStringRecord 1 "hello"]
                      {[ 1 := 0%nat ]} ∅ ∅)) by (vm_compute; reflexivity).
  split; [ exact H | ]. exact (proj1 (decode_root_id _ _ _ _ H)).
Defined.

(** ** Streams that [encode] returns and [decode] refuses *)

(** The loop of [decode] over one record that is not entered into the
    record table and the MessageEnd. *)
Lemma decode_unregistered fuel id body record :
  - 2 ^ 31 <= id < 2 ^ 31 ->
  (forall done rest,
     decodeNext (S fuel) (decoderAt done (body ++ rest) [] ∅ ∅ ∅)
     = Ok (record, decoderAt (done ++ body) rest [] ∅ ∅ ∅)) ->
  isMessageEnd record = false ->
  decode (S fuel) (headerBytes id ++ body ++ [RecordType.MessageEnd]) = Err (RootNotFound id).
Proof.
  intros Hid Hread Hend. unfold decode. rewrite decode_run_header by exact Hid.
  rewrite budget_unfold. unfold RecordType.MessageEnd.
  erewrite bind_Ok; [ | ].
  2: { erewrite decode_loop_step; [ | apply Hread ].
       change (100000 <? 0 + 1) with false. cbv iota. rewrite Hend.
       erewrite decode_loop_step; [ | apply decodeNext_MessageEnd ].
       reflexivity. }
  reflexivity.
Qed.

Lemma decodeNext_MemberReference fuel done rest o rm lm mm :
  decodeNext (S fuel) (decoderAt done (9 :: rest) o rm lm mm)
  = decodeMemberReference (decoderAt (done ++ [9]) rest o rm lm mm).
Proof. rewrite decodeNext_lead. reflexivity. Qed.

Lemma decodeNext_ObjectNullMultiple fuel done rest o rm lm mm :
  decodeNext (S fuel) (decoderAt done (14 :: rest) o rm lm mm)
  = decodeObjectNullMultiple (decoderAt (done ++ [14]) rest o rm lm mm).
Proof. rewrite decodeNext_lead. reflexivity. Qed.

Lemma readsBytes_MemberReference fuel idRef :
  - 2 ^ 31 <= idRef < 2 ^ 31 ->
  readsBytes (decodeNext (S fuel)) ([RecordType.MemberReference] ++ leBytes 4 idRef)
    (MemberReferenceRecord idRef).
Proof.
  intros H done rest o rm lm mm. unfold RecordType.MemberReference. rewrite <- app_assoc.
  cbn [app]. rewrite decodeNext_MemberReference. unfold decodeMemberReference.
  rewrite (bind_Ok _ _ _ _ _ (readInt32_decoderAt _ idRef _ _ _ _ _ H)).
  unfold ret. rewrite <- !app_assoc. reflexivity.
Qed.

Lemma readsBytes_ObjectNull fuel :
  readsBytes (decodeNext (S fuel)) [RecordType.ObjectNull] ObjectNullRecord.
Proof. intros done rest o rm lm mm. apply decodeNext_ObjectNull. Qed.

Lemma readsBytes_ObjectNullMultiple fuel n :
  - 2 ^ 31 <= n < 2 ^ 31 ->
  readsBytes (decodeNext (S fuel)) ([RecordType.ObjectNullMultiple] ++ leBytes 4 n)
    (ObjectNullMultipleRecord n).
Proof.
  intros H done rest o rm lm mm. unfold RecordType.ObjectNullMultiple. rewrite <- app_assoc.
  cbn [app]. rewrite decodeNext_ObjectNullMultiple. unfold decodeObjectNullMultiple.
  rewrite (bind_Ok _ _ _ _ _ (readInt32_decoderAt _ n _ _ _ _ _ H)).
  unfold ret. rewrite <- !app_assoc. reflexivity.
Qed.

Lemma writesBytes_writeByte b :
  0 <= b < 256 -> writesBytes (onWriter (writeByte b)) [b].
Proof.
  intros H. replace [b] with [toUint8 b] by (rewrite toUint8_id; [ done | lia ]).
  apply writesBytes_push.
Qed.

(** X22. A root that carries no object id does not come back: [encode]
    writes such a root under the root id 1 (a reference, an ObjectNull, a
    run of nulls), and [decode] of the stream throws 'Root object with ID
    1 not found', the record table holding only records that have an
    object id. *)
Theorem decode_encode_root_without_id (fuel : nat) coerceWrite (n : Z) :
  - 2 ^ 31 <= n < 2 ^ 31 ->
  Forall (fun root =>
            exists stream,
              encode coerceWrite root None = Ok stream
              /\ decode (S fuel) stream = Err (RootNotFound 1))
    [MemberReferenceRecord n; ObjectNullRecord; ObjectNullMultipleRecord n].
Proof.
  intros Hn. repeat constructor.
  - eexists. split.
    + apply (encode_of_writes coerceWrite (MemberReferenceRecord n)
               ([RecordType.MemberReference] ++ leBytes 4 n)).
      cbn [encodeRecord_dispatch]. unfold encodeMemberReference.
      apply writesBytes_bind; apply writesBytes_push.
    + apply (decode_unregistered fuel 1 _ (MemberReferenceRecord n)); [ lia | | reflexivity ].
      intros done rest. by apply readsBytes_MemberReference.
  - eexists. split.
    + apply (encode_of_writes coerceWrite ObjectNullRecord [RecordType.ObjectNull]).
      cbn [encodeRecord_dispatch]. apply writesBytes_push.
    + apply (decode_unregistered fuel 1 _ ObjectNullRecord); [ lia | | reflexivity ].
      intros done rest. apply readsBytes_ObjectNull.
  - eexists. split.
    + apply (encode_of_writes coerceWrite (ObjectNullMultipleRecord n)
               ([RecordType.ObjectNullMultiple] ++ leBytes 4 n)).
      cbn [encodeRecord_dispatch]. unfold encodeObjectNullMultiple.
      apply writesBytes_bind; apply writesBytes_push.
    + apply (decode_unregistered fuel 1 _ (ObjectNullMultipleRecord n)); [ lia | | reflexivity ].
      intros done rest. by apply readsBytes_ObjectNullMultiple.
Qed.

Lemma decode_encode_root_without_id_witness :
  - 2 ^ 31 <= 7 < 2 ^ 31
  /\ exists stream,
       encode noCoercion (MemberReferenceRecord 7) None = Ok stream
       /\ decode 1 stream = Err (RootNotFound 1).
Proof.
  split; [ lia | ].
  pose proof (decode_encode_root_without_id 0 noCoercion 7 ltac:(lia)) as H.
  apply Forall_cons in H as [H _]. exact H.
Defined.

(** ** ClassWithId records *)

Lemma bind_Err {S A B} (m : M S A) (f : A -> M S B) s e :
  m s = Err e -> bind m f s = Err e.
Proof. intros H. unfold bind. by rewrite H. Qed.

Lemma readInt32_decoderAt_bytes done xs rest o rm lm mm :
  Datatypes.length xs = 4%nat ->
  onReader readInt32 (decoderAt done (xs ++ rest) o rm lm mm)
  = Ok (toInt32 (leValue xs), decoderAt (done ++ xs) rest o rm lm mm).
Proof.
  intros H. unfold readInt32. rewrite onReader_bind.
  pose proof (readBytes_decoderAt done xs rest o rm lm mm) as E. rewrite H in E.
  rewrite (bind_Ok _ _ _ _ _ E). reflexivity.
Qed.

Lemma steady_out {A} (m : Enc A) e a e' :
  steady m -> m e = Ok (a, e') -> exists out, toBuffer (writer e') = toBuffer (writer e) ++ out.
Proof. intros Hm H. by destruct (Hm _ _ _ H) as (Hout & _). Qed.

(** The stream [encode] returns for a class record begins with the
    record type, the object id, the class name and the member count,
    whatever the record type is. *)
Lemma encode_class_prefix coerceWrite (c : ClassRecord) stream :
  Z.of_nat (Datatypes.length (bytesOfString (ci_name (classInfo c)))) < 2 ^ 31 ->
  encode coerceWrite (OfClassRecord c) None = Ok stream ->
  exists tail,
    stream = headerBytes (ci_objectId (classInfo c))
             ++ [toUint8 (recordTypeValue c)]
             ++ leBytes 4 (ci_objectId (classInfo c))
             ++ stringBytes (ci_name (classInfo c))
             ++ leBytes 4 (memberCount (classInfo c))
             ++ tail.
Proof.
  intros Hname H. unfold encode in H. cbn [objectId default] in H.
  match type of H with
  | match ?run newEncoder with _ => _ end = _ =>
      destruct (run newEncoder) as [[[] e'] | ] eqn:Hrun; [ | discriminate ]
  end.
  injection H as <-.
  do 5 (apply bind_inv in Hrun as ([] & ? & Hw & Hrun); injection Hw as <-).
  apply bind_inv in Hrun as ([] & e6 & Hrecord & Hend). injection Hend as <-.
  rewrite encodeRecord_first_visit in Hrecord by reflexivity.
  apply bind_inv in Hrecord as ([] & e5 & Hdispatch & Hmark).
  apply steady_markWritten in Hmark. destruct Hmark as ([out3 Hout3] & _).
  cbn [encodeRecord_dispatch] in Hdispatch. unfold encodeClassRecord in Hdispatch.
  apply bind_inv in Hdispatch as ([] & ? & Hw & Hdispatch). injection Hw as <-.
  apply bind_inv in Hdispatch as ([] & e3 & Hinfo & Hrest).
  unfold writeClassInfo in Hinfo.
  do 3 (apply bind_inv in Hinfo as ([] & ? & Hw & Hinfo); injection Hw as <-).
  assert (Hout1 : exists out, toBuffer (writer e3) = _ ++ out)
    by (refine (steady_out _ _ _ _ _ Hinfo);
        apply steady_forEach; intros; steady_writer).
  destruct Hout1 as [out1 Hout1].
  assert (Hout2 : exists out, toBuffer (writer e5) = toBuffer (writer e3) ++ out).
  { refine (steady_out _ _ _ _ _ Hrest).
    apply steady_bind; [ | intros _ ].
    { match goal with |- steady (if ?b then _ else _) => destruct b end; [ | apply steady_ret ].
      destruct (memberTypeInfo c); [ apply steady_writeMemberTypeInfo | apply steady_throw ]. }
    apply steady_bind; [ | intros _ ].
    { match goal with |- steady (if ?b then _ else _) => destruct b end;
        [ steady_writer | apply steady_ret ]. }
    apply steady_forEach. intros memberName _. rewrite Map_getWith_get.
    destruct (Map_get memberName (memberValues c)) as [ v | ].
    - apply steady_writeObjectValue. intros r _. apply steady_encodeRecord.
    - steady_writer. }
  destruct Hout2 as [out2 Hout2].
  exists (out1 ++ out2 ++ out3 ++ [11]).
  cbn [writer]. rewrite toBuffer_writeByte, Hout3, Hout2, Hout1. cbn [writer].
  rewrite toBuffer_writeInt32, toBuffer_writeLengthPrefixedString by exact Hname.
  rewrite toBuffer_writeInt32, toBuffer_writeByte, !toBuffer_writeInt32, toBuffer_writeByte.
  unfold headerBytes. cbn [newEncoder writer toBuffer chunks concat app].
  rewrite <- !app_assoc. reflexivity.
Qed.

(** X23. A ClassWithId record is not written in the form it is read in:
    [encodeClassRecord] writes the class name and the member count after
    the object id, where [decodeClassWithId] reads a metadata id.  So
    whenever [encode] returns for a root of that record type, [decode] of
    the stream throws 'Metadata not found', for the id that the first
    four bytes of the written class name and member count make. *)
Theorem encode_ClassWithId_undecodable (fuel : nat) coerceWrite (c : ClassRecord)
    (stream : list Z) :
  recordTypeValue c = RecordType.ClassWithId ->
  - 2 ^ 31 <= ci_objectId (classInfo c) < 2 ^ 31 ->
  Z.of_nat (Datatypes.length (bytesOfString (ci_name (classInfo c)))) < 2 ^ 31 ->
  encode coerceWrite (OfClassRecord c) None = Ok stream ->
  decode (S fuel) stream
  = Err (MetadataNotFound
           (toInt32 (leValue (take 4 (stringBytes (ci_name (classInfo c))
                                      ++ leBytes 4 (memberCount (classInfo c))))))).
Proof.
  intros Hrt Hid Hname Hencode.
  destruct (encode_class_prefix coerceWrite c stream Hname Hencode) as [tail ->].
  rewrite Hrt. unfold RecordType.ClassWithId. cbn [toUint8 Z.modulo app].
  change (1 mod 2 ^ 8) with 1.
  set (name := stringBytes (ci_name (classInfo c))).
  set (count := leBytes 4 (memberCount (classInfo c))).
  assert (Hlen : Datatypes.length (take 4 (name ++ count)) = 4%nat).
  { rewrite length_take, length_app. subst count. rewrite leBytes_length. lia. }
  unfold decode. rewrite decode_run_header by exact Hid. rewrite budget_unfold.
  rewrite (bind_Err _ _ _ (MetadataNotFound (toInt32 (leValue (take 4 (name ++ count))))));
    [ reflexivity | ].
  cbn [decode_loop]. apply bind_Err. rewrite decodeNext_ClassWithId. unfold decodeClassWithId.
  rewrite (bind_Ok _ _ _ _ _ (readInt32_decoderAt _ _ _ _ _ _ _ Hid)).
  set (xs := take 4 (name ++ count)) in *.
  rewrite (app_assoc name count tail).
  replace (name ++ count) with (xs ++ drop 4 (name ++ count)) by apply take_drop.
  rewrite <- (app_assoc xs).
  rewrite (bind_Ok _ _ _ _ _ (readInt32_decoderAt_bytes _ _ _ _ _ _ _ Hlen)).
  reflexivity.
Qed.

Lemma encode_ClassWithId_undecodable_witness :
  recordTypeValue sampleClassWithId = RecordType.ClassWithId
  /\ encode noCoercion (OfClassRecord sampleClassWithId) None
     = Ok (headerBytes 2 ++ [1; 2; 0; 0; 0; 1; 67; 0; 0; 0; 0; 11])
  /\ decode 1 (headerBytes 2 ++ [1; 2; 0; 0; 0; 1; 67; 0; 0; 0; 0; 11])
     = Err (MetadataNotFound 17153).
Proof.
  assert (H : encode noCoercion (OfClassRecord sampleClassWithId) None
              = Ok (headerBytes 2 ++ [1; 2; 0; 0; 0; 1; 67; 0; 0; 0; 0; 11]))
    by (vm_compute; reflexivity).
  split; [ reflexivity | ]. split; [ exact H | ].
  apply (encode_ClassWithId_undecodable 0 noCoercion sampleClassWithId _ eq_refl);
    [ simpl; lia | simpl; lia | exact H ].
Defined.

(** ** Classes of strings, written and read back *)

Lemma isPlainString_spec s :
  isPlainString s = true ->
  wellFormedUtf8 (bytesOfString s) = true
  /\ startsWithBOM (bytesOfString s) = false
  /\ Z.of_nat (Datatypes.length (bytesOfString s)) < 2 ^ 31.
Proof.
  unfold isPlainString. rewrite !andb_true_iff, negb_true_iff, Z.ltb_lt. tauto.
Qed.

Lemma plainMember_spec m :
  plainMember m = true ->
  isPlainString m.1 = true /\ - 2 ^ 31 <= m.2.1 < 2 ^ 31 /\ isPlainString m.2.2 = true.
Proof.
  unfold plainMember. rewrite !andb_true_iff, Z.leb_le, Z.ltb_lt. tauto.
Qed.

(** *** The writer's side *)

Lemma writesBytes_forEach {A} (body : A -> Enc unit) (bytes : A -> list Z) l :
  (forall x, x ∈ l -> writesBytes (body x) (bytes x)) ->
  writesBytes (forEach body l) (concat (map bytes l)).
Proof.
  induction l as [ | x l IH ]; intros H; cbn [forEach map concat].
  - apply writesBytes_ret.
  - apply writesBytes_bind; [ apply H; left | apply IH; intros y Hy; apply H; by right ].
Qed.

Lemma writesBytes_string s :
  Z.of_nat (Datatypes.length (bytesOfString s)) < 2 ^ 31 ->
  writesBytes (onWriter (writeLengthPrefixedString s)) (stringBytes s).
Proof.
  intros H. apply writesBytes_onWriter. intros w.
  by apply toBuffer_writeLengthPrefixedString.
Qed.

Lemma writesBytes_writeInt32 v : writesBytes (onWriter (writeInt32 v)) (leBytes 4 v).
Proof. apply writesBytes_onWriter. intros w. apply toBuffer_writeInt32. Qed.

Lemma writesBytes_eq m bytes bytes' :
  writesBytes m bytes -> bytes = bytes' -> writesBytes m bytes'.
Proof. by intros H <-. Qed.

Lemma concat_map_singleton {A} (x : A) (f : A -> Z) n :
  concat (map (fun y => [f y]) (replicate n x)) = replicate n (f x).
Proof. induction n as [ | n IH ]; cbn; [ reflexivity | by rewrite IH ]. Qed.

Lemma concat_map_nil {A B} (l : list A) : concat (map (fun _ => @nil B) l) = [].
Proof. induction l as [ | x l IH ]; cbn; [ reflexivity | exact IH ]. Qed.

Lemma writesBytes_stringTypes n :
  writesBytes
    (writeMemberTypeInfo (mkMemberTypeInfo (replicate n BinaryType.String) (replicate n AtiNone)))
    (replicate n BinaryType.String).
Proof.
  unfold writeMemberTypeInfo. cbn [binaryTypeEnums additionalInfos].
  apply (writesBytes_eq _ (replicate n BinaryType.String ++ [])); [ | apply app_nil_r ].
  apply writesBytes_bind.
  - eapply writesBytes_eq; [ | apply (concat_map_singleton BinaryType.String toUint8 n) ].
    apply writesBytes_forEach. intros bt _. apply writesBytes_onWriter.
    intros w. apply toBuffer_writeByte.
  - eapply writesBytes_eq; [ | apply (concat_map_nil (replicate n AtiNone)) ].
    apply writesBytes_forEach. intros info Hinfo.
    apply elem_of_replicate in Hinfo as [-> _]. apply writesBytes_ret.
Qed.

Lemma Map_get_stringMember (members : list (string * (Z * string))) m :
  NoDup (members.*1) -> m ∈ members ->
  Map_get m.1 (map stringMember members) = Some (stringMember m).2.
Proof.
  induction members as [ | m0 members IH ]; intros Hnd Hm; [ by apply elem_of_nil in Hm | ].
  cbn [fmap list_fmap] in Hnd. apply NoDup_cons in Hnd as [Hfresh Hnd].
  cbn [map Map_get stringMember fst]. apply elem_of_cons in Hm as [ -> | Hm ].
  - by rewrite String.eqb_refl.
  - destruct (String.eqb_spec m0.1 m.1) as [ E | _ ]; [ | by apply IH ].
    exfalso. apply Hfresh. rewrite E. apply list_elem_of_fmap. by exists m.
Qed.

Section EncodeStrings.
Variable coerceWrite : Z -> ObjectValue -> result (list Z).

(** A string record that was not written before is written in full and
    then marked. *)
Lemma encodeRecord_string id s e :
  Z.of_nat (Datatypes.length (bytesOfString s)) < 2 ^ 31 ->
  id ∉ writtenRecords e ->
  exists e',
    encodeRecord coerceWrite (BinaryObjectStringRecord id s) e = Ok (tt, e')
    /\ toBuffer (writer e')
       = toBuffer (writer e) ++ memberBytes ("", (id, s))
    /\ writtenRecords e' ⊆ {[id]} ∪ writtenRecords e.
Proof.
  intros Hlen Hid. rewrite encodeRecord_unfold.
  unfold encodeRecord_body, bind at 1, gets, alreadyWritten. cbn [objectId].
  rewrite (bool_decide_eq_false_2 _ Hid), andb_false_r.
  cbv [bind encodeRecord_dispatch encodeBinaryObjectString onWriter modify markWritten objectId].
  destruct (id =? 0); eexists; (split; [ reflexivity | ]); cbn [writer writtenRecords];
    (split; [ | set_solver ]);
    rewrite toBuffer_writeLengthPrefixedString, toBuffer_writeInt32, toBuffer_writeByte
      by exact Hlen;
    unfold memberBytes, toUint8; cbn [fst snd]; rewrite <- !app_assoc; reflexivity.
Qed.

Lemma encode_stringMembers (values : list (string * ObjectValue))
    (members : list (string * (Z * string))) :
  forall e,
    (forall m, m ∈ members -> Map_get m.1 values = Some (stringMember m).2) ->
    Forall (fun m => plainMember m = true) members ->
    NoDup ((members.*2).*1) ->
    (forall id, id ∈ (members.*2).*1 -> id ∉ writtenRecords e) ->
    exists e',
      forEach (fun memberName =>
                 Map_getWith memberName (writeObjectValue (encodeRecord coerceWrite))
                   writeUndefined values)
              (members.*1) e
      = Ok (tt, e')
      /\ toBuffer (writer e') = toBuffer (writer e) ++ concat (map memberBytes members).
Proof.
  induction members as [ | m members IH ]; intros e Hget Hplain Hnd Hfresh.
  - exists e. split; [ reflexivity | ]. cbn. by rewrite app_nil_r.
  - cbn [fmap list_fmap] in Hnd, Hfresh |- *. cbn [forEach].
    apply NoDup_cons in Hnd as [Hm Hnd]. apply Forall_cons in Hplain as [Hplain1 Hplain].
    apply plainMember_spec in Hplain1 as (_ & _ & Htext).
    apply isPlainString_spec in Htext as (_ & _ & Htext).
    destruct (encodeRecord_string m.2.1 m.2.2 e Htext) as (e1 & E1 & B1 & W1);
      [ apply Hfresh; left | ].
    destruct (IH e1) as (e2 & E2 & B2); [ | exact Hplain | exact Hnd | | ].
    { intros m' Hm'. apply Hget. by right. }
    { intros id Hid Hin. apply W1 in Hin. apply elem_of_union in Hin as [ Hin | Hin ].
      - apply elem_of_singleton in Hin. subst id. by apply Hm.
      - revert Hin. apply Hfresh. by right. }
    exists e2. unfold bind. rewrite Map_getWith_get, (Hget m) by left.
    cbn [stringMember snd writeObjectValue]. rewrite E1. split; [ exact E2 | ].
    rewrite B2, B1. cbn [map concat]. unfold memberBytes. cbn [fst snd].
    by rewrite <- !app_assoc.
Qed.

(** What [encode] returns for a class of strings. *)
Lemma encode_stringClass id name library members :
  isPlainString name = true ->
  Forall (fun m => plainMember m = true) members ->
  NoDup (members.*1) ->
  NoDup ((members.*2).*1) ->
  encode coerceWrite (stringClass id name library members) None
  = Ok (headerBytes id ++ stringClassBytes id name library members
        ++ [RecordType.MessageEnd]).
Proof.
  intros Hname Hplain Hnames Hids. apply isPlainString_spec in Hname as (_ & _ & Hname).
  unfold encode. cbv [bind onWriter modify].
  match goal with
  | |- context [encodeRecord coerceWrite ?root ?e1] =>
      rewrite (encodeRecord_first_visit coerceWrite root e1 eq_refl); set (start := e1)
  end.
  assert (Hhead : writesBytes
            (onWriter (writeByte RecordType.ClassWithMembersAndTypes) ;;;
             writeClassInfo (mkClassInfo id name (Z.of_nat (Datatypes.length members))
                               (members.*1)) ;;;
             writeMemberTypeInfo
               (mkMemberTypeInfo (replicate (Datatypes.length members) BinaryType.String)
                  (replicate (Datatypes.length members) AtiNone)) ;;;
             onWriter (writeInt32 library))
            ([RecordType.ClassWithMembersAndTypes]
             ++ (leBytes 4 id ++ stringBytes name
                 ++ leBytes 4 (Z.of_nat (Datatypes.length members))
                 ++ concat (map stringBytes (members.*1)))
             ++ replicate (Datatypes.length members) BinaryType.String
             ++ leBytes 4 library)).
  { apply writesBytes_bind;
      [ apply writesBytes_onWriter; intros w; apply toBuffer_writeByte | ].
    apply writesBytes_bind; [ | apply writesBytes_bind ].
    - unfold writeClassInfo. cbn [ci_objectId ci_name memberCount memberNames].
      apply writesBytes_bind; [ apply writesBytes_writeInt32 | ].
      apply writesBytes_bind; [ by apply writesBytes_string | ].
      apply writesBytes_bind; [ apply writesBytes_writeInt32 | ].
      apply writesBytes_forEach. intros memberName Hin.
      apply list_elem_of_fmap in Hin as (m & -> & Hin).
      rewrite Forall_forall in Hplain. apply Hplain in Hin.
      apply plainMember_spec in Hin as (Hin & _). apply isPlainString_spec in Hin.
      apply writesBytes_string. tauto.
    - apply writesBytes_stringTypes.
    - apply writesBytes_writeInt32. }
  destruct (Hhead start) as (e1 & E1 & B1 & W1).
  destruct (encode_stringMembers (map stringMember members) members e1) as (e2 & E2 & B2).
  { intros m Hm. by apply Map_get_stringMember. }
  { exact Hplain. }
  { exact Hids. }
  { intros i _. rewrite W1. subst start. cbn [writtenRecords newEncoder]. set_solver. }
  assert (Hdispatch :
            encodeRecord_dispatch coerceWrite (encodeRecord coerceWrite)
              (stringClass id name library members) start = Ok (tt, e2)).
  { revert E1. unfold stringClass. cbn [encodeRecord_dispatch]. unfold encodeClassRecord.
    cbn [recordTypeValue classInfo memberTypeInfo libraryId memberValues memberNames default].
    change (RecordType.ClassWithMembersAndTypes =? RecordType.ClassWithMembersAndTypes)
      with true. cbn [orb].
    intros E1.
    apply bind_inv in E1 as ([] & s1 & H1 & E1). apply bind_inv in E1 as ([] & s2 & H2 & E1).
    apply bind_inv in E1 as ([] & s3 & H3 & E1).
    rewrite (bind_Ok _ _ _ _ _ H1), (bind_Ok _ _ _ _ _ H2), (bind_Ok _ _ _ _ _ H3).
    rewrite (bind_Ok _ _ _ _ _ E1). exact E2. }
  unfold bind. rewrite Hdispatch.
  assert (Hmark : exists e3, markWritten (stringClass id name library members) e2 = Ok (tt, e3)
                             /\ writer e3 = writer e2).
  { unfold markWritten, stringClass. cbn [objectId classInfo ci_objectId].
    destruct (id =? 0); eexists; split; reflexivity. }
  destruct Hmark as (e3 & -> & ->). cbn [writer].
  rewrite toBuffer_writeByte, B2, B1. subst start. cbn [writer default objectId stringClass
    classInfo ci_objectId].
  rewrite !toBuffer_writeInt32, toBuffer_writeByte. unfold headerBytes, stringClassBytes.
  cbn [newEncoder writer toBuffer chunks concat app]. rewrite <- !app_assoc.
  cbn [app]. rewrite <- !app_assoc. reflexivity.
Qed.
End EncodeStrings.

(** *** The reader's side *)

Lemma readsBytes_eq_bytes {A} (m : Dec A) bytes bytes' a :
  readsBytes m bytes a -> bytes = bytes' -> readsBytes m bytes' a.
Proof. by intros H <-. Qed.

Lemma readsBytes_readInt32 v :
  - 2 ^ 31 <= v < 2 ^ 31 -> readsBytes (onReader readInt32) (leBytes 4 v) v.
Proof. intros H done rest o rm lm mm. by apply readInt32_decoderAt. Qed.

Lemma readsBytes_string s :
  isPlainString s = true ->
  readsBytes (onReader readLengthPrefixedString) (stringBytes s) s.
Proof.
  intros H done rest o rm lm mm. apply isPlainString_spec in H as (Hwf & Hbom & Hlen).
  by apply readLengthPrefixedString_decoderAt_utf8.
Qed.

Lemma readsBytes_times {A} (m : Dec A) (bytes : A -> list Z) xs :
  (forall x, x ∈ xs -> readsBytes m (bytes x) x) ->
  readsBytes (times (Datatypes.length xs) m) (concat (map bytes xs)) xs.
Proof.
  induction xs as [ | x xs IH ]; intros H; cbn [Datatypes.length times map concat].
  - apply readsBytes_ret.
  - apply (readsBytes_bind m _ _ _ x); [ apply H; left | ].
    apply (readsBytes_map (times (Datatypes.length xs) m) (cons x)).
    apply IH. intros y Hy. apply H. by right.
Qed.

Lemma readsBytes_readClassInfo id name (memberNames : list string) :
  - 2 ^ 31 <= id < 2 ^ 31 ->
  isPlainString name = true ->
  Forall (fun memberName => isPlainString memberName = true) memberNames ->
  Z.of_nat (Datatypes.length memberNames) < 2 ^ 31 ->
  readsBytes readClassInfo
    (leBytes 4 id ++ stringBytes name ++ leBytes 4 (Z.of_nat (Datatypes.length memberNames))
     ++ concat (map stringBytes memberNames))
    (mkClassInfo id name (Z.of_nat (Datatypes.length memberNames)) memberNames).
Proof.
  intros Hid Hname Hnames Hcount. unfold readClassInfo.
  apply (readsBytes_bind _ _ _ _ id); [ by apply readsBytes_readInt32 | ].
  apply (readsBytes_bind _ _ _ _ name); [ by apply readsBytes_string | ].
  apply (readsBytes_bind _ _ _ _ (Z.of_nat (Datatypes.length memberNames)));
    [ apply readsBytes_readInt32; lia | ].
  rewrite Nat2Z.id.
  apply (readsBytes_map _ (mkClassInfo id name (Z.of_nat (Datatypes.length memberNames)))).
  apply readsBytes_times. intros memberName Hin. apply readsBytes_string.
  rewrite Forall_forall in Hnames. by apply Hnames.
Qed.

Lemma readsBytes_stringInfos n :
  readsBytes (mapM readAdditionalTypeInfo (replicate n BinaryType.String)) []
    (replicate n AtiNone).
Proof.
  induction n as [ | n IH ]; cbn [replicate mapM].
  - apply readsBytes_ret.
  - apply (readsBytes_bind _ _ [] [] AtiNone); [ apply readsBytes_ret | ].
    apply (readsBytes_map _ (cons AtiNone)). exact IH.
Qed.

Lemma readsBytes_stringTypes n :
  readsBytes (readMemberTypeInfo (Z.of_nat n)) (replicate n BinaryType.String)
    (mkMemberTypeInfo (replicate n BinaryType.String) (replicate n AtiNone)).
Proof.
  unfold readMemberTypeInfo. rewrite Nat2Z.id.
  eapply readsBytes_eq_bytes; [ | apply app_nil_r ].
  apply (readsBytes_bind _ _ _ _ (replicate n BinaryType.String)).
  - pose proof (readsBytes_times (onReader readByte) (fun b => [b])
                  (replicate n BinaryType.String)) as H.
    rewrite length_replicate, (concat_map_singleton BinaryType.String (fun b => b)) in H.
    apply H. intros b _. apply readsBytes_readByte.
  - apply (readsBytes_map _ (mkMemberTypeInfo (replicate n BinaryType.String))).
    apply readsBytes_stringInfos.
Qed.

Lemma forEach_ext {S A} (body body' : A -> M S unit) l :
  (forall x s, x ∈ l -> body x s = body' x s) ->
  forall s, forEach body l s = forEach body' l s.
Proof.
  induction l as [ | x l IH ]; intros H s; cbn [forEach]; [ reflexivity | ].
  unfold bind. rewrite (H x s) by left. destruct (body' x s) as [[[] s'] | ]; [ | reflexivity ].
  apply IH. intros y s'' Hy. apply H. by right.
Qed.

Section DecodeStrings.
Variable decodeNext : Dec NrbfRecord.

(** With every member of the binary type String, [readMemberValues]
    takes each member from [decodeNext]. *)
Lemma readMemberValues_strings record (memberNames : list string) n d :
  (Datatypes.length memberNames <= n)%nat ->
  readMemberValues decodeNext record memberNames
    (mkMemberTypeInfo (replicate n BinaryType.String) (replicate n AtiNone)) d
  = readUntypedMemberValues decodeNext record memberNames d.
Proof.
  unfold readMemberValues, readUntypedMemberValues. cbn [binaryTypeEnums additionalInfos].
  change (imap pair memberNames) with (imap (fun i => pair (0 + i)%nat) memberNames).
  assert (H : forall k d,
             (k + Datatypes.length memberNames <= n)%nat ->
             forEach (fun '(i, memberName) =>
                        value <- readObjectValue decodeNext
                                   (replicate n BinaryType.String !! i)
                                   (replicate n AtiNone !! i) ;;
                        memberValues_set record memberName value)
                     (imap (fun i => pair (k + i)%nat) memberNames) d
             = forEach (fun memberName =>
                          value <- decodeNext ;;
                          memberValues_set record memberName (VRecord value))
                       memberNames d); [ | intros Hn; by apply H ].
  clear d. induction memberNames as [ | memberName memberNames IH ]; intros k d Hk;
    [ reflexivity | ].
  cbn [imap forEach Datatypes.length] in Hk |- *. rewrite Nat.add_0_r.
  rewrite !lookup_replicate_2 by lia. unfold BinaryType.String. cbn [readObjectValue].
  unfold bind, ret. destruct (decodeNext d) as [[value d1] | ]; [ | reflexivity ].
  destruct (memberValues_set record memberName (VRecord value) d1)
    as [[[] d2] | ]; [ | reflexivity ].
  etransitivity; [ | apply (IH (S k) d2); lia ].
  f_equal. apply imap_ext. intros i x _. cbn. f_equal. lia.
Qed.
End DecodeStrings.

Lemma Map_set_fresh {V} key (value : V) m :
  key ∉ m.*1 -> Map_set key value m = m ++ [(key, value)].
Proof.
  induction m as [ | [k v] m IH ]; intros H; cbn [Map_set app]; [ reflexivity | ].
  cbn [fmap list_fmap fst] in H. apply not_elem_of_cons in H as [Hk H].
  destruct (String.eqb_spec k key) as [ E | _ ]; [ by subst | ].
  fold (@Map_set V key value). by rewrite IH.
Qed.

Lemma foldl_Map_set_stringMembers (members : list (string * (Z * string))) :
  forall acc : list (string * ObjectValue),
    NoDup (acc.*1 ++ members.*1) ->
    foldl (fun values m => Map_set m.1 (stringMember m).2 values) acc members
    = acc ++ map stringMember members.
Proof.
  induction members as [ | m members IH ]; intros acc Hnd; cbn [foldl map].
  - by rewrite app_nil_r.
  - cbn [fmap list_fmap] in Hnd. rewrite Map_set_fresh.
    + rewrite IH; [ by rewrite <- app_assoc | ].
      rewrite fmap_app, <- app_assoc. exact Hnd.
    + apply NoDup_app in Hnd as (_ & Hnd & _). intros Hin. apply (Hnd _ Hin). left.
Qed.

(** The members of a class of strings, read into the class record at
    [ref] of the store: the record gains the members in order, and the
    record table changes at the members' object ids only. *)
Lemma read_stringMembers fuel ref (members : list (string * (Z * string))) :
  forall done rest o rm lm mm c,
    Forall (fun m => plainMember m = true) members ->
    o !! ref = Some (OfClassRecord c) ->
    exists o' rm',
      readUntypedMemberValues (decodeNext (S fuel)) ref (members.*1)
        (decoderAt done (concat (map memberBytes members) ++ rest) o rm lm mm)
      = Ok (tt, decoderAt (done ++ concat (map memberBytes members)) rest o' rm' lm mm)
      /\ o' !! ref
         = Some (OfClassRecord
                   (mkClassRecord (classInfo c) (memberTypeInfo c) (libraryId c)
                      (recordTypeValue c)
                      (foldl (fun values m => Map_set m.1 (stringMember m).2 values)
                             (memberValues c) members)))
      /\ (forall id, id ∉ (members.*2).*1 -> rm' !! id = rm !! id).
Proof.
  unfold readUntypedMemberValues.
  induction members as [ | m members IH ]; intros done rest o rm lm mm c Hplain Href.
  - exists o, rm. cbn [fmap list_fmap forEach map concat app foldl]. rewrite app_nil_r.
    split; [ reflexivity | ]. split; [ | reflexivity ]. rewrite Href. by destruct c.
  - apply Forall_cons in Hplain as [Hm Hplain].
    apply plainMember_spec in Hm as (_ & Hid & Htext).
    apply isPlainString_spec in Htext as (Hwf & Hbom & Hlen).
    pose proof (lookup_lt_Some _ _ _ Href) as Hlt.
    cbn [fmap list_fmap forEach map concat foldl].
    set (text := BinaryObjectStringRecord m.2.1 m.2.2).
    set (c1 := mkClassRecord (classInfo c) (memberTypeInfo c) (libraryId c) (recordTypeValue c)
                 (Map_set m.1 (VRecord text) (memberValues c))).
    destruct (IH (done ++ memberBytes m) rest
                (<[ref := OfClassRecord c1]> (o ++ [text]))
                (<[m.2.1 := Datatypes.length o]> rm) lm mm c1 Hplain)
      as (o' & rm' & E & Ho' & Hrm').
    { apply list_lookup_insert_eq. rewrite length_app. lia. }
    exists o', rm'. split; [ | split ].
    + rewrite <- (app_assoc (memberBytes m)). unfold memberBytes at 1.
      unfold RecordType.BinaryObjectString. cbn [app].
      unfold bind at 1. unfold bind at 1.
      rewrite decodeNext_BinaryObjectString.
      rewrite <- (app_assoc (leBytes 4 m.2.1)).
      rewrite (decodeBinaryObjectString_utf8 _ _ _ _ o rm lm mm Hid Hwf Hbom Hlen).
      unfold memberValues_set at 1, modify, decoderAt at 1.
      cbn [objects reader recordMap libraryMap metadataMap].
      rewrite lookup_app_l, Href by exact Hlt.
      fold text. fold c1.
      replace ((done ++ [6]) ++ leBytes 4 m.2.1 ++ stringBytes m.2.2)
        with (done ++ memberBytes m)
        by (unfold memberBytes, RecordType.BinaryObjectString; by rewrite <- !app_assoc).
      rewrite (app_assoc done). exact E.
    + rewrite Ho'. reflexivity.
    + intros id Hid'. cbn [fmap list_fmap] in Hid'. apply not_elem_of_cons in Hid' as [Hne Hid'].
      rewrite Hrm' by exact Hid'. by apply lookup_insert_ne.
Qed.

Lemma getRecord_reader_irrelevant id d1 d2 :
  objects d1 = objects d2 -> recordMap d1 = recordMap d2 -> getRecord id d1 = getRecord id d2.
Proof. unfold getRecord. by intros -> ->. Qed.

Lemma decodeNext_ClassWithMembersAndTypes fuel done rest o rm lm mm :
  decodeNext (S fuel) (decoderAt done (5 :: rest) o rm lm mm)
  = decodeClassWithMembersAndTypes (decodeNext fuel) (decoderAt (done ++ [5]) rest o rm lm mm).
Proof. rewrite decodeNext_lead. reflexivity. Qed.

(** One [decodeNext] reads a class of strings from its wire form, and
    leaves it in the record table under its object id. *)
Lemma decodeNext_stringClass fuel id name library members done rest :
  - 2 ^ 31 <= id < 2 ^ 31 ->
  - 2 ^ 31 <= library < 2 ^ 31 ->
  isPlainString name = true ->
  Forall (fun m => plainMember m = true) members ->
  NoDup (members.*1) ->
  id ∉ (members.*2).*1 ->
  Z.of_nat (Datatypes.length members) < 2 ^ 31 ->
  exists d',
    decodeNext (S (S fuel))
      (decoderAt done (stringClassBytes id name library members ++ rest) [] ∅ ∅ ∅)
    = Ok (stringClass id name library members, d')
    /\ reader d'
       = mkReader (done ++ stringClassBytes id name library members ++ rest)
           (Datatypes.length (done ++ stringClassBytes id name library members))
    /\ getRecord id d' = Some (stringClass id name library members).
Proof.
  intros Hid Hlibrary Hname Hplain Hnames Hfresh Hcount.
  assert (Hinfo := readsBytes_readClassInfo id name (members.*1) Hid Hname).
  rewrite length_fmap in Hinfo.
  assert (Hnames' : Forall (fun memberName => isPlainString memberName = true) (members.*1)).
  { apply Forall_fmap. eapply Forall_impl; [ exact Hplain | ].
    intros m Hm. apply plainMember_spec in Hm. cbn. tauto. }
  specialize (Hinfo Hnames' Hcount).
  unfold stringClassBytes.
  set (info := leBytes 4 id ++ stringBytes name
               ++ leBytes 4 (Z.of_nat (Datatypes.length members))
               ++ concat (map stringBytes (members.*1))) in *.
  set (values := concat (map memberBytes members)).
  set (ci := mkClassInfo id name (Z.of_nat (Datatypes.length members)) (members.*1)) in *.
  set (typeInfo := mkMemberTypeInfo (replicate (Datatypes.length members) BinaryType.String)
                     (replicate (Datatypes.length members) AtiNone)).
  set (empty := OfClassRecord (mkClassRecord ci (Some typeInfo) (Some library)
                                 RecordType.ClassWithMembersAndTypes [])).
  unfold RecordType.ClassWithMembersAndTypes at 1 2. cbn [app]. rewrite <- !app_assoc.
  rewrite decodeNext_ClassWithMembersAndTypes. unfold decodeClassWithMembersAndTypes.
  rewrite (bind_Ok _ _ _ _ _ (Hinfo _ _ _ _ _ _)). subst ci. cbn [memberCount].
  set (ci := mkClassInfo id name (Z.of_nat (Datatypes.length members)) (members.*1)).
  rewrite (bind_Ok _ _ _ _ _ (readsBytes_stringTypes _ _ _ _ _ _ _)).
  rewrite (bind_Ok _ _ _ _ _ (readsBytes_readInt32 library Hlibrary _ _ _ _ _ _)).
  fold typeInfo. fold empty.
  set (done' := ((done ++ [5]) ++ info) ++ replicate (Datatypes.length members) BinaryType.String).
  set (metadata := mkMetadata ci (Some typeInfo) (Some library)).
  destruct (read_stringMembers fuel 0 members (done' ++ leBytes 4 library) rest [empty]
              (<[id := 0%nat]> ∅) ∅ (<[id := metadata]> ∅) _ Hplain eq_refl)
    as (o' & rm' & E & Ho' & Hrm').
  fold values in E. cbn [classInfo memberTypeInfo libraryId recordTypeValue memberValues]
    in Ho'.
  rewrite (foldl_Map_set_stringMembers members []) in Ho' by exact Hnames.
  cbn [app] in Ho'. fold (stringClass id name library members) in Ho'.
  eexists. split; [ | split ].
  - unfold bind at 1, new at 1. unfold bind at 1, metadataMap_set at 1, modify at 1.
    unfold bind at 1, recordMap_set at 1, modify at 1.
    match goal with
    | |- _ = ?rhs =>
        change (bind (readMemberValues (decodeNext (S fuel)) 0 (members.*1) typeInfo)
                  (fun _ => deref 0%nat)
                  (decoderAt (done' ++ leBytes 4 library) (values ++ rest) [empty]
                     (<[id := 0%nat]> ∅) ∅ (<[id := metadata]> ∅))
                = rhs)
    end.
    unfold bind at 1. subst typeInfo.
    rewrite readMemberValues_strings by (rewrite length_fmap; lia).
    rewrite E.
    unfold deref, decoderAt. cbn [objects]. rewrite Ho'. reflexivity.
  - cbn [reader]. subst done'. unfold RecordType.ClassWithMembersAndTypes.
    rewrite !length_app. f_equal; [ by rewrite <- !app_assoc | ].
    cbn [Datatypes.length app]. rewrite !length_app. fold info values. lia.
  - unfold getRecord. cbn [recordMap objects]. rewrite Hrm' by exact Hfresh.
    rewrite lookup_insert_eq. cbn. exact Ho'.
Qed.

(** X24. A class record with members and types whose members are all
    string records survives [encode] and [decode]: with Int32 object and
    library ids, names and texts that the reader returns unchanged,
    member names that differ from each other and object ids that differ
    from each other and from the class's, [encode] returns a stream and
    [decode] of that stream returns the class record, members in order. *)
Theorem string_class_roundtrip (fuel : nat) coerceWrite (id : Z) (name : string)
    (library : Z) (members : list (string * (Z * string))) :
  - 2 ^ 31 <= id < 2 ^ 31 ->
  - 2 ^ 31 <= library < 2 ^ 31 ->
  isPlainString name = true ->
  Forall (fun m => plainMember m = true) members ->
  NoDup (members.*1) ->
  NoDup (id :: (members.*2).*1) ->
  Z.of_nat (Datatypes.length members) < 2 ^ 31 ->
  exists stream,
    encode coerceWrite (stringClass id name library members) None = Ok stream
    /\ decode (S (S fuel)) stream = Ok (stringClass id name library members).
Proof.
  intros Hid Hlibrary Hname Hplain Hnames Hids Hcount.
  apply NoDup_cons in Hids as [Hfresh Hids].
  eexists. split; [ by apply encode_stringClass | ].
  unfold decode. rewrite decode_run_header by exact Hid. rewrite budget_unfold.
  destruct (decodeNext_stringClass fuel id name library members (headerBytes id)
              [RecordType.MessageEnd] Hid Hlibrary Hname Hplain Hnames Hfresh Hcount)
    as (d' & E & Hreader & Hroot).
  destruct d' as [r' o' rm' lm' mm']. cbn [reader] in Hreader. subst r'.
  rewrite app_assoc in E.
  fold (decoderAt (headerBytes id ++ stringClassBytes id name library members)
          [RecordType.MessageEnd] o' rm' lm' mm') in E.
  erewrite bind_Ok; [ | ].
  2: { erewrite decode_loop_step; [ | exact E ].
       change (100000 <? 0 + 1) with false. cbv iota. cbn [isMessageEnd stringClass].
       erewrite decode_loop_step; [ | apply decodeNext_MessageEnd ].
       reflexivity. }
  unfold bind, gets.
  erewrite getRecord_reader_irrelevant; [ rewrite Hroot; reflexivity | reflexivity .. ].
Qed.

Lemma string_class_roundtrip_witness :
  Forall (fun m => plainMember m = true) sampleMembers
  /\ NoDup (1 :: (sampleMembers.*2).*1)
  /\ exists stream,
       encode noCoercion (stringClass 1 "Person" 7 sampleMembers) None = Ok stream
       /\ decode 2 stream = Ok (stringClass 1 "Person" 7 sampleMembers).
Proof.
  assert (Hplain : Forall (fun m => plainMember m = true) sampleMembers)
    by (repeat constructor).
  assert (Hids : NoDup (1 :: (sampleMembers.*2).*1))
    by (apply (bool_decide_unpack _); vm_compute; exact I).
  split; [ exact Hplain | ]. split; [ exact Hids | ].
  apply (string_class_roundtrip 0 noCoercion 1 "Person" 7 sampleMembers);
    [ lia | lia | reflexivity | exact Hplain
    | apply (bool_decide_unpack _); vm_compute; exact I
    | exact Hids | simpl; lia ].
Defined.

(** ** Null elements of an array of primitives *)

Lemma forEach_writePrimitiveValue_nulls coerceWrite type values :
  forall e,
    forEach (fun element => writePrimitiveValue coerceWrite element type) values e
    = forEach (fun element => writePrimitiveValue coerceWrite element type)
        (List.filter (fun element => negb (isNull element)) values) e.
Proof.
  induction values as [ | v values IH ]; intros e; [ reflexivity | ].
  cbn [List.filter forEach]. destruct v; cbn [isNull negb forEach];
    try (unfold bind;
         match goal with |- match ?m with _ => _ end = _ => destruct m as [[[] e1] | ] end;
         [ apply IH | reflexivity ]).
  apply IH.
Qed.

(** X25. A null among the elements of an array of primitives never
    reaches the stream: [writePrimitiveValue] returns at once for it, so
    [encode] gives for the array what it gives for the array without its
    nulls, under the same [length] field. *)
Theorem encode_primitive_array_skips_nulls coerceWrite (id length type : Z)
    (values : list ObjectValue) (rootId : option Z) :
  encode coerceWrite (ArraySinglePrimitiveRecord id length type values) rootId
  = encode coerceWrite
      (ArraySinglePrimitiveRecord id length type
         (List.filter (fun element => negb (isNull element)) values)) rootId.
Proof.
  assert (H : forall e,
             encodeRecord coerceWrite (ArraySinglePrimitiveRecord id length type values) e
             = encodeRecord coerceWrite
                 (ArraySinglePrimitiveRecord id length type
                    (List.filter (fun element => negb (isNull element)) values)) e).
  { intros e. rewrite !encodeRecord_unfold. unfold encodeRecord_body.
    cbn [encodeRecord_dispatch]. unfold encodeArraySinglePrimitive, alreadyWritten.
    cbn [objectId]. cbv [bind gets onWriter modify].
    destruct (negb (id =? 0) && bool_decide (id ∈ writtenRecords e)); [ reflexivity | ].
    rewrite forEach_writePrimitiveValue_nulls. reflexivity. }
  unfold encode. cbn [objectId]. cbv [bind onWriter modify]. rewrite H. reflexivity.
Qed.

(** ** The record table is written, never read, while records are decoded *)

Lemma withRecordMap_own d : withRecordMap (recordMap d) d = d.
Proof. by destruct d. Qed.

Lemma oblivious_pure {A} (m : Dec A) :
  (forall table d,
     m (withRecordMap table d)
     = match m d with
       | Ok (a, d') => Ok (a, withRecordMap table d')
       | Err e => Err e
       end) ->
  oblivious m.
Proof.
  intros H d. destruct (m d) as [[a d'] | e] eqn:E.
  - exists ∅. intros table. rewrite H, E. by rewrite (left_id_L ∅ (∪)).
  - intros table. by rewrite H, E.
Qed.

Lemma oblivious_ret {A} (a : A) : oblivious (ret a).
Proof. by apply oblivious_pure. Qed.

Lemma oblivious_throw {A} e : oblivious (@throw _ A e).
Proof. by apply oblivious_pure. Qed.

Lemma oblivious_gets {A} (f : NrbfDecoder -> A) :
  (forall table d, f (withRecordMap table d) = f d) -> oblivious (gets f).
Proof. intros H. apply oblivious_pure. intros table d. unfold gets. by rewrite H. Qed.

Lemma oblivious_onReader {A} (m : Rd A) : oblivious (onReader m).
Proof.
  apply oblivious_pure. intros table d. unfold onReader. cbn [withRecordMap reader].
  by destruct (m (reader d)) as [[a r] | ].
Qed.

Lemma oblivious_new record : oblivious (new record).
Proof. by apply oblivious_pure. Qed.

Lemma oblivious_deref ref : oblivious (deref ref).
Proof.
  apply oblivious_pure. intros table d. unfold deref. cbn [withRecordMap objects].
  by destruct (objects d !! ref).
Qed.

Lemma oblivious_libraryMap_set id name : oblivious (libraryMap_set id name).
Proof. by apply oblivious_pure. Qed.

Lemma oblivious_metadataMap_set id metadata : oblivious (metadataMap_set id metadata).
Proof. by apply oblivious_pure. Qed.

Lemma oblivious_memberValues_set ref name value : oblivious (memberValues_set ref name value).
Proof.
  apply oblivious_pure. intros table d. unfold memberValues_set, modify.
  cbn [withRecordMap objects].
  by destruct (objects d !! ref) as [ [ | | c | | | | | | | | | | | ] | ].
Qed.

(** [recordMap.set] goes over the entry that the id had. *)
Lemma oblivious_recordMap_set id ref : oblivious (recordMap_set id ref).
Proof.
  intros d. exists {[ id := ref ]}. intros table. unfold recordMap_set, modify, withRecordMap.
  cbn [reader objects recordMap libraryMap metadataMap].
  by rewrite insert_union_singleton_l.
Qed.

Lemma oblivious_bind {A B} (m : Dec A) (k : A -> Dec B) :
  oblivious m -> (forall a, oblivious (k a)) -> oblivious (bind m k).
Proof.
  intros Hm Hk d. specialize (Hm d). unfold bind at 1.
  destruct (m d) as [[a d1] | e].
  - destruct Hm as [entered1 H1]. specialize (Hk a d1).
    destruct (k a d1) as [[b d2] | e].
    + destruct Hk as [entered2 H2]. exists (entered2 ∪ entered1). intros table.
      unfold bind. rewrite H1, H2. by rewrite (assoc_L (∪)).
    + intros table. unfold bind. rewrite H1. apply Hk.
  - intros table. unfold bind. by rewrite Hm.
Qed.

Lemma oblivious_forEach {A} (body : A -> Dec unit) l :
  (forall x, oblivious (body x)) -> oblivious (forEach body l).
Proof.
  intros H. induction l as [ | x l IH ]; cbn [forEach]; [ apply oblivious_ret | ].
  apply oblivious_bind; [ apply H | intros _; exact IH ].
Qed.

Lemma oblivious_times {A} n (m : Dec A) : oblivious m -> oblivious (times n m).
Proof.
  intros Hm. induction n as [ | n IH ]; cbn [times]; [ apply oblivious_ret | ].
  apply oblivious_bind; [ exact Hm | intros x ].
  apply oblivious_bind; [ exact IH | intros xs; apply oblivious_ret ].
Qed.

Lemma oblivious_mapM {A B} (body : A -> Dec B) l :
  (forall x, oblivious (body x)) -> oblivious (mapM body l).
Proof.
  intros H. induction l as [ | x l IH ]; cbn [mapM]; [ apply oblivious_ret | ].
  apply oblivious_bind; [ apply H | intros y ].
  apply oblivious_bind; [ exact IH | intros ys; apply oblivious_ret ].
Qed.

Create HintDb oblivious.
#[local] Hint Resolve oblivious_ret oblivious_throw oblivious_onReader oblivious_new
  oblivious_deref oblivious_libraryMap_set oblivious_metadataMap_set
  oblivious_memberValues_set oblivious_recordMap_set : oblivious.

Ltac oblivious_tac :=
  repeat first
    [ solve [ auto with oblivious ]
    | match goal with
      | |- oblivious (gets _) => apply oblivious_gets; reflexivity
      | |- oblivious (if ?c then _ else _) => destruct c
      | |- oblivious (match ?x with _ => _ end) => destruct x
      | |- oblivious (times _ _) => apply oblivious_times
      | |- oblivious (mapM _ _) => apply oblivious_mapM; intros ?
      | |- oblivious (forEach _ _) => apply oblivious_forEach; intros ?
      | |- oblivious (bind _ _) => apply oblivious_bind; [ | intros ? ]
      end ].

Lemma oblivious_readAdditionalTypeInfo binaryType :
  oblivious (readAdditionalTypeInfo binaryType).
Proof. unfold readAdditionalTypeInfo. oblivious_tac. Qed.

Lemma oblivious_readClassInfo : oblivious readClassInfo.
Proof. unfold readClassInfo. oblivious_tac. Qed.

Lemma oblivious_readMemberTypeInfo memberCount : oblivious (readMemberTypeInfo memberCount).
Proof. unfold readMemberTypeInfo. oblivious_tac. apply oblivious_readAdditionalTypeInfo. Qed.

Lemma oblivious_readPrimitiveValue primitiveType : oblivious (readPrimitiveValue primitiveType).
Proof. unfold readPrimitiveValue. oblivious_tac. Qed.

#[local] Hint Resolve oblivious_readAdditionalTypeInfo oblivious_readClassInfo
  oblivious_readMemberTypeInfo oblivious_readPrimitiveValue : oblivious.

Section ObliviousDecode.
Variable decodeNext : Dec NrbfRecord.
Variable rounds : nat.
Hypothesis oblivious_decodeNext : oblivious decodeNext.

Lemma oblivious_readObjectValue binaryType additionalInfo :
  oblivious (readObjectValue decodeNext binaryType additionalInfo).
Proof.
  unfold readObjectValue.
  destruct binaryType as [ [ | | ] | ]; try destruct additionalInfo as [ [ | | | ] | ];
    oblivious_tac.
Qed.

Lemma oblivious_readMemberValues record memberNames memberTypeInfo :
  oblivious (readMemberValues decodeNext record memberNames memberTypeInfo).
Proof.
  unfold readMemberValues. apply oblivious_forEach. intros [i memberName].
  apply oblivious_bind; [ apply oblivious_readObjectValue | intros value; oblivious_tac ].
Qed.

Lemma oblivious_readUntypedMemberValues record memberNames :
  oblivious (readUntypedMemberValues decodeNext record memberNames).
Proof. unfold readUntypedMemberValues. oblivious_tac. Qed.

Lemma oblivious_readAllElements_loop n : forall count binaryType additionalInfo i elements,
  oblivious (readAllElements_loop decodeNext n count binaryType additionalInfo i elements).
Proof.
  induction n as [ | n IH ]; intros count binaryType additionalInfo i elements;
    cbn [readAllElements_loop].
  - destruct (i <? count); oblivious_tac.
  - destruct (i <? count); [ | oblivious_tac ].
    apply oblivious_bind; [ apply oblivious_readObjectValue | intros val ].
    destruct val as [ | | | | | [ | | | | | | | | | | | | | ] ]; apply IH.
Qed.

Lemma oblivious_readAllElements count binaryType additionalInfo :
  oblivious (readAllElements decodeNext rounds count binaryType additionalInfo).
Proof. apply oblivious_readAllElements_loop. Qed.

#[local] Hint Resolve oblivious_readMemberValues oblivious_readUntypedMemberValues
  oblivious_readAllElements : oblivious.

Lemma oblivious_decodeNext_body : oblivious (decodeNext_body decodeNext rounds).
Proof.
  unfold decodeNext_body, getPosition. unfold_decoders. oblivious_tac.
Qed.
End ObliviousDecode.

Lemma oblivious_decodeNext fuel : oblivious (decodeNext fuel).
Proof.
  induction fuel as [ | fuel IH ]; cbn [decodeNext]; [ apply oblivious_throw | ].
  by apply oblivious_decodeNext_body.
Qed.

(** What a step that never looks into the table leaves in it: its own
    entries over the ones that were there. *)
Lemma oblivious_dom {A} (m : Dec A) d a d' :
  oblivious m -> m d = Ok (a, d') -> dom (recordMap d) ⊆ dom (recordMap d').
Proof.
  intros Hm E. specialize (Hm d). rewrite E in Hm. destruct Hm as [entered H].
  specialize (H (recordMap d)). rewrite withRecordMap_own, E in H.
  injection H as H. rewrite H. cbn [withRecordMap recordMap]. set_solver.
Qed.

(** ** What [decodeNext] returns is in the record table *)

Lemma tableId_objectId record id : tableId record = Some id -> objectId record = Some id.
Proof. by destruct record. Qed.

(** A fresh record, entered and returned at once. *)
Lemma register_enters record id (d : NrbfDecoder) result d' :
  (ref <- new record ;; recordMap_set id ref ;;; deref ref) d = Ok (result, d') ->
  result = record /\ id ∈ dom (recordMap d').
Proof.
  intros H. apply bind_inv in H as (ref & d1 & H1 & H). injection H1 as <- <-.
  apply bind_inv in H as ([] & d2 & H2 & H). injection H2 as <-.
  unfold deref in H. cbn [objects] in H.
  rewrite lookup_app_r, Nat.sub_diag in H by lia. cbn in H. injection H as <- <-.
  split; [ reflexivity | ]. cbn [recordMap]. set_solver.
Qed.

(** A fresh class record, entered before its members are read and
    returned after. *)
Lemma register_members_enters record id (members : nat -> Dec unit) (d : NrbfDecoder)
    result d' :
  objectId record = Some id ->
  (forall ref, oblivious (members ref)) ->
  (forall ref, tracks (members ref)) ->
  (ref <- new record ;; recordMap_set id ref ;;; members ref ;;; deref ref) d
  = Ok (result, d') ->
  objectId result = Some id /\ id ∈ dom (recordMap d').
Proof.
  intros Hid Hoblivious Htracks H.
  apply bind_inv in H as (ref & d1 & H1 & H). injection H1 as <- <-.
  apply bind_inv in H as ([] & d2 & H2 & H). injection H2 as <-.
  apply bind_inv in H as ([] & d3 & Hmembers & H).
  unfold deref in H. destruct (objects d3 !! Datatypes.length (objects d)) as [ r | ] eqn:E;
    [ | discriminate ].
  injection H as <- <-.
  pose proof (oblivious_dom _ _ _ _ (Hoblivious _) Hmembers) as Hdom.
  destruct (Htracks _ _ _ _ Hmembers) as (_ & Hids & _). cbn [recordMap objects] in *.
  destruct (Hids (Datatypes.length (objects d)) record) as (r' & Hr' & Hsame).
  { rewrite lookup_app_r, Nat.sub_diag by lia. reflexivity. }
  rewrite E in Hr'. injection Hr' as <-.
  split; [ congruence | ]. apply Hdom. set_solver.
Qed.

Ltac strip H := apply bind_inv in H as (? & ? & _ & H).

Ltac class_case H Hclass :=
  match type of H with
  | bind (recordMap_set _ _)
      (fun _ => bind (readMemberValues ?dn _ ?names ?types) _)
      (mkDecoder ?r (?o ++ [OfClassRecord ?c]) ?rm ?lm ?mm) = _ =>
      apply (Hclass c (fun ref => readMemberValues dn ref names types)
               (mkDecoder r o rm lm mm));
      [ intros; by apply oblivious_readMemberValues
      | intros; by apply tracks_readMemberValues
      | exact H ]
  | bind (recordMap_set _ _)
      (fun _ => bind (readUntypedMemberValues ?dn _ ?names) _)
      (mkDecoder ?r (?o ++ [OfClassRecord ?c]) ?rm ?lm ?mm) = _ =>
      apply (Hclass c (fun ref => readUntypedMemberValues dn ref names)
               (mkDecoder r o rm lm mm));
      [ intros; by apply oblivious_readUntypedMemberValues
      | intros; by apply tracks_readUntypedMemberValues
      | exact H ]
  end.

Lemma decodeNext_enters fuel d record d' id :
  decodeNext fuel d = Ok (record, d') -> tableId record = Some id ->
  id ∈ dom (recordMap d').
Proof.
  destruct fuel as [ | fuel ]; [ discriminate | ].
  cbn [decodeNext]. unfold decodeNext_body. intros H Hid.
  strip H. strip H.
  pose proof (oblivious_decodeNext fuel) as Ho. pose proof (tracks_decodeNext fuel) as Ht.
  assert (Hclass : forall (c : ClassRecord) (members : nat -> Dec unit) (d0 : NrbfDecoder),
            (forall ref, oblivious (members ref)) -> (forall ref, tracks (members ref)) ->
            (ref <- new (OfClassRecord c) ;; recordMap_set (ci_objectId (classInfo c)) ref ;;;
             members ref ;;; deref ref) d0 = Ok (record, d') ->
            id ∈ dom (recordMap d')).
  { intros c members d0 Hom Htm H'.
    destruct (register_members_enters (OfClassRecord c) _ members d0 record d' eq_refl Hom Htm H')
      as [Hrecord Hdom].
    apply tableId_objectId in Hid. congruence. }
  assert (Hleaf : forall (r : NrbfRecord) (i : Z) (d0 : NrbfDecoder),
            objectId r = Some i ->
            (ref <- new r ;; recordMap_set i ref ;;; deref ref) d0 = Ok (record, d') ->
            id ∈ dom (recordMap d')).
  { intros r i d0 Hi H'. apply register_enters in H' as [-> Hdom].
    apply tableId_objectId in Hid. congruence. }
  repeat match type of H with
         | (if ?c then _ else _) _ = _ => destruct c
         end;
    try discriminate.
  - unfold decodeSerializationHeader in H. do 4 strip H. injection H as <- _. discriminate.
  - unfold decodeBinaryLibrary in H. do 3 strip H. injection H as <- _. discriminate.
  - unfold decodeClassWithMembersAndTypes in H. do 3 strip H.
    apply bind_inv in H as (ref & d1 & H1 & H). injection H1 as <- <-.
    apply bind_inv in H as ([] & d2 & H2 & H). injection H2 as <-. class_case H Hclass.
  - unfold decodeSystemClassWithMembersAndTypes in H. do 2 strip H.
    apply bind_inv in H as (ref & d1 & H1 & H). injection H1 as <- <-.
    apply bind_inv in H as ([] & d2 & H2 & H). injection H2 as <-. class_case H Hclass.
  - unfold decodeSystemClassWithMembers in H. strip H.
    apply bind_inv in H as (ref & d1 & H1 & H). injection H1 as <- <-.
    apply bind_inv in H as ([] & d2 & H2 & H). injection H2 as <-. class_case H Hclass.
  - unfold decodeClassWithMembers in H. do 2 strip H.
    apply bind_inv in H as (ref & d1 & H1 & H). injection H1 as <- <-.
    apply bind_inv in H as ([] & d2 & H2 & H). injection H2 as <-. class_case H Hclass.
  - unfold decodeClassWithId in H. do 2 strip H.
    apply bind_inv in H as (found & d1 & _ & H).
    destruct found as [ metadata | ]; [ | discriminate ]. cbv zeta in H.
    destruct (md_memberTypeInfo metadata) as [ memberTypeInfo | ];
      match type of H with
      | bind (new (OfClassRecord ?c)) _ ?d0 = _ =>
          first
            [ apply (Hclass c (fun ref => readMemberValues (decodeNext fuel) ref
                                            (memberNames (classInfo c)) memberTypeInfo) d0)
            | apply (Hclass c (fun ref => readUntypedMemberValues (decodeNext fuel) ref
                                            (memberNames (classInfo c))) d0) ];
          [ intros; first [ by apply oblivious_readMemberValues
                          | by apply oblivious_readUntypedMemberValues ]
          | intros; first [ by apply tracks_readMemberValues
                          | by apply tracks_readUntypedMemberValues ]
          | exact H ]
      end.
  - unfold decodeBinaryObjectString in H. do 2 strip H.
    eapply Hleaf; [ | exact H ]; reflexivity.
  - unfold decodeBinaryArray in H. do 7 strip H. cbv zeta in H. strip H.
    eapply Hleaf; [ | exact H ]; reflexivity.
  - unfold decodeArraySinglePrimitive in H. do 4 strip H.
    eapply Hleaf; [ | exact H ]; reflexivity.
  - unfold decodeArraySingleObject in H. do 3 strip H.
    eapply Hleaf; [ | exact H ]; reflexivity.
  - unfold decodeArraySingleString in H. do 3 strip H.
    eapply Hleaf; [ | exact H ]; reflexivity.
  - unfold decodeMemberPrimitiveTyped in H. do 2 strip H. injection H as <- _. discriminate.
  - unfold decodeMemberReference in H. strip H. injection H as <- _. discriminate.
  - injection H as <- _. discriminate.
  - unfold decodeObjectNullMultiple in H. strip H. injection H as <- _. discriminate.
  - unfold decodeObjectNullMultiple256 in H. strip H. injection H as <- _. discriminate.
  - injection H as <- _. discriminate.
Qed.

(** C3, as the code has it. [decode] has no check for duplicate object
    ids.  (1) No decoder method looks into the record table: whatever
    the table holds, the id about to be claimed included, [decodeNext]
    returns the same record and leaves the same state, or throws the
    same error; and when the record it returns is a string, a class
    record or an array, its id is among the entries made, which go over
    the entries the table had ([recordMap.set]).  (2) For example, a
    stream whose two string records both carry the root id decodes to
    the second one. *)
Theorem decode_duplicate_objectId :
  (forall fuel d,
     match decodeNext fuel d with
     | Ok (record, d') =>
         exists entered : gmap Z nat,
           (forall table,
              decodeNext fuel (withRecordMap table d)
              = Ok (record, withRecordMap (entered ∪ table) d'))
           /\ (forall id, tableId record = Some id ->
                 exists ref, entered !! id = Some ref
                             /\ forall table, (entered ∪ table) !! id = Some ref)
     | Err e => forall table, decodeNext fuel (withRecordMap table d) = Err e
     end)
  /\ (forall fuel id s1 s2,
        - 2 ^ 31 <= id < 2 ^ 31 ->
        isAsciiString s1 = true -> Z.of_nat (Datatypes.length (bytesOfString s1)) < 2 ^ 31 ->
        isAsciiString s2 = true -> Z.of_nat (Datatypes.length (bytesOfString s2)) < 2 ^ 31 ->
        decode (S fuel)
          (headerBytes id
           ++ [RecordType.BinaryObjectString] ++ leBytes 4 id ++ stringBytes s1
           ++ [RecordType.BinaryObjectString] ++ leBytes 4 id ++ stringBytes s2
           ++ [RecordType.MessageEnd])
        = Ok (BinaryObjectStringRecord id s2)).
Proof.
  split; [ | exact decode_two_strings ].
  intros fuel d. pose proof (oblivious_decodeNext fuel d) as H.
  destruct (decodeNext fuel d) as [[record d'] | e]; [ | exact H ].
  destruct H as [entered H]. exists entered. split; [ exact H | ].
  intros id Hid. pose proof (decodeNext_enters _ _ _ _ _ (H ∅) Hid) as Hdom.
  cbn [withRecordMap recordMap] in Hdom. rewrite (right_id_L ∅ (∪)) in Hdom.
  apply elem_of_dom in Hdom as [ref Href]. exists ref. split; [ exact Href | ].
  intros table. by apply lookup_union_Some_l.
Qed.

Lemma decode_duplicate_objectId_witness :
  (exists entered : gmap Z nat,
     forall table,
       decodeNext 1 (withRecordMap table (decoderAt [] [6; 1; 0; 0; 0; 1; 98] [] ∅ ∅ ∅))
       = Ok (BinaryObjectStringRecord 1 "b",
             withRecordMap (entered ∪ table)
               (decoderAt [6; 1; 0; 0; 0; 1; 98] [] [BinaryObjectStringRecord 1 "b"]
                  {[ 1 := 0%nat ]} ∅ ∅)))
  /\ ((- 2 ^ 31 <= 1 < 2 ^ 31)
      /\ isAsciiString "a" = true /\ isAsciiString "b" = true
      /\ decode 1
           (headerBytes 1
            ++ [RecordType.BinaryObjectString] ++ leBytes 4 1 ++ stringBytes "a"
            ++ [RecordType.BinaryObjectString] ++ leBytes 4 1 ++ stringBytes "b"
            ++ [RecordType.MessageEnd])
         = Ok (BinaryObjectStringRecord 1 "b")).
Proof.
  split.
  - pose proof (proj1 decode_duplicate_objectId 1%nat
                  (decoderAt [] [6; 1; 0; 0; 0; 1; 98] [] ∅ ∅ ∅)) as H.
    assert (E : decodeNext 1 (decoderAt [] [6; 1; 0; 0; 0; 1; 98] [] ∅ ∅ ∅)
                = Ok (BinaryObjectStringRecord 1 "b",
                      decoderAt [6; 1; 0; 0; 0; 1; 98] [] [BinaryObjectStringRecord 1 "b"]
                        {[ 1 := 0%nat ]} ∅ ∅))
      by (vm_compute; reflexivity).
    rewrite E in H. destruct H as (entered & H & _). exists entered. exact H.
  - split; [ lia | ]. split; [ reflexivity | ]. split; [ reflexivity | ].
    apply (proj2 decode_duplicate_objectId 0%nat 1 "a" "b");
      [ lia | reflexivity | simpl; lia | reflexivity | simpl; lia ].
Defined.

(** ** Arrays read from tokens *)

Lemma tokenOk_TString id text :
  tokenOk (TString id text) = true ->
  - 2 ^ 31 <= id < 2 ^ 31 /\ isPlainString text = true.
Proof. cbn [tokenOk]. rewrite !andb_true_iff, Z.leb_le, Z.ltb_lt. tauto. Qed.

Lemma tokenOk_TRun count : tokenOk (TRun count) = true -> - 2 ^ 31 <= count < 2 ^ 31.
Proof. cbn [tokenOk]. rewrite !andb_true_iff, Z.leb_le, Z.ltb_lt. tauto. Qed.

Lemma readObjectValue_records decodeNext binaryType additionalInfo :
  readsRecords binaryType additionalInfo = true ->
  readObjectValue decodeNext (Some binaryType) (Some additionalInfo)
  = (record <- decodeNext ;; ret (VRecord record)).
Proof.
  unfold readsRecords, BinaryType.Primitive.
  destruct binaryType as [ | p | p ], additionalInfo; cbn; try discriminate; reflexivity.
Qed.

Lemma decodeNext_ArraySingleString fuel done rest o rm lm mm :
  decodeNext (S fuel) (decoderAt done (17 :: rest) o rm lm mm)
  = decodeArraySingleString (decodeNext fuel) fuel (decoderAt (done ++ [17]) rest o rm lm mm).
Proof. rewrite decodeNext_lead. reflexivity. Qed.

Lemma decodeNext_BinaryArray fuel done rest o rm lm mm :
  decodeNext (S fuel) (decoderAt done (7 :: rest) o rm lm mm)
  = decodeBinaryArray (decodeNext fuel) fuel (decoderAt (done ++ [7]) rest o rm lm mm).
Proof. rewrite decodeNext_lead. reflexivity. Qed.

Section TokenLoop.
Variable fuel : nat.
Variables (count binaryType : Z) (additionalInfo : AdditionalTypeInfo).
Hypothesis records : readsRecords binaryType additionalInfo = true.

Local Abbreviation loop :=
  (readAllElements_loop (decodeNext (S fuel))).

(** One round of the loop of [readAllElements] on a string record. *)
Lemma readAllElements_loop_string rounds i elements done id text rest o rm lm mm :
  i < count -> tokenOk (TString id text) = true ->
  loop (S rounds) count binaryType additionalInfo i elements
    (decoderAt done (tokenBytes (TString id text) ++ rest) o rm lm mm)
  = loop rounds count binaryType additionalInfo (i + 1)
      (elements ++ [VRecord (BinaryObjectStringRecord id text)])
      (decoderAt (done ++ tokenBytes (TString id text)) rest
         (o ++ [BinaryObjectStringRecord id text]) (<[id := Datatypes.length o]> rm) lm mm).
Proof.
  intros Hi Hok. apply tokenOk_TString in Hok as (Hid & Htext).
  apply isPlainString_spec in Htext as (Hwf & Hbom & Hlen).
  cbn [readAllElements_loop tokenBytes]. apply Z.ltb_lt in Hi. rewrite Hi.
  rewrite readObjectValue_records by exact records.
  unfold RecordType.BinaryObjectString. rewrite <- !app_assoc. cbn [app].
  unfold bind at 1. unfold bind at 1. rewrite decodeNext_BinaryObjectString.
  rewrite (decodeBinaryObjectString_utf8 _ _ _ _ o rm lm mm Hid Hwf Hbom Hlen).
  unfold ret. rewrite <- !app_assoc. reflexivity.
Qed.

Lemma readAllElements_loop_null rounds i elements done rest o rm lm mm :
  i < count ->
  loop (S rounds) count binaryType additionalInfo i elements
    (decoderAt done (tokenBytes TNull ++ rest) o rm lm mm)
  = loop rounds count binaryType additionalInfo (i + 1) (elements ++ [VNull])
      (decoderAt (done ++ tokenBytes TNull) rest o rm lm mm).
Proof.
  intros Hi. cbn [readAllElements_loop tokenBytes]. apply Z.ltb_lt in Hi. rewrite Hi.
  rewrite readObjectValue_records by exact records.
  unfold RecordType.ObjectNull. cbn [app].
  unfold bind at 1. unfold bind at 1. rewrite decodeNext_ObjectNull. reflexivity.
Qed.

(** One round on an ObjectNullMultiple256 record, wherever the loop
    stands: [count] nulls are pushed and the record is dropped. *)
Lemma readAllElements_loop_run256 rounds i elements done nullCount rest o rm lm mm :
  i < count ->
  loop (S rounds) count binaryType additionalInfo i elements
    (decoderAt done (tokenBytes (TRun256 nullCount) ++ rest) o rm lm mm)
  = loop rounds count binaryType additionalInfo (i + nullCount)
      (elements ++ replicate (Z.to_nat nullCount) VNull)
      (decoderAt (done ++ tokenBytes (TRun256 nullCount)) rest o rm lm mm).
Proof.
  intros Hi. cbn [readAllElements_loop tokenBytes]. apply Z.ltb_lt in Hi. rewrite Hi.
  rewrite readObjectValue_records by exact records.
  unfold RecordType.ObjectNullMultiple256. cbn [app].
  unfold bind at 1. unfold bind at 1. rewrite decodeNext_ObjectNullMultiple256.
  rewrite decodeObjectNullMultiple256_decoderAt. unfold ret.
  rewrite <- !app_assoc. reflexivity.
Qed.

Lemma readAllElements_loop_run rounds i elements done nullCount rest o rm lm mm :
  i < count -> tokenOk (TRun nullCount) = true ->
  loop (S rounds) count binaryType additionalInfo i elements
    (decoderAt done (tokenBytes (TRun nullCount) ++ rest) o rm lm mm)
  = loop rounds count binaryType additionalInfo (i + nullCount)
      (elements ++ replicate (Z.to_nat nullCount) VNull)
      (decoderAt (done ++ tokenBytes (TRun nullCount)) rest o rm lm mm).
Proof.
  intros Hi Hok. apply tokenOk_TRun in Hok.
  cbn [readAllElements_loop tokenBytes]. apply Z.ltb_lt in Hi. rewrite Hi.
  rewrite readObjectValue_records by exact records.
  unfold RecordType.ObjectNullMultiple. rewrite <- !app_assoc. cbn [app].
  unfold bind at 1. unfold bind at 1. rewrite decodeNext_ObjectNullMultiple.
  unfold decodeObjectNullMultiple.
  rewrite (bind_Ok _ _ _ _ _ (readInt32_decoderAt _ nullCount _ _ _ _ _ Hok)).
  unfold ret. rewrite <- !app_assoc. reflexivity.
Qed.

(** The loop over a whole element stream of tokens. *)
Lemma readAllElements_loop_tokens tokens :
  forall rounds i elements done rest o rm lm mm,
    (Datatypes.length tokens <= rounds)%nat ->
    forallb tokenOk tokens = true ->
    fills count i tokens = true ->
    exists o' rm',
      loop rounds count binaryType additionalInfo i elements
        (decoderAt done (concat (map tokenBytes tokens) ++ rest) o rm lm mm)
      = Ok (elements ++ concat (map tokenElements tokens),
            decoderAt (done ++ concat (map tokenBytes tokens)) rest o' rm' lm mm).
Proof.
  induction tokens as [ | t tokens IH ];
    intros rounds i elements done rest o rm lm mm Hrounds Hok Hfills.
  - exists o, rm. cbn [fills] in Hfills. apply Z.leb_le in Hfills.
    assert (Hdone : (i <? count) = false) by (apply Z.ltb_ge; lia).
    cbn [map concat app]. rewrite !app_nil_r.
    destruct rounds; cbn [readAllElements_loop]; rewrite Hdone; reflexivity.
  - cbn [fills forallb Datatypes.length] in Hfills, Hok, Hrounds.
    apply andb_true_iff in Hfills as [Hi Hfills]. apply Z.ltb_lt in Hi.
    apply andb_true_iff in Hok as [Ht Hok].
    destruct rounds as [ | rounds ]; [ lia | ].
    cbn [map concat]. rewrite <- (app_assoc (tokenBytes t)).
    assert (Hstep : exists o1 rm1,
              loop (S rounds) count binaryType additionalInfo i elements
                (decoderAt done (tokenBytes t ++ concat (map tokenBytes tokens) ++ rest)
                   o rm lm mm)
              = loop rounds count binaryType additionalInfo (i + tokenSlots t)
                  (elements ++ tokenElements t)
                  (decoderAt (done ++ tokenBytes t) (concat (map tokenBytes tokens) ++ rest)
                     o1 rm1 lm mm)).
    { destruct t as [ id text | | nullCount | nullCount ]; eexists _, _.
      - by apply readAllElements_loop_string.
      - by apply readAllElements_loop_null.
      - by apply readAllElements_loop_run256.
      - by apply readAllElements_loop_run. }
    destruct Hstep as (o1 & rm1 & ->).
    destruct (IH rounds (i + tokenSlots t) (elements ++ tokenElements t)
                (done ++ tokenBytes t) rest o1 rm1 lm mm ltac:(lia) Hok Hfills)
      as (o' & rm' & ->).
    exists o', rm'. rewrite <- !app_assoc. reflexivity.
Qed.
End TokenLoop.

Lemma getTotalLength_single length : getTotalLength [length] = length.
Proof. unfold getTotalLength. cbn [foldl]. lia. Qed.

(** One [decodeNext] reads an array from its header and its tokens, and
    enters it into the record table last. *)
Lemma decodeNext_tokens fuel kind id length tokens done rest o rm lm mm :
  - 2 ^ 31 <= id < 2 ^ 31 ->
  - 2 ^ 31 <= length < 2 ^ 31 ->
  forallb tokenOk tokens = true ->
  fills length 0 tokens = true ->
  exists o' rm',
    decodeNext (S (S (Datatypes.length tokens + fuel)))
      (decoderAt done
         (arrayHeaderBytes kind id length ++ concat (map tokenBytes tokens) ++ rest)
         o rm lm mm)
    = Ok (arrayRecord kind id length (concat (map tokenElements tokens)),
          decoderAt
            (done ++ arrayHeaderBytes kind id length ++ concat (map tokenBytes tokens)) rest
            (o' ++ [arrayRecord kind id length (concat (map tokenElements tokens))])
            (<[id := Datatypes.length o']> rm') lm mm).
Proof.
  intros Hid Hlength Hok Hfills.
  set (elements := concat (map tokenElements tokens)).
  set (bytes := concat (map tokenBytes tokens)).
  assert (Hregister : forall record done' o' rm',
            (ref <- new record ;; recordMap_set id ref ;;; deref ref)
              (decoderAt done' rest o' rm' lm mm)
            = Ok (record, decoderAt done' rest (o' ++ [record])
                            (<[id := Datatypes.length o']> rm') lm mm)).
  { intros record done' o' rm'. unfold bind, new, recordMap_set, modify, deref, decoderAt.
    cbn [reader objects recordMap libraryMap metadataMap].
    rewrite lookup_app_r, Nat.sub_diag by lia. reflexivity. }
  destruct kind; cbn [arrayHeaderBytes arrayRecord].
  - unfold RecordType.ArraySingleObject. rewrite <- !app_assoc. cbn [app].
    rewrite decodeNext_ArraySingleObject. unfold decodeArraySingleObject.
    rewrite (bind_Ok _ _ _ _ _ (readInt32_decoderAt _ id _ o rm lm mm Hid)).
    rewrite (bind_Ok _ _ _ _ _ (readInt32_decoderAt _ length _ o rm lm mm Hlength)).
    unfold readAllElements.
    destruct (readAllElements_loop_tokens (Datatypes.length tokens + fuel) length
                BinaryType.Object AtiNone eq_refl tokens
                (S (Datatypes.length tokens + fuel)) 0 []
                (((done ++ [16]) ++ leBytes 4 id) ++ leBytes 4 length) rest o rm lm mm
                ltac:(lia) Hok Hfills) as (o' & rm' & E).
    exists o', rm'. fold bytes in E. rewrite (bind_Ok _ _ _ _ _ E). cbn [app]. fold elements.
    rewrite Hregister. rewrite <- !app_assoc. reflexivity.
  - unfold RecordType.ArraySingleString. rewrite <- !app_assoc. cbn [app].
    rewrite decodeNext_ArraySingleString. unfold decodeArraySingleString.
    rewrite (bind_Ok _ _ _ _ _ (readInt32_decoderAt _ id _ o rm lm mm Hid)).
    rewrite (bind_Ok _ _ _ _ _ (readInt32_decoderAt _ length _ o rm lm mm Hlength)).
    unfold readAllElements.
    destruct (readAllElements_loop_tokens (Datatypes.length tokens + fuel) length
                BinaryType.String AtiNone eq_refl tokens
                (S (Datatypes.length tokens + fuel)) 0 []
                (((done ++ [17]) ++ leBytes 4 id) ++ leBytes 4 length) rest o rm lm mm
                ltac:(lia) Hok Hfills) as (o' & rm' & E).
    exists o', rm'. fold bytes in E. rewrite (bind_Ok _ _ _ _ _ E). cbn [app]. fold elements.
    rewrite Hregister. rewrite <- !app_assoc. reflexivity.
  - unfold RecordType.BinaryArray, BinaryArrayType.Single, BinaryType.Object.
    rewrite <- !app_assoc. cbn [app].
    rewrite decodeNext_BinaryArray. unfold decodeBinaryArray.
    rewrite (bind_Ok _ _ _ _ _ (readInt32_decoderAt _ id _ o rm lm mm Hid)).
    rewrite (bind_Ok _ _ _ _ _ (readByte_decoderAt _ 0 _ o rm lm mm)).
    rewrite (bind_Ok _ _ _ _ _ (readInt32_decoderAt _ 1 _ o rm lm mm ltac:(lia))).
    change (Z.to_nat 1) with 1%nat. cbn [times].
    rewrite (bind_Ok _ _ _ _ _
               (bind_Ok _ _ _ _ _ (readInt32_decoderAt _ length _ o rm lm mm Hlength))).
    unfold bind at 1. unfold ret at 1. unfold bind at 1. unfold ret at 1.
    cbn [Z.eqb orb BinaryArrayType.SingleOffset BinaryArrayType.JaggedOffset
         BinaryArrayType.RectangularOffset].
    unfold ret at 1. cbv beta iota.
    rewrite (bind_Ok _ _ _ _ _ (readByte_decoderAt _ 2 _ o rm lm mm)).
    unfold readAdditionalTypeInfo, BinaryType.Primitive, BinaryType.SystemClass,
      BinaryType.Class. cbn [Z.eqb Pos.eqb].
    unfold bind at 1. unfold ret at 1. rewrite getTotalLength_single.
    unfold readAllElements.
    destruct (readAllElements_loop_tokens (Datatypes.length tokens + fuel) length
                2 AtiNone eq_refl tokens
                (S (Datatypes.length tokens + fuel)) 0 []
                ((((((done ++ [7]) ++ leBytes 4 id) ++ [0]) ++ leBytes 4 1) ++ leBytes 4 length)
                 ++ [2]) rest o rm lm mm
                ltac:(lia) Hok Hfills) as (o' & rm' & E).
    exists o', rm'. fold bytes in E. rewrite (bind_Ok _ _ _ _ _ E). cbn [app]. fold elements.
    rewrite Hregister. rewrite <- !app_assoc. reflexivity.
Qed.

(** [decode] of the stream of a root array and its tokens. *)
Lemma decode_tokens fuel kind id length tokens :
  - 2 ^ 31 <= id < 2 ^ 31 ->
  - 2 ^ 31 <= length < 2 ^ 31 ->
  forallb tokenOk tokens = true ->
  fills length 0 tokens = true ->
  decode (S (S (Datatypes.length tokens + fuel))) (tokenStream kind id length tokens)
  = Ok (arrayRecord kind id length (concat (map tokenElements tokens))).
Proof.
  intros Hid Hlength Hok Hfills. unfold decode, tokenStream.
  rewrite decode_run_header by exact Hid. rewrite budget_unfold.
  destruct (decodeNext_tokens fuel kind id length tokens (headerBytes id)
              [RecordType.MessageEnd] [] ∅ ∅ ∅ Hid Hlength Hok Hfills) as (o' & rm' & E).
  erewrite bind_Ok; [ | ].
  2: { erewrite decode_loop_step; [ | exact E ].
       change (100000 <? 0 + 1) with false. cbv iota.
       replace (isMessageEnd (arrayRecord kind id length (concat (map tokenElements tokens))))
         with false by (by destruct kind).
       erewrite decode_loop_step; [ | apply decodeNext_MessageEnd ].
       reflexivity. }
  unfold bind, gets, getRecord, decoderAt. cbn [recordMap objects].
  rewrite lookup_insert_eq. cbn [mbind option_bind].
  rewrite lookup_app_r, Nat.sub_diag by lia. reflexivity.
Qed.

(** ** Arrays written back *)

Lemma forEach_app {S A} (body : A -> M S unit) l1 l2 s :
  forEach body (l1 ++ l2) s = (forEach body l1 ;;; forEach body l2) s.
Proof.
  revert s. induction l1 as [ | x l1 IH ]; intros s; cbn [app forEach]; [ reflexivity | ].
  unfold bind. destruct (body x s) as [[[] s1] | ]; [ | reflexivity ].
  rewrite IH. reflexivity.
Qed.

Lemma forEach_app_inv {S A} (body : A -> M S unit) l1 l2 s s' :
  forEach body (l1 ++ l2) s = Ok (tt, s') ->
  exists s1, forEach body l1 s = Ok (tt, s1) /\ forEach body l2 s1 = Ok (tt, s').
Proof.
  rewrite forEach_app. intros H. apply bind_inv in H as ([] & s1 & H1 & H2). eauto.
Qed.

Lemma toBuffer_nulls e n :
  toBuffer (mkWriter (chunks (writer e) ++ replicate n [RecordType.ObjectNull]))
  = toBuffer (writer e) ++ replicate n RecordType.ObjectNull.
Proof. unfold toBuffer. cbn [chunks]. by rewrite concat_app, concat_replicate_singleton. Qed.

Lemma tokenIds_cons_string id text tokens :
  tokenIds (TString id text :: tokens) = id :: tokenIds tokens.
Proof. reflexivity. Qed.

Section EncodeTokens.
Variable coerceWrite : Z -> ObjectValue -> result (list Z).

(** The elements of tokens, written: every string record in full, and
    one ObjectNull record for each null. *)
Lemma encode_token_elements tokens :
  forall e,
    forallb tokenOk tokens = true ->
    NoDup (tokenIds tokens) ->
    (forall id, id ∈ tokenIds tokens -> id ∉ writtenRecords e) ->
    exists e',
      forEach (writeObjectValue (encodeRecord coerceWrite))
        (concat (map tokenElements tokens)) e
      = Ok (tt, e')
      /\ toBuffer (writer e')
         = toBuffer (writer e) ++ concat (map tokenReencoded tokens).
Proof.
  induction tokens as [ | t tokens IH ]; intros e Hok Hnd Hfresh.
  - exists e. split; [ reflexivity | ]. cbn. by rewrite app_nil_r.
  - cbn [forallb] in Hok. apply andb_true_iff in Hok as [Ht Hok].
    cbn [map concat]. setoid_rewrite forEach_app.
    assert (Hstep : exists e1,
              forEach (writeObjectValue (encodeRecord coerceWrite)) (tokenElements t) e
              = Ok (tt, e1)
              /\ toBuffer (writer e1) = toBuffer (writer e) ++ tokenReencoded t
              /\ NoDup (tokenIds tokens)
              /\ (forall id, id ∈ tokenIds tokens -> id ∉ writtenRecords e1)).
    { destruct t as [ id text | | nullCount | nullCount ]; cbn [tokenElements tokenReencoded].
      - apply tokenOk_TString in Ht as (_ & Htext).
        apply isPlainString_spec in Htext as (_ & _ & Hlen).
        rewrite tokenIds_cons_string in Hnd, Hfresh.
        apply NoDup_cons in Hnd as [Hnew Hnd].
        destruct (encodeRecord_string coerceWrite id text e Hlen) as (e1 & E1 & B1 & W1);
          [ apply Hfresh; left | ].
        exists e1. cbn [forEach writeObjectValue]. unfold bind. rewrite E1.
        split; [ reflexivity | ]. split; [ exact B1 | ]. split; [ exact Hnd | ].
        intros id' Hid' Hin. apply W1 in Hin. apply elem_of_union in Hin as [ Hin | Hin ].
        + apply elem_of_singleton in Hin. by subst id'.
        + revert Hin. apply Hfresh. by right.
      - eexists. cbn [forEach writeObjectValue]. split; [ reflexivity | ].
        cbn [writer writtenRecords]. rewrite toBuffer_writeByte.
        split; [ reflexivity | ]. split; [ exact Hnd | exact Hfresh ].
      - eexists. rewrite forEach_writeObjectValue_nulls. split; [ reflexivity | ].
        cbn [writer writtenRecords]. rewrite toBuffer_nulls.
        split; [ reflexivity | ]. split; [ exact Hnd | exact Hfresh ].
      - eexists. rewrite forEach_writeObjectValue_nulls. split; [ reflexivity | ].
        cbn [writer writtenRecords]. rewrite toBuffer_nulls.
        split; [ reflexivity | ]. split; [ exact Hnd | exact Hfresh ]. }
    destruct Hstep as (e1 & E1 & B1 & Hnd1 & Hfresh1).
    destruct (IH e1 Hok Hnd1 Hfresh1) as (e2 & E2 & B2).
    exists e2. unfold bind. rewrite E1. split; [ exact E2 | ].
    rewrite B2, B1, <- app_assoc. reflexivity.
Qed.

(** The stream of a root whose emission is a head that writes [hdr] and
    then the elements. *)
Lemma encode_head_elements (root : NrbfRecord) (head : Enc unit) elements hdr body id :
  objectId root = Some id ->
  (forall e, encodeRecord_dispatch coerceWrite (encodeRecord coerceWrite) root e
             = (head ;;; forEach (writeObjectValue (encodeRecord coerceWrite)) elements) e) ->
  writesBytes head hdr ->
  (forall e, writtenRecords e = ∅ ->
     exists e', forEach (writeObjectValue (encodeRecord coerceWrite)) elements e = Ok (tt, e')
                /\ toBuffer (writer e') = toBuffer (writer e) ++ body) ->
  encode coerceWrite root None
  = Ok (headerBytes id ++ hdr ++ body ++ [RecordType.MessageEnd]).
Proof.
  intros Hid Hdispatch Hhead Helements. unfold encode. rewrite Hid. cbn [default].
  cbv [bind onWriter modify].
  match goal with
  | |- context [encodeRecord coerceWrite root ?e1] =>
      rewrite (encodeRecord_first_visit coerceWrite root e1 eq_refl); set (start := e1)
  end.
  destruct (Hhead start) as (e1 & E1 & B1 & W1).
  destruct (Helements e1) as (e2 & E2 & B2); [ by rewrite W1 | ].
  unfold bind. rewrite Hdispatch. unfold bind. rewrite E1, E2.
  assert (Hmark : exists e3, markWritten root e2 = Ok (tt, e3) /\ writer e3 = writer e2).
  { unfold markWritten. rewrite Hid. destruct (id =? 0); eexists; split; reflexivity. }
  destruct Hmark as (e3 & -> & ->). cbn [writer].
  rewrite toBuffer_writeByte, B2, B1. subst start. cbn [writer].
  rewrite !toBuffer_writeInt32, toBuffer_writeByte. unfold headerBytes.
  cbn [newEncoder writer toBuffer chunks concat app]. rewrite <- !app_assoc.
  cbn [app]. rewrite <- ?app_assoc. reflexivity.
Qed.

Lemma writesBytes_byte b : writesBytes (onWriter (writeByte b)) [toUint8 b].
Proof. apply writesBytes_onWriter. intros w. apply toBuffer_writeByte. Qed.

(** What [encode] returns for the array that was read from tokens. *)
Lemma encode_tokens kind id length tokens :
  forallb tokenOk tokens = true ->
  NoDup (tokenIds tokens) ->
  encode coerceWrite (arrayRecord kind id length (concat (map tokenElements tokens))) None
  = Ok (tokenStreamReencoded kind id length tokens).
Proof.
  intros Hok Hnd. unfold tokenStreamReencoded.
  assert (Helements : forall e, writtenRecords e = ∅ ->
            exists e',
              forEach (writeObjectValue (encodeRecord coerceWrite))
                (concat (map tokenElements tokens)) e = Ok (tt, e')
              /\ toBuffer (writer e')
                 = toBuffer (writer e) ++ concat (map tokenReencoded tokens)).
  { intros e He. apply encode_token_elements; [ exact Hok | exact Hnd | ].
    intros i _. rewrite He. set_solver. }
  destruct kind; cbn [arrayRecord arrayHeaderBytes].
  - apply (encode_head_elements _
             (onWriter (writeByte RecordType.ArraySingleObject) ;;;
              onWriter (writeInt32 id) ;;; onWriter (writeInt32 length))
             (concat (map tokenElements tokens)));
      [ reflexivity | reflexivity | | exact Helements ].
    apply (writesBytes_bind _ _ [_]); [ apply writesBytes_byte | ].
    apply writesBytes_bind; apply writesBytes_writeInt32.
  - apply (encode_head_elements _
             (onWriter (writeByte RecordType.ArraySingleString) ;;;
              onWriter (writeInt32 id) ;;; onWriter (writeInt32 length))
             (concat (map tokenElements tokens)));
      [ reflexivity | reflexivity | | exact Helements ].
    apply (writesBytes_bind _ _ [_]); [ apply writesBytes_byte | ].
    apply writesBytes_bind; apply writesBytes_writeInt32.
  - apply (encode_head_elements _
             (onWriter (writeByte RecordType.BinaryArray) ;;;
              onWriter (writeInt32 id) ;;;
              onWriter (writeByte BinaryArrayType.Single) ;;;
              onWriter (writeInt32 1) ;;;
              onWriter (writeInt32 length) ;;;
              onWriter (writeByte BinaryType.Object))
             (concat (map tokenElements tokens)));
      [ reflexivity | reflexivity | | exact Helements ].
    apply (writesBytes_bind _ _ [_]); [ apply writesBytes_byte | ].
    apply writesBytes_bind; [ apply writesBytes_writeInt32 | ].
    apply (writesBytes_bind _ _ [_]); [ apply writesBytes_byte | ].
    apply writesBytes_bind; [ apply writesBytes_writeInt32 | ].
    apply writesBytes_bind; [ apply writesBytes_writeInt32 | ].
    apply writesBytes_byte.
Qed.

(** Nulls inside the elements of an array: when [encode] returns, the
    bytes that follow those of the elements before the nulls are one
    ObjectNull record for each null. *)
Lemma encode_nulls_inside (array : list ObjectValue -> NrbfRecord) (head : Enc unit)
    rootId before k later stream :
  (forall elements e,
     encodeRecord_dispatch coerceWrite (encodeRecord coerceWrite) (array elements) e
     = (head ;;; forEach (writeObjectValue (encodeRecord coerceWrite)) elements) e) ->
  (forall elements, objectId (array elements) = objectId (array [])) ->
  encode coerceWrite (array (before ++ replicate k VNull ++ later)) rootId = Ok stream ->
  exists written rest,
    stream = written ++ replicate k RecordType.ObjectNull ++ rest
    /\ encode coerceWrite (array before) rootId = Ok (written ++ [RecordType.MessageEnd]).
Proof.
  intros Hdispatch Hid H. unfold encode in H |- *.
  rewrite (Hid (before ++ replicate k VNull ++ later)) in H. rewrite (Hid before).
  revert H. cbv [bind onWriter modify].
  match goal with
  | |- context [encodeRecord coerceWrite (array before) ?e1] => set (start := e1)
  end.
  rewrite !(encodeRecord_first_visit coerceWrite _ start eq_refl).
  destruct ((encodeRecord_dispatch coerceWrite (encodeRecord coerceWrite)
               (array (before ++ replicate k VNull ++ later)) ;;;
             markWritten (array (before ++ replicate k VNull ++ later))) start)
    as [[[] e5] | ] eqn:E; [ | discriminate ].
  intros H. injection H as <-.
  apply bind_inv in E as ([] & e4 & E & Hmark). rewrite Hdispatch in E.
  apply bind_inv in E as ([] & e1 & Ehead & E).
  apply forEach_app_inv in E as (e2 & Ebefore & E).
  apply forEach_app_inv in E as (e3 & Enulls & Elater).
  rewrite forEach_writeObjectValue_nulls in Enulls. injection Enulls as <-.
  assert (Hlater : steady (forEach (writeObjectValue (encodeRecord coerceWrite)) later)).
  { apply steady_forEach. intros v _. apply steady_writeObjectValue.
    intros r _. apply steady_encodeRecord. }
  destruct (Hlater _ _ _ Elater) as ([out Hout] & _). cbn [writer] in Hout.
  rewrite toBuffer_nulls in Hout.
  assert (Hmarked : forall record e e', markWritten record e = Ok (tt, e') ->
            writer e' = writer e).
  { intros record e e'. unfold markWritten.
    destruct (objectId record) as [ i | ]; [ destruct (i =? 0) | ];
      intros H; injection H as <-; reflexivity. }
  exists (toBuffer (writer e2)), (out ++ [RecordType.MessageEnd]). split.
  - cbn [writer]. rewrite toBuffer_writeByte, (Hmarked _ _ _ Hmark), Hout.
    rewrite <- !app_assoc. reflexivity.
  - unfold bind. rewrite Hdispatch. unfold bind. rewrite Ehead, Ebefore.
    destruct (markWritten (array before) e2) as [[[] e6] | ] eqn:Emark.
    + cbn [writer]. rewrite toBuffer_writeByte, (Hmarked _ _ _ Emark). reflexivity.
    + exfalso. revert Emark. unfold markWritten.
      destruct (objectId (array before)) as [ i | ]; [ destruct (i =? 0) | ]; discriminate.
Qed.
End EncodeTokens.

(** Whatever the loop of [readAllElements] returns begins with the
    elements it had. *)
Lemma readAllElements_loop_extends decodeNext rounds :
  forall count binaryType additionalInfo i elements d result d',
    readAllElements_loop decodeNext rounds count binaryType additionalInfo i elements d
    = Ok (result, d') ->
    exists later, result = elements ++ later.
Proof.
  induction rounds as [ | rounds IH ];
    intros count binaryType additionalInfo i elements d result d' H;
    cbn [readAllElements_loop] in H; destruct (i <? count);
    try discriminate;
    try (injection H as <- <-; exists []; by rewrite app_nil_r).
  apply bind_inv in H as (val & d1 & _ & H).
  assert (Hmore : forall i' more,
            readAllElements_loop decodeNext rounds count binaryType additionalInfo i'
              (elements ++ more) d1 = Ok (result, d') ->
            exists later, result = elements ++ later).
  { intros i' more H'. destruct (IH _ _ _ _ _ _ _ _ H') as [later ->].
    exists (more ++ later). by rewrite app_assoc. }
  destruct val as [ | | | | | [ | | | | | | | | | | | | | ] ]; eauto.
Qed.

(** C1, as the code has it. A null run is expanded when it is read and
    is not written back as a run.  (1) Wherever the loop of
    [readAllElements] stands in an array that is not one of primitives,
    an ObjectNullMultiple256 record with count [k] makes it push [k]
    nulls: the list it returns holds, after the elements read before,
    [k] nulls.  (2) When [encode] returns for an ArraySingleObject, an
    ArraySingleString or a BinaryArray record whose elements hold [k]
    nulls in a row, the stream holds one ObjectNull record (byte 10) for
    each of them, right after the bytes that [encode] writes for the
    array cut before the nulls.  (3) A root array of one of the three
    kinds whose element stream is any sequence of string records,
    ObjectNull records and null runs of either kind that fills its slots
    decodes to the array of the strings and the nulls, and [encode] of
    that array returns the stream with every run replaced by that many
    ObjectNull records. *)
Theorem null_run_reencoded :
  (forall fuel rounds count binaryType additionalInfo i elements done k rest o rm lm mm
          result d',
     readsRecords binaryType additionalInfo = true -> i < count ->
     readAllElements_loop (decodeNext (S fuel)) (S rounds) count binaryType additionalInfo
       i elements
       (decoderAt done ([RecordType.ObjectNullMultiple256; k] ++ rest) o rm lm mm)
     = Ok (result, d') ->
     exists later, result = elements ++ replicate (Z.to_nat k) VNull ++ later)
  /\ (forall coerceWrite rootId id length binaryArrayTypeEnum rank lengths lowerBounds
             typeEnum additionalTypeInfo,
        Forall (fun array : list ObjectValue -> NrbfRecord =>
                  forall before k later stream,
                    encode coerceWrite (array (before ++ replicate k VNull ++ later)) rootId
                    = Ok stream ->
                    exists written rest,
                      stream = written ++ replicate k RecordType.ObjectNull ++ rest
                      /\ encode coerceWrite (array before) rootId
                         = Ok (written ++ [RecordType.MessageEnd]))
          [ArraySingleObjectRecord id length;
           ArraySingleStringRecord id length;
           BinaryArrayRecord id binaryArrayTypeEnum rank lengths lowerBounds typeEnum
             additionalTypeInfo])
  /\ (forall fuel coerceWrite kind id length tokens,
        - 2 ^ 31 <= id < 2 ^ 31 ->
        - 2 ^ 31 <= length < 2 ^ 31 ->
        forallb tokenOk tokens = true ->
        fills length 0 tokens = true ->
        NoDup (tokenIds tokens) ->
        decode (S (S (Datatypes.length tokens + fuel))) (tokenStream kind id length tokens)
        = Ok (arrayRecord kind id length (concat (map tokenElements tokens)))
        /\ encode coerceWrite
             (arrayRecord kind id length (concat (map tokenElements tokens))) None
           = Ok (tokenStreamReencoded kind id length tokens)).
Proof.
  split; [ | split ].
  - intros fuel rounds count binaryType additionalInfo i elements done k rest o rm lm mm
      result d' Hrecords Hi H.
    change [RecordType.ObjectNullMultiple256; k] with (tokenBytes (TRun256 k)) in H.
    rewrite (readAllElements_loop_run256 fuel count binaryType additionalInfo Hrecords)
      in H by exact Hi.
    apply readAllElements_loop_extends in H as [later ->].
    exists later. by rewrite <- app_assoc.
  - intros coerceWrite rootId id length binaryArrayTypeEnum rank lengths lowerBounds typeEnum
      additionalTypeInfo.
    repeat apply Forall_cons_2; [ | | | apply Forall_nil_2 ];
      intros before k later stream H.
    + apply (encode_nulls_inside coerceWrite (ArraySingleObjectRecord id length)
               (onWriter (writeByte RecordType.ArraySingleObject) ;;;
                onWriter (writeInt32 id) ;;; onWriter (writeInt32 length))
               rootId before k later stream); [ reflexivity | reflexivity | exact H ].
    + apply (encode_nulls_inside coerceWrite (ArraySingleStringRecord id length)
               (onWriter (writeByte RecordType.ArraySingleString) ;;;
                onWriter (writeInt32 id) ;;; onWriter (writeInt32 length))
               rootId before k later stream); [ reflexivity | reflexivity | exact H ].
    + apply (encode_nulls_inside coerceWrite
               (BinaryArrayRecord id binaryArrayTypeEnum rank lengths lowerBounds typeEnum
                  additionalTypeInfo)
               (onWriter (writeByte RecordType.BinaryArray) ;;;
                onWriter (writeInt32 id) ;;;
                onWriter (writeByte binaryArrayTypeEnum) ;;;
                onWriter (writeInt32 rank) ;;;
                forEach (fun length => onWriter (writeInt32 length)) lengths ;;;
                match lowerBounds with
                | Some bounds => forEach (fun bound => onWriter (writeInt32 bound)) bounds
                | None => ret tt
                end ;;;
                onWriter (writeByte typeEnum) ;;;
                writeAdditionalTypeInfo additionalTypeInfo)
               rootId before k later stream); [ | reflexivity | exact H ].
      intros elements e. cbn [encodeRecord_dispatch]. unfold encodeBinaryArrayRecord.
      unfold bind. repeat match goal with
                          | |- match ?m with _ => _ end = match ?m' with _ => _ end =>
                              destruct m as [[[] ?] | ]; try reflexivity
                          end.
  - intros fuel coerceWrite kind id length tokens Hid Hlength Hok Hfills Hnd.
    split; [ by apply decode_tokens | by apply encode_tokens ].
Qed.

Lemma null_run_reencoded_witness :
  forallb tokenOk sampleTokens = true
  /\ fills 8 0 sampleTokens = true
  /\ NoDup (tokenIds sampleTokens)
  /\ decode 7 (tokenStream ObjectArray 1 8 sampleTokens)
     = Ok (ArraySingleObjectRecord 1 8
             [VRecord (BinaryObjectStringRecord 7 sampleText); VNull; VNull; VNull;
              VNull; VNull; VNull; VRecord (BinaryObjectStringRecord 0 "z")])
  /\ encode noCoercion
       (ArraySingleObjectRecord 1 8
          [VRecord (BinaryObjectStringRecord 7 sampleText); VNull; VNull; VNull;
           VNull; VNull; VNull; VRecord (BinaryObjectStringRecord 0 "z")]) None
     = Ok (tokenStreamReencoded ObjectArray 1 8 sampleTokens).
Proof.
  assert (Hnd : NoDup (tokenIds sampleTokens))
    by (apply (bool_decide_unpack _); vm_compute; exact I).
  split; [ reflexivity | ]. split; [ reflexivity | ]. split; [ exact Hnd | ].
  apply (proj2 (proj2 null_run_reencoded) 0%nat noCoercion ObjectArray 1 8 sampleTokens);
    [ lia | lia | reflexivity | reflexivity | exact Hnd ].
Defined.

(** ** Array lengths, record by record *)

(** What [decode] leaves behind: a root and a store whose arrays all have
    the lengths that [arrayLengthOk] asks for. *)
Lemma decode_run_arraysOk fuel buffer root d :
  decode_run fuel (newDecoder buffer) = Ok (root, d) -> storeOk d /\ arraysOk root.
Proof.
  intros E.
  assert (Hrun : keeps (decode_run fuel) arraysOk).
  { unfold decode_run.
    eapply keeps_bind; [ apply keeps_onReader | intros headerByte _ ].
    destruct (negb _); [ apply keeps_throw | ].
    repeat (eapply keeps_bind; [ apply keeps_onReader | intros ? _ ]).
    cbv zeta.
    eapply keeps_bind; [ apply keeps_decode_loop | intros ? _ ].
    eapply keeps_bind; [ apply keeps_getRecord | intros found Hfound ].
    destruct found as [r | ]; [ apply keeps_ret; by apply Hfound | apply keeps_throw ]. }
  assert (Hempty : storeOk (newDecoder buffer)) by constructor.
  exact (Hrun _ _ _ Hempty E).
Qed.

Lemma storeOk_getRecord d id record : storeOk d -> getRecord id d = Some record -> arraysOk record.
Proof.
  intros Hd H. unfold getRecord in H.
  destruct (recordMap d !! id) as [ ref | ]; [ | discriminate ]. cbn in H.
  unfold storeOk in Hd. rewrite Forall_lookup in Hd. exact (Hd _ _ H).
Qed.

(** A fresh record, entered into the record table and returned. *)
Lemma register_inv record id (d : NrbfDecoder) result d' :
  (ref <- new record ;; recordMap_set id ref ;;; deref ref) d = Ok (result, d') ->
  result = record.
Proof.
  intros H. apply bind_inv in H as (ref & d1 & H1 & H). injection H1 as <- <-.
  apply bind_inv in H as ([] & d2 & H2 & H). injection H2 as <-.
  unfold deref in H. cbn [objects] in H.
  rewrite lookup_app_r, Nat.sub_diag in H by lia. cbn in H. by injection H as <- _.
Qed.

Ltac same_read H1 H2 :=
  rewrite H1 in H2; injection H2 as <- <-.

Section ExactLengths.
Variable decodeNext : Dec NrbfRecord.
Variable rounds : nat.

Lemma readAllElements_exact count binaryType additionalInfo d elements d' runs d'' :
  readAllElements decodeNext rounds count binaryType additionalInfo d = Ok (elements, d') ->
  nullRuns decodeNext rounds count binaryType additionalInfo d = Ok (runs, d'') ->
  0 <= count -> Forall runFits runs ->
  Z.of_nat (Datatypes.length elements) = count.
Proof.
  intros Hread Hruns Hcount Hfit.
  unfold readAllElements in Hread. unfold nullRuns in Hruns.
  rewrite (readAllElements_loop_exact _ _ _ _ _ _ _ _ _ _ _ _ Hread Hruns Hfit Hcount).
  simpl. lia.
Qed.

Lemma decodeArraySingleObject_exact d record d' :
  decodeArraySingleObject decodeNext rounds d = Ok (record, d') ->
  exists id length elementValues,
    record = ArraySingleObjectRecord id length elementValues
    /\ forall runs d'',
         nullRunsOfArraySingleObject decodeNext rounds d = Ok (runs, d'') ->
         0 <= length -> Forall runFits runs ->
         Z.of_nat (Datatypes.length elementValues) = length.
Proof.
  unfold decodeArraySingleObject, nullRunsOfArraySingleObject. intros H.
  apply bind_inv in H as (id & d1 & H1 & H). apply bind_inv in H as (length & d2 & H2 & H).
  apply bind_inv in H as (elements & d3 & H3 & H). apply register_inv in H.
  exists id, length, elements. split; [ exact H | ].
  intros runs d'' Hruns Hcount Hfit.
  apply bind_inv in Hruns as (id' & d1' & R1 & Hruns). same_read H1 R1.
  apply bind_inv in Hruns as (length' & d2' & R2 & Hruns). same_read H2 R2.
  exact (readAllElements_exact _ _ _ _ _ _ _ _ H3 Hruns Hcount Hfit).
Qed.

Lemma decodeArraySingleString_exact d record d' :
  decodeArraySingleString decodeNext rounds d = Ok (record, d') ->
  exists id length elementValues,
    record = ArraySingleStringRecord id length elementValues
    /\ forall runs d'',
         nullRunsOfArraySingleString decodeNext rounds d = Ok (runs, d'') ->
         0 <= length -> Forall runFits runs ->
         Z.of_nat (Datatypes.length elementValues) = length.
Proof.
  unfold decodeArraySingleString, nullRunsOfArraySingleString. intros H.
  apply bind_inv in H as (id & d1 & H1 & H). apply bind_inv in H as (length & d2 & H2 & H).
  apply bind_inv in H as (elements & d3 & H3 & H). apply register_inv in H.
  exists id, length, elements. split; [ exact H | ].
  intros runs d'' Hruns Hcount Hfit.
  apply bind_inv in Hruns as (id' & d1' & R1 & Hruns). same_read H1 R1.
  apply bind_inv in Hruns as (length' & d2' & R2 & Hruns). same_read H2 R2.
  exact (readAllElements_exact _ _ _ _ _ _ _ _ H3 Hruns Hcount Hfit).
Qed.

Lemma decodeBinaryArray_exact d record d' :
  decodeBinaryArray decodeNext rounds d = Ok (record, d') ->
  exists id binaryArrayTypeEnum rank lengths lowerBounds typeEnum additionalTypeInfo
         elementValues,
    record = BinaryArrayRecord id binaryArrayTypeEnum rank lengths lowerBounds typeEnum
               additionalTypeInfo elementValues
    /\ forall runs d'',
         nullRunsOfBinaryArray decodeNext rounds d = Ok (runs, d'') ->
         0 <= getTotalLength lengths -> Forall runFits runs ->
         Z.of_nat (Datatypes.length elementValues) = getTotalLength lengths.
Proof.
  unfold decodeBinaryArray, nullRunsOfBinaryArray. intros H.
  apply bind_inv in H as (id & d1 & H1 & H). apply bind_inv in H as (kind & d2 & H2 & H).
  apply bind_inv in H as (rank & d3 & H3 & H). apply bind_inv in H as (lengths & d4 & H4 & H).
  apply bind_inv in H as (bounds & d5 & H5 & H). apply bind_inv in H as (type & d6 & H6 & H).
  apply bind_inv in H as (info & d7 & H7 & H). cbv zeta in H.
  apply bind_inv in H as (elements & d8 & H8 & H). apply register_inv in H.
  exists id, kind, rank, lengths, bounds, type, info, elements. split; [ exact H | ].
  intros runs d'' Hruns Hcount Hfit.
  apply bind_inv in Hruns as (? & ? & R1 & Hruns). same_read H1 R1.
  apply bind_inv in Hruns as (? & ? & R2 & Hruns). same_read H2 R2.
  apply bind_inv in Hruns as (? & ? & R3 & Hruns). same_read H3 R3.
  apply bind_inv in Hruns as (? & ? & R4 & Hruns). same_read H4 R4.
  apply bind_inv in Hruns as (? & ? & R5 & Hruns). same_read H5 R5.
  apply bind_inv in Hruns as (? & ? & R6 & Hruns). same_read H6 R6.
  apply bind_inv in Hruns as (? & ? & R7 & Hruns). same_read H7 R7.
  exact (readAllElements_exact _ _ _ _ _ _ _ _ H8 Hruns Hcount Hfit).
Qed.
End ExactLengths.

(** C4, as the code has it.  (1) After a [decode] that returns, every
    array read with null-run expansion, in the graph of the root and in
    the graph of every record of the record table, holds at least as
    many elements as its lengths declare, and a primitive array holds
    exactly its declared length (none when it is negative).  (2) The
    record that [decodeArraySingleObject], [decodeArraySingleString] or
    [decodeBinaryArray] returns is an array of its kind, and it holds
    exactly the declared count of elements when that count is not
    negative and every null run met while its elements were read has a
    count between 0 and the number of slots still unfilled.  (3) A run
    that exceeds the unfilled slots is accepted: a root array of
    [length] slots whose element stream is one ObjectNullMultiple256
    record with a count [k] of at least [length] decodes to an array of
    [k] elements. *)
Theorem decoded_array_lengths :
  (forall fuel buffer root,
     decode fuel buffer = Ok root ->
     exists d,
       decode_run fuel (newDecoder buffer) = Ok (root, d)
       /\ (forall r, inGraph root r -> arrayLengthOk r)
       /\ (forall id record r,
             getRecord id d = Some record -> inGraph record r -> arrayLengthOk r))
  /\ (forall decodeNext rounds d record d',
        (decodeArraySingleObject decodeNext rounds d = Ok (record, d') ->
         exists id length elementValues,
           record = ArraySingleObjectRecord id length elementValues
           /\ forall runs d'',
                nullRunsOfArraySingleObject decodeNext rounds d = Ok (runs, d'') ->
                0 <= length -> Forall runFits runs ->
                Z.of_nat (Datatypes.length elementValues) = length)
        /\ (decodeArraySingleString decodeNext rounds d = Ok (record, d') ->
            exists id length elementValues,
              record = ArraySingleStringRecord id length elementValues
              /\ forall runs d'',
                   nullRunsOfArraySingleString decodeNext rounds d = Ok (runs, d'') ->
                   0 <= length -> Forall runFits runs ->
                   Z.of_nat (Datatypes.length elementValues) = length)
        /\ (decodeBinaryArray decodeNext rounds d = Ok (record, d') ->
            exists id binaryArrayTypeEnum rank lengths lowerBounds typeEnum additionalTypeInfo
                   elementValues,
              record = BinaryArrayRecord id binaryArrayTypeEnum rank lengths lowerBounds
                         typeEnum additionalTypeInfo elementValues
              /\ forall runs d'',
                   nullRunsOfBinaryArray decodeNext rounds d = Ok (runs, d'') ->
                   0 <= getTotalLength lengths -> Forall runFits runs ->
                   Z.of_nat (Datatypes.length elementValues) = getTotalLength lengths))
  /\ (forall fuel kind id length k,
        - 2 ^ 31 <= id < 2 ^ 31 -> 1 <= length <= k -> k <= 255 ->
        decode (S (S (S fuel))) (tokenStream kind id length [TRun256 k])
        = Ok (arrayRecord kind id length (replicate (Z.to_nat k) VNull))
        /\ Z.of_nat (Datatypes.length (replicate (Z.to_nat k) VNull)) = k).
Proof.
  split; [ | split ].
  - intros fuel buffer root H. unfold decode in H.
    destruct (decode_run fuel (newDecoder buffer)) as [[root' d] | ] eqn:E; [ | discriminate ].
    injection H as ->. exists d. split; [ reflexivity | ].
    destruct (decode_run_arraysOk _ _ _ _ E) as [Hstore Hroot].
    split.
    + intros r Hr. exact (arraysOk_inGraph _ _ Hroot Hr).
    + intros id record r Hrecord Hr.
      exact (arraysOk_inGraph _ _ (storeOk_getRecord _ _ _ Hstore Hrecord) Hr).
  - intros decodeNext rounds d record d'. split; [ | split ].
    + apply decodeArraySingleObject_exact.
    + apply decodeArraySingleString_exact.
    + apply decodeBinaryArray_exact.
  - intros fuel kind id length k Hid Hlength Hk.
    split; [ | rewrite length_replicate; lia ].
    pose proof (decode_tokens fuel kind id length [TRun256 k] Hid ltac:(lia)) as H.
    cbn [Datatypes.length Nat.add map concat tokenElements] in H. rewrite app_nil_r in H.
    apply H.
    + cbn [forallb tokenOk]. rewrite andb_true_r. apply andb_true_iff.
      split; [ apply Z.leb_le | apply Z.leb_le ]; lia.
    + cbn [fills tokenSlots]. apply andb_true_iff.
      split; [ apply Z.ltb_lt | apply Z.leb_le ]; lia.
Qed.

Lemma decoded_array_lengths_witness :
  (decode 3 (tokenStream ObjectArray 1 3 [TRun256 3])
   = Ok (ArraySingleObjectRecord 1 3 [VNull; VNull; VNull])
   /\ arrayLengthOk (ArraySingleObjectRecord 1 3 [VNull; VNull; VNull]))
  /\ (decodeArraySingleObject (decodeNext 1) 1
        (decoderAt [] [1; 0; 0; 0; 3; 0; 0; 0; 13; 3] [] ∅ ∅ ∅)
      = Ok (ArraySingleObjectRecord 1 3 [VNull; VNull; VNull],
            decoderAt [1; 0; 0; 0; 3; 0; 0; 0; 13; 3] []
              [ArraySingleObjectRecord 1 3 [VNull; VNull; VNull]] {[ 1 := 0%nat ]} ∅ ∅)
      /\ nullRunsOfArraySingleObject (decodeNext 1) 1
           (decoderAt [] [1; 0; 0; 0; 3; 0; 0; 0; 13; 3] [] ∅ ∅ ∅)
         = Ok ([(3, 3)], decoderAt [1; 0; 0; 0; 3; 0; 0; 0; 13; 3] [] [] ∅ ∅ ∅)
      /\ Forall runFits [(3, 3)]
      /\ Z.of_nat (Datatypes.length [VNull; VNull; VNull]) = 3)
  /\ (decode 3 (tokenStream BinaryArrayOfObjects 1 2 [TRun256 5])
      = Ok (arrayRecord BinaryArrayOfObjects 1 2 [VNull; VNull; VNull; VNull; VNull])).
Proof.
  assert (Hdecode : decode 3 (tokenStream ObjectArray 1 3 [TRun256 3])
                    = Ok (ArraySingleObjectRecord 1 3 [VNull; VNull; VNull]))
    by (vm_compute; reflexivity).
  assert (Hread : decodeArraySingleObject (decodeNext 1) 1
                    (decoderAt [] [1; 0; 0; 0; 3; 0; 0; 0; 13; 3] [] ∅ ∅ ∅)
                  = Ok (ArraySingleObjectRecord 1 3 [VNull; VNull; VNull],
                        decoderAt [1; 0; 0; 0; 3; 0; 0; 0; 13; 3] []
                          [ArraySingleObjectRecord 1 3 [VNull; VNull; VNull]]
                          {[ 1 := 0%nat ]} ∅ ∅))
    by (vm_compute; reflexivity).
  assert (Hruns : nullRunsOfArraySingleObject (decodeNext 1) 1
                    (decoderAt [] [1; 0; 0; 0; 3; 0; 0; 0; 13; 3] [] ∅ ∅ ∅)
                  = Ok ([(3, 3)], decoderAt [1; 0; 0; 0; 3; 0; 0; 0; 13; 3] [] [] ∅ ∅ ∅))
    by (vm_compute; reflexivity).
  assert (Hfit : Forall runFits [(3, 3)])
    by (constructor; [ unfold runFits; simpl; lia | constructor ]).
  split; [ | split ].
  - split; [ exact Hdecode | ].
    destruct (proj1 decoded_array_lengths 3%nat _ _ Hdecode) as (d & _ & Hgraph & _).
    apply Hgraph. apply inGraph_root.
  - split; [ exact Hread | ]. split; [ exact Hruns | ]. split; [ exact Hfit | ].
    destruct (proj1 (proj1 (proj2 decoded_array_lengths) _ _ _ _ _) Hread)
      as (id & length & elementValues & Hrecord & Hexact).
    injection Hrecord as <- <- <-. apply (Hexact _ _ Hruns); [ lia | exact Hfit ].
  - exact (proj1 (proj2 (proj2 decoded_array_lengths) 0%nat BinaryArrayOfObjects 1 2 5
                    ltac:(lia) ltac:(lia) ltac:(lia))).
Defined.

(** ** Records without a non-zero id are written the same every time *)


















Section EncodeUniform.
Variable coerceWrite : Z -> ObjectValue -> result (list Z).





End EncodeUniform.


